(* ===== verification/_CoqProject ===== *)
-Q . S2P
Prelude.v
Loops.v
SlotIter.v
RadixDefs.v
RadixInv.v
RadixLookup.v
RadixUpdate.v
RadixInsert.v
RadixRoom.v
RadixDelete.v
RadixIter.v
RadixClient.v
RadixFull.v
RadixProps.v
ItemDefs.v
ItemOps.v
ItemRuns.v
ItemClient.v
ItemProps.v
HotringDefs.v
Cyclic.v
HotringInv.v
HotringGet.v
HotringInsert.v
HotringDelete.v
HotringShift.v
HotringBlind.v
HotringClient.v
HotringMark.v
HotringSplit.v
HotringTyping.v
HotringRehash.v
HashItems.v
HotringRuns.v
HotringVerbose.v
HotringProps.v
HotringRehashProps.v
DList.v
DListInv.v
DListOps.v
HList.v
ChainDefs.v
ChainInv.v
ChainOps.v
ChainRuns.v
Mains.v
ListProps.v
MainProps.v
CounterFile.v
CounterProps.v
CharDev.v
WorkQueue.v
KernelMods.v
PacketHook.v
UserTools.v
Pmem.v
PmemLog.v
PmemProgs.v
PmemProps.v
PmemNotes.v
Rpmem.v
FsDefs.v
FsOps.v
FsMount.v
FsFull.v
FsModule.v
FsKernel.v
FsProps.v
PageFlags.v
DeviceProps.v
Fault32.v
Fault32Props.v
FaultDefs.v
FaultInv.v
FaultRetry.v
FaultSpecs.v
FaultKernel.v
FaultProps.v
