(* ===== verification/Prelude.v ===== *)
(** * jeopardy: a verification library

    The repository collects kernel and storage experiments in C.  This library
    models those that have logic of their own and proves what makes them
    correct; where the code does something else than it means to, a theorem
    says what it does.

    ** The program's parts and their files

    - The radix tree (radix_tree/radix-tree.c, radix-tree.h): a map from 64-bit
      indices to words, in nodes of 64 slots, with removal deferred to a grace
      period.  [RadixDefs] has the tagged words, the node heap, every operation
      and loop; a state [tstate] is the root, the heap of nodes, the list of
      pending callbacks, the number of allocations made and the verbosity.  [RadixInv] has the
      invariant (every live node has a base, its parent, offset and count are
      right, the root is NULL, an item or a node) and [represents], which
      relates a state to a finite map.  [RadixLookup], [RadixUpdate],
      [RadixInsert], [RadixDelete] and [RadixIter] prove the operations one by
      one, [RadixRoom] what memory they ask for, [RadixClient] turns them into
      operations on the map, [RadixFull] follows the counts through them (no
      node without entries), [RadixProps] states the properties.
    - The tree's drivers (radix_tree/test.c, benchmark.c): [ItemDefs] has the
      items, in a memory of their own beside the tree, and the benchmark;
      [ItemOps], [ItemRuns] and [ItemClient] prove its operations, runs and
      sequences, [ItemProps] states the properties.  [Loops] has the loops the
      three benchmarks share.
    - The hot ring (hotring/hotring.c, hotring.h, list.h): a hash table whose
      buckets are cyclic lists ordered by tag and key; a head word packs the
      address of the hot node with an access counter.  [HotringDefs] has the
      packed words, the operations, the hot-spot shift and the rehash; [Cyclic]
      the theory of cyclically sorted lists; [HotringInv], [HotringGet],
      [HotringInsert], [HotringDelete], [HotringShift] the invariant and the
      operations; [HotringClient] sequences of operations against a multiset;
      [HotringBlind] the runs that do not look at tags; [HotringMark] (the
      milestones and the new heads), [HotringSplit] (the two halves of a ring)
      and [HotringRehash] (the milestones' deletion and what follows) the
      rehash; [HotringTyping] the types of the words and the runs that keep
      them; [HashItems] the items of both hash tables' tests and [HotringRuns]
      those tests and benchmarks of the ring (hotring/test.c, benchmark.c);
      [HotringVerbose] which runs a verbosity leaves the same; [SlotIter] the slot iterator
      that hotring.h and hash.h share; [HotringProps] and [HotringRehashProps]
      the properties.
    - The linked lists (chaining_hash/list.h, radix_tree/list.c): [DList] has
      the doubly linked operations over any memory that has list heads (the
      class [ListMem]), with the copies of list.c in the module [ListC];
      [DListInv] and [DListOps] prove them against plain lists; [HList] does
      the same for the singly headed lists with pointers to pointers.
    - The chaining hash table (chaining_hash/hash.c, hash.h), a client of the
      lists: [ChainDefs] instantiates [ListMem] with the table's memory,
      [ChainInv] and [ChainOps] prove insertion, lookup and printing,
      [ChainRuns] has its test.c and benchmark.c.  [ListProps] states the
      properties of the lists and of the table.
    - The programs (main.c of the tree, the hot ring and the chaining table):
      [Mains] reads the options as [getopt] and [strtoul] of the C library do
      and calls the benchmarks, [MainProps] states the properties of the three
      programs.
    - The counter files (JIFS/file.c, JIFS/lwnfs/lwnfs.c): [CounterFile] and
      [CounterProps]; user memory is the class [Kernel].
    - The file systems JIFS and lwnfs (JIFS/super.c, namei.c, dir.c, lwnfs.c):
      [FsDefs] over the kernel's inodes and dentries (the classes [Vfs],
      [Icache], [Parser] and [Kzalloc], whose laws are what the kernel
      documents), [FsOps] (files, directories, roots), [FsMount] (options and
      filling a superblock), [FsFull] (the same with a kernel that refuses
      nothing), [FsModule] (the modules, mounting through the VFS,
      file handles, the release of inodes: the classes [Modules], [Mounter] and
      [Handles]), [FsKernel] (a concrete kernel), [FsProps].
    - Small modules and tools: [CharDev] (device/virtual_device), [WorkQueue]
      (kernel_modules/workqueue, with its workers as a step relation),
      [KernelMods] (kernel_modules/crypto and read_write), [PacketHook]
      (kernel_modules/packet_hook, over a network stack that is a parameter: the
      classes [NetOps] of the four functions it calls and [NetStack] of what
      they promise, with a small stack that keeps the promises),
      [UserTools] (device/open_dev and parallel_tcpip), [PageFlags]
      (tools/page_flags_interpreter.c); [DeviceProps] states the properties of
      the first two, [PacketHook] and [UserTools] their own.
    - The page-fault handler (crashdump/fault.c): [FaultDefs] over the class
      [Kern], with its own outcome type (a run returns, or halts for a reason),
      [FaultInv] (what each part leaves alone, by one tactic), [FaultRetry]
      (the semaphore, the retry, the accounting), [FaultSpecs] (prefetch,
      signals, page tables), [FaultKernel] (a concrete machine), [FaultProps].
      Its 32-bit half is apart: [Fault32], over the class [Paging], has the page
      tables as words in memory and the locks that are held, [Fault32Props] the
      properties.
    - The programs on persistent memory (pmdk_practice): [Pmem] is what they
      use of libpmemobj, the class [Pmemobj] of its operations and
      [PmemobjLaws] of its promises, over a view of a pool (its objects, the
      transaction, every image a crash would have left so far), with the rules
      to reason by; [PmemLog] has a library with an undo log that keeps the
      promises; [PmemProgs] the programs (tx_alloc, ntx_alloc, hello_world,
      lists), [PmemProps] and [PmemNotes] what crashes leave of their pools.
      [Rpmem] has librpmem/rpmem.c as the calls it makes.

    ** How the model corresponds to the code

    A C function is a definition of the same name in a state monad; its result
    is its return value, and a pointer argument it writes through is a second
    result.  A run of the monad [M] of this file ends with [Ok], with [Fault]
    where C gives the code no meaning (a load or store outside a live object,
    arithmetic that overflows a signed type, a double free), or with [NoFuel].
    Unsigned arithmetic is written with [wrap], conversions to signed types
    with [sint].  Library and kernel functions are class members, with laws
    only where the code relies on them; every class has a concrete instance on
    which the witnesses run.

    The verbosity, [test_verbose], is part of the states of the three programs
    (the class [Verbose]): the option v counts it up, and an overflow of the
    [int] is a [Fault].  Of the messages that [printv] guards, those that read
    memory are modelled, with their levels: the printing of the tables (from 2
    in the hot ring, from 3 in the chaining table) and the messages at 3 about a
    node that is freed, of which the tree's and the hot ring's read the node
    after it was given away.

    Loops that are not structural take fuel.  The radix tree's walks take
    [LEVELS], 12, one more than a 64-bit index has digits of 6 bits, and its
    for-each loop a bound computed from the tree; the loops over rings take the
    number of objects in memory; the retry of the page-fault handler takes 1,
    the loop that synchronises page tables 2048, the entries of the middle
    level of a 32-bit address space.
    That the fuel is enough is part of the theorems: they say that the
    operation returns, not only what it returns if it does.

    ** What the theorems show

    - Refinement: sequences of operations answer as an abstract structure does:
      the radix tree as a finite map, its items as a set of indices, the hot
      ring as a multiset of pairs with a hot key per bucket (whose deletion takes
      the bucket's pairs along), also after a rehash, the lists as plain
      lists, the chaining table as lists per bucket.
    - Functional correctness of each operation, on every branch, with errors
      and failed allocations; loops end and visit what they should; written
      counters and device buffers are read back; mounting makes the tree it
      should, the whole of it when the kernel refuses nothing; a shift moves the
      head of a ring to a node of least income; the rehash of the hot ring gives a table of twice the size with
      the same content, for keys below 2^31 of which none is a milestone.
    - Types: insertions, lookups, shifts and the first half of a rehash keep
      every pointer of the hot ring's memory pointing to an object of its kind.
    - Safety and invariants: nodes are freed once and never while reachable;
      the tree keeps no empty node; creating a file is all or nothing; readers
      lose no increment; the page-fault handler leaves its lock as it found it
      and shows a program nothing of the kernel's page tables; when all
      directories have been synchronised they agree with the kernel's.
    - Crash consistency: whatever library keeps the promises of libpmemobj and
      whenever it crashes, no rectangle is leaked nor pointed to in vain, the
      word that was written is read whole or not at all, and the notes and
      their list agree.
    - Runs to the end: the programs of the tree and of the chaining table exit
      with every check passed, the tree's with all its memory given back when
      the option v is given less than three times, the table's with none, for
      every verbosity, with the buckets printed from 3 on.  Of the hot ring's
      program it is said for one seed and one allocator, and for each verbosity,
      how it ends.  Unloading the work queue ends under every schedule of its
      workers; the packet hook gives up one reference for each packet, and keeps
      that to its device.
    - Behaviour that is not what the code means to do: deleting an absent
      index, growing over an item, the message about a node that was given to
      RCU, deleting the hot key, insertions after a rehash, the rehash of keys
      that are milestones, counters that wrap, lookups of the chaining table,
      mounting lwnfs without memory, releasing an inode of JIFS, writing more
      than the device holds, printing the notes of lists.c.  Each is a theorem
      about a concrete run or about all runs.

    An operation may fail for want of memory only where memory is wanting: such
    theorems name the number of objects up to which libc must serve requests,
    the size of the heap and two per operation.

    ** Not modelled

    The tag operations of the radix tree and the rest of the code under #if 0,
    all of JIFS/inode.c among it; radix_tree/radix-tree-ref.c, lib-radix-tree.h
    and ref-radix-tree, a copy of Linux's own tree and its tests, kept for
    reference and not built; the error numbers that nothing returns; the clock
    and the messages of the benchmarks; times and owners of inodes;
    producer_consumer and the socket server, which are C++. *)

From Stdlib Require Export ZArith Lia Sorted.
From stdpp Require Export base gmap list fin_maps sets option.

Open Scope Z_scope.

(** ** Outcomes of C code

    [Ok] is a normal return, [Fault] an access the C abstract machine gives no
    meaning to (a load or store outside a live object, a double free), and
    [NoFuel] the exhaustion of the bound a loop was run with. *)

Inductive res (A : Type) : Type :=
| Ok (a : A)
| Fault
| NoFuel.
Arguments Ok {A} a.
Arguments Fault {A}.
Arguments NoFuel {A}.

(** Stateful code over a state [S]: state passing with the three outcomes. *)
Definition M (S A : Type) : Type := S → res (A * S).

#[export] Instance M_ret {S} : MRet (M S) := λ A a s, Ok (a, s).
#[export] Instance M_bind {S} : MBind (M S) := λ A B k m s,
  match m s with
  | Ok (a, s') => k a s'
  | Fault => Fault
  | NoFuel => NoFuel
  end.

#[export] Instance M_fmap {S} : FMap (M S) := λ A B f m s,
  match m s with
  | Ok (a, s') => Ok (f a, s')
  | Fault => Fault
  | NoFuel => NoFuel
  end.

Definition fault {S A} : M S A := λ _, Fault.
Definition nofuel {S A} : M S A := λ _, NoFuel.
Definition gets {S A} (f : S → A) : M S A := λ s, Ok (f s, s).
Definition modify {S} (f : S → S) : M S unit := λ s, Ok ((), f s).

(** Total weakest precondition: the run returns normally and the
    postcondition holds of the result and the final state. *)
Definition wp {S A} (m : M S A) (Q : A → S → Prop) (s : S) : Prop :=
  match m s with
  | Ok (a, s') => Q a s'
  | _ => False
  end.

(** ** Machine integers *)

(** Reduction of an integer to [w] bits, as C does for unsigned types. *)
Definition wrap (w x : Z) : Z := x mod 2 ^ w.
Abbreviation u32 := (wrap 32).
Abbreviation u64 := (wrap 64).

(** The value a [w]-bit two's complement type gives the bits of [x]. *)
Definition sint (w x : Z) : Z :=
  let y := wrap w x in if y <? 2 ^ (w - 1) then y else y - 2 ^ w.
Abbreviation s32 := (sint 32).
Abbreviation s64 := (sint 64).

(** [~x] and [x << n] on [unsigned long]. *)
Definition not64 (x : Z) : Z := u64 (Z.lnot x).
Definition shl64 (x n : Z) : Z := u64 (Z.shiftl x n).

(** C truth value of a word. *)
Definition truthy (x : Z) : bool := negb (x =? 0).

(** ** Error numbers (radix_tree/error.h) *)

Definition ENOMEM : Z := 12.
Definition EEXIST : Z := 17.
Definition EINVAL : Z := 22.

(** ** The allocator

    [calloc] is libc's: nothing is assumed of which address it returns, or of
    when it fails.  Its first argument counts the calls made so far, so that
    two calls in the same heap may answer differently. *)
Class Calloc (V : Type) := {
  calloc : nat → gmap Z V → option Z;
  calloc_fresh : ∀ t h a, calloc t h = Some a → h !! a = None;
  calloc_aligned : ∀ t h a, calloc t h = Some a → a mod 16 = 0;
  calloc_range : ∀ t h a, calloc t h = Some a → 0 < a < 2 ^ 47
}.

(** libc has memory for [N] objects. *)
Definition serves {V} `{!Calloc V} (N : nat) : Prop :=
  ∀ t (h : gmap Z V), (size h < N)%nat → calloc t h ≠ None.

(** An allocator that hands out the addresses 16, 32, 48, ... in turn. *)
Definition bump_calloc {V} (t : nat) (h : gmap Z V) : option Z :=
  let a := 16 * (Z.of_nat t + 1) in
  match h !! a with
  | Some _ => None
  | None => if a <? 2 ^ 47 then Some a else None
  end.

(** ** The verbosity

    The [int] [test_verbose] of the three programs, which the option v counts up
    and the macro [printv] compares with the level of a message. *)
Class Verbose (S : Type) := {
  verbose : S → Z;
  set_verbose : Z → S → S;
  verbose_set v s : verbose (set_verbose v s) = v;
  set_verbose_set v w s : set_verbose v (set_verbose w s) = set_verbose v s;
  set_verbose_same s : set_verbose (verbose s) s = s
}.

(** Whether messages of a level are printed. *)
Definition printv {S} `{!Verbose S} (level : Z) : M S bool := λ s, Ok (level <=? verbose s, s).

(** [test_verbose++] *)
Definition inc_verbose {S} `{!Verbose S} : M S () := λ s,
  if verbose s + 1 <? 2 ^ 31 then Ok ((), set_verbose (verbose s + 1) s) else Fault.

(** ** Laws of the weakest precondition *)

Section wp_laws.
Context {S : Type}.

Lemma wp_ret {A} (a : A) (Q : A → S → Prop) s : wp (mret a) Q s ↔ Q a s.
Proof. done. Qed.

Lemma wp_bind {A B} (m : M S A) (k : A → M S B) (Q : B → S → Prop) s :
  wp (m ≫= k) Q s ↔ wp m (λ a s', wp (k a) Q s') s.
Proof. unfold wp, mbind, M_bind. by destruct (m s) as [[a s']| |]. Qed.

Lemma wp_mono {A} (m : M S A) (Q R : A → S → Prop) s :
  wp m Q s → (∀ a s', Q a s' → R a s') → wp m R s.
Proof. unfold wp. destruct (m s) as [[a s']| |]; eauto. Qed.

Lemma wp_fmap {A B} (f : A → B) (m : M S A) (Q : B → S → Prop) s :
  wp (f <$> m) Q s ↔ wp m (λ a, Q (f a)) s.
Proof. unfold wp, fmap, M_fmap. by destruct (m s) as [[a s']| |]. Qed.

Lemma wp_gets {A} (f : S → A) (Q : A → S → Prop) s : wp (gets f) Q s ↔ Q (f s) s.
Proof. done. Qed.

Lemma wp_modify (f : S → S) (Q : () → S → Prop) s : wp (modify f) Q s ↔ Q () (f s).
Proof. done. Qed.

Lemma wp_and {A} (m : M S A) (Q R : A → S → Prop) s :
  wp m Q s → wp m R s → wp m (λ a s', Q a s' ∧ R a s') s.
Proof. unfold wp. destruct (m s) as [[a s']| |]; eauto. Qed.

Lemma wp_printv `{!Verbose S} level (Q : bool → S → Prop) s : wp (printv level) Q s ↔ Q (level <=? verbose s) s.
Proof. done. Qed.

(** A run with a weakest precondition returns. *)
Lemma wp_returns {A} (m : M S A) (Q : A → S → Prop) s :
  wp m Q s ↔ ∃ a s', m s = Ok (a, s') ∧ Q a s'.
Proof.
  unfold wp. destruct (m s) as [[a s']| |]; split; try done; eauto.
  - intros (?&?&[= -> ->]&?); done.
  - by intros (?&?&?&?).
  - by intros (?&?&?&?).
Qed.
End wp_laws.

(** ** Runs that may fault for a known reason

    [wpf F]: the run returns and the postcondition holds, or it faults and the
    reason [F] holds; it does not run out of fuel. *)
Definition wpf {S A} (F : Prop) (m : M S A) (Q : A → S → Prop) (s : S) : Prop :=
  match m s with
  | Ok (a, s') => Q a s'
  | Fault => F
  | NoFuel => False
  end.

Section wpf_laws.
Context {S : Type} {F : Prop}.

Lemma wpf_of_wp {A} (m : M S A) (Q : A → S → Prop) s : wp m Q s → wpf F m Q s.
Proof. unfold wp, wpf. by destruct (m s) as [[a s']| |]. Qed.

Lemma wpf_bind {A B} (m : M S A) (k : A → M S B) (Q : B → S → Prop) s :
  wpf F (m ≫= k) Q s ↔ wpf F m (λ a s', wpf F (k a) Q s') s.
Proof. unfold wpf, mbind, M_bind. by destruct (m s) as [[a s']| |]. Qed.

Lemma wpf_bind_wp {A B} (m : M S A) (k : A → M S B) (Q : B → S → Prop) s :
  wp m (λ a s', wpf F (k a) Q s') s → wpf F (m ≫= k) Q s.
Proof. rewrite wpf_bind. apply wpf_of_wp. Qed.

Lemma wpf_mono {A} (m : M S A) (Q R : A → S → Prop) s :
  wpf F m Q s → (∀ a s', Q a s' → R a s') → wpf F m R s.
Proof. unfold wpf. destruct (m s) as [[a s']| |]; eauto. Qed.

Lemma wpf_ret {A} (a : A) (Q : A → S → Prop) s : wpf F (mret a) Q s ↔ Q a s.
Proof. done. Qed.
End wpf_laws.

Lemma wp_wpf {S A} (m : M S A) (Q : A → S → Prop) s : wp m Q s ↔ wpf False m Q s.
Proof. unfold wp, wpf. by destruct (m s) as [[a s']| |]. Qed.

(** ** Runs that stay within a graded relation

    [Within R k m]: a run of [m] that returns ends in a state [R k] of the one
    it began in.  The grade counts, for example, the objects allocated. *)
Class Graded {S} (R : nat → S → S → Prop) : Prop := {
  graded_refl k s : R k s s;
  graded_trans i j s1 s2 s3 : R i s1 s2 → R j s2 s3 → R (i + j)%nat s1 s3
}.

Class Within {S A} (R : nat → S → S → Prop) (k : nat) (m : M S A) : Prop :=
  within s x s' : m s = Ok (x, s') → R k s s'.

Section within.
Context {S : Type} {R : nat → S → S → Prop} `{!Graded R}.

#[export] Instance within_ret {A} k (x : A) : Within R k (mret x).
Proof. intros s y s' [= _ ->]. apply graded_refl. Qed.
#[export] Instance within_fault {A} k : Within R k (fault (A := A)).
Proof. done. Qed.
#[export] Instance within_nofuel {A} k : Within R k (nofuel (A := A)).
Proof. done. Qed.
#[export] Instance within_gets {A} k (f : S → A) : Within R k (gets f).
Proof. intros s y s' [= _ ->]. apply graded_refl. Qed.

Lemma within_plus {A B} i j (m : M S A) (f : A → M S B) :
  Within R i m → (∀ x, Within R j (f x)) → Within R (i + j) (m ≫= f).
Proof.
  intros Hm Hf s y s'. unfold mbind, M_bind. destruct (m s) as [[x s1]| |] eqn:E; [|done..].
  intros Hr. eapply graded_trans; [by eapply Hm|by eapply Hf].
Qed.

#[export] Instance within_bind {A B} k (m : M S A) (f : A → M S B) :
  Within R 0 m → (∀ x, Within R k (f x)) → Within R k (m ≫= f).
Proof. apply (within_plus 0). Qed.

Lemma within_last {A B} k (m : M S A) (f : A → M S B) :
  Within R k m → (∀ x, Within R 0 (f x)) → Within R k (m ≫= f).
Proof. intros Hm Hf. rewrite <- (Nat.add_0_r k). by apply within_plus. Qed.

Lemma wp_within {A} k (m : M S A) `{!Within R k m} Q s :
  wp m Q s → wp m (λ x s', Q x s' ∧ R k s s') s.
Proof. unfold wp. destruct (m s) as [[x s']| |] eqn:E; [|done..]. intros. split; [done|by eapply within]. Qed.

Lemma wpf_within {A} k F (m : M S A) `{!Within R k m} Q s :
  wpf F m Q s → wpf F m (λ x s', Q x s' ∧ R k s s') s.
Proof. unfold wpf. destruct (m s) as [[x s']| |] eqn:E; [|done..]. intros. split; [done|by eapply within]. Qed.
End within.

(** The state a run ends in; the one it began in when it does not return. *)
Definition exec {S A} (m : M S A) (s : S) : S :=
  match m s with Ok (_, s') => s' | _ => s end.

Lemma wp_exec {S A} (m : M S A) (Q : A → S → Prop) s a :
  wp m Q s → m s = Ok (a, exec m s) → Q a (exec m s).
Proof. unfold wp. intros H Hm. by rewrite Hm in H. Qed.

Lemma wpf_exec {S A} (F : Prop) (m : M S A) (Q : A → S → Prop) s a :
  wpf F m Q s → m s = Ok (a, exec m s) → Q a (exec m s).
Proof. unfold wpf. intros H Hm. by rewrite Hm in H. Qed.

Create Rewrite HintDb wp.
#[export] Hint Rewrite @wp_ret @wp_bind @wp_gets @wp_modify : wp.

(** Run the straight-line prefix of a program. *)
Ltac wp_simpl := repeat (rewrite ?wp_bind, ?wp_ret, ?wp_gets, ?wp_modify; cbn beta iota).

(** ** Truth values *)

Lemma truthy_true x : truthy x = true ↔ x ≠ 0.
Proof. unfold truthy. destruct (Z.eqb_spec x 0); simpl; split; congruence. Qed.
Lemma truthy_false x : truthy x = false ↔ x = 0.
Proof. unfold truthy. destruct (Z.eqb_spec x 0); simpl; split; congruence. Qed.
Lemma truthy_0 : truthy 0 = false.
Proof. done. Qed.
Lemma truthy_nz x : x ≠ 0 → truthy x = true.
Proof. by rewrite truthy_true. Qed.

(** Case analysis on the truth value of a word. *)
Ltac case_truthy x H :=
  destruct (truthy x) eqn:H; [apply truthy_true in H | apply truthy_false in H].

(** ** Arithmetic *)

(** [lia] that knows division and remainder. *)
Ltac zlia := Z.div_mod_to_equations; lia.

Lemma pow2_pos s : 0 ≤ s → 0 < 2 ^ s.
Proof. intros. apply Z.pow_pos_nonneg; lia. Qed.

Lemma wrap_small w x : 0 ≤ x < 2 ^ w → wrap w x = x.
Proof. apply Z.mod_small. Qed.

Lemma wrap_range w x : 0 ≤ w → 0 ≤ wrap w x < 2 ^ w.
Proof. intros. apply Z.mod_pos_bound. by apply pow2_pos. Qed.

(** Masking with the complement of [2^k - 1] clears the low bits. *)
Lemma land_not64_ones x k :
  0 ≤ x < 2 ^ 64 → 0 ≤ k ≤ 64 →
  Z.land x (not64 (2 ^ k - 1)) = x - x mod 2 ^ k.
Proof.
  intros Hx Hk.
  replace (2 ^ k - 1) with (Z.ones k) by (rewrite Z.ones_equiv; lia).
  unfold not64, wrap. rewrite <- Z.land_ones by lia.
  rewrite (Z.land_comm (Z.lnot _)), Z.land_assoc, Z.land_ones by lia.
  rewrite (Z.mod_small x) by lia.
  rewrite <- Z.ldiff_land, Z.ldiff_ones_r by lia.
  rewrite Z.shiftl_mul_pow2, Z.shiftr_div_pow2 by lia.
  pose proof (Z.div_mod x (2 ^ k)). pose proof (pow2_pos k). lia.
Qed.

Lemma lor_disjoint x k y :
  0 ≤ k → 0 ≤ y < 2 ^ k → x mod 2 ^ k = 0 → Z.lor x y = x + y.
Proof.
  intros Hk Hy Hx.
  assert (Z.land x y = 0) as Hl.
  { apply Z.bits_inj'. intros i Hi. rewrite Z.land_spec, Z.bits_0.
    destruct (decide (i < k)).
    - rewrite <- (Z.mod_pow2_bits_low x k i) by lia. by rewrite Hx, Z.bits_0.
    - rewrite <- (Z.mod_small y (2 ^ k)) by lia.
      rewrite Z.mod_pow2_bits_high by lia. apply andb_false_r. }
  pose proof (Z.add_lor_land x y). lia.
Qed.

(** ** Lists *)

(** The number of non-NULL words of an array. *)
Definition nonzero (l : list Z) : Z := Z.of_nat (length (filter (λ x, x ≠ 0) l)).

Lemma nonzero_nil : nonzero [] = 0.
Proof. done. Qed.

Lemma nonzero_cons x l : nonzero (x :: l) = Z.b2z (truthy x) + nonzero l.
Proof.
  unfold nonzero. rewrite filter_cons. case_decide as H.
  - rewrite truthy_nz by done. cbn [length Z.b2z]. lia.
  - assert (x = 0) as -> by lia. done.
Qed.

Lemma nonzero_nonneg l : 0 ≤ nonzero l.
Proof. unfold nonzero. lia. Qed.

Lemma nonzero_le l : nonzero l ≤ Z.of_nat (length l).
Proof.
  induction l as [|x l IH]; [done|]. rewrite nonzero_cons. simpl length.
  destruct (truthy x); simpl; lia.
Qed.

Lemma nonzero_replicate n : nonzero (replicate n 0) = 0.
Proof. induction n; [done|]. simpl replicate. rewrite nonzero_cons, IHn. done. Qed.

Lemma nonzero_insert l i x y :
  l !! i = Some y →
  nonzero (<[i := x]> l) = nonzero l - Z.b2z (truthy y) + Z.b2z (truthy x).
Proof.
  revert i. induction l as [|z l IH]; intros [|i] Hl; simpl in *; try done.
  - injection Hl as ->. rewrite !nonzero_cons. lia.
  - rewrite !nonzero_cons, (IH i) by done. lia.
Qed.

Lemma nonzero_zero l i x : nonzero l = 0 → l !! i = Some x → x = 0.
Proof.
  revert i. induction l as [|z l IH]; intros [|i] Hn Hl; simpl in *; try done;
    rewrite nonzero_cons in Hn; pose proof (nonzero_nonneg l).
  - injection Hl as ->. case_truthy x Ht; simpl in Hn; [lia|done].
  - eapply IH; [|done]. destruct (truthy z); simpl in Hn; lia.
Qed.

Lemma nonzero_pos l i x : l !! i = Some x → x ≠ 0 → 0 < nonzero l.
Proof.
  intros Hl Hx. pose proof (nonzero_nonneg l).
  destruct (decide (nonzero l = 0)) as [H0|]; [|lia].
  by rewrite (nonzero_zero l i x) in Hx.
Qed.

Lemma nonzero_witness l : nonzero l ≠ 0 → ∃ i x, l !! i = Some x ∧ x ≠ 0.
Proof.
  induction l as [|x l IH]; [done|]. rewrite nonzero_cons. intros Hn.
  destruct (decide (x = 0)) as [->|]; [|by exists 0%nat, x].
  rewrite truthy_0 in Hn. destruct (IH Hn) as (i & y & ? & ?). by exists (S i), y.
Qed.

(** With a single non-NULL word, every other one is NULL. *)
Lemma nonzero_one l i j x y :
  nonzero l = 1 → l !! i = Some x → x ≠ 0 → l !! j = Some y → i ≠ j → y = 0.
Proof.
  intros Hn Hi Hx Hj Hij.
  apply (nonzero_zero (<[i := 0]> l) j).
  - rewrite (nonzero_insert l i 0 x Hi), (truthy_nz x Hx), Hn. done.
  - by rewrite list_lookup_insert_ne.
Qed.

Lemma Forall_elem {A} (P : A → Prop) (l : list A) : Forall P l ↔ ∀ x, x ∈ l → P x.
Proof.
  rewrite List.Forall_forall. split; intros H x Hx; apply H; by apply list_elem_of_In.
Qed.

Lemma length_bind_const {A C} (f : A → list C) (l : list A) k :
  (∀ x, length (f x) = k) → length (l ≫= f) = (k * length l)%nat.
Proof.
  intros Hf. induction l as [|x l IH]; csimpl; [lia|]. rewrite length_app, Hf, IH. lia.
Qed.

Lemma size_list_to_set_le (l : list Z) : (size (list_to_set l : gset Z) ≤ length l)%nat.
Proof.
  induction l as [|x l IH]; cbn [list_to_set length]; [by rewrite size_empty|].
  rewrite size_union_alt, size_singleton.
  assert (size (list_to_set l ∖ {[x]} : gset Z) ≤ size (list_to_set l : gset Z))%nat; [|lia].
  apply subseteq_size. set_solver.
Qed.

(** ** The concrete allocator *)

Lemma bump_inv {V} t (h : gmap Z V) a :
  bump_calloc t h = Some a → h !! a = None ∧ a mod 16 = 0 ∧ 0 < a < 2 ^ 47.
Proof.
  unfold bump_calloc. destruct (h !! _) eqn:Hh; [done|].
  destruct (Z.ltb_spec (16 * (Z.of_nat t + 1)) (2 ^ 47)); [|done].
  intros [= <-]. split; [done|]. split; [|lia]. rewrite Z.mul_comm. apply Z.mod_mul. lia.
Qed.

Definition bump {V} : Calloc V := {|
  calloc := bump_calloc;
  calloc_fresh t h a H := proj1 (bump_inv t h a H);
  calloc_aligned t h a H := proj1 (proj2 (bump_inv t h a H));
  calloc_range t h a H := proj2 (proj2 (bump_inv t h a H))
|}.


(** The first free one of the addresses 16, 32, 48, ...: with room for 2^42
    objects it never refuses one. *)
Definition first_fit_calloc {V} (t : nat) (h : gmap Z V) : option Z :=
  if Z.of_nat (size h) <? 2 ^ 42
  then head (filter (λ a, h !! a = None) ((λ i, 16 * (Z.of_nat i + 1)) <$> seq 0 (S (size h))))
  else None.

Lemma first_fit_inv {V} t (h : gmap Z V) a :
  first_fit_calloc t h = Some a → h !! a = None ∧ a mod 16 = 0 ∧ 0 < a < 2 ^ 47.
Proof.
  unfold first_fit_calloc. destruct (Z.ltb_spec (Z.of_nat (size h)) (2 ^ 42)); [|done].
  intros Ha%head_Some_elem_of. apply list_elem_of_filter in Ha as [Hn Ha].
  apply list_elem_of_fmap in Ha as (i & -> & Hi%elem_of_seq). split; [done|].
  split; [rewrite Z.mul_comm; apply Z.mod_mul; lia|]. change (2 ^ 47) with (32 * 2 ^ 42). lia.
Qed.

Definition first_fit {V} : Calloc V := {|
  calloc := first_fit_calloc;
  calloc_fresh t h a H := proj1 (first_fit_inv t h a H);
  calloc_aligned t h a H := proj1 (proj2 (first_fit_inv t h a H));
  calloc_range t h a H := proj2 (proj2 (first_fit_inv t h a H))
|}.

Lemma first_fit_serves {V} t (h : gmap Z V) :
  Z.of_nat (size h) < 2 ^ 42 → first_fit_calloc t h ≠ None.
Proof.
  unfold first_fit_calloc. intros Hs. rewrite (proj2 (Z.ltb_lt _ _) Hs).
  set (l := (λ i, 16 * (Z.of_nat i + 1)) <$> seq 0 (S (size h))). intros Hnone%head_None.
  assert (NoDup l) as Hnd. { apply NoDup_fmap_2; [intros ???; lia|apply NoDup_seq]. }
  assert (list_to_set l ⊆ dom h) as Hsub.
  { intros a Ha%elem_of_list_to_set. apply elem_of_dom. destruct (h !! a) eqn:E; [done|].
    assert (a ∈ filter (λ a, h !! a = None) l) as Hin by (by apply list_elem_of_filter).
    rewrite Hnone in Hin. by apply elem_of_nil in Hin. }
  apply subseteq_size in Hsub. rewrite size_list_to_set, size_dom in Hsub by done.
  unfold l in Hsub. rewrite length_fmap, length_seq in Hsub. lia.
Qed.

Lemma first_fit_memory {V} N : Z.of_nat N ≤ 2 ^ 42 → serves (V := V) (Calloc0 := first_fit) N.
Proof. intros HN t h Hh. apply first_fit_serves. lia. Qed.

(** With memory for [N] objects, running out of it is no way to fault. *)
Lemma wpf_serves {V S A} `{!Calloc V} (N : nat) (m : M S A) (Q : A → S → Prop) s :
  serves (V := V) N →
  wpf (∃ t (h : gmap Z V), (size h < N)%nat ∧ calloc t h = None) m Q s → wp m Q s.
Proof.
  unfold wp, wpf. intros HN. destruct (m s) as [[a s']| |]; try done.
  intros (t & h & Hh & Hno). by apply (HN t h).
Qed.

Lemma wpf_first_fit {V S A} (N : nat) (m : M S A) (Q : A → S → Prop) s :
  wpf (∃ t (h : gmap Z V), (size h < N)%nat ∧ calloc (Calloc := first_fit) t h = None) m Q s →
  (Z.of_nat N <=? 2 ^ 42) = true → wp m Q s.
Proof. intros Hm HN%Z.leb_le. by eapply (wpf_serves (Calloc0 := first_fit) N), Hm; apply first_fit_memory. Qed.

(** The rings but one. *)
Lemma join_split {A} (R : list (list A)) i l :
  R !! i = Some l →
  ∃ rest, mjoin R ≡ₚ l ++ rest ∧ (∀ l', mjoin (<[i := l']> R) ≡ₚ l' ++ rest) ∧
    ∀ j lj a, j ≠ i → R !! j = Some lj → a ∈ lj → a ∈ rest.
Proof.
  intros Hi. pose proof (lookup_lt_Some _ _ _ Hi) as Hlt.
  exists (mjoin (take i R) ++ mjoin (drop (S i) R)). split; [|split].
  - rewrite <- (take_drop_middle R i l Hi) at 1. rewrite join_app. cbn.
    rewrite !app_assoc. by rewrite (Permutation_app_comm (mjoin (take i R)) l).
  - intros l'. rewrite insert_take_drop by done. rewrite join_app. cbn.
    rewrite !app_assoc. by rewrite (Permutation_app_comm (mjoin (take i R)) l').
  - intros j lj a Hji Hj Ha. apply elem_of_app. destruct (decide (j < i)%nat).
    + left. apply list_elem_of_join. exists lj. split; [done|].
      apply (list_elem_of_lookup_2 _ j). by rewrite lookup_take_lt.
    + right. apply list_elem_of_join. exists lj. split; [done|].
      apply (list_elem_of_lookup_2 _ (j - S i)). rewrite lookup_drop. rewrite <- Hj. f_equal. lia.
Qed.

Lemma join_replicate {A} n : mjoin (replicate n (@nil A)) = [].
Proof. induction n as [|n IH]; [done|exact IH]. Qed.
