(* ===== verification/Loops.v ===== *)
(** * The loops of the benchmarks

    The three benchmarks walk the multiples of a step and the non-zero entries
    of an array. *)
From S2P Require Import Prelude.

Section loops.
Context {S : Type}.

(** [for (index = 0; index < size; index += step)] on [unsigned long]. *)
Fixpoint for_up (fuel : nat) (idx sz step : Z) (body : Z → M S ()) : M S () :=
  match fuel with
  | O => nofuel
  | Datatypes.S fuel =>
      if idx <? sz then body idx;; for_up fuel (u64 (idx + step)) sz step body
      else mret ()
  end.

(** [for (i = 0; l[i]; i++)]: the array must end in a zero. *)
Fixpoint for_nonzero (l : list Z) (body : Z → M S ()) : M S () :=
  match l with
  | [] => fault
  | x :: l => if truthy x then body x;; for_nonzero l body else mret ()
  end.
End loops.

(** The number of turns of the first loop; a step of 0 makes it endless. *)
Definition turns (sz step : Z) : nat := Z.to_nat ((sz + step - 1) / step).

Lemma turns_lt sz step j : 0 < step → 0 ≤ sz → (j < turns sz step)%nat ↔ Z.of_nat j * step < sz.
Proof.
  intros Hs Hsz. unfold turns. set (q := (sz + step - 1) / step).
  assert (0 ≤ q) by (apply Z.div_pos; lia).
  pose proof (Z.mul_div_le (sz + step - 1) step Hs) as Hle. fold q in Hle.
  pose proof (Z.mul_succ_div_gt (sz + step - 1) step Hs) as Hgt. fold q in Hgt.
  split; intros; nia.
Qed.

Lemma turns_le sz step : 0 < step → 0 ≤ sz → Z.of_nat (turns sz step) ≤ sz.
Proof.
  intros Hs Hsz. destruct (turns sz step) as [|j] eqn:Ht; [lia|].
  assert (Z.of_nat j * step < sz) by (apply turns_lt; [done|done|lia]). nia.
Qed.

Section rules.
Context {S : Type} (F : Prop) (P : nat → S → Prop).

(** An invariant on the number of turns made; the loop ends after the last. *)
Lemma for_up_rulef sz step body s :
  0 < step → 0 ≤ sz → sz + step ≤ 2 ^ 64 → P 0%nat s →
  (∀ j s, (j < turns sz step)%nat → P j s → wpf F (body (Z.of_nat j * step)) (λ _ s', P (Datatypes.S j) s') s) →
  wpf F (for_up (Datatypes.S (turns sz step)) 0 sz step body) (λ _ s', P (turns sz step) s') s.
Proof.
  intros Hs Hsz Hmax HP Hbody.
  assert (∀ fuel j s, (j + fuel = Datatypes.S (turns sz step))%nat → (j ≤ turns sz step)%nat → P j s →
    wpf F (for_up fuel (Z.of_nat j * step) sz step body) (λ _ s', P (turns sz step) s') s) as Hgen.
  { induction fuel as [|fuel IH]; intros j s0 Hj Hle HPj; [lia|]. cbn [for_up].
    pose proof (turns_lt sz step j Hs Hsz) as Hlt. destruct (Z.ltb_spec (Z.of_nat j * step) sz) as [Hin|Hout].
    - rewrite wpf_bind. eapply wpf_mono; [apply Hbody; [by apply Hlt|done]|]. intros [] s1 HP1.
      rewrite wrap_small by lia.
      replace (Z.of_nat j * step + step) with (Z.of_nat (Datatypes.S j) * step) by lia.
      apply IH; [lia| |done]. assert (j < turns sz step)%nat by (by apply Hlt). lia.
    - rewrite wpf_ret. assert (¬ (j < turns sz step)%nat) by (rewrite Hlt; lia).
      by assert (j = turns sz step) as <- by lia. }
  apply (Hgen _ 0%nat); [lia|lia|done].
Qed.
End rules.

Lemma for_up_rule {S} (P : nat → S → Prop) sz step body s :
  0 < step → 0 ≤ sz → sz + step ≤ 2 ^ 64 → P 0%nat s →
  (∀ j s, (j < turns sz step)%nat → P j s → wp (body (Z.of_nat j * step)) (λ _ s', P (Datatypes.S j) s') s) →
  wp (for_up (Datatypes.S (turns sz step)) 0 sz step body) (λ _ s', P (turns sz step) s') s.
Proof.
  intros ???? Hbody. apply wp_wpf, (for_up_rulef False P); try done.
Qed.

(** The entries before the first zero. *)
Fixpoint nonzeros (l : list Z) : list Z :=
  match l with [] => [] | x :: l => if truthy x then x :: nonzeros l else [] end.

Lemma nonzeros_elem l x : x ∈ nonzeros l → x ∈ l ∧ x ≠ 0.
Proof.
  induction l as [|y l IH]; cbn [nonzeros]; [by intros ?%elem_of_nil|]. case_truthy y Hy; [|by intros ?%elem_of_nil].
  intros [->|Hx]%elem_of_cons; [by split; [left|]|]. apply IH in Hx as [? ?]. by split; [right|].
Qed.

(** An invariant on the entries done so far. *)
Lemma for_nonzero_rule {S} (P : list Z → S → Prop) l body s :
  0 ∈ l → (∀ pre x post s, nonzeros l = pre ++ x :: post → P pre s → wp (body x) (λ _ s', P (pre ++ [x]) s') s) →
  P [] s → wp (for_nonzero l body) (λ _ s', P (nonzeros l) s') s.
Proof.
  intros H0 Hbody HP.
  assert (∀ l' pre s, 0 ∈ l' → nonzeros l = pre ++ nonzeros l' → P pre s →
    wp (for_nonzero l' body) (λ _ s', P (nonzeros l) s') s) as Hgen; [|by apply (Hgen l [])].
  induction l' as [|x l' IH]; intros pre s' Hin Hl HPs; [by apply elem_of_nil in Hin|].
  cbn [for_nonzero nonzeros] in *. case_truthy x Hx.
  - rewrite wp_bind. eapply wp_mono; [by eapply Hbody|]. intros [] s1 HP1.
    apply elem_of_cons in Hin as [<-|Hin]; [done|]. apply (IH (pre ++ [x])); [done| |done]. by rewrite <- app_assoc.
  - by rewrite wp_ret, Hl, app_nil_r.
Qed.

Lemma for_nonzero_spec {S} (P : S → Prop) l body s :
  0 ∈ l → (∀ x s, x ∈ l → x ≠ 0 → P s → wp (body x) (λ _ s', P s') s) → P s →
  wp (for_nonzero l body) (λ _ s', P s') s.
Proof.
  intros H0 Hbody. apply (for_nonzero_rule (λ _, P)); [done|]. intros pre x post s1 Hl.
  assert (x ∈ nonzeros l) as [? ?]%nonzeros_elem by (rewrite Hl; set_solver). by apply Hbody.
Qed.
