(* ===== verification/SlotIter.v ===== *)
(** * The slot iterator of hotring/hotring.h and chaining_hash/hash.h

    Both headers have the same one.  Nothing calls it: the loops that use
    [hash_for_each_slot] are commented out. *)
From S2P Require Import Prelude.

Record hash_iter := HashIter { index : Z; next_index : Z }.

(** A pointer into a table's array of words [l] is a position in it, NULL is
    [None]; the result is [None] when a word that is not there is read. *)
Definition hash_iter_init (start : Z) : option nat * hash_iter := (None, HashIter 0 start).

Definition __hash_iter_add (it : hash_iter) (slots : Z) : Z := u64 (index it + slots).

(** The loop [while (--count > 0)] from [slot]. *)
Fixpoint next_from (count : nat) (l : list Z) (slot : nat) (it : hash_iter) : option (option nat * hash_iter) :=
  match count with
  | O | S O => Some (None, it)
  | S count =>
      let slot := S slot in
      let it := HashIter (__hash_iter_add it 1) (next_index it) in
      match l !! slot with
      | Some x => if truthy x then Some (Some slot, it) else next_from count l slot it
      | None => None
      end
  end.

(** [slot++] from NULL gives no pointer to a word. *)
Definition hash_next_slot (l : list Z) (slot : option nat) (it : hash_iter) : option (option nat * hash_iter) :=
  match slot with
  | Some slot => next_from 20 l slot it
  | None => None
  end.

(** ** What it finds *)

(** The first non-zero word of the next [n], the next [n] being zero, or the
    end of the array within them. *)
Definition next_post (n : nat) (l : list Z) (slot : nat) (it : hash_iter) (r : option (option nat * hash_iter)) : Prop :=
  let zeros hi := ∀ k, (slot < k < hi)%nat → l !! k = Some 0 in
  match r with
  | Some (Some j, it') =>
      (slot < j ≤ slot + n)%nat ∧ (∃ x, l !! j = Some x ∧ x ≠ 0) ∧ zeros j ∧
      u64 (index it') = u64 (index it + Z.of_nat (j - slot))
  | Some (None, it') => zeros (S (slot + n)) ∧ u64 (index it') = u64 (index it + Z.of_nat n)
  | None => ∃ j, (slot < j ≤ slot + n)%nat ∧ l !! j = None ∧ zeros j
  end.

Lemma next_from_spec n l slot it : next_post n l slot it (next_from (S n) l slot it).
Proof.
  revert slot it. induction n as [|n IH]; intros slot it.
  { split; [lia|]. f_equal. lia. }
  change (next_from (S (S n)) l slot it) with (match l !! S slot with
    | Some x => if truthy x then Some (Some (S slot), HashIter (__hash_iter_add it 1) (next_index it))
                else next_from (S n) l (S slot) (HashIter (__hash_iter_add it 1) (next_index it))
    | None => None end).
  destruct (l !! S slot) as [x|] eqn:Hx.
  2:{ exists (S slot). split; [lia|]. split; [done|lia]. }
  assert (u64 (__hash_iter_add it 1) = u64 (index it + 1)) as Hone.
  { unfold __hash_iter_add, wrap. by rewrite Z.mod_mod. }
  case_truthy x Hnz.
  { split; [lia|]. split; [by exists x|]. split; [lia|]. cbn. rewrite Hone. do 2 f_equal. lia. }
  subst x. specialize (IH (S slot) (HashIter (__hash_iter_add it 1) (next_index it))).
  assert (∀ i, u64 (__hash_iter_add it 1 + i) = u64 (index it + 1 + i)) as Hadd.
  { intros i. unfold __hash_iter_add, wrap. by rewrite Zplus_mod_idemp_l. }
  assert (∀ hi, (∀ k, (S slot < k < hi)%nat → l !! k = Some 0) → ∀ k, (slot < k < hi)%nat → l !! k = Some 0) as Hstep.
  { intros hi Hhi k Hk. destruct (decide (k = S slot)) as [->|]; [done|]. apply Hhi. lia. }
  revert IH. generalize (next_from (S n) l (S slot) (HashIter (__hash_iter_add it 1) (next_index it))).
  intros [[[j|] it']|] IH; cbn [next_post index] in *.
  - destruct IH as (Hj & Hjx & Hz & Hi). split; [lia|]. split; [done|]. split; [by apply Hstep|].
    rewrite Hi, Hadd. f_equal. lia.
  - destruct IH as [Hz Hi]. split; [apply Hstep; intros k Hk; apply Hz; lia|]. rewrite Hi, Hadd. f_equal. lia.
  - destruct IH as (j & Hj & Hn & Hz). exists j. split; [lia|]. split; [done|]. by apply Hstep.
Qed.

(** A step looks at the next 19 words, and goes past the end of a table with
    fewer left; the loop that begins at NULL has none. *)
Lemma hash_next_slot_spec l slot it : next_post 19 l slot it (hash_next_slot l (Some slot) it).
Proof. apply next_from_spec. Qed.

Lemma hash_first_slot_faults l start : let '(slot, it) := hash_iter_init start in hash_next_slot l slot it = None.
Proof. done. Qed.
