(* ===== verification/RadixDefs.v ===== *)
(** * The radix tree of radix_tree/radix-tree.c: data and operations *)
From S2P Require Import Prelude.

(** ** Constants (radix_tree/radix-tree.h) *)

Definition RADIX_TREE_ENTRY_MASK : Z := 3.
Definition RADIX_TREE_INTERNAL_NODE : Z := 2.
Definition BITS_PER_LONG : Z := 64.
Definition RADIX_TREE_MAP_SHIFT : Z := 6.
Definition RADIX_TREE_MAP_SIZE : Z := Z.shiftl 1 RADIX_TREE_MAP_SHIFT.
Definition RADIX_TREE_MAP_MASK : Z := RADIX_TREE_MAP_SIZE - 1.
Definition RADIX_TREE_MAX_TAGS : Z := 3.
Definition RADIX_TREE_TAG_LONGS : Z := (RADIX_TREE_MAP_SIZE + BITS_PER_LONG - 1) / BITS_PER_LONG.
Definition RADIX_TREE_ITER_TAG_MASK : Z := 15.
Definition RADIX_TREE_ITER_TAGGED : Z := 16.
Definition RADIX_TREE_ITER_CONTIG : Z := 32.

Definition radix_tree_is_internal_node (ptr : Z) : bool :=
  Z.land ptr RADIX_TREE_ENTRY_MASK =? RADIX_TREE_INTERNAL_NODE.

Definition xa_to_value (entry : Z) : Z := Z.shiftr entry 1.

Definition xa_is_value (entry : Z) : bool := truthy (Z.land entry 1).

(** ** Data

    A pointer is its address, a 64-bit word; an entry is such a word with the
    tag bits of the header comment in its two low bits. *)

Record radix_tree_node := Node {
  count : Z;
  shift : Z;
  offset : Z;
  nr_values : Z;
  parent : Z;
  slots : list Z;
  tags : list (list Z)
}.

Record radix_tree_root := Root { height : Z; rnode : Z }.

Record radix_tree_iter := Iter {
  index : Z;
  next_index : Z;
  itags : Z;
  inode : Z
}.

(** The memory one tree lives in: its root, the node objects by address, the
    nodes handed to [call_rcu] whose callback has not run, the number of calls
    made to [calloc], and the program's verbosity. *)
Record tstate := TState {
  root : radix_tree_root;
  heap : gmap Z radix_tree_node;
  rcu : list Z;
  ticks : nat;
  tverbose : Z
}.

#[export] Program Instance tstate_verbose : Verbose tstate := {|
  verbose := tverbose;
  set_verbose v st := TState (root st) (heap st) (rcu st) (ticks st) v
|}.
Solve Obligations with done.
Next Obligation. by destruct s. Qed.

(** A [void **]: the address of the root's pointer or of a node's slot. *)
Inductive slotref :=
| SlotRoot
| SlotNode (node : Z) (i : Z).

#[export] Instance slotref_eq_dec : EqDecision slotref.
Proof. solve_decision. Defined.

Abbreviation T := (M tstate).

Definition set_rnode (e : Z) (st : tstate) : tstate :=
  TState (Root (height (root st)) e) (heap st) (rcu st) (ticks st) (tverbose st).
Definition set_heap (h : gmap Z radix_tree_node) (st : tstate) : tstate :=
  TState (root st) h (rcu st) (ticks st) (tverbose st).

Definition with_count (c : Z) (n : radix_tree_node) : radix_tree_node :=
  Node c (shift n) (offset n) (nr_values n) (parent n) (slots n) (tags n).
Definition with_nr_values (v : Z) (n : radix_tree_node) : radix_tree_node :=
  Node (count n) (shift n) (offset n) v (parent n) (slots n) (tags n).
Definition with_parent (p : Z) (n : radix_tree_node) : radix_tree_node :=
  Node (count n) (shift n) (offset n) (nr_values n) p (slots n) (tags n).
Definition with_slots (l : list Z) (n : radix_tree_node) : radix_tree_node :=
  Node (count n) (shift n) (offset n) (nr_values n) (parent n) l (tags n).

(** ** Memory access *)

(** [*p] for a node pointer: a fault unless a node object lives there. *)
Definition load_node (a : Z) : T radix_tree_node := λ st,
  match heap st !! a with
  | Some n => Ok (n, st)
  | None => Fault
  end.

Definition store_node (a : Z) (f : radix_tree_node → radix_tree_node) : T () := λ st,
  match heap st !! a with
  | Some n => Ok ((), set_heap (<[a := f n]> (heap st)) st)
  | None => Fault
  end.

Definition get_rnode : T Z := gets (λ st, rnode (root st)).
Definition put_rnode (e : Z) : T () := modify (set_rnode e).

(** [node->slots[i]]: an index outside the array is a fault. *)
Definition node_slot (n : radix_tree_node) (i : Z) : T Z :=
  if (0 <=? i) then
    match slots n !! Z.to_nat i with
    | Some e => mret e
    | None => fault
    end
  else fault.

Definition store_slot (a i e : Z) : T () :=
  n ← load_node a;
  _ ← node_slot n i;
  store_node a (with_slots (<[Z.to_nat i := e]> (slots n))).

Definition read_slot (s : slotref) : T Z :=
  match s with
  | SlotRoot => get_rnode
  | SlotNode a i => n ← load_node a; node_slot n i
  end.

Definition write_slot (s : slotref) (e : Z) : T () :=
  match s with
  | SlotRoot => put_rnode e
  | SlotNode a i => store_slot a i e
  end.

(** ** Entries and indices *)

Definition entry_to_node (ptr : Z) : Z := Z.land ptr (not64 RADIX_TREE_INTERNAL_NODE).
Definition node_to_entry (ptr : Z) : Z := Z.lor ptr RADIX_TREE_INTERNAL_NODE.

Definition get_slot_offset (par : Z) (s : slotref) : Z :=
  if truthy par then match s with SlotNode _ i => i | SlotRoot => 0 end else 0.

(** The offset of [idx] in the node, and the entry found there. *)
Definition radix_tree_descend (par : radix_tree_node) (idx : Z) : T (Z * Z) :=
  let off := Z.land (Z.shiftr idx (shift par)) RADIX_TREE_MAP_MASK in
  e ← node_slot par off;
  mret (off, e).

Definition shift_maxindex (s : Z) : Z := u64 (shl64 RADIX_TREE_MAP_SIZE s - 1).

Definition node_maxindex (n : radix_tree_node) : Z := shift_maxindex (shift n).

Definition next_index_of (idx : Z) (n : radix_tree_node) (off : Z) : Z :=
  u64 (Z.land idx (not64 (node_maxindex n)) + shl64 off (shift n)).

Section ops.
Context `{!Calloc radix_tree_node}.

(** ** Allocation and release of nodes *)

Definition zero_slots : list Z := replicate 64 0.
Definition zero_tags : list (list Z) := replicate 3 [0].
#[global] Arguments zero_slots : simpl never.
#[global] Arguments zero_tags : simpl never.

Definition radix_tree_node_alloc (par shft off cnt nrv : Z) : T Z := λ st,
  match calloc (ticks st) (heap st) with
  | Some a =>
      let n := Node cnt shft off nrv par zero_slots zero_tags in
      Ok (a, TState (root st) (<[a := n]> (heap st)) (rcu st) (S (ticks st)) (tverbose st))
  | None => Ok (0, TState (root st) (heap st) (rcu st) (S (ticks st)) (tverbose st))
  end.

(** [ret] is whether libc had memory for the root itself; the address of its
    first node is used unchecked. *)
Definition radix_tree_root_alloc (ret : bool) : T bool :=
  node ← radix_tree_node_alloc 0 0 0 0 0;
  if ret then
    modify (λ st, TState (Root 1 (node_to_entry node)) (heap st) (rcu st) (ticks st) (tverbose st));;
    mret true
  else mret false.

(** liburcu's [call_rcu] links the [rcu_head] inside the node; the node stays
    readable to those who entered before, until its callback runs. *)
Definition call_rcu (a : Z) : T () :=
  _ ← load_node a;
  modify (λ st, TState (root st) (heap st) (a :: rcu st) (ticks st) (tverbose st)).

(** The message is printed after [call_rcu] and reads the node's fields.  The
    caller holds no read lock then, so the callback may have freed the node. *)
Definition radix_tree_node_free (a : Z) : T () :=
  call_rcu a;;
  b ← printv 3;
  if (b : bool) then fault else mret ().

(** The callback: clears the node's arrays, then returns it to libc. *)
Definition radix_tree_node_rcu_free (a : Z) : T () :=
  store_node a (λ n, Node (count n) (shift n) (offset n) (nr_values n) (parent n)
                          zero_slots zero_tags);;
  modify (λ st, set_heap (delete a (heap st)) st).

(** A grace period: every pending callback runs. *)
Fixpoint run_callbacks (l : list Z) : T () :=
  match l with
  | [] => mret ()
  | a :: l => radix_tree_node_rcu_free a;; run_callbacks l
  end.

Definition rcu_barrier : T () :=
  l ← gets rcu;
  run_callbacks l;;
  modify (λ st, TState (root st) (heap st) [] (ticks st) (tverbose st)).

(** ** Growing the tree *)

(** Returns ([*nodep], [*maxindex], shift). *)
Definition radix_tree_load_root : T (Z * Z * Z) :=
  node ← get_rnode;
  if radix_tree_is_internal_node node then
    n ← load_node (entry_to_node node);
    mret (node, node_maxindex n, u32 (shift n + RADIX_TREE_MAP_SHIFT))
  else mret (node, 0, 0).

(** [while (index > shift_maxindex(maxshift)) maxshift += 6] *)
Fixpoint extend_maxshift (fuel : nat) (idx maxshift : Z) : T Z :=
  match fuel with
  | O => nofuel
  | S fuel =>
      if shift_maxindex maxshift <? idx
      then extend_maxshift fuel idx (u32 (maxshift + RADIX_TREE_MAP_SHIFT))
      else mret maxshift
  end.

(** The [do ... while (shift <= maxshift)] that stacks nodes on the root. *)
Fixpoint extend_grow (fuel : nat) (entry shft maxshift : Z) : T Z :=
  match fuel with
  | O => nofuel
  | S fuel =>
      node ← radix_tree_node_alloc 0 shft 0 1 0;
      if truthy node then
        store_node (entry_to_node entry) (with_parent node);;
        store_slot node 0 entry;;
        put_rnode (node_to_entry node);;
        let shft' := u32 (shft + RADIX_TREE_MAP_SHIFT) in
        if shft' <=? maxshift
        then extend_grow fuel (node_to_entry node) shft' maxshift
        else mret (maxshift + RADIX_TREE_MAP_SHIFT)
      else mret (- ENOMEM)
  end.

(** Eleven levels of six bits cover the 64-bit index. *)
Definition LEVELS : nat := 12.

Definition radix_tree_extend (idx shft : Z) : T Z :=
  maxshift ← extend_maxshift LEVELS idx shft;
  entry ← get_rnode;
  if truthy entry then extend_grow LEVELS entry shft maxshift
  else mret (maxshift + RADIX_TREE_MAP_SHIFT).

(** [while (shift > 0)]: walk down, adding the missing nodes. *)
Fixpoint create_walk (fuel : nat) (shft child node : Z) (slot : slotref) (off idx : Z)
    : T (Z * Z * slotref) :=
  match fuel with
  | O => nofuel
  | S fuel =>
      if shft <=? 0 then mret (0, node, slot)
      else
        let shft := shft - RADIX_TREE_MAP_SHIFT in
        child' ← (if truthy child then mret (Some child)
                  else
                    c ← radix_tree_node_alloc node shft off 0 0;
                    if truthy c then
                      write_slot slot (node_to_entry c);;
                      (if truthy node
                       then store_node node (λ n, with_count (u32 (count n + 1)) n)
                       else mret ());;
                      mret (Some c)
                    else mret None);
        match child' with
        | None => mret (- ENOMEM, node, slot)
        | Some child =>
            let node := entry_to_node child in
            n ← load_node node;
            '(off, child) ← radix_tree_descend n idx;
            create_walk fuel shft child node (SlotNode node off) off idx
        end
  end.

(** [__radix_tree_create]: returns (error, node, slot). *)
Definition __radix_tree_create (idx : Z) : T (Z * Z * slotref) :=
  '(child, maxindex, shft) ← radix_tree_load_root;
  if maxindex <? idx then
    error ← radix_tree_extend idx shft;
    if error <? 0 then mret (error, 0, SlotRoot)
    else
      child ← get_rnode;
      create_walk LEVELS error child 0 SlotRoot 0 idx
  else create_walk LEVELS shft child 0 SlotRoot 0 idx.

Definition insert_entries (node : Z) (slot : slotref) (item : Z) : T Z :=
  old ← read_slot slot;
  if truthy old then mret (- EEXIST)
  else
    write_slot slot item;;
    (if truthy node then
       store_node node (λ n, with_count (u32 (count n + 1)) n);;
       if xa_is_value item
       then store_node node (λ n, with_nr_values (u32 (nr_values n + 1)) n)
       else mret ()
     else mret ());;
    mret 1.

Definition radix_tree_insert (idx item : Z) : T Z :=
  '(error, node, slot) ← __radix_tree_create idx;
  if truthy error then mret error
  else
    error ← insert_entries node slot item;
    if error <? 0 then mret error else mret 0.

(** ** Lookup *)

(** [while (radix_tree_is_internal_node(node))]: returns (entry, parent, slot). *)
Fixpoint lookup_walk (fuel : nat) (node par : Z) (slot : slotref) (idx : Z)
    : T (Z * Z * slotref) :=
  match fuel with
  | O => nofuel
  | S fuel =>
      if radix_tree_is_internal_node node then
        let par := entry_to_node node in
        n ← load_node par;
        '(off, node) ← radix_tree_descend n idx;
        let slot := SlotNode par off in
        if shift n =? 0 then mret (node, par, slot)
        else lookup_walk fuel node par slot idx
      else mret (node, par, slot)
  end.

(** [__radix_tree_lookup]: the entry and, when the index is within the tree's
    range, what is stored through [nodep] and [slotp]. *)
Definition __radix_tree_lookup (idx : Z) : T (Z * option (Z * slotref)) :=
  '(node, maxindex, _) ← radix_tree_load_root;
  if maxindex <? idx then mret (0, None)
  else
    '(node, par, slot) ← lookup_walk LEVELS node 0 SlotRoot idx;
    mret (node, Some (par, slot)).

Definition radix_tree_lookup_slot (idx : Z) : T (option slotref) :=
  '(entry, out) ← __radix_tree_lookup idx;
  if truthy entry then mret (snd <$> out) else mret None.

Definition radix_tree_lookup (idx : Z) : T Z :=
  '(entry, _) ← __radix_tree_lookup idx; mret entry.

Definition radix_tree_empty : T bool :=
  e ← get_rnode; mret (e =? 0).

(** ** Shrinking and deleting *)

Fixpoint radix_tree_shrink (fuel : nat) (shrunk : bool) : T bool :=
  match fuel with
  | O => nofuel
  | S fuel =>
      entry ← get_rnode;
      if negb (radix_tree_is_internal_node entry) then mret shrunk
      else
        let node := entry_to_node entry in
        n ← load_node node;
        if negb (count n =? 1) then mret shrunk
        else
          child ← node_slot n 0;
          if negb (truthy child) then mret shrunk
          else if negb (truthy (shift n)) then mret shrunk
          else
            (if radix_tree_is_internal_node child
             then store_node (entry_to_node child) (with_parent 0)
             else mret ());;
            put_rnode child;;
            store_node node (with_count 0);;
            radix_tree_node_free node;;
            radix_tree_shrink fuel true
  end.

Fixpoint delete_node (fuel : nat) (node : Z) (deleted : bool) : T bool :=
  match fuel with
  | O => nofuel
  | S fuel =>
      n ← load_node node;
      if truthy (count n) then
        entry ← get_rnode;
        if node_to_entry node =? entry
        then s ← radix_tree_shrink LEVELS false; mret (deleted || s)
        else mret deleted
      else
        let par := parent n in
        (if truthy par then
           store_slot par (offset n) 0;;
           store_node par (λ p, with_count (u32 (count p - 1)) p)
         else put_rnode 0);;
        radix_tree_node_free node;;
        if truthy par then delete_node fuel par true else mret true
  end.

(** ** Replacing *)

Definition replace_slot (slot : slotref) (item node cnt values : Z) : T () :=
  (if truthy node && (truthy cnt || truthy values) then
     store_node node (λ n, with_count (u32 (count n + cnt)) n);;
     store_node node (λ n, with_nr_values (u32 (nr_values n + values)) n)
   else mret ());;
  write_slot slot item.

Definition calculate_count (item old : Z) : Z :=
  Z.b2z (truthy item) - Z.b2z (truthy old).

Definition __radix_tree_replace (node : Z) (slot : slotref) (item : Z) : T () :=
  old ← read_slot slot;
  let values := Z.b2z (xa_is_value item) - Z.b2z (xa_is_value old) in
  let cnt := calculate_count item old in
  replace_slot slot item node cnt values;;
  if truthy node then _ ← delete_node LEVELS node false; mret () else mret ().

Definition radix_tree_replace_slot (slot : slotref) (item : Z) : T () :=
  __radix_tree_replace 0 slot item.

Definition __radix_tree_delete (node : Z) (slot : slotref) : T bool :=
  old ← read_slot slot;
  let values := if xa_is_value old then -1 else 0 in
  replace_slot slot 0 node (-1) values;;
  if truthy node then delete_node LEVELS node false else mret false.

Definition radix_tree_delete_item (idx item : Z) : T Z :=
  '(entry, out) ← __radix_tree_lookup idx;
  match out with
  | None => mret 0
  | Some (node, slot) =>
      if truthy item && negb (entry =? item) then mret 0
      else
        _ ← __radix_tree_delete node slot;
        mret entry
  end.

Definition radix_tree_delete (idx : Z) : T Z := radix_tree_delete_item idx 0.

(** ** Iteration *)

Definition radix_tree_iter_init (it : radix_tree_iter) (start : Z) : radix_tree_iter :=
  Iter 0 start (itags it) (inode it).

Definition radix_tree_iter_retry (it : radix_tree_iter) : radix_tree_iter :=
  Iter (index it) (index it) 0 (inode it).

Definition __radix_tree_iter_add (it : radix_tree_iter) (n : Z) : Z := u64 (index it + n).

Definition radix_tree_iter_resume (it : radix_tree_iter) : radix_tree_iter :=
  let i := __radix_tree_iter_add it 1 in Iter i i 0 (inode it).

Definition radix_tree_chunk_size (it : radix_tree_iter) : Z :=
  s64 (next_index it - index it).

(** [while (++offset < 64) if (node->slots[offset]) break;] *)
Fixpoint scan_slots (fuel : nat) (n : radix_tree_node) (off : Z) : T Z :=
  match fuel with
  | O => nofuel
  | S fuel =>
      let off := off + 1 in
      if off <? RADIX_TREE_MAP_SIZE then
        e ← node_slot n off;
        if truthy e then mret off else scan_slots fuel n off
      else mret off
  end.

(** How one descent of [radix_tree_next_chunk] ends: the iteration is over,
    the walk starts again at an index, or a slot is found. *)
Inductive chunk :=
| ChunkNone
| ChunkRestart (idx : Z)
| ChunkFound (node off idx : Z).

Fixpoint chunk_walk (fuel : nat) (child idx flags : Z) : T chunk :=
  match fuel with
  | O => nofuel
  | S fuel =>
      let node := entry_to_node child in
      n ← load_node node;
      '(off, child) ← radix_tree_descend n idx;
      if truthy child then
        if truthy (shift n) && radix_tree_is_internal_node child
        then chunk_walk fuel child idx flags
        else mret (ChunkFound node off idx)
      else if truthy (Z.land flags RADIX_TREE_ITER_CONTIG) then mret ChunkNone
      else
        off ← scan_slots 64 n off;
        let idx := Z.land idx (not64 (node_maxindex n)) in
        let idx := u64 (idx + shl64 off (shift n)) in
        if idx =? 0 then mret ChunkNone
        else if off =? RADIX_TREE_MAP_SIZE then mret (ChunkRestart idx)
        else
          child ← node_slot n off;
          if truthy child then
            if truthy (shift n) && radix_tree_is_internal_node child
            then chunk_walk fuel child idx flags
            else mret (ChunkFound node off idx)
          else mret (ChunkRestart idx)
  end.

(** The [restart] label: the walk from the root, and the iterator's update. *)
Fixpoint next_chunk_loop (fuel : nat) (it : radix_tree_iter) (idx flags : Z)
    : T (option slotref * radix_tree_iter) :=
  match fuel with
  | O => nofuel
  | S fuel =>
      '(child, maxindex, _) ← radix_tree_load_root;
      if maxindex <? idx then mret (None, it)
      else if negb (truthy child) then mret (None, it)
      else if negb (radix_tree_is_internal_node child) then
        mret (Some SlotRoot, Iter idx (u64 (maxindex + 1)) 1 0)
      else
        c ← chunk_walk LEVELS child idx flags;
        match c with
        | ChunkNone => mret (None, it)
        | ChunkRestart idx => next_chunk_loop fuel it idx flags
        | ChunkFound node off idx =>
            n ← load_node node;
            mret (Some (SlotNode node off),
                  Iter (Z.lor (Z.land idx (not64 (node_maxindex n))) off)
                       (u64 (Z.lor idx (node_maxindex n) + 1)) (itags it) node)
        end
  end.

(** One restart leaves at least one node of the tree behind. *)
Definition restart_fuel (st : tstate) : nat := S (size (heap st)).

Definition radix_tree_next_chunk (it : radix_tree_iter) (flags : Z)
    : T (option slotref * radix_tree_iter) :=
  if truthy (Z.land flags RADIX_TREE_ITER_TAGGED) then mret (None, it)
  else
    let idx := next_index it in
    if (idx =? 0) && truthy (index it) then mret (None, it)
    else
      fuel ← gets restart_fuel;
      next_chunk_loop fuel it idx flags.

Definition radix_tree_iter_lookup (it : radix_tree_iter) (idx : Z)
    : T (option slotref * radix_tree_iter) :=
  radix_tree_next_chunk (radix_tree_iter_init it idx) RADIX_TREE_ITER_CONTIG.

Definition radix_tree_iter_find (it : radix_tree_iter) (idx : Z)
    : T (option slotref * radix_tree_iter) :=
  radix_tree_next_chunk (radix_tree_iter_init it idx) 0.

Definition slot_succ (s : slotref) : slotref :=
  match s with
  | SlotRoot => SlotRoot
  | SlotNode a i => SlotNode a (i + 1)
  end.

(** [while (--count > 0)] of [radix_tree_next_slot]. *)
Fixpoint next_slot_loop (fuel : nat) (cnt : Z) (slot : slotref) (it : radix_tree_iter)
    (flags : Z) : T (option slotref * radix_tree_iter) :=
  match fuel with
  | O => nofuel
  | S fuel =>
      let cnt := cnt - 1 in
      if 0 <? cnt then
        match slot with
        | SlotRoot => fault
        | SlotNode _ _ =>
            let slot := slot_succ slot in
            let it := Iter (__radix_tree_iter_add it 1) (next_index it) (itags it) (inode it) in
            e ← read_slot slot;
            if truthy e then mret (Some slot, it)
            else if truthy (Z.land flags RADIX_TREE_ITER_CONTIG)
            then mret (None, Iter (index it) 0 (itags it) (inode it))
            else next_slot_loop fuel cnt slot it flags
        end
      else mret (None, it)
  end.

Definition radix_tree_next_slot (slot : slotref) (it : radix_tree_iter) (flags : Z)
    : T (option slotref * radix_tree_iter) :=
  if truthy (Z.land flags RADIX_TREE_ITER_TAGGED) then mret (Some slot, it)
  else next_slot_loop 65 (radix_tree_chunk_size it) slot it flags.

(** [radix_tree_for_each_slot (slot, root, &iter, start) body]. *)
Fixpoint for_each_loop {A} (fuel : nat) (body : slotref → radix_tree_iter → A → T A)
    (slot : option slotref) (it : radix_tree_iter) (acc : A) : T A :=
  match fuel with
  | O => nofuel
  | S fuel =>
      '(slot, it) ← (match slot with
                     | Some _ => mret (slot, it)
                     | None => radix_tree_next_chunk it 0
                     end);
      match slot with
      | None => mret acc
      | Some s =>
          acc ← body s it acc;
          '(slot, it) ← radix_tree_next_slot s it 0;
          for_each_loop fuel body slot it acc
      end
  end.

(** Every slot of every node is visited once, and the root's. *)
Definition for_each_fuel (st : tstate) : nat := (64 * size (heap st) + 2)%nat.

Definition radix_tree_for_each_slot {A} (body : slotref → radix_tree_iter → A → T A)
    (start : Z) (acc : A) : T A :=
  fuel ← gets for_each_fuel;
  for_each_loop fuel body None (radix_tree_iter_init (Iter 0 0 0 0) start) acc.

Definition radix_tree_iter_delete (it : radix_tree_iter) (slot : slotref)
    : T radix_tree_iter :=
  __radix_tree_delete (inode it) slot ≫= λ d : bool,
  mret (if d then Iter (next_index it) (next_index it) (itags it) (inode it) else it).

End ops.
