(* ===== verification/RadixInv.v ===== *)
(** * The radix tree: well-formedness and the index/entry relation *)
From S2P Require Import Prelude RadixDefs.

(** ** Tagged words *)

Definition aligned (a : Z) : Prop := a mod 16 = 0 ∧ 0 < a < 2 ^ 47.

Lemma node_to_entry_val a : aligned a → node_to_entry a = a + 2.
Proof.
  intros [Ha _]. unfold node_to_entry, RADIX_TREE_INTERNAL_NODE.
  apply (lor_disjoint a 2 2); [lia|lia|]. change (2 ^ 2) with 4. zlia.
Qed.

Lemma land_3 x : Z.land x 3 = x mod 4.
Proof. change 3 with (Z.ones 2). by rewrite Z.land_ones. Qed.

Lemma internal_node_to_entry a :
  aligned a → radix_tree_is_internal_node (node_to_entry a) = true.
Proof.
  intros Ha. rewrite node_to_entry_val by done. destruct Ha as [Ha _].
  unfold radix_tree_is_internal_node, RADIX_TREE_ENTRY_MASK, RADIX_TREE_INTERNAL_NODE.
  rewrite land_3. apply Z.eqb_eq. zlia.
Qed.

Lemma entry_to_node_entry a : aligned a → entry_to_node (node_to_entry a) = a.
Proof.
  intros [Ha Hr]. unfold entry_to_node, node_to_entry, RADIX_TREE_INTERNAL_NODE.
  apply Z.bits_inj'. intros i Hi. rewrite Z.land_spec, Z.lor_spec.
  assert (Z.testbit a 1 = false) as H1.
  { rewrite Z.testbit_false by lia. change (2 ^ 1) with 2. zlia. }
  destruct (decide (i = 1)) as [->|]; [by rewrite H1|].
  assert (Z.testbit 2 i = false) as ->.
  { destruct (decide (i = 0)) as [->|]; [done|]. apply Z.bits_above_log2; [lia|].
    change (Z.log2 2) with 1. lia. }
  rewrite orb_false_r. destruct (decide (i < 64)).
  - unfold not64, wrap. rewrite Z.mod_pow2_bits_low by lia. rewrite Z.lnot_spec by lia.
    assert (Z.testbit 2 i = false) as ->; [|apply andb_true_r].
    destruct (decide (i = 0)) as [->|]; [done|]. apply Z.bits_above_log2; [lia|].
    change (Z.log2 2) with 1. lia.
  - rewrite <- (Z.mod_small a (2 ^ 64)) by lia.
    by rewrite (Z.mod_pow2_bits_high a 64 i) by lia.
Qed.

(** Setting the tag bit on an address of eight-byte alignment, then clearing it. *)
Lemma entry_to_node_data e : aligned e → entry_to_node e = e.
Proof.
  intros [Ha Hr]. unfold entry_to_node, RADIX_TREE_INTERNAL_NODE.
  apply Z.bits_inj'. intros i Hi. rewrite Z.land_spec. destruct (decide (i < 64)).
  - unfold not64, wrap. rewrite Z.mod_pow2_bits_low by lia. rewrite Z.lnot_spec by lia.
    destruct (decide (i = 1)) as [->|].
    { assert (Z.testbit e 1 = false) as ->; [|done].
      rewrite Z.testbit_false by lia. change (2 ^ 1) with 2. zlia. }
    assert (Z.testbit 2 i = false) as ->; [|apply andb_true_r].
    destruct (decide (i = 0)) as [->|]; [done|]. apply Z.bits_above_log2; [lia|].
    change (Z.log2 2) with 1. lia.
  - rewrite <- (Z.mod_small e (2 ^ 64)) by lia.
    by rewrite (Z.mod_pow2_bits_high e 64 i) by lia.
Qed.

Lemma internal_0 : radix_tree_is_internal_node 0 = false.
Proof. done. Qed.

Lemma node_to_entry_inj a c :
  aligned a → aligned c → node_to_entry a = node_to_entry c → a = c.
Proof. intros ?? H. rewrite !node_to_entry_val in H by done. lia. Qed.

Lemma node_to_entry_nz a : aligned a → node_to_entry a ≠ 0.
Proof. intros Ha. rewrite node_to_entry_val by done. destruct Ha. lia. Qed.

Lemma node_to_entry_range a : aligned a → 0 < node_to_entry a < 2 ^ 64.
Proof. intros Ha. rewrite node_to_entry_val by done. destruct Ha. lia. Qed.

(** ** Levels, digits and bases

    A node of shift [s] covers the [2^(s+6)] indices from its base on; the
    slot an index has in it is the index's digit of weight [2^s]. *)

Definition level (s : Z) : Prop := 0 ≤ s ≤ 60 ∧ s mod 6 = 0.

Definition digit (s idx : Z) : Z := idx / 2 ^ s mod 64.
Definition base_of (s idx : Z) : Z := idx / 2 ^ (s + 6) * 2 ^ (s + 6).

Lemma pow2_64 s : 0 ≤ s → 2 ^ (s + 6) = 64 * 2 ^ s.
Proof. intros. rewrite Z.pow_add_r by lia. change (2 ^ 6) with 64. lia. Qed.

Lemma digit_range s idx : 0 ≤ digit s idx < 64.
Proof. apply Z.mod_pos_bound. lia. Qed.

Lemma base_of_digit s idx :
  0 ≤ s → idx / 2 ^ s * 2 ^ s = base_of s idx + digit s idx * 2 ^ s.
Proof.
  intros Hs. unfold base_of, digit. rewrite pow2_64 by done.
  pose proof (pow2_pos s Hs). rewrite (Z.mul_comm 64), <- Z.div_div by lia.
  pose proof (Z.div_mod (idx / 2 ^ s) 64). nia.
Qed.

Lemma base_of_child s idx :
  6 ≤ s → base_of (s - 6) idx = base_of s idx + digit s idx * 2 ^ s.
Proof.
  intros Hs. rewrite <- base_of_digit by lia. unfold base_of.
  by replace (s - 6 + 6) with s by lia.
Qed.

Lemma base_of_leaf idx : idx = base_of 0 idx + digit 0 idx.
Proof.
  pose proof (base_of_digit 0 idx). change (2 ^ 0) with 1 in *.
  rewrite Z.div_1_r in *. lia.
Qed.

(** A multiple of the node's size plus a small part has that base. *)
Lemma base_of_eq s b idx :
  0 ≤ s → (2 ^ (s + 6) | b) → b ≤ idx < b + 2 ^ (s + 6) → base_of s idx = b.
Proof.
  intros Hs [q ->] Hi. unfold base_of. pose proof (pow2_pos (s + 6)).
  f_equal. symmetry. apply (Z.div_unique idx _ q (idx - q * 2 ^ (s + 6))); lia.
Qed.

Lemma base_of_bounds s idx :
  0 ≤ s → base_of s idx ≤ idx < base_of s idx + 2 ^ (s + 6).
Proof.
  intros Hs. unfold base_of. pose proof (pow2_pos (s + 6)).
  pose proof (Z.div_mod idx (2 ^ (s + 6))). pose proof (Z.mod_pos_bound idx (2 ^ (s + 6))). lia.
Qed.

Lemma base_of_divide s idx : (2 ^ (s + 6) | base_of s idx).
Proof. exists (idx / 2 ^ (s + 6)). done. Qed.

(** The parent of a node with base [pb + off * 2^s]. *)
Lemma base_of_parent s pb off idx :
  6 ≤ s → (2 ^ (s + 6) | pb) → 0 ≤ off < 64 →
  base_of (s - 6) idx = pb + off * 2 ^ s →
  base_of s idx = pb ∧ digit s idx = off.
Proof.
  intros Hs Hd Hoff Hb.
  pose proof (base_of_bounds (s - 6) idx) as Hbd. rewrite Hb in Hbd.
  replace (s - 6 + 6) with s in Hbd by lia.
  pose proof (pow2_pos s). pose proof (pow2_64 s).
  assert (base_of s idx = pb) as Hpb by (apply base_of_eq; [lia|done|nia]).
  split; [done|]. rewrite base_of_child, Hpb in Hb by lia. nia.
Qed.

Lemma digit_spec s idx :
  0 ≤ s → 0 ≤ idx →
  Z.land (Z.shiftr idx s) RADIX_TREE_MAP_MASK = digit s idx.
Proof.
  intros. change RADIX_TREE_MAP_MASK with (Z.ones 6).
  rewrite Z.land_ones, Z.shiftr_div_pow2 by lia. done.
Qed.

(** The largest index below a node, with the wrap-around of the top level. *)
Lemma shift_maxindex_spec s :
  level s → shift_maxindex s = Z.min (2 ^ (s + 6)) (2 ^ 64) - 1.
Proof.
  intros [Hs Hm]. unfold shift_maxindex, shl64, wrap.
  change RADIX_TREE_MAP_SIZE with 64.
  rewrite Z.shiftl_mul_pow2, <- pow2_64 by lia.
  destruct (decide (s = 60)) as [->|]; [done|].
  assert (2 ^ (s + 6) ≤ 2 ^ 60) by (apply Z.pow_le_mono_r; zlia).
  assert (0 < 2 ^ (s + 6)) by (apply pow2_pos; lia).
  rewrite (Z.mod_small (2 ^ (s + 6))) by lia. rewrite Z.mod_small by lia. lia.
Qed.

Lemma shift_maxindex_lt s idx :
  level s → 0 ≤ idx < 2 ^ 64 → (shift_maxindex s <? idx) = false ↔ base_of s idx = 0.
Proof.
  intros Hl Hi. rewrite shift_maxindex_spec by done. destruct Hl as [Hs _].
  rewrite Z.ltb_ge. pose proof (pow2_pos (s + 6)). split.
  - intros. apply base_of_eq; [lia|apply Z.divide_0_r|lia].
  - intros Hb. pose proof (base_of_bounds s idx). lia.
Qed.

Lemma land_not64_maxindex s idx :
  level s → 0 ≤ idx < 2 ^ 64 →
  Z.land idx (not64 (shift_maxindex s)) = base_of s idx.
Proof.
  intros Hl Hi. rewrite shift_maxindex_spec by done. destruct Hl as [Hs Hm].
  destruct (decide (s = 60)) as [->|].
  - change (Z.min (2 ^ (60 + 6)) (2 ^ 64) - 1) with (2 ^ 64 - 1).
    rewrite land_not64_ones by lia. rewrite Z.mod_small by lia.
    unfold base_of. change (2 ^ (60 + 6)) with (4 * 2 ^ 64).
    rewrite Z.div_small by lia. lia.
  - assert (2 ^ (s + 6) ≤ 2 ^ 60) by (apply Z.pow_le_mono_r; zlia).
    rewrite Z.min_l by lia. rewrite land_not64_ones by zlia.
    unfold base_of. pose proof (Z.div_mod idx (2 ^ (s + 6))).
    pose proof (pow2_pos (s + 6)). lia.
Qed.

(** ** Well-formedness

    [B] gives each live node the first index it covers.  A node's neighbours
    determine each other: its parent's slot at its offset is its entry, and the
    entries of an inner node are its children's. *)

Definition base_map : Type := gmap Z Z.

Definition parent_ok (h : gmap Z radix_tree_node) (B : gmap Z Z) (a b : Z)
    (n : radix_tree_node) : Prop :=
  ∃ pb pn, B !! parent n = Some pb ∧ h !! parent n = Some pn ∧
    shift pn = shift n + 6 ∧ 0 ≤ offset n < 64 ∧
    slots pn !! Z.to_nat (offset n) = Some (node_to_entry a) ∧
    b = pb + offset n * 2 ^ shift pn.

Definition child_ok (h : gmap Z radix_tree_node) (B : gmap Z Z) (a : Z) (i : nat)
    (e : Z) : Prop :=
  ∃ c cn, e = node_to_entry c ∧ is_Some (B !! c) ∧ h !! c = Some cn ∧
    parent cn = a ∧ offset cn = Z.of_nat i.

Definition item_ok (e : Z) : Prop :=
  0 < e < 2 ^ 64 ∧ radix_tree_is_internal_node e = false.

Record node_ok (r : Z) (h : gmap Z radix_tree_node) (B : gmap Z Z) (a b : Z)
    (n : radix_tree_node) : Prop := {
  no_addr : aligned a;
  no_level : level (shift n);
  no_base : 0 ≤ b < 2 ^ 64;
  no_div : (2 ^ (shift n + 6) | b);
  no_len : length (slots n) = 64%nat;
  no_count : count n = nonzero (slots n);
  no_root : parent n = 0 → r = node_to_entry a ∧ b = 0;
  no_root_off : parent n = 0 → offset n = 0;
  no_parent : parent n ≠ 0 → parent_ok h B a b n;
  no_leaf : shift n = 0 → ∀ i e, slots n !! i = Some e → e ≠ 0 → item_ok e;
  no_child : shift n ≠ 0 → ∀ i e, slots n !! i = Some e → e ≠ 0 → child_ok h B a i e
}.

(** The root's pointer: NULL, an item stored directly, or a node. *)
Inductive root_ok (r : Z) (h : gmap Z radix_tree_node) (B : gmap Z Z) : Prop :=
| root_null : r = 0 → B = ∅ → root_ok r h B
| root_direct : item_ok r → B = ∅ → root_ok r h B
| root_node a n : r = node_to_entry a → is_Some (B !! a) → h !! a = Some n →
    parent n = 0 → root_ok r h B.

Record inv (st : tstate) (B : gmap Z Z) : Prop := {
  inv_nodes a b : B !! a = Some b →
    ∃ n, heap st !! a = Some n ∧ node_ok (rnode (root st)) (heap st) B a b n;
  inv_root : root_ok (rnode (root st)) (heap st) B;
  inv_rcu a : a ∈ rcu st → B !! a = None ∧ is_Some (heap st !! a);
  inv_rcu_nodup : NoDup (rcu st);
  inv_noleak a : is_Some (heap st !! a) → is_Some (B !! a) ∨ a ∈ rcu st
}.

(** [v] is stored at index [idx]: in the root's pointer, or in a live leaf. *)
Inductive content (st : tstate) (B : gmap Z Z) (idx v : Z) : Prop :=
| content_direct : idx = 0 → item_ok v → rnode (root st) = v → content st B idx v
| content_leaf a b n i : B !! a = Some b → heap st !! a = Some n → shift n = 0 →
    slots n !! i = Some v → v ≠ 0 → idx = b + Z.of_nat i → content st B idx v.

(** The finite map a tree implements. *)
Definition represents (st : tstate) (m : gmap Z Z) : Prop :=
  ∃ B, inv st B ∧ ∀ idx v, m !! idx = Some v ↔ content st B idx v.

(** No live node is empty, but perhaps [x]. *)
Definition full (st : tstate) (B : gmap Z Z) (x : Z) : Prop :=
  ∀ a b n, B !! a = Some b → heap st !! a = Some n → count n = 0 → a = x.

(** ** Structure of a well-formed tree *)

Section structure.
Context {st : tstate} {B : gmap Z Z} (Hinv : inv st B).

Lemma live_node a b n :
  B !! a = Some b → heap st !! a = Some n → node_ok (rnode (root st)) (heap st) B a b n.
Proof.
  intros Hb Hn. destruct (inv_nodes _ _ Hinv a b Hb) as (n' & Hn' & Hok). congruence.
Qed.

Lemma live_heap a b : B !! a = Some b → ∃ n, heap st !! a = Some n.
Proof. intros Hb. destruct (inv_nodes _ _ Hinv a b Hb) as (n & ? & _). eauto. Qed.

Lemma live_aligned a b : B !! a = Some b → aligned a.
Proof. intros Hb. destruct (inv_nodes _ _ Hinv a b Hb) as (n & ? & []). done. Qed.

Lemma live_nonnull a b : B !! a = Some b → a ≠ 0.
Proof. intros Hb. destruct (live_aligned a b Hb). lia. Qed.

(** A live node covering an index has the index's base. *)
Lemma live_base a b n idx :
  B !! a = Some b → heap st !! a = Some n →
  b ≤ idx < b + 2 ^ (shift n + 6) → base_of (shift n) idx = b.
Proof.
  intros Hb Hn Hi. destruct (live_node a b n Hb Hn) as [_ [Hl _] _ Hd].
  apply base_of_eq; [lia|done|done].
Qed.

(** The parent covers what the node covers. *)
Lemma live_parent a b n idx :
  B !! a = Some b → heap st !! a = Some n → parent n ≠ 0 →
  base_of (shift n) idx = b →
  ∃ pn, B !! parent n = Some (base_of (shift n + 6) idx) ∧
    heap st !! parent n = Some pn ∧ shift pn = shift n + 6 ∧
    offset n = digit (shift pn) idx ∧
    slots pn !! Z.to_nat (digit (shift pn) idx) = Some (node_to_entry a).
Proof.
  intros Hb Hn Hp Hidx. pose proof (live_node a b n Hb Hn) as Hok.
  destruct (no_parent _ _ _ _ _ _ Hok Hp) as (pb & pn & HBp & Hpn & Hs & Hoff & Hsl & ->).
  destruct (live_node _ _ _ HBp Hpn) as [_ [Hl _] _ Hd].
  destruct (no_level _ _ _ _ _ _ Hok) as [Hl' _].
  destruct (base_of_parent (shift pn) pb (offset n) idx) as [Hbp Hdg]; [lia|done|done| |].
  { rewrite Hs at 1. by replace (shift n + 6 - 6) with (shift n) by lia. }
  exists pn. rewrite <- Hs, Hbp, Hdg. done.
Qed.

(** The root is the topmost node. *)
Lemma live_top k a b n :
  (Z.of_nat k = 60 - shift n) → B !! a = Some b → heap st !! a = Some n →
  ∃ r rn, rnode (root st) = node_to_entry r ∧ B !! r = Some 0 ∧ heap st !! r = Some rn ∧
    parent rn = 0 ∧ (a = r ∨ shift n < shift rn).
Proof.
  revert a b n. induction (lt_wf k) as [k _ IH]. intros a b n Hk Hb Hn.
  pose proof (live_node a b n Hb Hn) as Hok.
  destruct (decide (parent n = 0)) as [Hp|Hp].
  - destruct (no_root _ _ _ _ _ _ Hok Hp) as [? ->]. exists a, n. eauto 10.
  - destruct (no_parent _ _ _ _ _ _ Hok Hp) as (pb & pn & HBp & Hpn & Hs & Hoff & Hsl & _).
    destruct (no_level _ _ _ _ _ _ (live_node _ _ _ HBp Hpn)) as [Hl _].
    destruct (no_level _ _ _ _ _ _ Hok) as [Hl' _].
    destruct (IH (Z.to_nat (60 - shift pn)) ltac:(lia) (parent n) pb pn) as
      (r & rn & ? & ? & ? & ? & Hor); [lia|done|done|].
    exists r, rn. repeat split; try done. right.
    destruct Hor as [Heq|]; [|lia]. subst r. assert (pn = rn) by congruence. subst. lia.
Qed.

Lemma live_below_root a b n :
  B !! a = Some b → heap st !! a = Some n →
  ∃ r rn, rnode (root st) = node_to_entry r ∧ B !! r = Some 0 ∧ heap st !! r = Some rn ∧
    parent rn = 0 ∧ (a = r ∨ shift n < shift rn).
Proof.
  intros Hb Hn. destruct (no_level _ _ _ _ _ _ (live_node a b n Hb Hn)) as [Hl _].
  apply (live_top (Z.to_nat (60 - shift n)) a b n); [lia|done|done].
Qed.

(** Two live nodes of the same level that cover an index are the same node. *)
Lemma live_unique_aux k idx a a' b n n' :
  (Z.of_nat k = 60 - shift n) → B !! a = Some b → heap st !! a = Some n →
  B !! a' = Some b → heap st !! a' = Some n' → shift n = shift n' →
  base_of (shift n) idx = b → a = a'.
Proof.
  revert a a' b n n'. induction (lt_wf k) as [k _ IH]. intros a a' b n n' Hk Hb Hn Hb' Hn' Hs Hi.
  pose proof (live_node a b n Hb Hn) as Hok. pose proof (live_node a' b n' Hb' Hn') as Hok'.
  pose proof (live_aligned _ _ Hb). pose proof (live_aligned _ _ Hb').
  destruct (live_below_root a b n Hb Hn) as (r & rn & Hr & HBr & Hrn & Hprn & Hor).
  destruct (live_below_root a' b n' Hb' Hn') as (r' & rn' & Hr' & HBr' & Hrn' & Hprn' & Hor').
  assert (r = r') as <-.
  { apply node_to_entry_inj; [by eapply live_aligned..|congruence]. }
  assert (rn' = rn) as -> by congruence.
  destruct (decide (parent n = 0)) as [Hp|Hp].
  { destruct (no_root _ _ _ _ _ _ Hok Hp) as [Ha _].
    assert (a = r) as -> by (apply node_to_entry_inj; [done|by eapply live_aligned|congruence]).
    destruct Hor' as [->|]; [done|]. assert (n = rn) by congruence. subst. lia. }
  destruct (decide (parent n' = 0)) as [Hp'|Hp'].
  { destruct (no_root _ _ _ _ _ _ Hok' Hp') as [Ha _].
    assert (a' = r) as -> by (apply node_to_entry_inj; [done|by eapply live_aligned|congruence]).
    destruct Hor as [->|]; [done|]. assert (n' = rn) by congruence. subst. lia. }
  destruct (live_parent a b n idx Hb Hn Hp Hi) as (pn & HBp & Hpn & Hsp & Hoff & Hsl).
  rewrite Hs in Hi.
  destruct (live_parent a' b n' idx Hb' Hn' Hp' Hi) as (pn' & HBp' & Hpn' & Hsp' & Hoff' & Hsl').
  destruct (no_level _ _ _ _ _ _ (live_node _ _ _ HBp Hpn)) as [Hl _].
  assert (parent n = parent n') as Hpp.
  { apply (IH (Z.to_nat (60 - shift pn)) ltac:(lia) _ _ (base_of (shift n + 6) idx) pn pn');
      [lia|done|done|by rewrite Hs|done|lia|by rewrite Hsp]. }
  rewrite <- Hpp in *. assert (pn' = pn) as -> by congruence.
  apply node_to_entry_inj; [done..|]. congruence.
Qed.

Lemma live_unique idx a a' b b' n n' :
  B !! a = Some b → heap st !! a = Some n → B !! a' = Some b' → heap st !! a' = Some n' →
  shift n = shift n' → base_of (shift n) idx = b → base_of (shift n') idx = b' → a = a'.
Proof.
  intros Hb Hn Hb' Hn' Hs Hi Hi'. rewrite <- Hs in Hi'. rewrite Hi in Hi'. subst b'.
  destruct (no_level _ _ _ _ _ _ (live_node a b n Hb Hn)) as [Hl _].
  apply (live_unique_aux (Z.to_nat (60 - shift n)) idx a a' b n n'); [lia|done..].
Qed.

(** A live node below [x] is reached through the slot of its digit. *)
Lemma live_ancestor_aux k idx x xb xn y yb yn :
  Z.of_nat k = shift xn - shift yn → B !! x = Some xb → heap st !! x = Some xn →
  B !! y = Some yb → heap st !! y = Some yn →
  base_of (shift xn) idx = xb → base_of (shift yn) idx = yb → shift yn < shift xn →
  ∃ e, slots xn !! Z.to_nat (digit (shift xn) idx) = Some e ∧ e ≠ 0.
Proof.
  revert y yb yn. induction (lt_wf k) as [k _ IH].
  intros y yb yn Hk Hx Hxn Hy Hyn Hxi Hyi Hlt.
  pose proof (live_node y yb yn Hy Hyn) as Hok.
  assert (parent yn ≠ 0) as Hp.
  { intros Hp. destruct (no_root _ _ _ _ _ _ Hok Hp) as [Hr _].
    destruct (live_below_root x xb xn Hx Hxn) as (r & rn & Hr' & HBr & Hrn & _ & Hor).
    assert (y = r) as -> by (apply node_to_entry_inj; [by eapply live_aligned..|congruence]).
    assert (rn = yn) as -> by congruence. destruct Hor as [->|]; [|lia].
    assert (xn = yn) as -> by congruence. lia. }
  destruct (live_parent y yb yn idx Hy Hyn Hp Hyi) as (pn & HBp & Hpn & Hsp & Hoff & Hsl).
  destruct (decide (shift pn = shift xn)) as [Heq|Hne].
  - assert (x = parent yn) as ->.
    { eapply (live_unique idx x (parent yn)); try done. by rewrite Hsp. }
    assert (pn = xn) as -> by congruence. eexists. split; [done|].
    apply node_to_entry_nz. by eapply live_aligned.
  - pose proof (no_level _ _ _ _ _ _ (live_node _ _ _ HBp Hpn)) as [Hl Hm].
    pose proof (no_level _ _ _ _ _ _ (live_node _ _ _ Hx Hxn)) as [Hl' Hm'].
    pose proof (no_level _ _ _ _ _ _ Hok) as [Hl'' Hm''].
    eapply (IH (Z.to_nat (shift xn - shift pn)) ltac:(lia) (parent yn) _ pn); try done.
    + zlia.
    + by rewrite Hsp.
    + zlia.
Qed.

Lemma live_ancestor idx x xb xn y yb yn :
  B !! x = Some xb → heap st !! x = Some xn → B !! y = Some yb → heap st !! y = Some yn →
  base_of (shift xn) idx = xb → base_of (shift yn) idx = yb → shift yn < shift xn →
  ∃ e, slots xn !! Z.to_nat (digit (shift xn) idx) = Some e ∧ e ≠ 0.
Proof.
  intros ?????? Hlt.
  by eapply (live_ancestor_aux (Z.to_nat (shift xn - shift yn)) idx x xb xn y yb yn); [lia|..].
Qed.
End structure.
