(* ===== verification/RadixLookup.v ===== *)
(** * The radix tree: memory access, descent and lookup *)
From S2P Require Import Prelude RadixDefs RadixInv.

(** ** Memory access *)

Lemma wp_load_node a n Q st :
  heap st !! a = Some n → wp (load_node a) Q st ↔ Q n st.
Proof. intros H. unfold wp, load_node. by rewrite H. Qed.

Lemma wp_store_node a f n Q st :
  heap st !! a = Some n →
  wp (store_node a f) Q st ↔ Q () (set_heap (<[a := f n]> (heap st)) st).
Proof. intros H. unfold wp, store_node. by rewrite H. Qed.

Lemma wp_node_slot n i e (Q : Z → tstate → Prop) st :
  0 ≤ i → slots n !! Z.to_nat i = Some e → wp (node_slot n i) Q st ↔ Q e st.
Proof.
  intros Hi H. unfold node_slot. rewrite (proj2 (Z.leb_le 0 i)), H by done. done.
Qed.

Lemma wp_store_slot a n i e0 e Q st :
  heap st !! a = Some n → 0 ≤ i → slots n !! Z.to_nat i = Some e0 →
  wp (store_slot a i e) Q st ↔
  Q () (set_heap (<[a := with_slots (<[Z.to_nat i := e]> (slots n)) n]> (heap st)) st).
Proof.
  intros Hn Hi Hs. unfold store_slot.
  rewrite wp_bind, (wp_load_node a n) by done.
  rewrite wp_bind, (wp_node_slot n i e0) by done.
  by rewrite (wp_store_node a _ n) by done.
Qed.

Lemma wp_get_rnode (Q : Z → tstate → Prop) st : wp get_rnode Q st ↔ Q (rnode (root st)) st.
Proof. done. Qed.
Lemma wp_put_rnode e (Q : () → tstate → Prop) st : wp (put_rnode e) Q st ↔ Q () (set_rnode e st).
Proof. done. Qed.

Lemma wp_descend n idx e (Q : Z * Z → tstate → Prop) st :
  0 ≤ shift n → 0 ≤ idx → slots n !! Z.to_nat (digit (shift n) idx) = Some e →
  wp (radix_tree_descend n idx) Q st ↔ Q (digit (shift n) idx, e) st.
Proof.
  intros Hs Hi He. unfold radix_tree_descend. rewrite digit_spec by done.
  pose proof (digit_range (shift n) idx).
  rewrite wp_bind, (wp_node_slot n _ e) by (lia || done). done.
Qed.

(** ** What a slot says about the content *)

Section descent.
Context {st : tstate} {B : gmap Z Z} (Hinv : inv st B).

Lemma live_slot a b n idx :
  B !! a = Some b → heap st !! a = Some n →
  ∃ e, slots n !! Z.to_nat (digit (shift n) idx) = Some e.
Proof.
  intros Hb Hn. pose proof (digit_range (shift n) idx).
  apply lookup_lt_is_Some_2. rewrite (no_len _ _ _ _ _ _ (live_node Hinv a b n Hb Hn)). lia.
Qed.

(** The leaf and slot that hold the content of an index. *)
Lemma content_leaf_base a b n i :
  B !! a = Some b → heap st !! a = Some n → shift n = 0 → (i < 64)%nat →
  base_of 0 (b + Z.of_nat i) = b ∧ Z.to_nat (digit 0 (b + Z.of_nat i)) = i.
Proof.
  intros Hb Hn Hs Hi. pose proof (live_node Hinv a b n Hb Hn) as Hok.
  pose proof (no_div _ _ _ _ _ _ Hok) as Hd. rewrite Hs in Hd.
  assert (base_of 0 (b + Z.of_nat i) = b) as Hbase.
  { apply base_of_eq; [lia|done|]. change (2 ^ (0 + 6)) with 64. lia. }
  split; [done|]. pose proof (base_of_leaf (b + Z.of_nat i)). rewrite Hbase in *. lia.
Qed.

Lemma slot_lt64 a b n i e :
  B !! a = Some b → heap st !! a = Some n → slots n !! i = Some e → (i < 64)%nat.
Proof.
  intros Hb Hn He. apply lookup_lt_Some in He.
  by rewrite (no_len _ _ _ _ _ _ (live_node Hinv a b n Hb Hn)) in He.
Qed.

Lemma content_at idx v :
  content st B idx v →
  (idx = 0 ∧ item_ok v ∧ rnode (root st) = v) ∨
  ∃ a n, B !! a = Some (base_of 0 idx) ∧ heap st !! a = Some n ∧ shift n = 0 ∧
    slots n !! Z.to_nat (digit 0 idx) = Some v ∧ v ≠ 0.
Proof.
  intros [|a b n i Hb Hn Hs Hi Hv ->]; [by left|right].
  destruct (content_leaf_base a b n i) as [Hb' Hi']; try done; [by eapply slot_lt64|].
  exists a, n. rewrite Hb', Hi'. done.
Qed.

Lemma content_leaf_at a n idx v :
  B !! a = Some (base_of 0 idx) → heap st !! a = Some n → shift n = 0 →
  slots n !! Z.to_nat (digit 0 idx) = Some v → v ≠ 0 → content st B idx v.
Proof.
  intros Hb Hn Hs Hi Hv. eapply content_leaf; [done..|].
  pose proof (digit_range 0 idx). rewrite Z2Nat.id by lia. apply base_of_leaf.
Qed.

(** With live nodes, the root's pointer holds no item. *)
Lemma live_not_direct a b v :
  B !! a = Some b → rnode (root st) = v → item_ok v → False.
Proof.
  intros Hb Hr [Hv Hi]. destruct (inv_root _ _ Hinv) as [|? HB|r n Hr' [rb HB]].
  - lia.
  - subst B. by rewrite lookup_empty in Hb.
  - rewrite <- Hr, Hr', internal_node_to_entry in Hi; [done|]. by eapply live_aligned.
Qed.

Lemma content_of_leaf a n idx v :
  B !! a = Some (base_of 0 idx) → heap st !! a = Some n → shift n = 0 →
  slots n !! Z.to_nat (digit 0 idx) = Some v →
  ∀ v', content st B idx v' ↔ v' = v ∧ v ≠ 0.
Proof.
  intros Hb Hn Hs Hi v'. split.
  - intros [(-> & Hv' & Hr)|(a' & n' & Hb' & Hn' & Hs' & Hi' & Hv')]%content_at.
    { exfalso. by eapply live_not_direct. }
    assert (a = a') as <-.
    { eapply (live_unique Hinv idx a a'); try done; [congruence|by rewrite Hs|by rewrite Hs']. }
    assert (n' = n) as -> by congruence. rewrite Hi in Hi'. by injection Hi' as <-.
  - intros [-> Hv]. by eapply content_leaf_at.
Qed.

Lemma content_of_null x xn idx v :
  B !! x = Some (base_of (shift xn) idx) → heap st !! x = Some xn → shift xn ≠ 0 →
  slots xn !! Z.to_nat (digit (shift xn) idx) = Some 0 → ¬ content st B idx v.
Proof.
  intros Hb Hn Hs Hi [(-> & Hv' & Hr)|(a' & n' & Hb' & Hn' & Hs' & Hi' & Hv')]%content_at.
  { by eapply live_not_direct. }
  destruct (no_level _ _ _ _ _ _ (live_node Hinv _ _ _ Hb Hn)) as [Hl _].
  destruct (live_ancestor Hinv idx x (base_of (shift xn) idx) xn a' (base_of 0 idx) n')
    as (e & He & Hne); try done; [by rewrite Hs'|lia|]. congruence.
Qed.

(** A non-NULL slot of an inner node leads to a node that covers the index. *)
Lemma live_child x xn idx e :
  B !! x = Some (base_of (shift xn) idx) → heap st !! x = Some xn → shift xn ≠ 0 →
  slots xn !! Z.to_nat (digit (shift xn) idx) = Some e → e ≠ 0 →
  ∃ c cn, e = node_to_entry c ∧ heap st !! c = Some cn ∧ shift cn = shift xn - 6 ∧
    B !! c = Some (base_of (shift cn) idx).
Proof.
  intros Hb Hn Hs He Hne. pose proof (live_node Hinv _ _ _ Hb Hn) as Hok.
  destruct (no_child _ _ _ _ _ _ Hok Hs _ _ He Hne) as (c & cn & -> & [cb Hcb] & Hcn & Hp & Hoff).
  pose proof (live_node Hinv _ _ _ Hcb Hcn) as Hok'.
  destruct (no_parent _ _ _ _ _ _ Hok') as (pb & pn & HBp & Hpn & Hsp & _ & _ & Hbase).
  { rewrite Hp. by eapply live_nonnull. }
  rewrite Hp in *. assert (pn = xn) as -> by congruence.
  assert (pb = base_of (shift xn) idx) as -> by congruence.
  exists c, cn. split; [done|]. split; [done|]. split; [lia|].
  destruct (no_level _ _ _ _ _ _ Hok') as [Hl _].
  rewrite Hcb, Hbase. f_equal. pose proof (digit_range (shift xn) idx).
  replace (shift cn) with (shift xn - 6) by lia. rewrite base_of_child by lia.
  rewrite Hoff. by rewrite Z2Nat.id by lia.
Qed.

(** The position a descent for [idx] ends at: entry, parent and slot. *)
Definition found_at (idx v p : Z) (s : slotref) : Prop :=
  ∃ n, B !! p = Some (base_of (shift n) idx) ∧ heap st !! p = Some n ∧
    s = SlotNode p (digit (shift n) idx) ∧
    slots n !! Z.to_nat (digit (shift n) idx) = Some v ∧ (v ≠ 0 → shift n = 0).

Lemma lookup_walk_spec fuel a n idx par slot :
  0 ≤ idx → B !! a = Some (base_of (shift n) idx) → heap st !! a = Some n →
  shift n + 12 ≤ 6 * Z.of_nat fuel →
  wp (lookup_walk fuel (node_to_entry a) par slot idx)
    (λ '(v, p, s) st', st' = st ∧ found_at idx v p s ∧
       ∀ v', content st B idx v' ↔ v' = v ∧ v ≠ 0) st.
Proof.
  intros Hidx. revert a n par slot. induction fuel as [|fuel IH]; intros a n par slot Hb Hn Hf;
    pose proof (live_aligned Hinv _ _ Hb) as Hal;
    destruct (no_level _ _ _ _ _ _ (live_node Hinv _ _ _ Hb Hn)) as [Hl Hm]; [lia|].
  cbn [lookup_walk]. rewrite internal_node_to_entry, entry_to_node_entry by done.
  rewrite wp_bind, (wp_load_node a n) by done.
  destruct (live_slot a _ n idx Hb Hn) as [e He].
  rewrite wp_bind, (wp_descend n idx e) by (lia || done).
  destruct (Z.eqb_spec (shift n) 0) as [Hs|Hs].
  - rewrite wp_ret. split; [done|]. split.
    + exists n. eauto.
    + rewrite Hs in *. by eapply content_of_leaf.
  - destruct (decide (e = 0)) as [->|Hne].
    + destruct fuel as [|fuel]; [lia|]. cbn [lookup_walk]. rewrite internal_0, wp_ret.
      split; [done|]. split; [exists n; naive_solver|].
      intros v'. split; [|naive_solver]. intros Hc. exfalso. by eapply content_of_null.
    + destruct (live_child a n idx e) as (c & cn & -> & Hcn & Hcs & Hcb); try done.
      apply (IH c cn); [done|done|lia].
Qed.

(** Where [__radix_tree_lookup] points, for an index within the tree's range. *)
Definition lookup_out (idx v : Z) (out : option (Z * slotref)) : Prop :=
  match out with
  | None => v = 0
  | Some (p, s) =>
      (p = 0 ∧ s = SlotRoot ∧ idx = 0 ∧ rnode (root st) = v ∧ B = ∅) ∨ found_at idx v p s
  end.

Lemma content_direct_iff v v' :
  rnode (root st) = v → (v = 0 ∨ item_ok v) → B = ∅ → (content st B 0 v' ↔ v' = v ∧ v ≠ 0).
Proof.
  intros Hr Hv ->. split.
  - intros [_ [? _] ?|a b n i Hb]; [split; [congruence|lia]|]. by rewrite lookup_empty in Hb.
  - intros [-> Hne]. destruct Hv as [->|Hv]; [done|]. by apply content_direct.
Qed.

(** Every live node lies within the root's range. *)
Lemma live_in_root_aux k r rn a n idx :
  Z.of_nat k = shift rn - shift n →
  rnode (root st) = node_to_entry r → B !! r = Some 0 → heap st !! r = Some rn →
  B !! a = Some (base_of (shift n) idx) → heap st !! a = Some n →
  base_of (shift rn) idx = 0.
Proof.
  intros Hk Hr Hb Hn. revert a n Hk. induction (lt_wf k) as [k _ IH]. intros a n Hk Hba Hna.
  destruct (decide (parent n = 0)) as [Hp|Hp].
  - destruct (no_root _ _ _ _ _ _ (live_node Hinv _ _ _ Hba Hna) Hp) as [Ha Hb0].
    assert (r = a) as <-.
    { apply node_to_entry_inj; [by eapply live_aligned..|congruence]. }
    by assert (n = rn) as -> by congruence.
  - destruct (live_parent Hinv a _ n idx Hba Hna Hp eq_refl) as (pn & Hpb & Hpn & Hsp & _).
    destruct (live_below_root Hinv _ _ _ Hpb Hpn) as (r' & rn' & Hr'' & Hb'' & Hn'' & _ & Hor).
    assert (r = r') as <-.
    { apply node_to_entry_inj; [by eapply live_aligned..|congruence]. }
    assert (rn' = rn) as -> by congruence.
    assert (shift pn ≤ shift rn) as Hle.
    { destruct Hor as [Heq|]; [|lia]. rewrite Heq in Hpn. by assert (pn = rn) as -> by congruence. }
    apply (IH (Z.to_nat (shift rn - shift pn)) ltac:(lia) (parent n) pn); [lia| |done].
    by rewrite Hsp.
Qed.

Lemma live_in_root r rn a n idx :
  rnode (root st) = node_to_entry r → B !! r = Some 0 → heap st !! r = Some rn →
  B !! a = Some (base_of (shift n) idx) → heap st !! a = Some n →
  base_of (shift rn) idx = 0.
Proof.
  intros Hr Hb Hn Hba Hna.
  destruct (live_below_root Hinv a _ n Hba Hna) as (r' & rn' & Hr' & Hb' & Hn' & Hp' & Hor).
  assert (r = r') as <-.
  { apply node_to_entry_inj; [by eapply live_aligned..|congruence]. }
  assert (rn' = rn) as -> by congruence.
  eapply (live_in_root_aux (Z.to_nat (shift rn - shift n)) r rn a n); try done.
  destruct Hor as [->|]; [|lia]. assert (n = rn) as -> by congruence. lia.
Qed.

Lemma content_small r rn idx v :
  rnode (root st) = node_to_entry r → B !! r = Some 0 → heap st !! r = Some rn →
  content st B idx v → base_of (shift rn) idx = 0.
Proof.
  intros Hr Hb Hn [(-> & Hv & Hrv)|(a & n & Hba & Hna & Hs & _)]%content_at.
  { exfalso. by eapply live_not_direct. }
  eapply (live_in_root r rn a n); try done. by rewrite Hs.
Qed.

Lemma load_root_node r rn (Q : Z * Z * Z → tstate → Prop) :
  rnode (root st) = node_to_entry r → B !! r = Some 0 → heap st !! r = Some rn →
  wp radix_tree_load_root Q st ↔
  Q (node_to_entry r, shift_maxindex (shift rn), shift rn + 6) st.
Proof.
  intros Hr Hb Hn. pose proof (live_aligned Hinv _ _ Hb) as Hal.
  destruct (no_level _ _ _ _ _ _ (live_node Hinv _ _ _ Hb Hn)) as [Hl _].
  unfold radix_tree_load_root. rewrite wp_bind, wp_get_rnode, Hr.
  rewrite internal_node_to_entry, entry_to_node_entry by done.
  rewrite wp_bind, (wp_load_node r rn), wp_ret by done.
  unfold RADIX_TREE_MAP_SHIFT. by rewrite (wrap_small 32) by lia.
Qed.

Lemma load_root_leaf (Q : Z * Z * Z → tstate → Prop) :
  radix_tree_is_internal_node (rnode (root st)) = false →
  wp radix_tree_load_root Q st ↔ Q (rnode (root st), 0, 0) st.
Proof.
  intros Hr. unfold radix_tree_load_root. rewrite wp_bind, wp_get_rnode, Hr. done.
Qed.

Lemma lookup_spec idx :
  0 ≤ idx < 2 ^ 64 →
  wp (__radix_tree_lookup idx) (λ '(v, out) st', st' = st ∧ lookup_out idx v out ∧
    ∀ v', content st B idx v' ↔ v' = v ∧ v ≠ 0) st.
Proof.
  intros Hidx. unfold __radix_tree_lookup. rewrite wp_bind.
  assert (∀ v, rnode (root st) = v → v = 0 ∨ item_ok v → B = ∅ →
    wp radix_tree_load_root (λ a s', wp (let '(node, maxindex, _) := a in
      if maxindex <? idx then mret (0, None)
      else '(node, par, slot) ← lookup_walk LEVELS node 0 SlotRoot idx;
           mret (node, Some (par, slot)))
      (λ '(v, out) st', st' = st ∧ lookup_out idx v out ∧
         ∀ v', content st B idx v' ↔ v' = v ∧ v ≠ 0) s') st) as Hdirect.
  { intros v Hr Hv HB. rewrite load_root_leaf.
    2:{ rewrite Hr. by destruct Hv as [->|[_ ?]]. }
    rewrite Hr. destruct (Z.ltb_spec 0 idx).
    - rewrite wp_ret. split; [done|]. split; [done|]. intros v'. split; [|naive_solver].
      intros [?|a b n i Hb]; [lia|]. subst B. by rewrite lookup_empty in Hb.
    - assert (idx = 0) as -> by lia. change LEVELS with 12%nat. cbn [lookup_walk].
      assert (radix_tree_is_internal_node v = false) as -> by (by destruct Hv as [->|[_ ?]]).
      rewrite wp_bind, !wp_ret. split; [done|]. split; [by left|].
      intros v'. by apply content_direct_iff. }
  destruct (inv_root _ _ Hinv) as [Hr HB|Hr HB|r n Hr [b HB] Hn Hp]; [by eauto..|].
  clear Hdirect. pose proof (live_node Hinv _ _ _ HB Hn) as Hok.
  destruct (no_root _ _ _ _ _ _ Hok Hp) as [_ ->].
  rewrite (load_root_node r n) by done.
  pose proof (no_level _ _ _ _ _ _ Hok) as Hl.
  destruct (shift_maxindex (shift n) <? idx) eqn:Hlt.
  - rewrite wp_ret. split; [done|]. split; [done|]. intros v'. split; [|naive_solver].
    intros Hc. eapply content_small in Hc; [|done..].
    apply shift_maxindex_lt in Hc; [congruence|done|done].
  - rewrite shift_maxindex_lt in Hlt by done. rewrite wp_bind. eapply wp_mono.
    { eapply (lookup_walk_spec _ r n); [lia|by rewrite Hlt|done|].
      change (Z.of_nat LEVELS) with 12. destruct Hl. lia. }
    intros [[v p] s] st' (-> & Hf & Hc). rewrite wp_ret. split; [done|]. split; [by right|done].
Qed.
End descent.
