(* ===== verification/RadixUpdate.v ===== *)
(** * The radix tree: the elementary changes of a tree

    Each lemma takes a well-formed tree to the tree one step of the code makes
    of it, and says what the step does to the content.  The new memory is given
    by its lookups, so that it need not be written the way the code built it. *)
From S2P Require Import Prelude RadixDefs RadixInv RadixLookup.

(** Nodes with the same place in the tree. *)
Definition same_place (n n' : radix_tree_node) : Prop :=
  shift n' = shift n ∧ offset n' = offset n ∧ parent n' = parent n.

Lemma same_place_refl n : same_place n n.
Proof. done. Qed.

(** A node stays well-formed when its neighbours keep the facts it relies on. *)
Lemma node_ok_frame r h B r' h' B' a b n :
  node_ok r h B a b n →
  (parent n = 0 → r' = r) →
  (parent n ≠ 0 → ∀ pb pn, B !! parent n = Some pb → h !! parent n = Some pn →
     shift pn = shift n + 6 →
     slots pn !! Z.to_nat (offset n) = Some (node_to_entry a) →
     ∃ pn', B' !! parent n = Some pb ∧ h' !! parent n = Some pn' ∧ shift pn' = shift pn ∧
       slots pn' !! Z.to_nat (offset n) = Some (node_to_entry a)) →
  (∀ c cn, is_Some (B !! c) → h !! c = Some cn → parent cn = a →
     ∃ cn', is_Some (B' !! c) ∧ h' !! c = Some cn' ∧ parent cn' = a ∧ offset cn' = offset cn) →
  node_ok r' h' B' a b n.
Proof.
  intros [Ha Hl Hb Hd Hlen Hcnt Hroot Hoff0 Hpar Hleaf Hch] Hr Hp Hc. split; try done.
  - intros Hp0. rewrite Hr by done. by apply Hroot.
  - intros Hp0. destruct (Hpar Hp0) as (pb & pn & HBp & Hpn & Hs & Hoff & Hsl & ->).
    destruct (Hp Hp0 pb pn) as (pn' & ? & ? & Hs' & ?); try done.
    exists pb, pn'. rewrite Hs'. eauto 10.
  - intros Hs0 i e He Hne. destruct (Hch Hs0 i e He Hne) as (c & cn & -> & HBc & Hcn & Hpc & Hoc).
    destruct (Hc c cn) as (cn' & ? & ? & ? & Hoc'); try done.
    exists c, cn'. rewrite Hoc'. done.
Qed.

(** *** Writing a leaf's slot *)

Section leaf.
Context (st st' : tstate) (B : gmap Z Z) (a b : Z) (n n' : radix_tree_node) (i : nat) (e0 e : Z).
Context (Hinv : inv st B) (Hb : B !! a = Some b) (Hn : heap st !! a = Some n).
Context (Hs : shift n = 0) (Hi : slots n !! i = Some e0) (He : e = 0 ∨ item_ok e).
Context (Hn' : heap st' !! a = Some n') (Hpl : same_place n n').
Context (Hsl : slots n' = <[i := e]> (slots n)).
Context (Hcnt : count n' = count n - Z.b2z (truthy e0) + Z.b2z (truthy e)).
Context (Hfr : ∀ x, x ≠ a → heap st' !! x = heap st !! x).
Context (Hr : rnode (root st') = rnode (root st)) (Hrcu : rcu st' = rcu st).

Lemma leaf_live x nx :
  heap st !! x = Some nx → ∃ nx', heap st' !! x = Some nx' ∧ same_place nx nx'.
Proof.
  intros Hx. destruct (decide (x = a)) as [->|].
  - exists n'. assert (nx = n) as -> by congruence. done.
  - exists nx. rewrite Hfr by done. done.
Qed.

Lemma set_leaf_inv : inv st' B.
Proof.
  destruct Hinv as [Hnodes Hroot Hpend Hnd Hnl].
  pose proof (live_node Hinv a b n Hb Hn) as Hok. destruct Hpl as (Hs' & Ho' & Hp').
  split.
  - intros x bx Hx. destruct (decide (x = a)) as [->|Hxa].
    + assert (bx = b) as -> by congruence. exists n'. split; [done|].
      split; rewrite ?Hs', ?Ho', ?Hp', ?Hsl, ?length_insert; try apply Hok.
      * rewrite (nonzero_insert _ _ _ _ Hi), Hcnt, (no_count _ _ _ _ _ _ Hok). lia.
      * intros Hp0. rewrite Hr. by apply Hok.
      * intros Hp0. destruct (no_parent _ _ _ _ _ _ Hok Hp0) as (pb & pn & HBp & Hpn & Hsp & ?).
        exists pb, pn. rewrite Ho', Hp', Hs', Hfr; [done|].
        intros Heq. rewrite Heq in Hpn. assert (pn = n) by congruence. subst. lia.
      * intros _ j ej Hj Hne. destruct (decide (i = j)) as [<-|].
        { rewrite list_lookup_insert_eq in Hj by (by eapply lookup_lt_Some).
          injection Hj as <-. by destruct He as [->|]. }
        rewrite list_lookup_insert_ne in Hj by done. by eapply Hok.
      * done.
    + destruct (Hnodes x bx Hx) as (nx & Hnx & Hokx). exists nx. rewrite Hfr by done.
      split; [done|]. eapply node_ok_frame; [done| | |].
      * intros _. done.
      * intros Hp0 pb pn HBp Hpn Hsp Hslp. exists pn. rewrite Hfr; [done|].
        intros Heq. rewrite Heq in Hpn. assert (pn = n) as -> by congruence.
        pose proof (no_level _ _ _ _ _ _ Hokx) as [? _]. lia.
      * intros c cn HBc Hcn Hpc. destruct (leaf_live c cn Hcn) as (cn' & ? & _ & Hoc & Hpc').
        exists cn'. by rewrite Hpc', Hoc.
  - destruct Hroot as [? ?|? ?|r rn Hrn HBr Hhr Hpr].
    + apply root_null; congruence.
    + apply root_direct; congruence.
    + destruct (leaf_live r rn Hhr) as (rn' & Hrn' & _ & _ & Hpr').
      eapply (root_node _ _ _ r rn'); congruence.
  - intros x Hx. rewrite Hrcu in Hx. destruct (Hpend x Hx) as [HBx [nx Hnx]]. split; [done|].
    destruct (leaf_live x nx Hnx) as (nx' & ? & _). eauto.
  - by rewrite Hrcu.
  - intros x [nx Hnx]. rewrite Hrcu. apply Hnl. destruct (decide (x = a)) as [->|]; [eauto|].
    rewrite Hfr in Hnx by done. eauto.
Qed.

Lemma set_leaf_content idx v :
  content st' B idx v ↔
  if decide (idx = b + Z.of_nat i) then v = e ∧ e ≠ 0 else content st B idx v.
Proof.
  pose proof set_leaf_inv as Hinv'.
  pose proof (slot_lt64 Hinv a b n i e0 Hb Hn Hi) as Hi64.
  destruct (content_leaf_base Hinv a b n i) as [Hbase Hdig]; try done.
  destruct Hpl as (Hs' & Ho' & Hp').
  case_decide as Hd.
  - subst idx. rewrite (content_of_leaf Hinv' a n' _ e); [done| |done|congruence|].
    + by rewrite Hbase.
    + rewrite Hdig, Hsl. apply list_lookup_insert_eq. by eapply lookup_lt_Some.
  - split.
    + intros [(-> & Hv & Hrv)|(x & nx & HBx & Hnx & Hsx & Hx & Hv)]%(content_at Hinv').
      { apply content_direct; congruence. }
      destruct (decide (x = a)) as [->|].
      * assert (nx = n') as -> by congruence. rewrite Hsl in Hx.
        pose proof (base_of_leaf idx) as Hidx. assert (base_of 0 idx = b) as Hb0 by congruence.
        rewrite list_lookup_insert_ne in Hx.
        2:{ intros Heq. apply Hd. rewrite Hidx, Hb0. pose proof (digit_range 0 idx). lia. }
        by eapply content_leaf_at.
      * rewrite Hfr in Hnx by done. by eapply content_leaf_at.
    + intros [(-> & Hv & Hrv)|(x & nx & HBx & Hnx & Hsx & Hx & Hv)]%(content_at Hinv).
      { apply content_direct; congruence. }
      destruct (decide (x = a)) as [->|].
      * assert (nx = n) as -> by congruence.
        pose proof (base_of_leaf idx) as Hidx. assert (base_of 0 idx = b) as Hb0 by congruence.
        eapply content_leaf_at; [done|done|congruence| |done].
        rewrite Hsl, list_lookup_insert_ne; [done|].
        intros Heq. apply Hd. rewrite Hidx, Hb0. pose proof (digit_range 0 idx). lia.
      * eapply content_leaf_at; [done| |done..]. by rewrite Hfr.
Qed.
End leaf.

(** *** Writing the root's pointer of a tree without nodes *)

Lemma set_direct st st' e :
  inv st ∅ → (e = 0 ∨ item_ok e) → heap st' = heap st → rcu st' = rcu st →
  rnode (root st') = e →
  inv st' ∅ ∧ ∀ idx v, content st' ∅ idx v ↔ idx = 0 ∧ v = e ∧ e ≠ 0.
Proof.
  intros [Hnodes Hroot Hpend Hnd Hnl] He Hh Hrcu Hr. split.
  - split; rewrite ?Hh, ?Hrcu; try done.
    destruct He as [->|He]; [by apply root_null|by apply root_direct; rewrite ?Hr].
  - intros idx v. split.
    + intros [-> [? ?] ?|a b n i Hb]; [split; [done|split; [congruence|lia]]|].
      by rewrite lookup_empty in Hb.
    + intros (-> & -> & Hne). destruct He as [?|He]; [done|]. by apply content_direct.
Qed.

(** *** Adding a node *)

Lemma zero_slots_lookup i e : zero_slots !! i = Some e → e = 0.
Proof. by intros [? _]%lookup_replicate. Qed.

Lemma length_zero_slots : length zero_slots = 64%nat.
Proof. done. Qed.

Lemma nonzero_zero_slots : nonzero zero_slots = 0.
Proof. done. Qed.

Definition fresh_node (s off par nrv : Z) : radix_tree_node :=
  Node 0 s off nrv par zero_slots zero_tags.

Lemma fresh_node_ok r h B c b s off par nrv :
  aligned c → level s → 0 ≤ b < 2 ^ 64 → (2 ^ (s + 6) | b) →
  (par = 0 → r = node_to_entry c ∧ b = 0) →
  (par = 0 → off = 0) →
  (par ≠ 0 → parent_ok h B c b (fresh_node s off par nrv)) →
  node_ok r h B c b (fresh_node s off par nrv).
Proof.
  intros. split; try done; cbn.
  - by intros _ i e ->%zero_slots_lookup.
  - by intros _ i e ->%zero_slots_lookup.
Qed.

Section link.
Context (st st' : tstate) (B : gmap Z Z) (p pb : Z) (pn pn' : radix_tree_node) (i c nrv : Z).
Context (Hinv : inv st B) (Hb : B !! p = Some pb) (Hn : heap st !! p = Some pn).
Context (Hs : shift pn ≠ 0) (Hi : 0 ≤ i < 64) (Hsl0 : slots pn !! Z.to_nat i = Some 0).
Context (Hrange : pb + i * 2 ^ shift pn < 2 ^ 64).
Context (Hc : aligned c) (Hfresh : heap st !! c = None).
Context (Hc' : heap st' !! c = Some (fresh_node (shift pn - 6) i p nrv)).
Context (Hn' : heap st' !! p = Some pn') (Hpl : same_place pn pn').
Context (Hsl : slots pn' = <[Z.to_nat i := node_to_entry c]> (slots pn)).
Context (Hcnt : count pn' = count pn + 1).
Context (Hfr : ∀ x, x ≠ p → x ≠ c → heap st' !! x = heap st !! x).
Context (Hr : rnode (root st') = rnode (root st)) (Hrcu : rcu st' = rcu st).

Let cb := pb + i * 2 ^ shift pn.

Lemma link_live x nx :
  heap st !! x = Some nx → x ≠ c ∧ ∃ nx', heap st' !! x = Some nx' ∧ same_place nx nx'.
Proof.
  intros Hx. assert (x ≠ c) by congruence. split; [done|]. destruct (decide (x = p)) as [->|].
  - exists pn'. assert (nx = pn) as -> by congruence. done.
  - exists nx. rewrite Hfr by done. done.
Qed.

Lemma link_fresh_B : B !! c = None.
Proof.
  destruct (B !! c) as [b|] eqn:HB; [|done].
  destruct (live_heap Hinv c b HB) as [n Hx]. congruence.
Qed.

Lemma link_live_B x : x ≠ c → (<[c := cb]> B) !! x = B !! x.
Proof. intros Hx. by rewrite lookup_insert_ne. Qed.

(** The new node, its parent, and the other nodes. *)
Lemma link_new_ok : node_ok (rnode (root st')) (heap st') (<[c := cb]> B) c cb (fresh_node (shift pn - 6) i p nrv).
Proof.
  pose proof link_fresh_B as HcB. pose proof (live_node Hinv p pb pn Hb Hn) as Hok. destruct Hpl as (Hs' & Ho' & Hp').
  pose proof (live_nonnull Hinv p pb Hb) as Hp0. destruct (no_level _ _ _ _ _ _ Hok) as [Hl Hm].
  pose proof (no_base _ _ _ _ _ _ Hok) as Hpb. assert (p ≠ c) as Hpc by congruence.
  pose proof link_live_B as HB'.
  pose proof (pow2_pos (shift pn)).
  apply fresh_node_ok; [done|split; zlia|unfold cb; nia| |done|done|].
  - replace (shift pn - 6 + 6) with (shift pn) by lia. unfold cb. apply Z.divide_add_r.
    + etrans; [|apply (no_div _ _ _ _ _ _ Hok)]. rewrite pow2_64 by lia. apply Z.divide_factor_r.
    + apply Z.divide_factor_r.
  - intros _. exists pb, pn'. cbn. rewrite HB', Hs' by done. repeat split; try done; try lia.
    rewrite Hsl. apply list_lookup_insert_eq. by eapply lookup_lt_Some.
Qed.

Lemma link_parent_ok : node_ok (rnode (root st')) (heap st') (<[c := cb]> B) p pb pn'.
Proof.
  pose proof link_fresh_B as HcB. pose proof (live_node Hinv p pb pn Hb Hn) as Hok. destruct Hpl as (Hs' & Ho' & Hp').
  pose proof (live_nonnull Hinv p pb Hb) as Hp0. destruct (no_level _ _ _ _ _ _ Hok) as [Hl Hm].
  pose proof (no_base _ _ _ _ _ _ Hok) as Hpb. assert (p ≠ c) as Hpc by congruence.
  pose proof link_live_B as HB'.
  split; rewrite ?Hs', ?Ho', ?Hp', ?Hsl, ?length_insert; try apply Hok.
  * rewrite (nonzero_insert _ _ _ _ Hsl0), Hcnt, (no_count _ _ _ _ _ _ Hok).
    rewrite (truthy_nz (node_to_entry c)) by (by apply node_to_entry_nz). cbn. lia.
  * intros ?. rewrite Hr. by apply Hok.
  * intros Hpp. destruct (no_parent _ _ _ _ _ _ Hok Hpp) as (ppb & ppn & HBp & Hpn & Hsp & ?).
    assert (parent pn ≠ p). { intros Heq. rewrite Heq in Hpn. assert (ppn = pn) by congruence. subst. lia. }
    assert (parent pn ≠ c) by congruence.
    exists ppb, ppn. rewrite Ho', Hp', Hs', Hfr, HB' by done. done.
  * done.
  * intros _ j ej Hj Hne. destruct (decide (Z.to_nat i = j)) as [<-|].
    { rewrite list_lookup_insert_eq in Hj by (by eapply lookup_lt_Some). injection Hj as <-.
      exists c, (fresh_node (shift pn - 6) i p nrv). rewrite lookup_insert_eq. cbn.
      repeat split; eauto. lia. }
    rewrite list_lookup_insert_ne in Hj by done.
    destruct (no_child _ _ _ _ _ _ Hok Hs j ej Hj Hne) as (d & dn & -> & HBd & Hdn & Hpd & Hod).
    destruct (link_live d dn Hdn) as (Hdc & dn' & Hdn' & _ & Hod' & Hpd').
    exists d, dn'. rewrite HB', Hpd', Hod' by done. done.
Qed.

Lemma link_other_ok x bx :
  B !! x = Some bx → x ≠ c → x ≠ p →
  ∃ nx, heap st' !! x = Some nx ∧ node_ok (rnode (root st')) (heap st') (<[c := cb]> B) x bx nx.
Proof.
  intros Hx Hxc Hxp. destruct (inv_nodes _ _ Hinv x bx Hx) as (nx & Hnx & Hokx).
  pose proof link_fresh_B as HcB. pose proof (live_node Hinv p pb pn Hb Hn) as Hok. destruct Hpl as (Hs' & Ho' & Hp').
  pose proof (live_nonnull Hinv p pb Hb) as Hp0. destruct (no_level _ _ _ _ _ _ Hok) as [Hl Hm].
  pose proof (no_base _ _ _ _ _ _ Hok) as Hpb. assert (p ≠ c) as Hpc by congruence.
  pose proof link_live_B as HB'.
  exists nx. rewrite Hfr by done.
  split; [done|]. eapply node_ok_frame; [done|done| |].
  * intros Hpx xb xn HBp Hpn Hsp Hslp. assert (parent nx ≠ c) by congruence.
    rewrite HB' by done. destruct (decide (parent nx = p)) as [Heq|].
    -- rewrite Heq in *. assert (xn = pn) as -> by congruence. exists pn'.
       rewrite Hs', Hsl. repeat split; try done. rewrite list_lookup_insert_ne; [done|].
       intros Heqi. rewrite <- Heqi in Hslp. rewrite Hsl0 in Hslp. injection Hslp as Hz.
       symmetry in Hz. revert Hz. apply node_to_entry_nz. by eapply live_aligned.
    -- exists xn. rewrite Hfr by done. done.
  * intros d dn HBd Hdn Hpd. destruct (link_live d dn Hdn) as (Hdc & dn' & ? & _ & Hod & Hpd').
    exists dn'. by rewrite HB', Hpd', Hod.
Qed.

Lemma link_child_inv : inv st' (<[c := cb]> B).
Proof.
  pose proof link_fresh_B as HcB. pose proof link_live_B as HB'. destruct Hinv as [_ Hroot Hpend Hnd Hnl]. split.
  - intros x bx Hx. destruct (decide (x = c)) as [->|Hxc].
    { rewrite lookup_insert_eq in Hx. injection Hx as <-. eexists. split; [done|apply link_new_ok]. }
    rewrite HB' in Hx by done. destruct (decide (x = p)) as [->|Hxp]; [|by apply link_other_ok].
    assert (bx = pb) as -> by congruence. exists pn'. split; [done|apply link_parent_ok].
  - destruct Hroot as [? HB|? HB|r rn Hrn HBr Hhr Hpr].
    + exfalso. rewrite HB, lookup_empty in Hb. done.
    + exfalso. rewrite HB, lookup_empty in Hb. done.
    + destruct (link_live r rn Hhr) as (? & rn' & Hrn' & _ & _ & Hpr').
      eapply (root_node _ _ _ r rn'); rewrite ?HB'; congruence.
  - intros x Hx. rewrite Hrcu in Hx. destruct (Hpend x Hx) as [HBx [nx Hnx]].
    destruct (link_live x nx Hnx) as (? & nx' & ? & _). rewrite HB' by done. eauto.
  - by rewrite Hrcu.
  - intros x [nx Hnx]. rewrite Hrcu. destruct (decide (x = c)) as [->|].
    { left. rewrite lookup_insert_eq. eauto. }
    rewrite HB' by done. apply Hnl. destruct (decide (x = p)) as [->|]; [eauto|].
    rewrite Hfr in Hnx by done. eauto.
Qed.

Lemma link_child_content idx v : content st' (<[c := cb]> B) idx v ↔ content st B idx v.
Proof.
  pose proof link_fresh_B as HcB. destruct Hpl as (Hs' & Ho' & Hp'). split.
  - intros [-> Hv Hrv|x bx nx j HBx Hnx Hsx Hx Hv ->].
    { apply content_direct; congruence. }
    destruct (decide (x = c)) as [->|].
    { assert (nx = fresh_node (shift pn - 6) i p nrv) as -> by congruence.
      by apply zero_slots_lookup in Hx. }
    rewrite lookup_insert_ne in HBx by done. destruct (decide (x = p)) as [->|].
    { assert (nx = pn') as -> by congruence. congruence. }
    rewrite Hfr in Hnx by done. by eapply content_leaf.
  - intros [-> Hv Hrv|x bx nx j HBx Hnx Hsx Hx Hv ->].
    { apply content_direct; congruence. }
    assert (x ≠ c) by congruence. assert (x ≠ p) by congruence.
    eapply content_leaf; [by rewrite lookup_insert_ne| |done..]. by rewrite Hfr.
Qed.
End link.

(** The first node of an empty tree. *)
Lemma link_root st st' c s nrv :
  inv st ∅ → level s → aligned c → heap st !! c = None →
  heap st' = <[c := fresh_node s 0 0 nrv]> (heap st) → rcu st' = rcu st →
  rnode (root st') = node_to_entry c → rnode (root st) = 0 →
  inv st' {[c := 0]} ∧ ∀ idx v, content st' {[c := 0]} idx v ↔ content st ∅ idx v.
Proof.
  intros [Hnodes Hroot Hpend Hnd Hnl] Hl Hc Hfresh Hh Hrcu Hr Hr0. split.
  - split.
    + intros x bx [<- <-]%lookup_singleton_Some. eexists. rewrite Hh, lookup_insert_eq.
      split; [done|]. apply fresh_node_ok; try done; try lia. apply Z.divide_0_r.
    + eapply (root_node _ _ _ c); [done| |by rewrite Hh, lookup_insert_eq|done].
      rewrite lookup_singleton_eq. eauto.
    + intros x Hx. rewrite Hrcu in Hx. destruct (Hpend x Hx) as [_ [nx Hnx]].
      assert (x ≠ c) by congruence. rewrite Hh, lookup_singleton_ne, lookup_insert_ne by done. eauto.
    + by rewrite Hrcu.
    + intros x. rewrite Hrcu, Hh. destruct (decide (x = c)) as [->|].
      { rewrite lookup_singleton_eq. eauto. }
      rewrite lookup_insert_ne by done. intros [Hx|?]%Hnl; [|by right].
      rewrite lookup_empty in Hx. by destruct Hx.
  - intros idx v. split.
    + intros [-> [Hv Hi] Hrv|x bx nx j HBx Hnx Hsx Hx Hv ->].
      { rewrite <- Hrv, Hr, internal_node_to_entry in Hi by done. done. }
      apply lookup_singleton_Some in HBx as [<- <-]. rewrite Hh, lookup_insert_eq in Hnx.
      injection Hnx as <-. by apply zero_slots_lookup in Hx.
    + intros [-> [Hv Hi] Hrv|x bx nx j HBx]; [lia|]. by rewrite lookup_empty in HBx.
Qed.

(** *** A new root above the old one *)

Section grow.
Context (st st' : tstate) (B : gmap Z Z) (r rb c nrv : Z) (rn : radix_tree_node).
Context (Hinv : inv st B) (Hroot : rnode (root st) = node_to_entry r).
Context (Hb : B !! r = Some rb) (Hn : heap st !! r = Some rn) (Hp : parent rn = 0).
Context (Hl : level (shift rn + 6)).
Context (Hc : aligned c) (Hfresh : heap st !! c = None).
Context (Hc' : heap st' !! c = Some (Node 1 (shift rn + 6) 0 nrv 0
                                      (<[0%nat := node_to_entry r]> zero_slots) zero_tags)).
Context (Hn' : heap st' !! r = Some (with_parent c rn)).
Context (Hfr : ∀ x, x ≠ r → x ≠ c → heap st' !! x = heap st !! x).
Context (Hr : rnode (root st') = node_to_entry c) (Hrcu : rcu st' = rcu st).

Lemma grow_live_B x : x ≠ c → (<[c := 0]> B) !! x = B !! x.
Proof. intros Hx. by rewrite lookup_insert_ne. Qed.

(** The new root, the old one, and the other nodes. *)
Lemma grow_top_ok n :
  heap st' !! c = Some n → node_ok (rnode (root st')) (heap st') (<[c := 0]> B) c 0 n.
Proof.
  rewrite Hc'. intros Heqn. apply (inj Some) in Heqn as <-.
  assert (r ≠ c) as Hrc by congruence. assert (aligned r) as Har by (by eapply live_aligned).
  pose proof (live_node Hinv r rb rn Hb Hn) as Hok. destruct (no_root _ _ _ _ _ _ Hok Hp) as [_ Hrb].
  pose proof (no_root_off _ _ _ _ _ _ Hok Hp) as Hoff. assert (c ≠ 0) as Hc0 by (destruct Hc; lia).
  pose proof grow_live_B as HB'.
  subst rb.
  split; cbn; try done; try lia.
  * apply Z.divide_0_r.
  * rewrite (nonzero_insert _ 0 _ 0), nonzero_zero_slots, (truthy_nz (node_to_entry r)); try done.
    by apply node_to_entry_nz.
  * destruct (no_level _ _ _ _ _ _ Hok). lia.
  * intros _ i e Hi Hne. destruct (decide (i = 0%nat)) as [->|].
    { rewrite list_lookup_insert_eq in Hi. 2:{ rewrite length_zero_slots; lia. } injection Hi as <-.
      exists r, (with_parent c rn). rewrite HB' by done. eauto. }
    rewrite list_lookup_insert_ne in Hi by done. by apply zero_slots_lookup in Hi.
Qed.

Lemma grow_old_ok : node_ok (rnode (root st')) (heap st') (<[c := 0]> B) r 0 (with_parent c rn).
Proof.
  assert (r ≠ c) as Hrc by congruence. assert (aligned r) as Har by (by eapply live_aligned).
  pose proof (live_node Hinv r rb rn Hb Hn) as Hok. destruct (no_root _ _ _ _ _ _ Hok Hp) as [_ Hrb].
  pose proof (no_root_off _ _ _ _ _ _ Hok Hp) as Hoff. assert (c ≠ 0) as Hc0 by (destruct Hc; lia).
  pose proof grow_live_B as HB'.
  subst rb.
  split; cbn; try apply Hok; try done.
  -- intros _. exists 0. eexists. rewrite lookup_insert_eq. split; [done|]. split; [done|].
     cbn. rewrite Hoff. split; [done|]. split; [lia|]. split; [|lia].
     rewrite list_lookup_insert_eq; [done|]. rewrite length_zero_slots. lia.
  -- intros Hs i e Hi Hne.
     destruct (no_child _ _ _ _ _ _ Hok Hs i e Hi Hne) as (d & dn & -> & HBd & Hdn & Hpd & Hod).
     assert (d ≠ c) by congruence. assert (d ≠ r).
     { intros ->. assert (dn = rn) as -> by congruence.
       apply (live_nonnull Hinv r 0 Hb). congruence. }
     exists d, dn. rewrite HB', Hfr by done. done.
Qed.

Lemma grow_other_ok x bx :
  B !! x = Some bx → x ≠ c → x ≠ r →
  ∃ nx, heap st' !! x = Some nx ∧ node_ok (rnode (root st')) (heap st') (<[c := 0]> B) x bx nx.
Proof.
  intros Hx Hxc Hxr. destruct (inv_nodes _ _ Hinv x bx Hx) as (nx & Hnx & Hokx).
  assert (r ≠ c) as Hrc by congruence. assert (aligned r) as Har by (by eapply live_aligned).
  pose proof (live_node Hinv r rb rn Hb Hn) as Hok. destruct (no_root _ _ _ _ _ _ Hok Hp) as [_ Hrb].
  pose proof (no_root_off _ _ _ _ _ _ Hok Hp) as Hoff. assert (c ≠ 0) as Hc0 by (destruct Hc; lia).
  pose proof grow_live_B as HB'.
  exists nx. rewrite Hfr by done.
  split; [done|]. eapply node_ok_frame; [done| | |].
  -- intros Hpx. destruct (no_root _ _ _ _ _ _ Hokx Hpx) as [Hrx _].
     exfalso. apply Hxr, node_to_entry_inj; [by eapply live_aligned|done|congruence].
  -- intros _ pb pn HBp Hpn Hsp Hslp. assert (parent nx ≠ c) by congruence. rewrite HB' by done.
     destruct (decide (parent nx = r)) as [Heq|].
     ++ rewrite Heq in *. assert (pn = rn) as -> by congruence. eauto.
     ++ exists pn. rewrite Hfr by done. done.
  -- intros d dn HBd Hdn Hpd. assert (d ≠ c) by congruence.
     assert (d ≠ r). { intros ->. assert (dn = rn) as -> by congruence.
       apply (live_nonnull Hinv x bx Hx). congruence. }
     exists dn. rewrite HB', Hfr by done. done.
Qed.

Lemma grow_inv : inv st' (<[c := 0]> B).
Proof.
  assert (r ≠ c) as Hrc by congruence. assert (aligned r) as Har by (by eapply live_aligned).
  pose proof (live_node Hinv r rb rn Hb Hn) as Hok. destruct (no_root _ _ _ _ _ _ Hok Hp) as [_ Hrb].
  pose proof (no_root_off _ _ _ _ _ _ Hok Hp) as Hoff. assert (c ≠ 0) as Hc0 by (destruct Hc; lia).
  pose proof grow_live_B as HB'.
  destruct Hinv as [_ _ Hpend Hnd Hnl]. split.
  - intros x bx Hx. destruct (decide (x = c)) as [->|Hxc].
    { rewrite lookup_insert_eq in Hx. injection Hx as <-. eexists. split; [done|]. by apply grow_top_ok. }
    rewrite HB' in Hx by done. destruct (decide (x = r)) as [->|Hxr]; [|by apply grow_other_ok].
    assert (bx = 0) as -> by congruence. eexists. split; [done|apply grow_old_ok].
  - eapply (root_node _ _ _ c); [done| |done|done]. rewrite lookup_insert_eq. eauto.
  - intros x Hx. rewrite Hrcu in Hx. destruct (Hpend x Hx) as [HBx [nx Hnx]].
    assert (x ≠ c) by congruence. assert (x ≠ r) by congruence. rewrite HB', Hfr by done. eauto.
  - by rewrite Hrcu.
  - intros x [nx Hnx]. rewrite Hrcu. destruct (decide (x = c)) as [->|].
    { rewrite lookup_insert_eq. eauto. }
    rewrite HB' by done. destruct (decide (x = r)) as [->|]; [eauto|].
    rewrite Hfr in Hnx by done. eauto.
Qed.

Lemma grow_content idx v : content st' (<[c := 0]> B) idx v ↔ content st B idx v.
Proof.
  assert (B !! c = None) as HcB.
  { destruct (B !! c) eqn:HB; [|done]. destruct (live_heap Hinv _ _ HB). congruence. }
  destruct (no_level _ _ _ _ _ _ (live_node Hinv r rb rn Hb Hn)) as [Hlr _].
  assert (r ≠ c) by congruence. split.
  - intros [-> [Hv Hi] Hrv|x bx nx j HBx Hnx Hsx Hx Hv ->].
    { rewrite <- Hrv, Hr, internal_node_to_entry in Hi by done. done. }
    destruct (decide (x = c)) as [->|].
    { rewrite Hc' in Hnx. injection Hnx as <-. cbn in Hsx. lia. }
    rewrite lookup_insert_ne in HBx by done. destruct (decide (x = r)) as [->|].
    + rewrite Hn' in Hnx. injection Hnx as <-. by eapply content_leaf.
    + rewrite Hfr in Hnx by done. by eapply content_leaf.
  - intros [-> Hv Hrv|x bx nx j HBx Hnx Hsx Hx Hv ->].
    { exfalso. eapply (live_not_direct Hinv r rb); done. }
    assert (x ≠ c) by congruence. destruct (decide (x = r)) as [->|].
    + assert (nx = rn) as -> by congruence.
      eapply (content_leaf _ _ _ _ r bx (with_parent c rn)); try done. by rewrite lookup_insert_ne.
    + eapply content_leaf; [by rewrite lookup_insert_ne| |done..]. by rewrite Hfr.
Qed.
End grow.

(** *** Removing a node *)

(** A live node without entries has no node below it. *)
Lemma empty_no_child st B a b n x xb nx :
  inv st B → B !! a = Some b → heap st !! a = Some n → nonzero (slots n) = 0 →
  B !! x = Some xb → heap st !! x = Some nx → parent nx ≠ a.
Proof.
  intros Hinv Hb Hn Hz HBx Hnx Hp.
  destruct (no_parent _ _ _ _ _ _ (live_node Hinv x xb nx HBx Hnx)) as
    (pb & pn & HBp & Hpn & _ & _ & Hsl & _).
  { rewrite Hp. by eapply live_nonnull. }
  rewrite Hp in *. assert (pn = n) as -> by congruence.
  apply (nonzero_zero _ _ _ Hz) in Hsl. revert Hsl. apply node_to_entry_nz. by eapply live_aligned.
Qed.

Section unlink.
Context (st st' : tstate) (B : gmap Z Z) (a b : Z) (n pn pn' : radix_tree_node).
Context (Hinv : inv st B) (Hb : B !! a = Some b) (Hn : heap st !! a = Some n).
Context (Hz : nonzero (slots n) = 0) (Hp : parent n ≠ 0).
Context (Hpn : heap st !! parent n = Some pn) (Hpn' : heap st' !! parent n = Some pn').
Context (Hpl : same_place pn pn') (Hcnt : count pn' = count pn - 1).
Context (Hsl : slots pn' = <[Z.to_nat (offset n) := 0]> (slots pn)).
Context (Hfr : ∀ x, x ≠ parent n → heap st' !! x = heap st !! x).
Context (Hr : rnode (root st') = rnode (root st)) (Hrcu : rcu st' = a :: rcu st).

Lemma unlink_live x nx :
  heap st !! x = Some nx → ∃ nx', heap st' !! x = Some nx' ∧ same_place nx nx'.
Proof.
  intros Hx. destruct (decide (x = parent n)) as [->|].
  - exists pn'. assert (nx = pn) as -> by congruence. done.
  - exists nx. rewrite Hfr by done. done.
Qed.

Lemma unlink_slot :
  slots pn !! Z.to_nat (offset n) = Some (node_to_entry a) ∧ parent n ≠ a ∧
  shift pn = shift n + 6 ∧ (∃ pb, B !! parent n = Some pb) ∧ 0 ≤ offset n.
Proof.
  destruct (no_parent _ _ _ _ _ _ (live_node Hinv a b n Hb Hn) Hp) as
    (pb & pn0 & HBp & Hpn0 & Hsp & Hoff & Hslp & _).
  assert (pn0 = pn) as -> by congruence. split; [done|]. split; [|eauto with lia].
  intros Heq. rewrite Heq in Hpn. assert (pn = n) by congruence. subst. lia.
Qed.

Lemma unlink_live_B x : x ≠ a → (delete a B) !! x = B !! x.
Proof. intros Hx. by rewrite lookup_delete_ne. Qed.

Lemma unlink_no_child x bx nx : B !! x = Some bx → heap st !! x = Some nx → parent nx ≠ a.
Proof. intros ??. by eapply (empty_no_child st B a b n). Qed.

(** The parent, and the other nodes. *)
Lemma unlink_parent_ok pb :
  B !! parent n = Some pb → node_ok (rnode (root st')) (heap st') (delete a B) (parent n) pb pn'.
Proof.
  intros HBp. pose proof (live_node Hinv _ _ _ HBp Hpn) as Hokp.
  destruct unlink_slot as (Hslp & Hpa & Hsp & [pb' HBp'] & Hoff0). destruct Hpl as (Hs' & Ho' & Hp').
  assert (aligned a) as Ha by (by eapply live_aligned). pose proof unlink_live_B as HB'.
  pose proof unlink_no_child as Hnoch.
  destruct (no_level _ _ _ _ _ _ (live_node Hinv a b n Hb Hn)) as [Hln _].
  split; rewrite ?Hs', ?Ho', ?Hp', ?Hsl, ?length_insert; try apply Hokp.
  * rewrite (nonzero_insert _ _ _ _ Hslp), Hcnt, (no_count _ _ _ _ _ _ Hokp).
    rewrite (truthy_nz (node_to_entry a)) by (by apply node_to_entry_nz). cbn. lia.
  * intros ?. rewrite Hr. by apply Hokp.
  * intros Hpp. destruct (no_parent _ _ _ _ _ _ Hokp Hpp) as (qb & qn & HBq & Hqn & Hsq & ?).
    pose proof (Hnoch _ _ _ HBp Hpn).
    exists qb, qn. rewrite Ho', Hp', Hs', HB', Hfr; [done| |done].
    intros Heq. rewrite Heq in Hqn. assert (qn = pn) by congruence. subst. lia.
  * lia.
  * intros Hs0 j ej Hj Hne. destruct (decide (Z.to_nat (offset n) = j)) as [<-|Hij].
    { rewrite list_lookup_insert_eq in Hj by (by eapply lookup_lt_Some). congruence. }
    rewrite list_lookup_insert_ne in Hj by done.
    destruct (no_child _ _ _ _ _ _ Hokp Hs0 j ej Hj Hne) as (d & dn & -> & HBd & Hdn & Hpd & Hod).
    assert (d ≠ a). { intros ->. assert (dn = n) as -> by congruence. lia. }
    destruct (unlink_live d dn Hdn) as (dn' & Hdn' & _ & Hod' & Hpd').
    exists d, dn'. rewrite HB', Hpd', Hod' by done. done.
Qed.

Lemma unlink_other_ok x bx :
  B !! x = Some bx → x ≠ a → x ≠ parent n →
  ∃ nx, heap st' !! x = Some nx ∧ node_ok (rnode (root st')) (heap st') (delete a B) x bx nx.
Proof.
  intros Hx Hxa Hxp. destruct (inv_nodes _ _ Hinv x bx Hx) as (nx & Hnx & Hokx).
  destruct unlink_slot as (Hslp & Hpa & Hsp & [pb' HBp'] & Hoff0). destruct Hpl as (Hs' & Ho' & Hp').
  assert (aligned a) as Ha by (by eapply live_aligned). pose proof unlink_live_B as HB'.
  pose proof unlink_no_child as Hnoch.
  exists nx. rewrite Hfr by done.
  split; [done|]. eapply node_ok_frame; [done|done| |].
  * intros Hpx qb qn HBq Hqn Hsq Hslq. pose proof (Hnoch _ _ _ Hx Hnx).
    rewrite HB' by done. destruct (decide (parent nx = parent n)) as [Heq|].
    -- rewrite Heq in *. assert (qn = pn) as -> by congruence. exists pn'.
       rewrite Hs', Hsl. repeat split; try done. rewrite list_lookup_insert_ne; [done|].
       intros Heqi. rewrite <- Heqi, Hslp in Hslq. injection Hslq as Hz'.
       apply Hxa. apply node_to_entry_inj; [by eapply live_aligned|done..].
    -- exists qn. rewrite Hfr by done. done.
  * intros d dn HBd Hdn Hpd. destruct (unlink_live d dn Hdn) as (dn' & ? & _ & Hod & Hpd').
    assert (d ≠ a). { intros ->. assert (dn = n) as -> by congruence. congruence. }
    exists dn'. by rewrite HB', Hpd', Hod.
Qed.

Lemma unlink_inv : inv st' (delete a B).
Proof.
  destruct unlink_slot as (_ & Hpa & _). pose proof unlink_live_B as HB'. destruct Hinv as [_ Hroot Hpend Hnd Hnl]. split.
  - intros x bx Hx. assert (x ≠ a) as Hxa. { intros ->. by rewrite lookup_delete_eq in Hx. }
    rewrite HB' in Hx by done. destruct (decide (x = parent n)) as [->|Hxp]; [|by apply unlink_other_ok].
    exists pn'. split; [done|by apply unlink_parent_ok].
  - destruct Hroot as [? HB|? HB|r rn Hrn HBr Hhr Hpr].
    + rewrite HB, lookup_empty in Hb. done.
    + rewrite HB, lookup_empty in Hb. done.
    + destruct (unlink_live r rn Hhr) as (rn' & Hrn' & _ & _ & Hpr').
      assert (r ≠ a) by congruence.
      eapply (root_node _ _ _ r rn'); rewrite ?HB'; congruence.
  - intros x. rewrite Hrcu. intros [->|Hx]%elem_of_cons.
    { rewrite lookup_delete_eq, Hfr by done. eauto. }
    destruct (Hpend x Hx) as [HBx [nx Hnx]]. assert (x ≠ a) by congruence.
    destruct (unlink_live x nx Hnx) as (nx' & ? & _). rewrite HB' by done. eauto.
  - rewrite Hrcu. constructor; [|done]. intros Hx. destruct (Hpend a Hx). congruence.
  - intros x [nx Hnx]. rewrite Hrcu. destruct (decide (x = a)) as [->|].
    { right. left. }
    rewrite HB' by done. destruct (Hnl x) as [?|?].
    + destruct (decide (x = parent n)) as [->|]; [eauto|]. rewrite Hfr in Hnx by done. eauto.
    + by left.
    + right. by right.
Qed.

Lemma unlink_content idx v : content st' (delete a B) idx v ↔ content st B idx v.
Proof.
  destruct unlink_slot as (Hslp & Hpa & Hsp & [pb HBp] & _).
  destruct (no_level _ _ _ _ _ _ (live_node Hinv a b n Hb Hn)) as [Hln _].
  destruct Hpl as (Hs' & Ho' & Hp'). split.
  - intros [-> Hv Hrv|x bx nx j HBx Hnx Hsx Hx Hv ->].
    { apply content_direct; congruence. }
    assert (x ≠ a). { intros ->. by rewrite lookup_delete_eq in HBx. }
    rewrite lookup_delete_ne in HBx by done.
    assert (x ≠ parent n). { intros ->. assert (nx = pn') as -> by congruence. lia. }
    rewrite Hfr in Hnx by done. by eapply content_leaf.
  - intros [-> Hv Hrv|x bx nx j HBx Hnx Hsx Hx Hv ->].
    { apply content_direct; congruence. }
    assert (x ≠ a). { intros ->. assert (nx = n) as -> by congruence.
      apply (nonzero_zero _ _ _ Hz) in Hx. done. }
    assert (x ≠ parent n). { intros ->. assert (nx = pn) as -> by congruence. lia. }
    eapply content_leaf; [by rewrite lookup_delete_ne| |done..]. by rewrite Hfr.
Qed.
End unlink.

(** The root node without entries is the only live node. *)
Lemma empty_root_alone st B r n x xb :
  inv st B → B !! r = Some 0 → heap st !! r = Some n → rnode (root st) = node_to_entry r →
  nonzero (slots n) = 0 → B !! x = Some xb → x = r.
Proof.
  intros Hinv Hb Hn Hr Hz HBx. destruct (live_heap Hinv x xb HBx) as [nx Hnx].
  destruct (live_below_root Hinv x xb nx HBx Hnx) as (r' & rn & Hr' & HBr & Hrn & _ & Hor).
  assert (r = r') as <- by (apply node_to_entry_inj; [by eapply live_aligned..|congruence]).
  assert (rn = n) as -> by congruence. destruct Hor as [?|Hlt]; [done|]. exfalso.
  assert (base_of (shift nx) xb = xb) as Hbase.
  { apply (live_base Hinv x xb nx); [done..|]. pose proof (no_level _ _ _ _ _ _ (live_node Hinv x xb nx HBx Hnx)) as [? _].
    pose proof (pow2_pos (shift nx + 6)). lia. }
  destruct (live_ancestor Hinv xb r 0 n x xb nx) as (e & He & Hne); try done.
  - apply (live_in_root Hinv r n x nx xb); try done. by rewrite Hbase.
  - apply Hne. by eapply nonzero_zero.
Qed.

Lemma unlink_root st st' B r b n :
  inv st B → B !! r = Some b → heap st !! r = Some n → parent n = 0 → nonzero (slots n) = 0 →
  heap st' = heap st → rnode (root st') = 0 → rcu st' = r :: rcu st →
  inv st' ∅ ∧ ∀ idx v, content st' ∅ idx v ↔ content st B idx v.
Proof.
  intros Hinv Hb Hn Hp Hz Hh Hr Hrcu.
  destruct (no_root _ _ _ _ _ _ (live_node Hinv r b n Hb Hn) Hp) as [Hr0 ->].
  assert (∀ x xb, B !! x = Some xb → x = r) as Halone.
  { intros. by eapply (empty_root_alone st B r n). }
  pose proof Hinv as [_ _ Hpend Hnd Hnl]. split.
  - split.
    + intros a b Ha. by rewrite lookup_empty in Ha.
    + by apply root_null.
    + intros a. rewrite Hrcu, Hh, lookup_empty. intros [->|Ha]%elem_of_cons; [eauto|].
      split; [done|]. by apply Hpend.
    + rewrite Hrcu. constructor; [|done]. intros Hx. destruct (Hpend r Hx). congruence.
    + intros a Ha. rewrite Hh in Ha. rewrite Hrcu. right. destruct (Hnl a Ha) as [[b ->%Halone]|?]; set_solver.
  - intros idx v. split.
    + intros [-> [Hv Hi] Hrv|a b nn i Hb']; [lia|]. by rewrite lookup_empty in Hb'.
    + intros [-> Hv Hrv|a b nn i Hb' Hnn Hs Hi Hv ->].
      { exfalso. by eapply (live_not_direct Hinv r). }
      apply Halone in Hb' as Heq. subst a. assert (nn = n) as -> by congruence.
      by apply (nonzero_zero _ _ _ Hz) in Hi.
Qed.

(** *** The root's only child becomes the root *)

Section shrink.
Context (st : tstate) (B : gmap Z Z) (r rb c : Z) (rn cn : radix_tree_node).
Context (Hinv : inv st B) (Hb : B !! r = Some rb) (Hn : heap st !! r = Some rn).
Context (Hp : parent rn = 0) (Hs : shift rn ≠ 0) (Hcnt : count rn = 1).
Context (Hsl : slots rn !! 0%nat = Some (node_to_entry c)).
Context (Hcl : aligned c) (Hcn : heap st !! c = Some cn).

Lemma shrink_child :
  B !! c = Some 0 ∧ parent cn = r ∧ offset cn = 0 ∧ shift rn = shift cn + 6 ∧ c ≠ r.
Proof.
  pose proof (live_node Hinv r rb rn Hb Hn) as Hok.
  destruct (no_root _ _ _ _ _ _ Hok Hp) as [_ Hrb].
  destruct (no_child _ _ _ _ _ _ Hok Hs 0%nat (node_to_entry c)) as
    (d & dn & Heq & [db HBd] & Hdn & Hpd & Hod); [done|by apply node_to_entry_nz|].
  apply node_to_entry_inj in Heq as <-; [|done|by eapply live_aligned].
  assert (dn = cn) as -> by congruence.
  destruct (no_parent _ _ _ _ _ _ (live_node Hinv c db cn HBd Hcn)) as
    (pb & pn & HBp & Hpn & Hsp & _ & _ & Hdb). { rewrite Hpd. by eapply live_nonnull. }
  rewrite Hpd in *. assert (pn = rn) as -> by congruence. assert (pb = rb) as -> by congruence.
  rewrite HBd, Hdb, Hrb, Hod. split; [done|]. split; [done|]. split; [done|]. split; [done|].
  intros ->. assert (cn = rn) as -> by congruence. lia.
Qed.

(** The child is the only node whose parent is the root. *)
Lemma shrink_only x xb nx :
  B !! x = Some xb → heap st !! x = Some nx → parent nx = r → x = c.
Proof.
  intros HBx Hnx Hpx. pose proof (live_node Hinv r rb rn Hb Hn) as Hok.
  destruct (no_parent _ _ _ _ _ _ (live_node Hinv x xb nx HBx Hnx)) as
    (pb & pn & HBp & Hpn & _ & _ & Hslp & _). { rewrite Hpx. by eapply live_nonnull. }
  rewrite Hpx in *. assert (pn = rn) as -> by congruence.
  assert (aligned x) by (by eapply live_aligned).
  destruct (decide (Z.to_nat (offset nx) = 0%nat)) as [H0|H0].
  - rewrite H0 in Hslp. apply node_to_entry_inj; [done..|congruence].
  - exfalso. apply (node_to_entry_nz x); [done|].
    eapply (nonzero_one (slots rn) 0); [|done|by apply node_to_entry_nz|done|done].
    by rewrite <- (no_count _ _ _ _ _ _ Hok).
Qed.

Context (st' : tstate) (rn' : radix_tree_node).
Context (Hcn' : heap st' !! c = Some (with_parent 0 cn)) (Hn' : heap st' !! r = Some rn').
Context (Hfr : ∀ x, x ≠ r → x ≠ c → heap st' !! x = heap st !! x).
Context (Hr : rnode (root st') = node_to_entry c) (Hrcu : rcu st' = r :: rcu st).

Lemma shrink_inv : inv st' (delete r B).
Proof.
  destruct shrink_child as (HBc & Hpc & Hoc & Hsc & Hcr).
  assert (∀ x, x ≠ r → (delete r B) !! x = B !! x) as HB'.
  { intros x Hx. by rewrite lookup_delete_ne. }
  pose proof (live_node Hinv c 0 cn HBc Hcn) as Hokc.
  pose proof (live_nonnull Hinv _ _ Hb) as Hr0. pose proof (live_nonnull Hinv _ _ HBc) as Hc0.
  pose proof shrink_only as Honly.
  pose proof (no_root _ _ _ _ _ _ (live_node Hinv r rb rn Hb Hn) Hp) as [Hrr _].
  destruct Hinv as [Hnodes Hroot Hpend Hnd Hnl]. split.
  - intros x bx Hx. assert (x ≠ r) as Hxr. { intros ->. by rewrite lookup_delete_eq in Hx. }
    rewrite HB' in Hx by done. destruct (decide (x = c)) as [->|Hxc].
    + assert (bx = 0) as -> by congruence. eexists. split; [done|].
      split; cbn; try apply Hokc; try done.
      intros Hs0 i e Hi Hne.
      destruct (no_child _ _ _ _ _ _ Hokc Hs0 i e Hi Hne) as (d & dn & -> & HBd & Hdn & Hpd & Hod).
      assert (d ≠ r). { intros ->. assert (dn = rn) as -> by congruence. congruence. }
      assert (d ≠ c). { intros ->. assert (dn = cn) as -> by congruence. congruence. }
      exists d, dn. rewrite HB', Hfr by done. done.
    + destruct (Hnodes x bx Hx) as (nx & Hnx & Hokx). exists nx. rewrite Hfr by done.
      split; [done|]. eapply node_ok_frame; [done| | |].
      * intros Hpx. destruct (no_root _ _ _ _ _ _ Hokx Hpx) as [Hrx _]. exfalso.
        apply Hxr, node_to_entry_inj; [by eapply live_aligned..|congruence].
      * intros Hpx qb qn HBq Hqn Hsq Hslq.
        assert (parent nx ≠ r). { intros ?. by apply Hxc, (Honly x bx nx). }
        rewrite HB' by done. destruct (decide (parent nx = c)) as [Heq|].
        -- rewrite Heq in *. assert (qn = cn) as -> by congruence. eauto.
        -- exists qn. rewrite Hfr by done. done.
      * intros d dn HBd Hdn Hpd. pose proof (live_nonnull Hinv _ _ Hx).
        assert (d ≠ r). { intros ->. assert (dn = rn) as -> by congruence. congruence. }
        assert (d ≠ c). { intros ->. assert (dn = cn) as -> by congruence. congruence. }
        exists dn. by rewrite HB', Hfr.
  - eapply (root_node _ _ _ c); [done| |done|done]. rewrite HB' by done. eauto.
  - intros x. rewrite Hrcu. intros [->|Hx]%elem_of_cons.
    { rewrite lookup_delete_eq. eauto. }
    destruct (Hpend x Hx) as [HBx [nx Hnx]]. assert (x ≠ r) by congruence.
    assert (x ≠ c) by congruence. rewrite HB', Hfr by done. eauto.
  - rewrite Hrcu. constructor; [|done]. intros Hx. destruct (Hpend r Hx). congruence.
  - intros x [nx Hnx]. rewrite Hrcu. destruct (decide (x = r)) as [->|].
    { right. left. }
    rewrite HB' by done. destruct (decide (x = c)) as [->|]; [eauto|].
    rewrite Hfr in Hnx by done. destruct (Hnl x) as [?|?]; [eauto|by left|right; by right].
Qed.

Lemma shrink_content idx v : content st' (delete r B) idx v ↔ content st B idx v.
Proof.
  destruct shrink_child as (HBc & Hpc & Hoc & Hsc & Hcr). split.
  - intros [-> [Hv Hi] Hrv|x bx nx j HBx Hnx Hsx Hx Hv ->].
    { rewrite <- Hrv, Hr, internal_node_to_entry in Hi by done. done. }
    assert (x ≠ r). { intros ->. by rewrite lookup_delete_eq in HBx. }
    rewrite lookup_delete_ne in HBx by done. destruct (decide (x = c)) as [->|].
    + rewrite Hcn' in Hnx. injection Hnx as <-. by eapply content_leaf.
    + rewrite Hfr in Hnx by done. by eapply content_leaf.
  - intros [-> Hv Hrv|x bx nx j HBx Hnx Hsx Hx Hv ->].
    { exfalso. by eapply (live_not_direct Hinv r rb). }
    assert (x ≠ r). { intros ->. assert (nx = rn) as -> by congruence. done. }
    destruct (decide (x = c)) as [->|].
    + assert (nx = cn) as -> by congruence.
      eapply (content_leaf _ _ _ _ c bx (with_parent 0 cn)); try done. by rewrite lookup_delete_ne.
    + eapply content_leaf; [by rewrite lookup_delete_ne| |done..]. by rewrite Hfr.
Qed.
End shrink.
