(* ===== verification/RadixInsert.v ===== *)
(** * The radix tree: insertion

    [radix_tree_insert] against the finite map the tree represents: growing the
    tree above the root, adding the nodes on the way down, and storing the item. *)
From S2P Require Import Prelude RadixDefs RadixInv RadixLookup RadixUpdate.

Section insert.
Context `{!Calloc radix_tree_node}.

(** The last call of [calloc] found no memory. *)
Definition alloc_fails (st : tstate) : Prop := ∃ t, ticks st = S t ∧ calloc t (heap st) = None.

(** The tree changed its nodes, not its content. *)
Definition same_content (st : tstate) (B : gmap Z Z) (st' : tstate) (B' : gmap Z Z) : Prop :=
  ∀ idx v, content st' B' idx v ↔ content st B idx v.

Lemma same_content_refl st B : same_content st B st B.
Proof. done. Qed.

Lemma same_content_trans st B st1 B1 st2 B2 :
  same_content st B st1 B1 → same_content st1 B1 st2 B2 → same_content st B st2 B2.
Proof. unfold same_content. intros H1 H2 idx v. by rewrite H2, H1. Qed.

(** The tree gained nodes; [x] was the one that could be empty, [y] is now. *)
Definition grown (x y : Z) (st : tstate) (B : gmap Z Z) (st' : tstate) (B' : gmap Z Z) : Prop :=
  B ⊆ B' ∧ (full st B x → full st' B' y).

Lemma grown_refl x st B : grown x x st B st B.
Proof. done. Qed.

Lemma grown_trans x y z st B st1 B1 st2 B2 :
  grown x y st B st1 B1 → grown y z st1 B1 st2 B2 → grown x z st B st2 B2.
Proof. intros [? ?] [? ?]. split; [by transitivity B1|auto]. Qed.

(** A new node [c], and the counts of the others, zero at most at [x] and [y]. *)
Lemma grown_add x y c cb st B st1 n :
  B !! c = None → heap st1 !! c = Some n → (count n = 0 → c = y) →
  (∀ a b m m', B !! a = Some b → heap st !! a = Some m → heap st1 !! a = Some m' → count m' = 0 →
     count m = 0 ∧ a ≠ x ∨ a = y) →
  (∀ a b, B !! a = Some b → is_Some (heap st !! a)) →
  grown x y st B st1 (<[c := cb]> B).
Proof.
  intros Hfresh Hc Hn Hold Hlive. split; [by apply insert_subseteq|].
  intros Hfull a b m Hb Hm Hz. destruct (decide (a = c)) as [->|Hne].
  - apply Hn. by simplify_eq.
  - rewrite lookup_insert_ne in Hb by done. destruct (Hlive a b Hb) as [m0 Hm0].
    destruct (Hold a b m0 m Hb Hm0 Hm Hz) as [[Hz0 Hx]|]; [|done].
    destruct Hx. by eapply Hfull.
Qed.

(** Only what the root, the nodes and the pending list hold matters. *)
Lemma inv_ticks st B t :
  inv st B → inv (TState (root st) (heap st) (rcu st) t (tverbose st)) B ∧
  same_content st B (TState (root st) (heap st) (rcu st) t (tverbose st)) B.
Proof.
  intros [? ? ? ? ?]. split; [by split|]. intros idx v. split.
  - intros [|]; [by apply content_direct|by eapply content_leaf].
  - intros [|]; [by apply content_direct|by eapply content_leaf].
Qed.

Lemma wp_node_alloc par s off cnt nrv (Q : Z → tstate → Prop) st :
  (∀ a, aligned a → heap st !! a = None →
     Q a (TState (root st) (<[a := Node cnt s off nrv par zero_slots zero_tags]> (heap st))
                 (rcu st) (S (ticks st)) (tverbose st))) →
  (alloc_fails (TState (root st) (heap st) (rcu st) (S (ticks st)) (tverbose st)) →
   Q 0 (TState (root st) (heap st) (rcu st) (S (ticks st)) (tverbose st))) →
  wp (radix_tree_node_alloc par s off cnt nrv) Q st.
Proof.
  intros Hok Hfail. unfold wp, radix_tree_node_alloc.
  destruct (calloc (ticks st) (heap st)) as [a|] eqn:Ha.
  - apply Hok; [|by eapply calloc_fresh]. split; [by eapply calloc_aligned|by eapply calloc_range].
  - apply Hfail. by exists (ticks st).
Qed.

(** ** Growing the tree *)

Lemma extend_maxshift_spec fuel idx s st :
  level s → 0 ≤ idx < 2 ^ 64 → 66 - s ≤ 6 * Z.of_nat fuel →
  wp (extend_maxshift fuel idx s)
    (λ ms st', st' = st ∧ level ms ∧ s ≤ ms ∧ base_of ms idx = 0) st.
Proof.
  revert s. induction fuel as [|fuel IH]; intros s Hl Hi Hf.
  { destruct Hl. lia. }
  cbn [extend_maxshift]. destruct (shift_maxindex s <? idx) eqn:Hlt.
  - assert (s ≠ 60) as Hs60.
    { intros ->. rewrite shift_maxindex_spec in Hlt by done.
      apply Z.ltb_lt in Hlt. change (Z.min (2 ^ (60 + 6)) (2 ^ 64)) with (2 ^ 64) in Hlt. lia. }
    destruct Hl as [Hl Hm]. unfold RADIX_TREE_MAP_SHIFT. rewrite wrap_small by lia.
    eapply wp_mono; [apply IH; [split; zlia|done|lia]|].
    intros ms st' (-> & ? & ? & ?). eauto with lia.
  - rewrite wp_ret. rewrite shift_maxindex_lt in Hlt by done. eauto with lia.
Qed.

(** The root is the live node [r] of shift [s]. *)
Definition root_at (st : tstate) (B : gmap Z Z) (r s : Z) : Prop :=
  ∃ rn, rnode (root st) = node_to_entry r ∧ B !! r = Some 0 ∧ heap st !! r = Some rn ∧
    parent rn = 0 ∧ shift rn = s.

Lemma extend_grow_spec fuel st B r shft maxshift :
  inv st B → root_at st B r (shft - 6) → level maxshift → level shft → shft ≤ maxshift →
  maxshift - shft + 6 ≤ 6 * Z.of_nat fuel →
  wp (extend_grow fuel (node_to_entry r) shft maxshift)
    (λ e st', ∃ B', inv st' B' ∧ same_content st B st' B' ∧ grown 0 0 st B st' B' ∧
       (e = - ENOMEM ∧ alloc_fails st' ∨
        e = maxshift + 6 ∧ ∃ r', root_at st' B' r' maxshift)) st.
Proof.
  revert st B r shft. induction fuel as [|fuel IH]; intros st B r shft Hinv Hroot Hms Hsh Hle Hf.
  { lia. }
  destruct Hroot as (rn & Hr & HBr & Hrn & Hp & Hs).
  assert (aligned r) as Har by (by eapply live_aligned).
  cbn [extend_grow]. rewrite wp_bind. apply wp_node_alloc; cycle 1.
  { intros Hfail. rewrite truthy_0, wp_ret. destruct (inv_ticks st B (S (ticks st)) Hinv).
    exists B. split; [done|]. split; [done|]. split; [done|]. by left. }
  intros c Hc Hfresh. rewrite (truthy_nz c) by (destruct Hc; lia).
  assert (r ≠ c) as Hrc by congruence.
  rewrite wp_bind, entry_to_node_entry by done.
  rewrite (wp_store_node r _ rn) by (cbn; by rewrite lookup_insert_ne).
  rewrite wp_bind, (wp_store_slot c (Node 1 shft 0 0 0 zero_slots zero_tags) 0 0).
  2:{ cbn. by rewrite lookup_insert_ne, lookup_insert_eq. } 2:{ lia. } 2:{ done. }
  rewrite wp_bind, wp_put_rnode. cbn [heap set_heap].
  set (st1 := set_rnode _ _). destruct Hsh as [Hsh Hshm].
  assert (heap st1 !! c = Some (Node 1 (shift rn + 6) 0 0 0
            (<[0%nat := node_to_entry r]> zero_slots) zero_tags)) as H1c.
  { subst st1. cbn. rewrite lookup_insert_eq. unfold with_slots. cbn. do 2 f_equal. lia. }
  assert (heap st1 !! r = Some (with_parent c rn)) as H1r.
  { subst st1. cbn. by rewrite lookup_insert_ne, lookup_insert_eq. }
  assert (∀ x, x ≠ r → x ≠ c → heap st1 !! x = heap st !! x) as H1fr.
  { intros x ??. subst st1. cbn. by rewrite !lookup_insert_ne. }
  assert (level (shift rn + 6)) as Hl1 by (rewrite Hs; split; zlia).
  assert (inv st1 (<[c := 0]> B)) as Hinv1 by (by eapply grow_inv).
  assert (same_content st B st1 (<[c := 0]> B)) as Hc1 by (intros ??; by eapply grow_content).
  assert (grown 0 0 st B st1 (<[c := 0]> B)) as Hg1.
  { eapply grown_add; [|done|done| |by apply (live_heap Hinv)].
    - destruct (B !! c) eqn:HB; [|done]. destruct (live_heap Hinv _ _ HB). congruence.
    - intros a b m m' Hb Hm Hm' Hz. left. pose proof (live_nonnull Hinv _ _ Hb). split; [|done].
      destruct (decide (a = r)) as [->|]; [simplify_eq; done|].
      rewrite H1fr in Hm' by congruence. congruence. }
  assert (root_at st1 (<[c := 0]> B) c shft) as Hroot1.
  { eexists. rewrite H1c, lookup_insert_eq. repeat split. cbn. lia. }
  clearbody st1. unfold RADIX_TREE_MAP_SHIFT. rewrite wrap_small by lia.
  destruct (Z.leb_spec (shft + 6) maxshift).
  - eapply wp_mono.
    { apply (IH st1 (<[c := 0]> B) c (shft + 6)); [done| |done| |done|lia].
      - by replace (shft + 6 - 6) with shft by lia.
      - destruct Hms. split; zlia. }
    intros e st' (B' & ? & ? & ? & ?). exists B'. split; [done|].
    split; [by eapply same_content_trans|]. split; [by eapply grown_trans|done].
  - rewrite wp_ret. exists (<[c := 0]> B). split; [done|]. split; [done|]. split; [done|]. right.
    destruct Hms. assert (shft = maxshift) as -> by zlia. eauto.
Qed.

(** Within the range of a tree whose next level has shift [shft]. *)
Definition extended (st : tstate) (B : gmap Z Z) (idx shft : Z) : Prop :=
  level (shft - 6) ∧ base_of (shft - 6) idx = 0 ∧
  (rnode (root st) = 0 ∧ B = ∅ ∨ ∃ r, root_at st B r (shft - 6)).

Lemma extend_spec st B idx shft :
  inv st B → 0 ≤ idx < 2 ^ 64 → level shft →
  (rnode (root st) = 0 ∧ B = ∅ ∨ ∃ r, root_at st B r (shft - 6)) →
  wp (radix_tree_extend idx shft)
    (λ e st', ∃ B', inv st' B' ∧ same_content st B st' B' ∧ grown 0 0 st B st' B' ∧
       (e = - ENOMEM ∧ alloc_fails st' ∨ extended st' B' idx e)) st.
Proof.
  intros Hinv Hi Hsh Hroot. unfold radix_tree_extend. rewrite wp_bind.
  eapply wp_mono.
  { apply (extend_maxshift_spec LEVELS idx shft st); [done|done|].
    change (Z.of_nat LEVELS) with 12. destruct Hsh. lia. }
  intros ms st' (-> & Hms & Hle & Hb). rewrite wp_bind, wp_get_rnode.
  unfold RADIX_TREE_MAP_SHIFT. destruct Hroot as [[Hr ->]|[r Hroot]].
  - rewrite Hr, truthy_0, wp_ret. exists ∅. split; [done|]. split; [done|]. split; [done|]. right.
    unfold extended. replace (ms + 6 - 6) with ms by lia. auto.
  - pose proof Hroot as (rn & Hr & HBr & _). rewrite Hr.
    rewrite (truthy_nz (node_to_entry r)) by (by eapply node_to_entry_nz, live_aligned).
    eapply wp_mono.
    { apply (extend_grow_spec LEVELS st B r shft ms); try done.
      change (Z.of_nat LEVELS) with 12. destruct Hsh, Hms. lia. }
    intros e st' (B' & ? & ? & ? & [?|(-> & r' & ?)]); exists B'; eauto.
    split; [done|]. split; [done|]. split; [done|]. right. unfold extended.
    replace (ms + 6 - 6) with ms by lia. eauto.
Qed.

(** ** The way down *)

(** Where the walk of [__radix_tree_create] stands: above the root, or at the
    slot of the index in a node that covers it. *)
Inductive at_pos (st : tstate) (B : gmap Z Z) (idx : Z) : Z → Z → Z → slotref → Z → Prop :=
| pos_direct : B = ∅ → idx = 0 → at_pos st B idx 0 (rnode (root st)) 0 SlotRoot 0
| pos_top shft : extended st B idx shft → at_pos st B idx shft (rnode (root st)) 0 SlotRoot 0
| pos_node a n e : B !! a = Some (base_of (shift n) idx) → heap st !! a = Some n →
    slots n !! Z.to_nat (digit (shift n) idx) = Some e →
    at_pos st B idx (shift n) e a (SlotNode a (digit (shift n) idx)) (digit (shift n) idx).

(** The live node [c] of shift [s] covers the index. *)
Definition covers (st : tstate) (B : gmap Z Z) (idx c s : Z) : Prop :=
  ∃ cn, heap st !! c = Some cn ∧ shift cn = s ∧ B !! c = Some (base_of s idx).

Lemma pos_child st B idx shft child node slot off :
  inv st B → at_pos st B idx shft child node slot off → 0 < shft → child ≠ 0 →
  ∃ c, child = node_to_entry c ∧ covers st B idx c (shft - 6).
Proof.
  intros Hinv [HB ->|s (Hl & Hb & [[Hr _]|(r & rn & Hr & HBr & Hrn & _ & Hs)])|a n e Hb Hn He] Hs0 Hne.
  - lia.
  - done.
  - exists r. split; [done|]. exists rn. by rewrite Hb.
  - destruct (live_child Hinv a n idx e) as (c & cn & -> & Hcn & Hcs & Hcb); try done; [lia|].
    exists c. split; [done|]. exists cn. by rewrite <- Hcs.
Qed.

Lemma pos_null st B idx shft node slot off v :
  inv st B → at_pos st B idx shft 0 node slot off → 0 < shft → ¬ content st B idx v.
Proof.
  intros Hinv Hpos Hs0. remember 0 as child eqn:Hc in Hpos.
  destruct Hpos as [HB ->|s (Hl & Hb & [[Hr HB]|(r & rn & Hr & HBr & Hrn & _ & Hs)])|a n e Hb Hn He].
  - lia.
  - intros [? [? _] ?|a b n i Hba]; [lia|]. subst B. by rewrite lookup_empty in Hba.
  - exfalso. rewrite Hr in Hc. revert Hc. apply node_to_entry_nz. by eapply live_aligned.
  - subst e. eapply content_of_null; try done. lia.
Qed.

(** A node with a child is not empty. *)
Lemma pos_full st B idx shft child node slot off c :
  inv st B → at_pos st B idx shft child node slot off → child ≠ 0 → grown node c st B st B.
Proof.
  intros Hinv Hpos Hne. split; [done|]. intros Hfull x b nx HBx Hnx Hz.
  pose proof (Hfull x b nx HBx Hnx Hz) as Hx. exfalso.
  destruct Hpos as [HB _|s _|a n e Hb Hn He]; [by subst B|by apply (live_nonnull Hinv) in HBx|].
  subst x. assert (nx = n) as -> by congruence. pose proof (live_node Hinv _ _ _ Hb Hn) as Hok.
  rewrite (no_count _ _ _ _ _ _ Hok) in Hz. by eapply (nonzero_zero (slots n)) in He.
Qed.

(** One level of the walk adds a node where the slot is NULL. *)
Lemma pos_add st B idx shft node slot off :
  inv st B → 0 ≤ idx < 2 ^ 64 → at_pos st B idx shft 0 node slot off → 0 < shft →
  wp (c ← radix_tree_node_alloc node (shft - 6) off 0 0;
      if truthy c then
        write_slot slot (node_to_entry c);;
        (if truthy node
         then store_node node (λ n, with_count (u32 (count n + 1)) n)
         else mret ());;
        mret (Some c)
      else mret None)
    (λ c st', match c with
       | None => alloc_fails st' ∧ inv st' B ∧ same_content st B st' B
       | Some c => ∃ B', aligned c ∧ inv st' B' ∧ same_content st B st' B' ∧ grown node c st B st' B' ∧
           covers st' B' idx c (shft - 6)
       end) st.
Proof.
  intros Hinv Hi Hpos Hs0. rewrite wp_bind. apply wp_node_alloc; cycle 1.
  { intros Hfail. rewrite truthy_0, wp_ret. by destruct (inv_ticks st B (S (ticks st)) Hinv). }
  intros c Hc Hfresh. rewrite (truthy_nz c) by (destruct Hc; lia).
  remember 0 as child eqn:Hch in Hpos.
  destruct Hpos as [HB ->|s (Hl & Hb & [[Hr ->]|(r & rn & Hr & HBr & Hrn & _ & Hs)])|a n e Hb Hn He].
  - lia.
  - cbn [write_slot]. rewrite truthy_0, wp_bind, wp_put_rnode, wp_bind, wp_ret, wp_ret.
    set (st1 := set_rnode _ _).
    destruct (link_root st st1 c (s - 6) 0) as [Hinv1 Hc1]; try done.
    exists {[c := 0]}. split; [done|]. split; [done|]. split; [done|]. split.
    { eapply (grown_add 0 c c 0); [done|cbn; by rewrite lookup_insert_eq|done| |]; by intros ? ?. }
    eexists. rewrite lookup_singleton_eq, Hb. cbn. by rewrite lookup_insert_eq.
  - exfalso. rewrite Hr in Hch. revert Hch. apply node_to_entry_nz. by eapply live_aligned.
  - subst e. pose proof (live_node Hinv _ _ _ Hb Hn) as Hok. pose proof (digit_range (shift n) idx).
    destruct (no_level _ _ _ _ _ _ Hok) as [Hl Hm].
    assert (a ≠ c) as Hac by congruence.
    cbn [write_slot]. rewrite (truthy_nz a) by (by eapply live_nonnull).
    rewrite wp_bind, (wp_store_slot a n _ 0); [|cbn; by rewrite lookup_insert_ne|lia|done].
    rewrite wp_bind. erewrite wp_store_node by (cbn; by rewrite lookup_insert_eq).
    rewrite wp_ret. set (st1 := set_heap _ _).
    assert (pb_i : base_of (shift n) idx + digit (shift n) idx * 2 ^ shift n = base_of (shift n - 6) idx)
      by (rewrite base_of_child by zlia; done).
    pose proof (base_of_bounds (shift n - 6) idx) as Hbd.
    set (pn' := with_count (u32 (count n + 1))
      (with_slots (<[Z.to_nat (digit (shift n) idx) := node_to_entry c]> (slots n)) n)).
    assert (heap st1 !! a = Some pn') as H1a.
    { subst st1. cbn. by rewrite lookup_insert_eq. }
    assert (heap st1 !! c = Some (fresh_node (shift n - 6) (digit (shift n) idx) a 0)) as H1c.
    { subst st1. cbn. do 2 rewrite lookup_insert_ne by done. by rewrite lookup_insert_eq. }
    assert (∀ x, x ≠ a → x ≠ c → heap st1 !! x = heap st !! x) as H1fr.
    { intros x ??. subst st1. cbn. by rewrite !lookup_insert_ne. }
    assert (count pn' = count n + 1) as Hcnt.
    { cbn. rewrite wrap_small; [done|]. rewrite (no_count _ _ _ _ _ _ Hok).
      pose proof (nonzero_nonneg (slots n)). pose proof (nonzero_le (slots n)) as Hle.
      rewrite (no_len _ _ _ _ _ _ Hok) in Hle. lia. }
    exists (<[c := base_of (shift n) idx + digit (shift n) idx * 2 ^ shift n]> B).
    split; [done|]. split; [|split; [|split]].
    + eapply (link_child_inv st st1 B a _ n pn'); try done; zlia.
    + intros ??. eapply (link_child_content st st1 B a _ n pn'); try done; zlia.
    + eapply grown_add; [|done|done| |by apply (live_heap Hinv)].
      { destruct (B !! c) eqn:HB; [|done]. destruct (live_heap Hinv _ _ HB). congruence. }
      intros x b nx nx' HBx Hnx Hnx' Hz. left. destruct (decide (x = a)) as [->|Hxa].
      * assert (nx' = pn') as -> by congruence. rewrite Hcnt in Hz.
        rewrite (no_count _ _ _ _ _ _ Hok) in Hz. pose proof (nonzero_nonneg (slots n)). lia.
      * rewrite H1fr in Hnx' by congruence. split; [congruence|done].
    + eexists. split; [done|]. split; [done|]. by rewrite lookup_insert_eq, pb_i.
Qed.

(** Where the walk ends: the root's pointer, or the index's slot of a leaf. *)
Definition created (st : tstate) (B : gmap Z Z) (idx node : Z) (slot : slotref) : Prop :=
  node = 0 ∧ slot = SlotRoot ∧ idx = 0 ∧ B = ∅ ∨
  ∃ n, B !! node = Some (base_of 0 idx) ∧ heap st !! node = Some n ∧ shift n = 0 ∧
    slot = SlotNode node (digit 0 idx).

Definition create_post (x : Z) (st : tstate) (B : gmap Z Z) (idx : Z) (r : Z * Z * slotref)
    (st' : tstate) : Prop :=
  ∃ B', inv st' B' ∧ same_content st B st' B' ∧
    let '(e, node, slot) := r in
    e = - ENOMEM ∧ alloc_fails st' ∧ (∀ v, ¬ content st B idx v) ∧ B ⊆ B' ∨
    e = 0 ∧ created st' B' idx node slot ∧ grown x node st B st' B'.

Lemma create_post_trans x y st B st1 B1 idx r st' :
  same_content st B st1 B1 → grown x y st B st1 B1 → create_post y st1 B1 idx r st' →
  create_post x st B idx r st'.
Proof.
  intros Hc Hg (B' & Hinv & Hc' & Hr). exists B'. split; [done|].
  split; [by eapply same_content_trans|]. destruct r as [[e node] slot].
  destruct Hr as [(? & ? & Hno & Hs)|(? & ? & ?)].
  - left. split; [done|]. split; [done|]. split; [|destruct Hg; by transitivity B1].
    intros v Hv. apply (Hno v). by apply Hc.
  - right. split; [done|]. split; [done|]. by eapply grown_trans.
Qed.

Lemma create_walk_spec fuel st B idx shft child node slot off :
  inv st B → 0 ≤ idx < 2 ^ 64 → at_pos st B idx shft child node slot off →
  shft + 6 ≤ 6 * Z.of_nat fuel →
  wp (create_walk fuel shft child node slot off idx) (create_post node st B idx) st.
Proof.
  revert st B shft child node slot off.
  induction fuel as [|fuel IH]; intros st B shft child node slot off Hinv Hi Hpos Hf.
  { destruct Hpos as [|? [[? _] _]|a n e Hb Hn]; [lia..|].
    destruct (no_level _ _ _ _ _ _ (live_node Hinv _ _ _ Hb Hn)). lia. }
  cbn [create_walk]. destruct (Z.leb_spec shft 0) as [Hle|Hlt].
  { rewrite wp_ret. exists B. split; [done|]. split; [done|]. right. split; [done|]. split; [|apply grown_refl].
    destruct Hpos as [|? [[? _] _]|a n e Hb Hn He]; [by left|lia|].
    destruct (no_level _ _ _ _ _ _ (live_node Hinv _ _ _ Hb Hn)).
    assert (shift n = 0) as Hs0 by lia. right. exists n. by rewrite <- Hs0. }
  assert (Hstep : ∀ st1 B1 c child', inv st1 B1 → covers st1 B1 idx c (shft - 6) →
    entry_to_node child' = c →
    wp (let node := entry_to_node child' in
        n ← load_node node; '(off, child) ← radix_tree_descend n idx;
        create_walk fuel (shft - 6) child node (SlotNode node off) off idx)
       (create_post c st1 B1 idx) st1).
  { intros st1 B1 c child' Hinv1 (cn & Hcn & Hcs & HBc) ->. cbn zeta.
    rewrite <- Hcs in HBc.
    rewrite wp_bind, (wp_load_node c cn) by done.
    destruct (live_slot Hinv1 c _ cn idx HBc Hcn) as [e He].
    destruct (no_level _ _ _ _ _ _ (live_node Hinv1 _ _ _ HBc Hcn)).
    rewrite wp_bind, (wp_descend cn idx e) by (lia || done). rewrite <- Hcs.
    apply IH; [done|done|by constructor|lia]. }
  unfold RADIX_TREE_MAP_SHIFT. rewrite wp_bind. case_truthy child Hch.
  - rewrite wp_ret. destruct (pos_child _ _ _ _ _ _ _ _ Hinv Hpos) as (c & -> & Hcov); [done|done|].
    eapply wp_mono.
    { apply (Hstep st B c); [done|done|]. apply entry_to_node_entry.
      destruct Hcov as (? & ? & ? & ?). by eapply live_aligned. }
    intros r st'. apply (create_post_trans _ c); [done|]. by eapply pos_full.
  - subst child. eapply wp_mono; [by apply (pos_add st B idx shft node slot off)|].
    intros [c|] st1; cbn beta iota.
    + intros (B1 & Hc & Hinv1 & Hc1 & Hg1 & Hcov).
      eapply wp_mono; [apply (Hstep st1 B1 c c Hinv1 Hcov); by apply entry_to_node_data|].
      intros r st'. by eapply create_post_trans.
    + intros (Hfail & Hinv1 & Hc1). rewrite wp_ret. exists B. split; [done|]. split; [done|].
      left. split; [done|]. split; [done|]. split; [|done]. intros v. by eapply pos_null.
Qed.

(** The root's pointer holds no item: the tree can grow above it. *)
Definition growable (st : tstate) (idx : Z) : Prop :=
  idx = 0 ∨ ¬ item_ok (rnode (root st)).

(** The part of [__radix_tree_create] for an index beyond the tree's range. *)
Lemma create_extend st B idx shft :
  inv st B → 0 ≤ idx < 2 ^ 64 → level shft → (∀ v, ¬ content st B idx v) →
  (rnode (root st) = 0 ∧ B = ∅ ∨ ∃ r, root_at st B r (shft - 6)) →
  wp (error ← radix_tree_extend idx shft;
      if error <? 0 then mret (error, 0, SlotRoot)
      else child ← get_rnode; create_walk LEVELS error child 0 SlotRoot 0 idx)
    (create_post 0 st B idx) st.
Proof.
  intros Hinv Hi Hl Hno Hroot. rewrite wp_bind.
  eapply wp_mono; [by apply (extend_spec st B idx shft)|].
  intros e st1 (B1 & Hinv1 & Hc1 & Hg1 & [[-> Hfail]|Hex]).
  - change (- ENOMEM <? 0) with true. rewrite wp_ret. exists B1. destruct Hg1. eauto 10.
  - pose proof Hex as [[Hle Hm] _]. rewrite (proj2 (Z.ltb_ge e 0)) by lia.
    rewrite wp_bind, wp_get_rnode. eapply wp_mono.
    { apply (create_walk_spec LEVELS st1 B1 idx); [done|done|by constructor|].
      change (Z.of_nat LEVELS) with 12. lia. }
    intros r st'. by eapply create_post_trans.
Qed.

Lemma create_direct st idx :
  inv st ∅ → 0 ≤ idx < 2 ^ 64 → growable st idx →
  radix_tree_is_internal_node (rnode (root st)) = false →
  (rnode (root st) = 0 ∨ item_ok (rnode (root st))) →
  wp (__radix_tree_create idx) (create_post 0 st ∅ idx) st.
Proof.
  intros Hinv Hi Hg Hint Hr. unfold __radix_tree_create.
  rewrite wp_bind, load_root_leaf by done. destruct (Z.ltb_spec 0 idx).
  - assert (rnode (root st) = 0) as Hr0 by (destruct Hg, Hr; try done; lia).
    apply create_extend; [done|done|by split| |by left].
    intros v [|a b n i Hb]; [lia|]. by rewrite lookup_empty in Hb.
  - assert (idx = 0) as -> by lia.
    apply (create_walk_spec LEVELS st ∅ 0); [done|done|by apply pos_direct|done].
Qed.

Lemma create_spec st B idx :
  inv st B → 0 ≤ idx < 2 ^ 64 → growable st idx →
  wp (__radix_tree_create idx) (create_post 0 st B idx) st.
Proof.
  intros Hinv Hi Hg. destruct (inv_root _ _ Hinv) as [Hr ->|Hr ->|r n Hr [b HB] Hn Hp].
  - apply create_direct; rewrite ?Hr; auto.
  - apply create_direct; auto. apply Hr.
  - pose proof (live_node Hinv _ _ _ HB Hn) as Hok.
    destruct (no_root _ _ _ _ _ _ Hok Hp) as [_ ->]. pose proof (no_level _ _ _ _ _ _ Hok) as Hl.
    unfold __radix_tree_create. rewrite wp_bind, (load_root_node Hinv r n) by done.
    assert (root_at st B r (shift n + 6 - 6)) as Hroot.
    { exists n. repeat split; try done. lia. }
    destruct (shift_maxindex (shift n) <? idx) eqn:Hlt.
    + apply create_extend; [done|done| | |by eauto].
      * assert (shift n ≠ 60) as Hs60.
        { intros Hs. rewrite shift_maxindex_spec, Hs in Hlt by done.
          apply Z.ltb_lt in Hlt. change (Z.min (2 ^ (60 + 6)) (2 ^ 64)) with (2 ^ 64) in Hlt. lia. }
        destruct Hl. split; zlia.
      * intros v Hv. eapply (content_small Hinv r n) in Hv; [|done..].
        apply shift_maxindex_lt in Hv; [congruence|done|done].
    + apply shift_maxindex_lt in Hlt; [|done|done]. destruct Hl as [Hl Hm].
      apply (create_walk_spec LEVELS st B idx); [done|done| |].
      * rewrite <- Hr. apply pos_top. split; [split; zlia|]. split; [|by eauto].
        by replace (shift n + 6 - 6) with (shift n) by lia.
      * change (Z.of_nat LEVELS) with 12. lia.
Qed.

(** ** Storing the item *)

(** The item now stored at [idx]: [0] for none. *)
Definition updated (st : tstate) (B : gmap Z Z) (idx e : Z) (st' : tstate) (B' : gmap Z Z) : Prop :=
  ∀ j v, content st' B' j v ↔ if decide (j = idx) then v = e ∧ e ≠ 0 else content st B j v.

Definition insert_entries_post (node : Z) (st : tstate) (B : gmap Z Z) (idx item : Z) (e : Z)
    (st' : tstate) : Prop :=
  e = - EEXIST ∧ st' = st ∧ (∃ v, content st B idx v) ∧ grown node 0 st B st' B ∨
  e = 1 ∧ (∀ v, ¬ content st B idx v) ∧ inv st' B ∧ updated st B idx item st' B ∧
    grown node 0 st B st' B.

(** A node's count stays in its field. *)
Lemma count_range st B a b n :
  inv st B → B !! a = Some b → heap st !! a = Some n → 0 ≤ count n ≤ 64.
Proof.
  intros Hinv Hb Hn. pose proof (live_node Hinv _ _ _ Hb Hn) as Hok.
  rewrite (no_count _ _ _ _ _ _ Hok). pose proof (nonzero_nonneg (slots n)).
  pose proof (nonzero_le (slots n)) as Hle. rewrite (no_len _ _ _ _ _ _ Hok) in Hle. lia.
Qed.

(** Writing the slot of an index in its leaf. *)
Lemma set_leaf_at st st' B a n n' idx e0 e :
  inv st B → B !! a = Some (base_of 0 idx) → heap st !! a = Some n → shift n = 0 →
  slots n !! Z.to_nat (digit 0 idx) = Some e0 → (e = 0 ∨ item_ok e) →
  heap st' !! a = Some n' → same_place n n' →
  slots n' = <[Z.to_nat (digit 0 idx) := e]> (slots n) →
  count n' = count n - Z.b2z (truthy e0) + Z.b2z (truthy e) →
  (∀ x, x ≠ a → heap st' !! x = heap st !! x) →
  rnode (root st') = rnode (root st) → rcu st' = rcu st →
  inv st' B ∧ updated st B idx e st' B.
Proof.
  intros. split; [by eapply (set_leaf_inv st st' B a (base_of 0 idx) n n')|]. intros j v.
  rewrite (set_leaf_content st st' B a (base_of 0 idx) n n' (Z.to_nat (digit 0 idx)) e0 e) by done.
  replace (base_of 0 idx + Z.of_nat (Z.to_nat (digit 0 idx))) with idx; [done|].
  pose proof (digit_range 0 idx). pose proof (base_of_leaf idx). lia.
Qed.

Lemma insert_entries_spec st B idx item node slot :
  inv st B → created st B idx node slot → item_ok item →
  wp (insert_entries node slot item) (insert_entries_post node st B idx item) st.
Proof.
  intros Hinv Hcr Hitem. unfold insert_entries.
  destruct Hcr as [(-> & -> & -> & ->)|(n & Hb & Hn & Hs & ->)].
  - cbn [read_slot write_slot]. rewrite wp_bind, wp_get_rnode.
    assert (∀ v, content st ∅ 0 v ↔ v = rnode (root st) ∧ rnode (root st) ≠ 0) as Hdir.
    { intros v. apply (content_direct_iff (st := st)); try done.
      destruct (inv_root _ _ Hinv) as [|? _|? ? _ [? Hx]]; auto. by rewrite lookup_empty in Hx. }
    case_truthy (rnode (root st)) Hr.
    + rewrite wp_ret. left. split; [done|]. split; [done|]. split; [|done].
      exists (rnode (root st)). by apply Hdir.
    + rewrite truthy_0, wp_bind, wp_put_rnode, wp_bind, !wp_ret. right. split; [done|].
      split; [intros v Hv%Hdir; tauto|].
      destruct (set_direct st (set_rnode item st) item) as [Hinv' Hc']; auto.
      split; [done|]. split; [|done]. intros j v. rewrite Hc'. case_decide; [naive_solver|].
      split; [naive_solver|]. intros [|a b n i Hb]; [done|]. by rewrite lookup_empty in Hb.
  - destruct (live_slot Hinv node _ n idx Hb Hn) as [e He]. rewrite Hs in He.
    pose proof (digit_range 0 idx). cbn [read_slot write_slot].
    rewrite !wp_bind, (wp_load_node node n), (wp_node_slot n _ e) by (lia || done).
    pose proof (content_of_leaf Hinv node n idx e Hb Hn Hs He) as Hc.
    case_truthy e Hne.
    + rewrite wp_ret. left. split; [done|]. split; [done|]. split; [exists e; by apply Hc|].
      split; [done|]. intros Hfull a b m Hb' Hm Hz. pose proof (Hfull a b m Hb' Hm Hz) as ->. exfalso.
      simplify_eq. rewrite (no_count _ _ _ _ _ _ (live_node Hinv _ _ _ Hb Hn)) in Hz.
      by eapply (nonzero_zero (slots n)) in He.
    + subst e. rewrite wp_bind, (wp_store_slot node n _ 0) by (lia || done).
      rewrite (truthy_nz node) by (by eapply live_nonnull).
      pose proof (count_range st B node _ n Hinv Hb Hn).
      assert (Hfin : ∀ st' n', heap st' !! node = Some n' → same_place n n' →
        slots n' = <[Z.to_nat (digit 0 idx) := item]> (slots n) →
        count n' = u32 (count n + 1) → (∀ x, x ≠ node → heap st' !! x = heap st !! x) →
        rnode (root st') = rnode (root st) → rcu st' = rcu st →
        insert_entries_post node st B idx item 1 st').
      { intros st' n' Hn' ?? Hcnt Hfr ??. right. split; [done|]. split; [intros v Hv%Hc; tauto|].
        rewrite wrap_small in Hcnt by lia.
        destruct (set_leaf_at st st' B node n n' idx 0 item) as [Hinv' Hup']; try done; [by right| |].
        { rewrite Hcnt, (truthy_nz item) by (destruct Hitem; lia). cbn. lia. }
        split; [done|]. split; [done|]. split; [done|]. intros Hfull a b m Hb' Hm Hz.
        destruct (decide (a = node)) as [->|Ha]; [exfalso; simplify_eq; lia|].
        rewrite Hfr in Hm by done. by destruct Ha; eapply Hfull. }
      rewrite !wp_bind. erewrite wp_store_node by (cbn; by rewrite lookup_insert_eq).
      destruct (xa_is_value item).
      * erewrite wp_store_node by (cbn; by rewrite lookup_insert_eq). rewrite wp_ret.
        eapply Hfin; [cbn; by rewrite lookup_insert_eq|done|done|done| |done|done].
        intros x ?. cbn. by rewrite !lookup_insert_ne.
      * rewrite !wp_ret. eapply Hfin; [cbn; by rewrite lookup_insert_eq|done|done|done| |done|done].
        intros x ?. cbn. by rewrite !lookup_insert_ne.
Qed.

(** [radix_tree_insert]: [0] and the item stored, [-EEXIST] with the content
    kept when the index is taken, or [-ENOMEM] with the content kept. *)
Definition insert_post (st : tstate) (B : gmap Z Z) (idx item e : Z) (st' : tstate) : Prop :=
  ∃ B', inv st' B' ∧ B ⊆ B' ∧ (e ≠ - ENOMEM → full st B 0 → full st' B' 0) ∧
    (e = 0 ∧ (∀ v, ¬ content st B idx v) ∧ updated st B idx item st' B' ∨
     e = - EEXIST ∧ (∃ v, content st B idx v) ∧ same_content st B st' B' ∨
     e = - ENOMEM ∧ alloc_fails st' ∧ (∀ v, ¬ content st B idx v) ∧ same_content st B st' B').

Lemma insert_spec st B idx item :
  inv st B → 0 ≤ idx < 2 ^ 64 → growable st idx → item_ok item →
  wp (radix_tree_insert idx item) (insert_post st B idx item) st.
Proof.
  intros Hinv Hi Hg Hitem. unfold radix_tree_insert. rewrite wp_bind.
  eapply wp_mono; [by apply create_spec|].
  intros [[e node] slot] st1 (B1 & Hinv1 & Hc1 & [(-> & Hfail & Hno & Hs)|(-> & Hcr & Hg1)]).
  - rewrite truthy_nz, wp_ret by done. exists B1. split; [done|]. split; [done|]. split; [done|].
    right. right. done.
  - rewrite truthy_0, wp_bind. eapply wp_mono; [by apply (insert_entries_spec st1 B1 idx)|].
    intros e st2 Hpost. assert (grown 0 0 st B st2 B1) as [Hs Hfull].
    { destruct Hpost as [(_ & _ & _ & Hg2)|(_ & _ & _ & _ & Hg2)]; by eapply grown_trans. }
    destruct Hpost as [(-> & -> & [v Hv] & _)|(-> & Hno & Hinv2 & Hup & _)].
    + change (- EEXIST <? 0) with true. rewrite wp_ret. exists B1. split; [done|]. split; [done|]. split; [done|].
      right. left. split; [done|]. split; [|done]. exists v. by apply Hc1.
    + change (1 <? 0) with false. rewrite wp_ret. exists B1. split; [done|]. split; [done|]. split; [done|].
      left. split; [done|]. split.
      * intros v Hv. apply (Hno v). by apply Hc1.
      * intros j v. rewrite (Hup j v). case_decide; [done|]. apply Hc1.
Qed.
End insert.
