(* ===== verification/RadixRoom.v ===== *)
(** * The radix tree: the memory the operations take

    An insertion takes 24 nodes at most, the other operations none; none of them
    changes the verbosity. *)
From S2P Require Import Prelude RadixDefs.

Definition node_room (k : nat) (st st' : tstate) : Prop :=
  (size (heap st') ≤ size (heap st) + k)%nat ∧ verbose st' = verbose st.

#[export] Instance node_room_graded : Graded node_room.
Proof.
  split; [intros; split; [lia|done]|]. intros i j st1 st2 st3 [? ?] [? ?]. split; [lia|congruence].
Qed.

Section room.
Context `{!Calloc radix_tree_node}.

#[local] Ltac access :=
  intros ? ? ?; repeat case_match; intros [= _ <-]; (split; [|done]); cbn;
  rewrite ?map_size_insert_Some by (by eexists); try lia.

#[export] Instance room_load_node k a : Within node_room k (load_node a).
Proof. unfold load_node. access. Qed.
#[export] Instance room_store_node k a f : Within node_room k (store_node a f).
Proof. unfold store_node. access. Qed.
#[export] Instance room_put_rnode k e : Within node_room k (put_rnode e).
Proof. unfold put_rnode, modify. access. Qed.
#[export] Instance room_get_rnode k : Within node_room k get_rnode.
Proof. apply within_gets. Qed.
#[export] Instance room_node_slot k n i : Within node_room k (node_slot n i).
Proof. unfold node_slot. repeat case_match; apply _. Qed.
#[export] Instance room_store_slot k a i e : Within node_room k (store_slot a i e).
Proof. unfold store_slot. apply _. Qed.
#[export] Instance room_read_slot k s : Within node_room k (read_slot s).
Proof. unfold read_slot. case_match; apply _. Qed.
#[export] Instance room_write_slot k s e : Within node_room k (write_slot s e).
Proof. unfold write_slot. case_match; apply _. Qed.
#[export] Instance room_descend k n idx : Within node_room k (radix_tree_descend n idx).
Proof. unfold radix_tree_descend. apply _. Qed.

Lemma room_alloc p s o c v : Within node_room 1 (radix_tree_node_alloc p s o c v).
Proof.
  unfold radix_tree_node_alloc. intros st x st'. case_match eqn:E; intros [= _ <-]; (split; [|done]); cbn; [|lia].
  rewrite map_size_insert_None by (by eapply calloc_fresh). lia.
Qed.

Lemma room_weaken {A} j k (m : T A) : Within node_room j m → (j ≤ k)%nat → Within node_room k m.
Proof. intros Hm Hjk st x st' Hr. destruct (Hm _ _ _ Hr). split; [lia|done]. Qed.

#[export] Instance room_maxshift k fuel idx ms : Within node_room k (extend_maxshift fuel idx ms).
Proof. revert ms. induction fuel; intros ms; cbn [extend_maxshift]; [apply _|]. case_match; apply _. Qed.

Lemma room_extend_grow fuel e s ms : Within node_room fuel (extend_grow fuel e s ms).
Proof.
  revert e s. induction fuel as [|fuel IH]; intros e s; cbn [extend_grow]; [apply _|].
  apply (within_plus 1 fuel); [apply room_alloc|]. intros a. case_match; [|apply _].
  do 3 (apply within_bind; [apply _|intros]). case_match; [apply IH|apply _].
Qed.

Lemma room_extend idx s : Within node_room LEVELS (radix_tree_extend idx s).
Proof.
  unfold radix_tree_extend. do 2 (apply within_bind; [apply _|intros]).
  case_match; [apply room_extend_grow|apply _].
Qed.

Lemma room_create_walk fuel s c n sl o idx : Within node_room fuel (create_walk fuel s c n sl o idx).
Proof.
  revert s c n sl o. induction fuel as [|fuel IH]; intros s c n sl o; cbn [create_walk]; [apply _|].
  case_match; [apply _|]. apply (within_plus 1 fuel).
  - case_match; [apply _|]. apply (within_plus 1 0); [apply room_alloc|]. intros a.
    repeat (case_match || apply _ || (apply within_bind; [|intros])).
  - intros [c'|]; [|apply _]. do 2 (apply within_bind; [apply _|intros]). case_match. apply IH.
Qed.

(** At most eleven levels above the root and eleven nodes below it; the bounds
    of the loops give one more of each. *)
#[export] Instance room_insert idx item : Within node_room 24 (radix_tree_insert idx item).
Proof.
  unfold radix_tree_insert. apply within_last.
  - unfold __radix_tree_create, radix_tree_load_root. apply within_bind.
    { apply within_bind; [apply _|intros]. case_match; apply _. }
    intros [[c mi] s]. case_match.
    + apply (within_plus 12 12); [apply room_extend|]. intros e. case_match; [apply _|].
      apply within_bind; [apply _|]. intros. apply room_create_walk.
    + apply (room_weaken 12); [apply room_create_walk|lia].
  - intros [[e n] sl]. unfold insert_entries.
    repeat (case_match || apply _ || (apply within_bind; [|intros])).
Qed.

(** A deletion takes none. *)
#[export] Instance room_node_free a : Within node_room 0 (radix_tree_node_free a).
Proof.
  unfold radix_tree_node_free, call_rcu. apply within_bind.
  - apply within_bind; [apply _|]. intros n st x st' [= _ <-]. split; [cbn; lia|done].
  - intros []. intros st x st'. unfold printv, mbind, M_bind. case_match; [done|]. intros [= _ <-]. split; [lia|done].
Qed.

#[export] Instance room_shrink fuel b : Within node_room 0 (radix_tree_shrink fuel b).
Proof.
  revert b. induction fuel as [|fuel IH]; intros b; cbn [radix_tree_shrink]; [apply _|].
  repeat (case_match || apply _ || apply IH || (apply within_bind; [|intros])).
Qed.

#[export] Instance room_delete_node fuel a b : Within node_room 0 (delete_node fuel a b).
Proof.
  revert a b. induction fuel as [|fuel IH]; intros a b; cbn [delete_node]; [apply _|].
  repeat (case_match || apply _ || apply IH || (apply within_bind; [|intros])).
Qed.

#[export] Instance room_lookup_walk fuel e p s idx : Within node_room 0 (lookup_walk fuel e p s idx).
Proof.
  revert e p s. induction fuel as [|fuel IH]; intros e p s; cbn [lookup_walk]; [apply _|].
  repeat (case_match || apply _ || apply IH || (apply within_bind; [|intros])).
Qed.

#[export] Instance room_lookup idx : Within node_room 0 (__radix_tree_lookup idx).
Proof.
  unfold __radix_tree_lookup, radix_tree_load_root.
  repeat (case_match || apply _ || (apply within_bind; [|intros])).
Qed.

#[export] Instance room_replace s e n c v : Within node_room 0 (replace_slot s e n c v).
Proof. unfold replace_slot. repeat (case_match || apply _ || (apply within_bind; [|intros])). Qed.

#[export] Instance room_replace_item s e : Within node_room 0 (radix_tree_replace_slot s e).
Proof.
  unfold radix_tree_replace_slot, __radix_tree_replace.
  repeat (case_match || apply _ || (apply within_bind; [|intros])).
Qed.

#[export] Instance room_callbacks l : Within node_room 0 (run_callbacks l).
Proof.
  induction l as [|a l IH]; cbn [run_callbacks]; [apply _|]. apply within_bind; [|intros; apply IH].
  unfold radix_tree_node_rcu_free. apply within_bind; [apply _|]. intros [] st x st' [= _ <-].
  split; [|done]. cbn. destruct (heap st !! a) as [n|] eqn:E; [rewrite (map_size_delete_Some _ _ (ex_intro _ n E)); lia|].
  rewrite delete_id by done. lia.
Qed.

#[export] Instance room_barrier : Within node_room 0 rcu_barrier.
Proof.
  unfold rcu_barrier. apply within_bind; [apply within_gets|]. intros l. apply within_bind; [apply _|].
  intros [] st x st' [= _ <-]. split; [cbn; lia|done].
Qed.

#[export] Instance room_delete_item idx item : Within node_room 0 (radix_tree_delete_item idx item).
Proof.
  unfold radix_tree_delete_item, __radix_tree_lookup, radix_tree_load_root, __radix_tree_delete, replace_slot.
  repeat (case_match || apply _ || (apply within_bind; [|intros])).
Qed.
End room.
