(* ===== verification/RadixDelete.v ===== *)
(** * The radix tree: shrinking, deletion and replacement *)
From S2P Require Import Prelude RadixDefs RadixInv RadixLookup RadixUpdate RadixInsert RadixRoom.

(** A change of the tree's nodes that keeps its content; [x] was the one that
    could be empty, none is now. *)
Definition reshaped (x : Z) (st : tstate) (B : gmap Z Z) (st' : tstate) : Prop :=
  ∃ B', inv st' B' ∧ same_content st B st' B' ∧ (full st B x → full st' B' 0).

Lemma reshaped_refl st B : inv st B → reshaped 0 st B st.
Proof. intros. exists B. split; [done|]. split; [apply same_content_refl|done]. Qed.

Lemma reshaped_trans x y st B st1 B1 st' :
  same_content st B st1 B1 → (full st B x → full st1 B1 y) → reshaped y st1 B1 st' →
  reshaped x st B st'.
Proof.
  intros ?? (B' & ? & ? & ?). exists B'. split; [done|]. split; [by eapply same_content_trans|auto].
Qed.

(** The node [r] is gone; the counts of the others are zero at most at [x] and [y]. *)
Lemma full_delete x y r st B st1 :
  (∀ a b m m', a ≠ r → B !! a = Some b → heap st !! a = Some m → heap st1 !! a = Some m' → count m' = 0 →
     count m = 0 ∧ a ≠ x ∨ a = y) →
  (∀ a b, B !! a = Some b → is_Some (heap st !! a)) →
  full st B x → full st1 (delete r B) y.
Proof.
  intros Hold Hlive Hfull a b m [Hne Hb]%lookup_delete_Some Hm Hz. destruct (Hlive a b Hb) as [m0 Hm0].
  destruct (Hold a b m0 m) as [[Hz0 Hx]|]; try done. destruct Hx. by eapply Hfull.
Qed.

Lemma wp_node_free a n (Q : () → tstate → Prop) st :
  heap st !! a = Some n → verbose st < 3 →
  wp (radix_tree_node_free a) Q st ↔ Q () (TState (root st) (heap st) (a :: rcu st) (ticks st) (tverbose st)).
Proof.
  intros H Hv. unfold radix_tree_node_free, call_rcu. rewrite !wp_bind, (wp_load_node a n), wp_modify by done.
  rewrite wp_bind, wp_printv. cbn [verbose tstate_verbose tverbose]. by rewrite (proj2 (Z.leb_gt _ _)) by done.
Qed.

(** ** Shrinking *)

(** The root's levels bound the loop. *)
Definition root_fuel (st : tstate) (fuel : nat) : Prop :=
  (0 < fuel)%nat ∧
  ∀ r rn, aligned r → rnode (root st) = node_to_entry r → heap st !! r = Some rn →
    shift rn + 12 ≤ 6 * Z.of_nat fuel.

Lemma shrink_spec fuel b st B :
  inv st B → verbose st < 3 → root_fuel st fuel →
  wp (radix_tree_shrink fuel b) (λ _, reshaped 0 st B) st.
Proof.
  revert b st B. induction fuel as [|fuel IH]; intros b st B Hinv Hv [Hf0 Hf]; [lia|].
  cbn [radix_tree_shrink]. rewrite wp_bind, wp_get_rnode.
  pose proof (reshaped_refl st B Hinv) as Hrefl.
  destruct (inv_root _ _ Hinv) as [Hr _|[_ Hr] _|r rn Hr [rb HB] Hn Hp].
  { rewrite Hr, internal_0. done. }
  { rewrite Hr. done. }
  assert (aligned r) as Har by (by eapply live_aligned).
  rewrite Hr, internal_node_to_entry, entry_to_node_entry by done. cbn [negb].
  rewrite wp_bind, (wp_load_node r rn) by done.
  destruct (Z.eqb_spec (count rn) 1) as [Hcnt|]; [|done]. cbn [negb].
  pose proof (live_node Hinv _ _ _ HB Hn) as Hok.
  assert (∃ e, slots rn !! 0%nat = Some e) as [e He].
  { apply lookup_lt_is_Some_2. rewrite (no_len _ _ _ _ _ _ Hok). lia. }
  rewrite wp_bind, (wp_node_slot rn 0 e) by (lia || done).
  case_truthy e Hne; [|done]. cbn [negb]. case_truthy (shift rn) Hs; [|done]. cbn [negb].
  destruct (no_child _ _ _ _ _ _ Hok Hs _ _ He Hne) as (c & cn & -> & [cb HBc] & Hcn & Hpc & _).
  assert (aligned c) as Hac by (by eapply live_aligned).
  destruct (shrink_child st B r rb c rn cn Hinv HB Hn Hp Hs He Hac Hcn) as (_ & _ & _ & Hsc & Hcr).
  rewrite internal_node_to_entry, entry_to_node_entry by done.
  rewrite wp_bind, (wp_store_node c _ cn), wp_bind, wp_put_rnode by done.
  rewrite wp_bind, (wp_store_node r _ rn) by (cbn; by rewrite lookup_insert_ne).
  rewrite wp_bind. erewrite wp_node_free by (done || (cbn; by rewrite lookup_insert_eq)).
  set (st1 := TState _ _ _ _ _).
  assert (heap st1 !! c = Some (with_parent 0 cn)) as H1c.
  { subst st1. cbn. by rewrite lookup_insert_ne, lookup_insert_eq. }
  assert (heap st1 !! r = Some (with_count 0 rn)) as H1r.
  { subst st1. cbn. by rewrite lookup_insert_eq. }
  assert (∀ x, x ≠ r → x ≠ c → heap st1 !! x = heap st !! x) as H1fr.
  { intros x ??. subst st1. cbn. by rewrite !lookup_insert_ne. }
  assert (inv st1 (delete r B)) as Hinv1 by (by eapply (shrink_inv st B r rb c rn cn)).
  assert (same_content st B st1 (delete r B)) as Hc1.
  { intros ??. by eapply (shrink_content st B r rb c rn cn). }
  eapply wp_mono; [apply (IH true st1 (delete r B) Hinv1 Hv)|].
  - specialize (Hf r rn Har Hr Hn). destruct (no_level _ _ _ _ _ _ Hok) as [Hl Hm].
    destruct (no_level _ _ _ _ _ _ (live_node Hinv _ _ _ HBc Hcn)) as [Hlc _].
    split; [lia|]. intros r' rn' Har' Hr' Hn'.
    assert (c = r') as <- by (by apply node_to_entry_inj).
    assert (rn' = with_parent 0 cn) as -> by congruence. cbn. lia.
  - intros ? st'. apply (reshaped_trans 0 0); [done|].
    apply full_delete; [|by apply (live_heap Hinv)]. intros x b' m m' Hx HBx Hm Hm' Hz. left.
    pose proof (live_nonnull Hinv _ _ HBx). split; [|done].
    destruct (decide (x = c)) as [->|]; [|rewrite H1fr in Hm' by done; congruence].
    assert (m' = with_parent 0 cn) as -> by congruence. assert (m = cn) as -> by congruence. done.
Qed.

(** Eleven levels are within the fuel of the caller. *)
Lemma root_fuel_LEVELS st B : inv st B → root_fuel st LEVELS.
Proof.
  intros Hinv. split; [cbv; lia|]. intros r rn Har Hr Hn. change (Z.of_nat LEVELS) with 12.
  destruct (inv_root _ _ Hinv) as [Hr0 _|[_ Hr0] _|r' rn' Hr' [rb HB] Hn' _].
  - rewrite Hr in Hr0. by apply node_to_entry_nz in Hr0.
  - by rewrite Hr, internal_node_to_entry in Hr0.
  - assert (r = r') as <- by (apply node_to_entry_inj; [done|by eapply live_aligned|congruence]).
    destruct (no_level _ _ _ _ _ _ (live_node Hinv _ _ _ HB Hn)). lia.
Qed.

(** ** Removing empty nodes *)

Lemma delete_node_spec fuel b st B a ab n :
  inv st B → B !! a = Some ab → heap st !! a = Some n →
  66 - shift n ≤ 6 * Z.of_nat fuel → verbose st < 3 →
  wp (delete_node fuel a b) (λ _, reshaped a st B) st.
Proof.
  revert b st B a ab n. induction fuel as [|fuel IH]; intros b st B a ab n Hinv HB Hn Hf Hv;
    pose proof (live_node Hinv _ _ _ HB Hn) as Hok;
    destruct (no_level _ _ _ _ _ _ Hok) as [Hl Hm]; [lia|].
  cbn [delete_node]. rewrite wp_bind, (wp_load_node a n) by done.
  case_truthy (count n) Hcnt.
  { assert (full st B a → full st B 0) as Hfull.
    { intros Hf' x b0 nx HBx Hnx Hz. pose proof (Hf' x b0 nx HBx Hnx Hz) as ->. congruence. }
    rewrite wp_bind, wp_get_rnode. destruct (Z.eqb_spec (node_to_entry a) (rnode (root st))).
    - rewrite wp_bind. eapply wp_mono; [by eapply shrink_spec, root_fuel_LEVELS|].
      intros s st' Hst'. rewrite wp_ret. by apply (reshaped_trans a 0 st B st B).
    - rewrite wp_ret. apply (reshaped_trans a 0 st B st B); [done|done|]. by apply reshaped_refl. }
  assert (nonzero (slots n) = 0) as Hz by (by rewrite <- (no_count _ _ _ _ _ _ Hok)).
  case_truthy (parent n) Hp.
  - destruct (no_parent _ _ _ _ _ _ Hok Hp) as (pb & pn & HBp & Hpn & Hsp & Hoff & Hsl & _).
    pose proof (live_node Hinv _ _ _ HBp Hpn) as Hokp.
    assert (aligned a) as Ha by (by eapply live_aligned).
    pose proof (nonzero_pos _ _ _ Hsl (node_to_entry_nz a Ha)) as Hpos.
    rewrite <- (no_count _ _ _ _ _ _ Hokp) in Hpos.
    pose proof (count_range st B _ _ _ Hinv HBp Hpn).
    assert (parent n ≠ a) as Hpa.
    { intros Heq. rewrite Heq in Hpn. assert (pn = n) by congruence. subst. lia. }
    rewrite wp_bind, wp_bind, (wp_store_slot _ pn _ _ _ _ _ Hpn) by (done || lia).
    erewrite wp_store_node by (cbn; by rewrite lookup_insert_eq).
    rewrite wp_bind. rewrite (wp_node_free a n) by (done || (cbn; by rewrite !lookup_insert_ne)).
    set (st1 := TState _ _ _ _ _).
    set (pn' := with_count (u32 (count pn - 1)) (with_slots (<[Z.to_nat (offset n) := 0]> (slots pn)) pn)).
    assert (heap st1 !! parent n = Some pn') as H1p.
    { subst st1. cbn. by rewrite lookup_insert_eq. }
    assert (count pn' = count pn - 1) as Hcp. { cbn. by rewrite wrap_small by lia. }
    assert (∀ x, x ≠ parent n → heap st1 !! x = heap st !! x) as H1fr.
    { intros x ?. subst st1. cbn. by rewrite !lookup_insert_ne. }
    assert (inv st1 (delete a B)) as Hinv1 by (by eapply (unlink_inv st st1 B a ab n pn pn')).
    assert (same_content st B st1 (delete a B)) as Hc1.
    { intros ??. by eapply (unlink_content st st1 B a ab n pn pn'). }
    eapply wp_mono.
    { eapply (IH true st1 (delete a B) (parent n) pb pn'); [done| |done|cbn; lia|done].
      by rewrite lookup_delete_ne. }
    intros ? st'. apply reshaped_trans; [done|].
    apply full_delete; [|by apply (live_heap Hinv)]. intros x b' nx nx' Hx _ Hnx Hnx' Hzx.
    destruct (decide (x = parent n)) as [->|]; [by right|left].
    rewrite H1fr in Hnx' by done. split; [congruence|done].
  - rewrite wp_bind, wp_put_rnode, wp_bind, (wp_node_free a n), wp_ret by done.
    set (st1 := TState _ _ _ _ _).
    destruct (unlink_root st st1 B a ab n) as [Hinv1 Hc1]; try done. exists ∅.
    split; [done|]. split; [done|]. by intros _ ? ? ? ?.
Qed.

(** ** Writing a found slot *)

(** The leaf's slot of [idx] holds [e0]. *)
Definition leaf_at (st : tstate) (B : gmap Z Z) (idx a e0 : Z) : Prop :=
  ∃ n, B !! a = Some (base_of 0 idx) ∧ heap st !! a = Some n ∧ shift n = 0 ∧
    slots n !! Z.to_nat (digit 0 idx) = Some e0.

(** The state after [e] went into the slot, the leaf in place. *)
Definition leaf_written (st : tstate) (B : gmap Z Z) (idx a e : Z) (st' : tstate) : Prop :=
  inv st' B ∧ updated st B idx e st' B ∧ leaf_at st' B idx a e ∧ (full st B 0 → full st' B a).

Lemma replace_slot_spec st B idx a e0 e node cnt values :
  inv st B → leaf_at st B idx a e0 → (e = 0 ∨ item_ok e) →
  (node = a ∨ node = 0 ∧ cnt = 0) → cnt = Z.b2z (truthy e) - Z.b2z (truthy e0) →
  wp (replace_slot (SlotNode a (digit 0 idx)) e node cnt values)
    (λ _, leaf_written st B idx a e) st.
Proof.
  intros Hinv (n & HB & Hn & Hs & He0) He Hnode Hcnt. unfold replace_slot.
  pose proof (digit_range 0 idx). pose proof (live_nonnull Hinv _ _ HB) as Ha0.
  pose proof (live_node Hinv _ _ _ HB Hn) as Hok.
  assert (Hfin : ∀ st1 n1, heap st1 !! a = Some n1 → same_place n n1 → slots n1 = slots n →
    count n1 = count n + cnt → (∀ x, x ≠ a → heap st1 !! x = heap st !! x) →
    rnode (root st1) = rnode (root st) → rcu st1 = rcu st →
    wp (write_slot (SlotNode a (digit 0 idx)) e) (λ _, leaf_written st B idx a e) st1).
  { intros st1 n1 Hn1 Hpl Hsl Hc1 Hfr Hr Hrcu. cbn [write_slot].
    rewrite (wp_store_slot a n1 _ e0) by (rewrite ?Hsl; done || lia).
    set (st2 := set_heap _ _).
    set (n2 := with_slots (<[Z.to_nat (digit 0 idx) := e]> (slots n1)) n1).
    assert (heap st2 !! a = Some n2) as Hn2. { subst st2. cbn. by rewrite lookup_insert_eq. }
    destruct (set_leaf_at st st2 B a n n2 idx e0 e) as [Hinv2 Hup]; try done.
    - by rewrite <- Hsl.
    - cbn. lia.
    - intros x ?. subst st2. cbn. rewrite lookup_insert_ne by done. by apply Hfr.
    - split; [done|]. split; [done|]. split.
      + exists n2. split; [done|]. split; [done|].
        destruct Hpl as (Hs1 & _). split; [cbn; lia|]. cbn. rewrite Hsl.
        apply list_lookup_insert_eq. by eapply lookup_lt_Some.
      + intros Hfull x b m HBx Hm Hz. destruct (decide (x = a)) as [|Hxa]; [done|].
        subst st2. cbn in Hm. rewrite lookup_insert_ne, Hfr in Hm by done.
        destruct (live_nonnull Hinv x b HBx). by eapply Hfull. }
  rewrite wp_bind. destruct (truthy node && (truthy cnt || truthy values)) eqn:Hg.
  - apply andb_true_iff in Hg as [Hn0%truthy_true _].
    destruct Hnode as [->|[-> _]]; [|done].
    rewrite wp_bind, (wp_store_node a _ n) by done.
    erewrite wp_store_node by (cbn; by rewrite lookup_insert_eq).
    eapply Hfin; [cbn; by rewrite lookup_insert_eq|done|done| | |done|done].
    + cbn. pose proof (count_range st B a _ n Hinv HB Hn) as Hcr. rewrite wrap_small; [done|].
      rewrite Hcnt. case_truthy e0 Hne0.
      * apply (nonzero_pos _ _ _ He0) in Hne0. rewrite <- (no_count _ _ _ _ _ _ Hok) in Hne0.
        destruct (truthy e); cbn; lia.
      * destruct (truthy e); cbn; lia.
    + intros x ?. cbn. by rewrite !lookup_insert_ne.
  - rewrite wp_ret. apply (Hfin st n); try done.
    destruct Hnode as [->|[_ ->]]; [|lia]. rewrite (truthy_nz a) in Hg by done.
    apply orb_false_iff in Hg as [->%truthy_false _]. lia.
Qed.

(** After the write, the empty nodes above the slot go. *)
Lemma written_delete_node st B idx a e st1 b :
  leaf_written st B idx a e st1 → verbose st1 < 3 →
  wp (delete_node LEVELS a b) (λ _ st', ∃ B', inv st' B' ∧ updated st B idx e st' B' ∧ (full st B 0 → full st' B' 0)) st1.
Proof.
  intros (Hinv1 & Hup & (n & HB & Hn & Hs & _) & Hfull) Hv.
  eapply wp_mono; [apply (delete_node_spec LEVELS b st1 B a _ n Hinv1 HB Hn); [|done]|].
  { change (Z.of_nat LEVELS) with 12. lia. }
  intros ? st' (B' & Hinv' & Hc & Hfull'). exists B'. split; [done|]. split; [|auto]. intros j v.
  rewrite (Hc j v). apply Hup.
Qed.

(** Where a lookup that finds an entry points. *)
Definition points (st : tstate) (B : gmap Z Z) (idx v node : Z) (slot : slotref) : Prop :=
  node = 0 ∧ slot = SlotRoot ∧ idx = 0 ∧ rnode (root st) = v ∧ B = ∅ ∨
  slot = SlotNode node (digit 0 idx) ∧ leaf_at st B idx node v.

Lemma lookup_points st B idx v node slot :
  lookup_out (st := st) (B := B) idx v (Some (node, slot)) → v ≠ 0 → points st B idx v node slot.
Proof.
  intros [H|(n & HB & Hn & -> & Hv & Hs)] Hv0; [by left|right].
  rewrite Hs in * by done. split; [done|]. exists n. eauto 10.
Qed.

Lemma root_item st : inv st ∅ → rnode (root st) = 0 ∨ item_ok (rnode (root st)).
Proof.
  intros Hinv. destruct (inv_root _ _ Hinv) as [|? _|? ? _ [? Hx]]; auto.
  by rewrite lookup_empty in Hx.
Qed.

Lemma set_direct_updated st e :
  inv st ∅ → (e = 0 ∨ item_ok e) →
  inv (set_rnode e st) ∅ ∧ updated st ∅ 0 e (set_rnode e st) ∅.
Proof.
  intros Hinv He. destruct (set_direct st (set_rnode e st) e) as [Hinv' Hc']; try done.
  split; [done|]. intros j v. rewrite Hc'. case_decide as Hj; [tauto|].
  split; [tauto|]. intros [|a b n i Hb]; [done|]. by rewrite lookup_empty in Hb.
Qed.

Lemma delete_slot_spec st B idx v node slot :
  inv st B → points st B idx v node slot → v ≠ 0 → verbose st < 3 →
  wp (__radix_tree_delete node slot)
    (λ _ st', ∃ B', inv st' B' ∧ updated st B idx 0 st' B' ∧ (full st B 0 → full st' B' 0)) st.
Proof.
  intros Hinv Hpt Hv Hverb. unfold __radix_tree_delete. rewrite wp_bind.
  destruct Hpt as [(-> & -> & -> & Hr & ->)|[-> Hlf]].
  - cbn [read_slot]. rewrite wp_get_rnode. unfold replace_slot. rewrite truthy_0.
    cbn [andb write_slot]. rewrite !wp_bind, wp_ret, wp_put_rnode, wp_ret.
    exists ∅. destruct (set_direct_updated st 0); auto.
  - pose proof Hlf as (n & HB & Hn & Hs & Hsl). pose proof (digit_range 0 idx).
    cbn [read_slot]. rewrite wp_bind, (wp_load_node node n), (wp_node_slot n _ v) by (done || lia).
    rewrite wp_bind. rewrite (truthy_nz node) by (by eapply live_nonnull).
    eapply wp_mono.
    { apply (wp_within (R := node_room) 0); [apply _|].
      apply (replace_slot_spec st B idx node v 0); [done|done|by left|by left|].
      by rewrite (truthy_nz v). }
    intros ? st1 [Hw [_ Hv1]]. apply (written_delete_node st B idx node 0 st1); [done|lia].
Qed.

Lemma replace_spec st B idx v node slot item :
  inv st B → points st B idx v node slot → (item = 0 ∨ item_ok item) → verbose st < 3 →
  wp (__radix_tree_replace node slot item)
    (λ _ st', ∃ B', inv st' B' ∧ updated st B idx item st' B' ∧ (full st B 0 → full st' B' 0)) st.
Proof.
  intros Hinv Hpt Hitem Hverb. unfold __radix_tree_replace. rewrite wp_bind.
  destruct Hpt as [(-> & -> & -> & Hr & ->)|[-> Hlf]].
  - cbn [read_slot]. rewrite wp_get_rnode. unfold replace_slot. rewrite truthy_0.
    cbn [andb write_slot]. rewrite !wp_bind, wp_ret, wp_put_rnode, wp_ret.
    exists ∅. destruct (set_direct_updated st item); auto.
  - pose proof Hlf as (n & HB & Hn & Hs & Hsl). pose proof (digit_range 0 idx).
    cbn [read_slot]. rewrite wp_bind, (wp_load_node node n), (wp_node_slot n _ v) by (done || lia).
    rewrite wp_bind. rewrite (truthy_nz node) by (by eapply live_nonnull).
    eapply wp_mono; [apply (wp_within (R := node_room) 0); [apply _|by apply (replace_slot_spec st B idx node v item); auto]|].
    intros ? st1 [Hw [_ Hv1]]. rewrite wp_bind. apply (written_delete_node st B idx node item st1); [done|lia].
Qed.

(** Without the node, as [radix_tree_replace_slot] calls it, an item may take
    the place of an item; the counts cannot follow anything else. *)
Lemma replace_item_spec st B idx v node slot item :
  inv st B → points st B idx v node slot → v ≠ 0 → item_ok item →
  wp (radix_tree_replace_slot slot item)
    (λ _ st', ∃ B', inv st' B' ∧ updated st B idx item st' B' ∧ (full st B 0 → full st' B' 0)) st.
Proof.
  intros Hinv Hpt Hv Hitem. unfold radix_tree_replace_slot.
  destruct Hpt as [(-> & -> & -> & Hr & ->)|[-> Hlf]].
  - unfold __radix_tree_replace. rewrite wp_bind. cbn [read_slot]. rewrite wp_get_rnode. unfold replace_slot. rewrite truthy_0.
    cbn [andb write_slot]. rewrite !wp_bind, wp_ret, wp_put_rnode, wp_ret.
    exists ∅. destruct (set_direct_updated st item); auto.
  - pose proof Hlf as (n & HB & Hn & Hs & Hsl). pose proof (digit_range 0 idx).
    unfold __radix_tree_replace. cbn [read_slot].
    rewrite !wp_bind, (wp_load_node node n), (wp_node_slot n _ v) by (done || lia).
    rewrite wp_bind. rewrite truthy_0.
    assert (truthy item = true) as Hti by (apply truthy_nz; destruct Hitem; lia).
    assert (calculate_count item v = 0) as Hcc.
    { unfold calculate_count. by rewrite Hti, (truthy_nz v). }
    eapply wp_mono.
    { apply (replace_slot_spec st B idx node v item); auto. }
    intros ? st1 (Hinv1 & Hup & (n1 & HB1 & Hn1 & _ & He1) & Hfull). rewrite wp_ret. exists B.
    split; [done|]. split; [done|]. intros Hf x b m HBx Hm Hz. pose proof (Hfull Hf x b m HBx Hm Hz) as ->.
    exfalso. assert (m = n1) as -> by congruence.
    rewrite (no_count _ _ _ _ _ _ (live_node Hinv1 _ _ _ HB1 Hn1)) in Hz.
    apply (nonzero_zero _ _ _ Hz) in He1. destruct Hitem. lia.
Qed.

(** [radix_tree_delete_item]: the entry, taken out, when it is there and is the
    one asked for; NULL, with nothing changed, when it is another one. *)
Lemma delete_item_spec st B idx item :
  inv st B → 0 ≤ idx < 2 ^ 64 → (item ≠ 0 ∨ ∃ v, content st B idx v) → verbose st < 3 →
  wp (radix_tree_delete_item idx item)
    (λ r st',
       (∃ B', content st B idx r ∧ (item = 0 ∨ item = r) ∧ inv st' B' ∧ updated st B idx 0 st' B' ∧
          (full st B 0 → full st' B' 0)) ∨
       (r = 0 ∧ st' = st ∧ item ≠ 0 ∧ ¬ content st B idx item)) st.
Proof.
  intros Hinv Hi Hpre Hverb. unfold radix_tree_delete_item. rewrite wp_bind.
  eapply wp_mono; [by apply (lookup_spec Hinv)|].
  intros [v out] st' (-> & Hout & Hc).
  assert (item = 0 → v ≠ 0) as Hv0.
  { intros ->. destruct Hpre as [?|[v' Hv']]; [done|]. apply Hc in Hv'. tauto. }
  destruct out as [[node slot]|].
  - destruct (truthy item && negb (v =? item)) eqn:Hg.
    + apply andb_true_iff in Hg as [Hit%truthy_true Hne]. rewrite wp_ret. right.
      destruct (Z.eqb_spec v item); [done|]. repeat split; try done. rewrite Hc. naive_solver.
    + assert (v ≠ 0 ∧ (item = 0 ∨ item = v)) as [Hvn Hor].
      { case_truthy item Hit; [|by auto]. destruct (Z.eqb_spec v item) as [->|]; [by auto|done]. }
      rewrite wp_bind. eapply wp_mono.
      { eapply delete_slot_spec; [done|by eapply lookup_points|done|done]. }
      intros _ st' (B' & Hinv' & Hup). rewrite wp_ret. left. exists B'.
      split; [by apply Hc|]. done.
  - cbn in Hout. subst v. rewrite wp_ret. right.
    assert (item ≠ 0) by naive_solver. repeat split; try done. rewrite Hc. naive_solver.
Qed.
