(* ===== verification/RadixIter.v ===== *)
(** * The radix tree: iteration

    [radix_tree_next_chunk] finds the least index at or after the iterator's
    position that has an entry, its restarts are bounded by the nodes of the
    tree, and the [radix_tree_for_each_slot] loop visits every entry once, in
    ascending order. *)
From S2P Require Import Prelude RadixDefs RadixInv RadixLookup RadixUpdate RadixInsert RadixDelete.

Section iter.
Context {st : tstate} {B : gmap Z Z} (Hinv : inv st B).

(** No entry from [lo] up to but not including [hi]. *)
Definition gap (lo hi : Z) : Prop := ∀ j v, lo ≤ j < hi → ¬ content st B j v.

Lemma gap_empty lo hi : hi ≤ lo → gap lo hi.
Proof. intros ? j v ?. lia. Qed.

Lemma gap_trans lo mid hi : gap lo mid → gap mid hi → gap lo hi.
Proof. intros H1 H2 j v ?. destruct (decide (j < mid)); [apply H1|apply H2]; lia. Qed.

Lemma gap_sub lo hi lo' hi' : gap lo hi → lo ≤ lo' → hi' ≤ hi → gap lo' hi'.
Proof. intros H ?? j v ?. apply H. lia. Qed.

(** A multiple of 64 below [2^64] leaves room for a whole leaf. *)
Lemma leaf_room b : (64 | b) → 0 ≤ b < 2 ^ 64 → b + 64 ≤ 2 ^ 64.
Proof. intros [q ->] ?. change (2 ^ 64) with (288230376151711744 * 64) in *. nia. Qed.

Lemma content_range j v : content st B j v → 0 ≤ j < 2 ^ 64.
Proof.
  intros [-> _ _|a b n i Hb Hn Hs Hi _ ->]; [lia|].
  pose proof (live_node Hinv _ _ _ Hb Hn) as Hok.
  pose proof (slot_lt64 Hinv _ _ _ _ _ Hb Hn Hi). pose proof (no_base _ _ _ _ _ _ Hok).
  pose proof (no_div _ _ _ _ _ _ Hok) as Hd. rewrite Hs in Hd. change (2 ^ (0 + 6)) with 64 in Hd.
  pose proof (leaf_room b Hd). lia.
Qed.

(** NULL slots from the index's own up to [off] leave a gap. *)
Lemma gap_slots a n idx off :
  B !! a = Some (base_of (shift n) idx) → heap st !! a = Some n → off ≤ 64 →
  (∀ i e, digit (shift n) idx ≤ i < off → slots n !! Z.to_nat i = Some e → e = 0) →
  gap idx (base_of (shift n) idx + off * 2 ^ shift n).
Proof.
  intros Hb Hn Hoff Hz j v Hj Hc.
  destruct (no_level _ _ _ _ _ _ (live_node Hinv _ _ _ Hb Hn)) as [Hl _].
  pose proof (pow2_pos (shift n)) as Hpow. pose proof (pow2_64 (shift n)).
  pose proof (base_of_bounds (shift n) idx) as Hbi.
  assert (base_of (shift n) j = base_of (shift n) idx) as Hbj.
  { apply base_of_eq; [lia|apply base_of_divide|nia]. }
  pose proof (base_of_digit (shift n) j) as Hdj. pose proof (base_of_digit (shift n) idx) as Hdi.
  pose proof (Z.div_le_mono idx j (2 ^ shift n)).
  pose proof (Z.mul_div_le j (2 ^ shift n)).
  assert (digit (shift n) idx ≤ digit (shift n) j < off) by nia.
  destruct (live_slot Hinv a _ n j Hb Hn) as [e He].
  assert (e = 0) as -> by (by eapply Hz). rewrite <- Hbj in Hb.
  destruct (decide (shift n = 0)) as [Hs|Hs].
  - rewrite Hs in *. by apply (content_of_leaf Hinv a n j 0 Hb Hn Hs He) in Hc as [_ ?].
  - by eapply (content_of_null Hinv a n j).
Qed.

Lemma scan_slots_spec fuel n off :
  length (slots n) = 64%nat → 0 ≤ off < 64 → 64 - off ≤ Z.of_nat fuel →
  wp (scan_slots fuel n off)
    (λ off' st', st' = st ∧ off < off' ≤ 64 ∧
       (∀ i e, off < i < off' → slots n !! Z.to_nat i = Some e → e = 0) ∧
       (off' < 64 → ∃ e, slots n !! Z.to_nat off' = Some e ∧ e ≠ 0)) st.
Proof.
  intros Hlen. revert off. induction fuel as [|fuel IH]; intros off Hoff Hf; [lia|].
  cbn [scan_slots]. change RADIX_TREE_MAP_SIZE with 64.
  destruct (Z.ltb_spec (off + 1) 64).
  - assert (∃ e, slots n !! Z.to_nat (off + 1) = Some e) as [e He].
    { apply lookup_lt_is_Some_2. lia. }
    rewrite wp_bind, (wp_node_slot n _ e) by (done || lia). case_truthy e Hne.
    + rewrite wp_ret. split; [done|]. split; [lia|]. split; [intros; lia|eauto].
    + subst e. eapply wp_mono; [apply IH; lia|].
      intros off' st' (-> & ? & Hz & ?). split; [done|]. split; [lia|]. split; [|done].
      intros i e' Hi He'. destruct (decide (i = off + 1)) as [->|]; [congruence|].
      apply (Hz i e'); [lia|done].
  - rewrite wp_ret. split; [done|]. split; [lia|]. split; [intros; lia|lia].
Qed.

(** ** One descent *)

(** The first index behind a live node. *)
Definition node_end (a b : Z) : Z :=
  match heap st !! a with Some n => b + 2 ^ (shift n + 6) | None => 0 end.

Definition chunk_post (idx : Z) (c : chunk) (st' : tstate) : Prop :=
  st' = st ∧
  match c with
  | ChunkNone => gap idx (2 ^ 64)
  | ChunkRestart i => idx < i < 2 ^ 64 ∧ gap idx i ∧
      ∃ a b, B !! a = Some b ∧ node_end a b = i
  | ChunkFound a off i => idx ≤ i < 2 ^ 64 ∧ gap idx i ∧ off = digit 0 i ∧
      ∃ v, leaf_at st B i a v ∧ v ≠ 0
  end.

(** The first index of a node's slot. *)
Lemma slot_start s idx off :
  level s → 0 ≤ idx < 2 ^ 64 → 0 ≤ off ≤ 64 →
  Z.land idx (not64 (shift_maxindex s)) + shl64 off s =
  base_of s idx + (off * 2 ^ s) mod 2 ^ 64.
Proof.
  intros Hl Hi Ho. rewrite land_not64_maxindex by done. unfold shl64, wrap.
  rewrite Z.shiftl_mul_pow2 by (destruct Hl; lia). done.
Qed.

Lemma slot_pos s b off :
  0 ≤ s → (2 ^ (s + 6) | b) → 0 ≤ off < 64 →
  base_of s (b + off * 2 ^ s) = b ∧ digit s (b + off * 2 ^ s) = off.
Proof.
  intros Hs Hd Ho. pose proof (pow2_pos s Hs). pose proof (pow2_64 s Hs).
  assert (base_of s (b + off * 2 ^ s) = b) as Hb by (apply base_of_eq; [lia|done|nia]).
  split; [done|]. pose proof (base_of_digit s (b + off * 2 ^ s) Hs) as Hdg. rewrite Hb in Hdg.
  set (d := digit s _) in *. clearbody d. destruct Hd as [q ->].
  replace (q * 2 ^ (s + 6) + off * 2 ^ s) with ((q * 64 + off) * 2 ^ s) in Hdg
    by (rewrite pow2_64 by lia; ring).
  rewrite Z.div_mul, pow2_64 in Hdg by lia. apply (Z.mul_reg_r _ _ (2 ^ s)); lia.
Qed.

(** The node's range ends within the index type, the topmost level apart. *)
Lemma node_end_bound s b :
  level s → s ≠ 60 → (2 ^ (s + 6) | b) → 0 ≤ b < 2 ^ 64 → b + 2 ^ (s + 6) ≤ 2 ^ 64.
Proof.
  intros [Hs Hm] H60 [q ->]. pose proof (pow2_pos (s + 6)).
  assert (2 ^ 64 = 2 ^ (58 - s) * 2 ^ (s + 6)) as ->.
  { rewrite <- Z.pow_add_r by zlia. f_equal. lia. }
  intros [_ Hb]. apply Z.mul_lt_mono_pos_r in Hb; [|lia]. nia.
Qed.

Lemma chunk_post_trans idx i c st' :
  idx ≤ i → gap idx i → chunk_post i c st' → chunk_post idx c st'.
Proof.
  intros Hi Hg [-> Hp]. split; [done|]. destruct c as [|j|a off j].
  - by eapply gap_trans.
  - destruct Hp as (? & ? & ?). split; [lia|]. split; [by eapply gap_trans|done].
  - destruct Hp as (? & ? & ?). split; [lia|]. split; [by eapply gap_trans|done].
Qed.

(** The end of a scan that found no entry: the next node, or the end. *)
Lemma chunk_end a n idx :
  0 ≤ idx < 2 ^ 64 → B !! a = Some (base_of (shift n) idx) → heap st !! a = Some n →
  gap idx (base_of (shift n) idx + 64 * 2 ^ shift n) →
  let i := u64 (Z.land idx (not64 (node_maxindex n)) + shl64 64 (shift n)) in
  (i = 0 → chunk_post idx ChunkNone st) ∧ (i ≠ 0 → chunk_post idx (ChunkRestart i) st).
Proof.
  intros Hi Hb Hn Hg. pose proof (live_node Hinv _ _ _ Hb Hn) as Hok.
  pose proof (no_level _ _ _ _ _ _ Hok) as Hl. pose proof Hl as [Hl0 Hm].
  unfold node_maxindex. rewrite slot_start by (done || lia).
  pose proof (base_of_bounds (shift n) idx) as Hbi. pose proof (pow2_64 (shift n)) as H64.
  destruct (decide (shift n = 60)) as [Hs|Hs].
  - rewrite Hs in *. change ((64 * 2 ^ 60) mod 2 ^ 64) with 0.
    assert (base_of 60 idx = 0) as Hb0.
    { apply base_of_eq; [lia|apply Z.divide_0_r|]. change (2 ^ (60 + 6)) with (4 * 2 ^ 64). lia. }
    rewrite Hb0 in *. split; [|done]. intros _. split; [done|]. eapply gap_sub; [exact Hg|lia|done].
  - pose proof (node_end_bound (shift n) _ Hl Hs (base_of_divide _ idx) (no_base _ _ _ _ _ _ Hok)).
    assert (2 ^ (shift n + 6) ≤ 2 ^ 60) by (apply Z.pow_le_mono_r; zlia).
    rewrite <- H64 in * by lia. pose proof (pow2_pos (shift n + 6)).
    rewrite (Z.mod_small (2 ^ (shift n + 6))) by lia. cbn zeta. split.
    + intros Hi0. split; [done|]. eapply gap_sub; [done|lia|].
      unfold wrap in Hi0. destruct (decide (base_of (shift n) idx + 2 ^ (shift n + 6) = 2 ^ 64)); [lia|].
      rewrite Z.mod_small in Hi0 by lia. lia.
    + intros Hi0. destruct (decide (base_of (shift n) idx + 2 ^ (shift n + 6) = 2 ^ 64)) as [He|].
      { rewrite He in Hi0. done. }
      rewrite wrap_small by lia. split; [done|]. split; [lia|]. split; [done|].
      exists a, (base_of (shift n) idx). split; [done|]. unfold node_end. by rewrite Hn.
Qed.

(** The slot a scan stopped at starts at an index of the tree. *)
Lemma chunk_next a n idx off e :
  0 ≤ idx < 2 ^ 64 → B !! a = Some (base_of (shift n) idx) → heap st !! a = Some n →
  0 < off < 64 → slots n !! Z.to_nat off = Some e → e ≠ 0 →
  let i := base_of (shift n) idx + off * 2 ^ shift n in
  u64 (Z.land idx (not64 (node_maxindex n)) + shl64 off (shift n)) = i ∧
  0 < i < 2 ^ 64 ∧ base_of (shift n) i = base_of (shift n) idx ∧ digit (shift n) i = off.
Proof.
  intros Hi Hb Hn Ho He Hne. pose proof (live_node Hinv _ _ _ Hb Hn) as Hok.
  pose proof (no_level _ _ _ _ _ _ Hok) as Hl. pose proof Hl as [Hl0 Hm].
  destruct (slot_pos (shift n) (base_of (shift n) idx) off) as [Hbi Hdi];
    [lia|apply base_of_divide|lia|].
  cbn zeta. set (i := base_of (shift n) idx + off * 2 ^ shift n) in *.
  pose proof (no_base _ _ _ _ _ _ Hok) as Hbr. pose proof (pow2_pos (shift n)).
  assert (0 < i < 2 ^ 64) as Hir.
  { split; [nia|]. destruct (decide (shift n = 0)) as [Hs|Hs].
    - pose proof (base_of_divide (shift n) idx) as Hd. subst i. rewrite Hs in *.
      change (2 ^ (0 + 6)) with 64 in Hd. pose proof (leaf_room _ Hd Hbr). lia.
    - destruct (live_child Hinv a n i e) as (c & cn & _ & Hcn & Hcs & HBc); try done.
      { by rewrite Hbi. } { by rewrite Hdi. }
      pose proof (no_base _ _ _ _ _ _ (live_node Hinv _ _ _ HBc Hcn)) as Hcb.
      rewrite Hcs, base_of_child, Hbi, Hdi in Hcb by zlia. subst i. lia. }
  split; [|done]. unfold node_maxindex. rewrite slot_start by (done || lia).
  rewrite (Z.mod_small (off * 2 ^ shift n)) by nia. rewrite wrap_small by lia. done.
Qed.

Lemma chunk_walk_spec fuel a n idx flags :
  0 ≤ idx < 2 ^ 64 → Z.land flags RADIX_TREE_ITER_CONTIG = 0 →
  B !! a = Some (base_of (shift n) idx) → heap st !! a = Some n →
  shift n + 6 ≤ 6 * Z.of_nat fuel →
  wp (chunk_walk fuel (node_to_entry a) idx flags) (chunk_post idx) st.
Proof.
  intros Hi Hfl. revert a n idx Hi. induction fuel as [|fuel IH]; intros a n idx Hi Hb Hn Hf;
    pose proof (live_node Hinv _ _ _ Hb Hn) as Hok; pose proof (no_level _ _ _ _ _ _ Hok) as [Hl Hm]; [lia|].
  assert (Hgo : ∀ i off e (Hir : 0 ≤ i < 2 ^ 64), base_of (shift n) i = base_of (shift n) idx →
    off = digit (shift n) i → slots n !! Z.to_nat off = Some e → e ≠ 0 →
    wp (if truthy (shift n) && radix_tree_is_internal_node e
        then chunk_walk fuel e i flags else mret (ChunkFound a off i)) (chunk_post i) st).
  { intros i off e Hir Hbi -> He Hne. rewrite <- Hbi in Hb. case_truthy (shift n) Hs.
    - destruct (live_child Hinv a n i e) as (c & cn & -> & Hcn & Hcs & HBc); try done.
      rewrite internal_node_to_entry by (by eapply live_aligned).
      apply (IH c cn i); [done|done|done|lia].
    - cbn [andb]. rewrite wp_ret. split; [done|]. split; [lia|]. split; [by apply gap_empty|].
      rewrite Hs in *. split; [done|]. exists e. split; [|done]. by exists n. }
  cbn [chunk_walk]. rewrite entry_to_node_entry by (by eapply live_aligned).
  rewrite wp_bind, (wp_load_node a n) by done.
  destruct (live_slot Hinv a _ n idx Hb Hn) as [e He].
  rewrite wp_bind, (wp_descend n idx e) by (lia || done).
  case_truthy e Hne; [by apply Hgo|]. subst e. rewrite Hfl, truthy_0, wp_bind.
  pose proof (digit_range (shift n) idx).
  eapply wp_mono; [apply scan_slots_spec; [apply Hok|done|lia]|].
  intros off st' (-> & Hoff & Hz & Hnz).
  assert (gap idx (base_of (shift n) idx + off * 2 ^ shift n)) as Hg.
  { apply (gap_slots a n idx off Hb Hn); [lia|]. intros j e Hj Hej.
    destruct (decide (j = digit (shift n) idx)) as [->|]; [congruence|].
    apply (Hz j e); [lia|done]. }
  change RADIX_TREE_MAP_SIZE with 64. destruct (decide (off = 64)) as [->|].
  - destruct (chunk_end a n idx Hi Hb Hn Hg) as [Hend Hre].
    destruct (Z.eqb_spec (u64 (Z.land idx (not64 (node_maxindex n)) + shl64 64 (shift n))) 0);
      [by apply Hend|]. by apply Hre.
  - destruct Hnz as (e & Hoe & Hne); [lia|].
    destruct (chunk_next a n idx off e) as (-> & Hir & Hbi & Hdi); try done; [lia|].
    rewrite (proj2 (Z.eqb_neq _ 0)) by lia. rewrite (proj2 (Z.eqb_neq off 64)) by lia.
    rewrite wp_bind, (wp_node_slot n off e) by (lia || done). rewrite (truthy_nz e) by done.
    eapply wp_mono; [apply Hgo; [lia|done..]|].
    intros c st'. apply chunk_post_trans; [|done].
    pose proof (base_of_digit (shift n) idx). pose proof (Z.mul_succ_div_gt idx (2 ^ shift n)).
    pose proof (pow2_pos (shift n)). nia.
Qed.

(** ** The restarts *)

(** The live nodes that end after [idx]. *)
Definition ahead (idx : Z) : gmap Z Z := filter (λ ab, idx < node_end ab.1 ab.2) B.

Lemma ahead_size idx : (size (ahead idx) ≤ size (heap st))%nat.
Proof.
  transitivity (size B).
  - apply map_subseteq_size, map_filter_subseteq.
  - rewrite <- !size_dom. apply subseteq_size. intros a [b Hb]%elem_of_dom.
    apply elem_of_dom. destruct (live_heap Hinv a b Hb). eauto.
Qed.

Lemma ahead_restart idx i a b :
  idx < i → B !! a = Some b → node_end a b = i → (size (ahead i) < size (ahead idx))%nat.
Proof.
  intros Hi Hb He. apply map_subset_size. split.
  - apply map_subseteq_spec. intros x bx [Hx Hlt]%map_lookup_filter_Some.
    apply map_lookup_filter_Some. cbn in *. split; [done|lia].
  - intros Hsub. assert (ahead idx !! a = Some b) as Ha.
    { apply map_lookup_filter_Some. cbn. split; [done|lia]. }
    eapply lookup_weaken in Ha; [|done]. apply map_lookup_filter_Some in Ha as [_ Ha].
    cbn in Ha. lia.
Qed.

(** The iterator stands at entry [v] of index [j], in slot [s]. *)
Definition at_slot (j v : Z) (s : slotref) (it : radix_tree_iter) : Prop :=
  index it = j ∧ 0 ≤ j < 2 ^ 64 ∧ v ≠ 0 ∧ content st B j v ∧
  (s = SlotRoot ∧ j = 0 ∧ next_index it = 1 ∧ inode it = 0 ∧ rnode (root st) = v ∧ B = ∅ ∨
   ∃ a, s = SlotNode a (digit 0 j) ∧ leaf_at st B j a v ∧ inode it = a ∧
     next_index it = u64 (base_of 0 j + 64)).

(** The outcome of a search from [lo]: the least entry, or none. *)
Definition next_post (lo : Z) (r : option slotref * radix_tree_iter) (st' : tstate) : Prop :=
  st' = st ∧
  match r with
  | (None, it) => gap lo (2 ^ 64)
  | (Some s, it) => ∃ j v, lo ≤ j ∧ gap lo j ∧ at_slot j v s it
  end.

Lemma next_post_trans lo i r st' :
  lo ≤ i → gap lo i → next_post i r st' → next_post lo r st'.
Proof.
  intros Hi Hg [-> Hp]. split; [done|]. destruct r as [[s|] it].
  - destruct Hp as (j & v & ? & ? & ?). exists j, v. split; [lia|]. split; [by eapply gap_trans|done].
  - by eapply gap_trans.
Qed.

Lemma at_slot_read j v s it : at_slot j v s it → read_slot s st = Ok (v, st).
Proof.
  intros (_ & _ & _ & _ & [(-> & _ & _ & _ & <- & _)|(a & -> & (n & Hb & Hn & Hs & Hsl) & _)]).
  - done.
  - pose proof (digit_range 0 j). cbn [read_slot].
    assert (wp (n ← load_node a; node_slot n (digit 0 j)) (λ r st', r = v ∧ st' = st) st) as Hwp.
    { by rewrite wp_bind, (wp_load_node a n), (wp_node_slot n _ v) by (done || lia). }
    apply wp_returns in Hwp as (r & st' & Hrun & -> & ->). done.
Qed.

Lemma next_index_spec b j :
  (64 | b) → 0 ≤ b → 0 ≤ j < 2 ^ 64 → base_of 0 j = b →
  Z.lor j (shift_maxindex 0) + 1 = b + 64.
Proof.
  intros Hd Hb Hj Hbj. change (shift_maxindex 0) with (Z.ones 6).
  pose proof (base_of_leaf j) as Hl. rewrite Hbj in Hl. pose proof (digit_range 0 j).
  assert (Z.lor j (Z.ones 6) = b + 63) as ->; [|lia].
  change 63 with (Z.ones 6). rewrite <- (lor_disjoint b 6 (Z.ones 6)); [|lia|done|].
  2:{ apply Z.mod_divide; [lia|done]. }
  rewrite Hl, <- (lor_disjoint b 6 (digit 0 j)); [|lia|change (2 ^ 6) with 64; lia|].
  2:{ apply Z.mod_divide; [lia|done]. }
  rewrite <- Z.lor_assoc. f_equal. rewrite Z.lor_ones_low; [done|lia|].
  destruct (decide (digit 0 j = 0)) as [->|]; [done|].
  apply Z.log2_lt_pow2; [lia|]. change (2 ^ 6) with 64. lia.
Qed.

Lemma lor_leaf_index j :
  0 ≤ j < 2 ^ 64 → Z.lor (Z.land j (not64 (shift_maxindex 0))) (digit 0 j) = j.
Proof.
  intros Hj. rewrite land_not64_maxindex by (done || by split). pose proof (digit_range 0 j).
  rewrite (lor_disjoint _ 6); [|lia|change (2 ^ 6) with 64; lia|].
  - symmetry. apply base_of_leaf.
  - apply Z.mod_divide; [lia|]. apply (base_of_divide 0).
Qed.

Lemma next_chunk_loop_spec fuel it idx flags :
  0 ≤ idx < 2 ^ 64 → Z.land flags RADIX_TREE_ITER_CONTIG = 0 →
  (size (ahead idx) < fuel)%nat →
  wp (next_chunk_loop fuel it idx flags) (next_post idx) st.
Proof.
  intros Hi Hfl. revert idx Hi. induction fuel as [|fuel IH]; intros idx Hi Hf; [lia|].
  cbn [next_chunk_loop]. rewrite wp_bind.
  destruct (inv_root _ _ Hinv) as [Hr HB|Hr HB|r rn Hr [rb HB] Hn Hp].
  - rewrite load_root_leaf, Hr by (by rewrite Hr).
    assert (gap idx (2 ^ 64)).
    { intros j v _ [_ [? _] ?|a b n i Hb]; [lia|]. by rewrite HB, lookup_empty in Hb. }
    destruct (0 <? idx); rewrite ?truthy_0; cbn [negb]; by rewrite wp_ret.
  - pose proof Hr as [Hrp Hri]. rewrite load_root_leaf by done. destruct (Z.ltb_spec 0 idx).
    + rewrite wp_ret. split; [done|]. intros j v Hj [?|a b n i Hb]; [lia|].
      by rewrite HB, lookup_empty in Hb.
    + rewrite truthy_nz, Hri by lia. cbn [negb]. rewrite wp_ret. split; [done|].
      assert (idx = 0) as -> by lia. exists 0, (rnode (root st)). split; [done|].
      split; [by apply gap_empty|]. split; [done|]. split; [done|]. split; [lia|].
      split; [by apply content_direct|]. left. done.
  - pose proof (live_node Hinv _ _ _ HB Hn) as Hok.
    destruct (no_root _ _ _ _ _ _ Hok Hp) as [_ ->]. pose proof (no_level _ _ _ _ _ _ Hok) as Hl.
    assert (aligned r) as Har by (by eapply live_aligned).
    rewrite (load_root_node Hinv r rn) by done.
    destruct (shift_maxindex (shift rn) <? idx) eqn:Hlt.
    + rewrite wp_ret. split; [done|]. intros j v Hj Hc. pose proof (content_range j v Hc).
      apply (content_small Hinv r rn) in Hc; [|done..].
      apply shift_maxindex_lt in Hc; [|done|lia]. apply Z.ltb_lt in Hlt. apply Z.ltb_ge in Hc. lia.
    + apply shift_maxindex_lt in Hlt; [|done|done].
      rewrite (truthy_nz (node_to_entry r)) by (by apply node_to_entry_nz).
      rewrite internal_node_to_entry by done. cbn [negb]. rewrite wp_bind. eapply wp_mono.
      { eapply (chunk_walk_spec _ r rn); [done|done|by rewrite Hlt|done|].
        change (Z.of_nat LEVELS) with 12. destruct Hl. lia. }
      intros [|i|a off i] st' [-> Hpost].
      * by rewrite wp_ret.
      * destruct Hpost as (Hii & Hg & a & b & Hb & He).
        eapply wp_mono; [apply (IH i); [lia|]|].
        { pose proof (ahead_restart idx i a b). naive_solver lia. }
        intros q st'. apply next_post_trans; [lia|done].
      * destruct Hpost as (Hii & Hg & -> & v & Hlf & Hv). pose proof Hlf as (n & Hb & Hn' & Hs & Hsl).
        rewrite wp_bind, (wp_load_node a n), wp_ret by done. split; [done|]. exists i, v.
        split; [lia|]. split; [done|]. unfold node_maxindex. rewrite Hs.
        split; [cbn; apply lor_leaf_index; lia|]. split; [lia|]. split; [done|].
        split; [by eapply content_leaf_at|]. right. exists a. split; [done|]. split; [done|].
        split; [done|]. cbn. f_equal. apply next_index_spec; [apply (base_of_divide 0)| |lia|done].
        apply (no_base _ _ _ _ _ _ (live_node Hinv _ _ _ Hb Hn')).
Qed.

(** The iterator between two chunks: the search goes on at [lo]. *)
Definition cursor (lo : Z) (it : radix_tree_iter) : Prop :=
  0 ≤ lo < 2 ^ 64 ∧ next_index it = lo ∧ (lo = 0 → index it = 0) ∨
  lo = 2 ^ 64 ∧ next_index it = 0 ∧ index it ≠ 0.

Lemma cursor_range lo it : cursor lo it → 0 ≤ lo ≤ 2 ^ 64.
Proof. intros [?|?]; lia. Qed.

Lemma next_chunk_spec lo it flags :
  cursor lo it → Z.land flags RADIX_TREE_ITER_CONTIG = 0 → Z.land flags RADIX_TREE_ITER_TAGGED = 0 →
  wp (radix_tree_next_chunk it flags) (next_post lo) st.
Proof.
  intros Hcur Hfl Htg. unfold radix_tree_next_chunk. rewrite Htg, truthy_0.
  destruct Hcur as [(Hlo & Hni & Hidx)|(-> & Hni & Hidx)].
  - rewrite Hni. destruct ((lo =? 0) && truthy (index it)) eqn:Hg.
    + apply andb_true_iff in Hg as [->%Z.eqb_eq Hg%truthy_true]. by destruct Hg, Hidx.
    + rewrite wp_bind, wp_gets. apply next_chunk_loop_spec; [done|done|].
      unfold restart_fuel. pose proof (ahead_size lo). lia.
  - rewrite Hni, (truthy_nz (index it)) by done. cbn [Z.eqb andb]. rewrite wp_ret.
    split; [done|]. by apply gap_empty.
Qed.

(** ** Within a chunk *)

Definition slot_post (j b : Z) (r : option slotref * radix_tree_iter) (st' : tstate) : Prop :=
  st' = st ∧
  match r with
  | (None, it) => gap (j + 1) (b + 64) ∧ index it = b + 63 ∧ next_index it = u64 (b + 64)
  | (Some s, it) => ∃ j' v', j < j' ∧ gap (j + 1) j' ∧ at_slot j' v' s it
  end.

Lemma next_slot_loop_spec fuel cnt it flags j a n b :
  Z.land flags RADIX_TREE_ITER_CONTIG = 0 →
  B !! a = Some b → heap st !! a = Some n → shift n = 0 → base_of 0 j = b →
  index it = j → inode it = a → next_index it = u64 (b + 64) → cnt = b + 64 - j →
  cnt < Z.of_nat fuel →
  wp (next_slot_loop fuel cnt (SlotNode a (digit 0 j)) it flags) (slot_post j b) st.
Proof.
  intros Hfl Hb Hn Hs. revert cnt it j.
  induction fuel as [|fuel IH]; intros cnt it j Hbj Hix Hin Hni Hcnt Hf.
  { pose proof (base_of_bounds 0 j). change (2 ^ (0 + 6)) with 64 in *. lia. }
  pose proof (live_node Hinv _ _ _ Hb Hn) as Hok. pose proof (no_base _ _ _ _ _ _ Hok) as Hbr.
  pose proof (no_div _ _ _ _ _ _ Hok) as Hd. rewrite Hs in Hd. change (2 ^ (0 + 6)) with 64 in Hd.
  pose proof (leaf_room b Hd Hbr). pose proof (base_of_leaf j) as Hj. pose proof (digit_range 0 j).
  cbn [next_slot_loop]. destruct (Z.ltb_spec 0 (cnt - 1)).
  - assert (base_of 0 (j + 1) = b) as Hbj1.
    { apply base_of_eq; [lia|done|]. change (2 ^ (0 + 6)) with 64. lia. }
    assert (digit 0 (j + 1) = digit 0 j + 1) as Hdj1.
    { pose proof (base_of_leaf (j + 1)). lia. }
    cbn [slot_succ read_slot]. rewrite <- Hdj1. unfold __radix_tree_iter_add.
    rewrite Hix, wrap_small by lia.
    destruct (live_slot Hinv a b n (j + 1) Hb Hn) as [e He]. rewrite Hs in He.
    rewrite !wp_bind, (wp_load_node a n), (wp_node_slot n _ e) by (lia || done).
    case_truthy e Hne.
    + rewrite wp_ret. split; [done|]. exists (j + 1), e. split; [lia|]. split; [by apply gap_empty|].
      split; [done|]. split; [lia|]. split; [done|].
      assert (leaf_at st B (j + 1) a e) as Hlf by (exists n; by rewrite Hbj1).
      split; [eapply content_leaf_at; [|done..]; by rewrite Hbj1|].
      right. exists a. rewrite Hbj1. done.
    + subst e. rewrite Hfl, truthy_0.
      assert (gap (j + 1) (j + 2)) as Hg.
      { intros k v Hk Hc. assert (k = j + 1) as -> by lia.
        apply (content_of_leaf Hinv a n (j + 1) 0) in Hc as [_ ?]; try done. by rewrite Hbj1. }
      eapply wp_mono; [apply (IH _ _ (j + 1)); try done; cbn; lia|].
      replace (j + 2) with (j + 1 + 1) in Hg by lia.
      intros [[s|] it'] st' [-> Hp]; (split; [done|]).
      * destruct Hp as (j' & v' & ? & ? & ?). exists j', v'. split; [lia|].
        split; [by eapply gap_trans|done].
      * destruct Hp as (? & ?). split; [by eapply gap_trans|done].
  - rewrite wp_ret. split; [done|]. split; [apply gap_empty; lia|]. split; [lia|done].
Qed.

(** [radix_tree_next_slot]: the next entry of the chunk, or the end of it. *)
Definition slot_next_post (j : Z) (r : option slotref * radix_tree_iter) (st' : tstate) : Prop :=
  st' = st ∧
  match r with
  | (None, it) => ∃ lo, j < lo ∧ gap (j + 1) lo ∧ cursor lo it
  | (Some s, it) => ∃ j' v', j < j' ∧ gap (j + 1) j' ∧ at_slot j' v' s it
  end.

Lemma next_slot_spec j v s it flags :
  at_slot j v s it →
  Z.land flags RADIX_TREE_ITER_CONTIG = 0 → Z.land flags RADIX_TREE_ITER_TAGGED = 0 →
  wp (radix_tree_next_slot s it flags) (slot_next_post j) st.
Proof.
  intros (Hix & Hj & Hv & Hc & Hs) Hfl Htg. unfold radix_tree_next_slot. rewrite Htg, truthy_0.
  unfold radix_tree_chunk_size. destruct Hs as [(-> & -> & Hni & Hin & Hr & HB)|(a & -> & Hlf & Hin & Hni)].
  - rewrite Hix, Hni. cbn. split; [done|]. exists 1. split; [lia|]. split; [by apply gap_empty|].
    left. rewrite Hni. split; [lia|]. split; [done|]. lia.
  - destruct Hlf as (n & Hb & Hn & Hsn & Hsl). pose proof (live_node Hinv _ _ _ Hb Hn) as Hok.
    pose proof (base_of_bounds 0 j) as Hbb. change (2 ^ (0 + 6)) with 64 in Hbb.
    pose proof (no_base _ _ _ _ _ _ Hok) as Hbr.
    pose proof (leaf_room _ (base_of_divide 0 j) Hbr) as Hroom.
    assert (s64 (next_index it - index it) = base_of 0 j + 64 - j) as ->.
    { rewrite Hni, Hix. unfold sint, wrap. rewrite Zminus_mod_idemp_l.
      rewrite Z.mod_small by lia. rewrite (proj2 (Z.ltb_lt _ _)); [done|]. lia. }
    eapply wp_mono; [eapply (next_slot_loop_spec _ _ it flags j a n); try done; lia|].
    intros [[s|] it'] st' [-> Hp]; (split; [done|]); [done|].
    destruct Hp as (Hg & Hix' & Hni'). exists (base_of 0 j + 64).
    split; [lia|]. split; [done|]. destruct (decide (base_of 0 j + 64 = 2 ^ 64)) as [He|].
    + right. rewrite Hni', He. split; [done|]. split; [done|]. lia.
    + left. rewrite Hni', wrap_small by lia. lia.
Qed.
End iter.

(** ** The whole loop *)

(** The body that records what it is given: the index and the entry. *)
Definition record (s : slotref) (it : radix_tree_iter) (acc : list (Z * Z)) : T (list (Z * Z)) :=
  e ← read_slot s; mret (acc ++ [(index it, e)]).

(** [l] lists the entries of [m] from [lo] up to [hi], in ascending order. *)
Definition lists (m : gmap Z Z) (lo hi : Z) (l : list (Z * Z)) : Prop :=
  StronglySorted Z.lt l.*1 ∧ ∀ j v, (j, v) ∈ l ↔ m !! j = Some v ∧ lo ≤ j < hi.

Lemma lists_nil m lo : lists m lo lo [].
Proof. split; [constructor|]. intros j v. split; [by intros ?%elem_of_nil|lia]. Qed.

Lemma lists_extend m lo mid hi l :
  lists m lo mid l → lo ≤ mid ≤ hi → (∀ j v, mid ≤ j < hi → m !! j ≠ Some v) → lists m lo hi l.
Proof.
  intros [Hs Hl] Hm Hg. split; [done|]. intros j v. rewrite Hl. split; [intros [? ?]; split; [done|lia]|].
  intros [Hj ?]. split; [done|]. destruct (decide (j < mid)); [lia|].
  exfalso. apply (Hg j v); [lia|done].
Qed.

Lemma StronglySorted_snoc (l : list Z) x :
  StronglySorted Z.lt l → (∀ y, y ∈ l → y < x) → StronglySorted Z.lt (l ++ [x]).
Proof.
  induction l as [|y l IH]; intros Hl Hx; cbn; [by repeat constructor|].
  apply StronglySorted_inv in Hl as [Hl Hy]. constructor.
  - apply IH; [done|]. intros z ?. apply Hx. by right.
  - apply List.Forall_app. split; [done|]. constructor; [|constructor]. apply Hx. left.
Qed.

Lemma lists_snoc m lo j v l :
  lists m lo j l → lo ≤ j → m !! j = Some v → lists m lo (j + 1) (l ++ [(j, v)]).
Proof.
  intros [Hs Hl] Hlo Hm. split.
  - rewrite fmap_app. apply StronglySorted_snoc; [done|].
    intros y [[y' w] [-> Hy]]%list_elem_of_fmap. apply Hl in Hy. cbn. lia.
  - intros k w. rewrite elem_of_app, list_elem_of_singleton, Hl. split.
    + intros [?|[= -> ->]]; [|split; [done|lia]]. split; [tauto|lia].
    + intros [Hk ?]. destruct (decide (k = j)) as [->|]; [right; congruence|left; split; [done|lia]].
Qed.

(** The entries from [lo] on. *)
Definition rest (m : gmap Z Z) (lo : Z) : gmap Z Z := filter (λ jv, lo ≤ jv.1) m.

Lemma rest_decreases m lo j v :
  m !! j = Some v → lo ≤ j → (size (rest m (j + 1)) < size (rest m lo))%nat.
Proof.
  intros Hj Hlo. apply map_subset_size. split.
  - apply map_subseteq_spec. intros x w [Hx Hle]%map_lookup_filter_Some.
    apply map_lookup_filter_Some. cbn in *. split; [done|lia].
  - intros Hsub. assert (rest m lo !! j = Some v) as Ha.
    { apply map_lookup_filter_Some. by split. }
    eapply lookup_weaken in Ha; [|done]. apply map_lookup_filter_Some in Ha as [_ Ha].
    cbn in Ha. lia.
Qed.

Lemma rest_mono m lo lo' : lo ≤ lo' → (size (rest m lo') ≤ size (rest m lo))%nat.
Proof.
  intros Hlo. apply map_subseteq_size, map_subseteq_spec.
  intros x w [Hx Hle]%map_lookup_filter_Some. apply map_lookup_filter_Some. cbn in *. split; [done|lia].
Qed.

Section for_each.
Context {st : tstate} {B : gmap Z Z} (Hinv : inv st B).
Context (m : gmap Z Z) (Hm : ∀ idx v, m !! idx = Some v ↔ content st B idx v).

Lemma gap_lookup lo hi j v : gap (st := st) (B := B) lo hi → lo ≤ j < hi → m !! j ≠ Some v.
Proof. intros Hg ? Hj%Hm. by eapply Hg. Qed.

Lemma wp_record j v s it acc (Q : list (Z * Z) → tstate → Prop) :
  at_slot (st := st) (B := B) j v s it → Q (acc ++ [(j, v)]) st → wp (record s it acc) Q st.
Proof.
  intros (<- & Hj & Hv & _ & Hs) HQ. unfold record.
  destruct Hs as [(-> & _ & _ & _ & Hr & _)|(a & -> & (n & Hb & Hn & Hsn & Hsl) & _)]; cbn [read_slot].
  - rewrite wp_bind, wp_get_rnode, wp_ret. by rewrite Hr.
  - pose proof (digit_range 0 (index it)).
    by rewrite !wp_bind, (wp_load_node a n), (wp_node_slot n _ v), wp_ret by (done || lia).
Qed.

(** What the loop holds between two rounds. *)
Definition loop_at (start : Z) (slot : option slotref) (it : radix_tree_iter) (lo : Z) : Prop :=
  match slot with
  | None => cursor lo it
  | Some s => ∃ v, at_slot (st := st) (B := B) lo v s it
  end.

Lemma for_each_loop_spec fuel start slot it lo acc :
  loop_at start slot it lo → start ≤ lo → lists m start lo acc →
  (size (rest m lo) < fuel)%nat →
  wp (for_each_loop fuel record slot it acc)
    (λ l st', st' = st ∧ lists m start (2 ^ 64) l) st.
Proof.
  revert slot it lo acc. induction fuel as [|fuel IH]; intros slot it lo acc Hat Hlo Hl Hf; [lia|].
  assert (Hbody : ∀ j v s it', at_slot (st := st) (B := B) j v s it' → lo ≤ j → lists m start j acc →
    wp (acc ← record s it' acc; '(slot, it) ← radix_tree_next_slot s it' 0;
        for_each_loop fuel record slot it acc)
      (λ l st', st' = st ∧ lists m start (2 ^ 64) l) st).
  { intros j v s it' Hs Hj Hlj. pose proof Hs as (_ & Hjr & _ & Hc & _). apply Hm in Hc.
    rewrite wp_bind. apply (wp_record j v); [done|]. rewrite wp_bind.
    apply lists_snoc with (v := v) in Hlj; [|lia|done].
    pose proof (rest_decreases m lo j v Hc Hj).
    eapply wp_mono; [by apply (next_slot_spec Hinv j v)|].
    intros [[s'|] it''] st' [-> Hp].
    - destruct Hp as (j' & v' & ? & Hg & Hs'). apply (IH _ _ j'); [by exists v'|lia| |].
      + eapply lists_extend; [done|lia|]. intros. by eapply gap_lookup.
      + pose proof (rest_mono m (j + 1) j'). lia.
    - destruct Hp as (lo' & ? & Hg & Hcur). apply (IH _ _ lo'); [done|lia| |].
      + eapply lists_extend; [done|lia|]. intros. by eapply gap_lookup.
      + pose proof (rest_mono m (j + 1) lo'). lia. }
  cbn [for_each_loop]. rewrite wp_bind. destruct slot as [s|].
  - rewrite wp_ret. destruct Hat as [v Hs]. by apply (Hbody lo v).
  - pose proof (cursor_range lo it Hat).
    eapply wp_mono; [by apply (next_chunk_spec Hinv lo)|].
    intros [[s|] it'] st' [-> Hp].
    + destruct Hp as (j & v & ? & Hg & Hs). apply (Hbody j v); [done|lia|].
      eapply lists_extend; [done|lia|]. intros. by eapply gap_lookup.
    + rewrite wp_ret. split; [done|]. eapply lists_extend; [done|lia|].
      intros. by eapply gap_lookup.
Qed.

(** A tree has at most 64 entries for each of its nodes, or one in its root. *)
Lemma size_bound : (size m < for_each_fuel st)%nat.
Proof.
  set (l := 0 :: (map_to_list B ≫= λ ab, (λ i, ab.2 + Z.of_nat i) <$> seq 0 64)).
  assert (dom m ⊆ (list_to_set l : gset Z)) as Hsub.
  { intros j [v Hv]%elem_of_dom. apply elem_of_list_to_set. apply Hm in Hv.
    destruct Hv as [-> _ _|a b n i Hb Hn Hs Hi _ ->]; [by left|right].
    apply list_elem_of_bind. exists (a, b). split; [|by apply elem_of_map_to_list].
    apply list_elem_of_fmap. exists i. split; [done|]. apply elem_of_seq.
    pose proof (slot_lt64 Hinv _ _ _ _ _ Hb Hn Hi). lia. }
  apply subseteq_size in Hsub. rewrite size_dom in Hsub.
  assert (size (list_to_set l : gset Z) ≤ length l)%nat as Hle.
  { apply size_list_to_set_le. }
  assert (length l = S (64 * size B))%nat as Hlen.
  { subst l. cbn [length]. f_equal. rewrite <- length_map_to_list.
    apply length_bind_const. intros x. by rewrite length_fmap, length_seq. }
  assert (size B ≤ size (heap st))%nat.
  { rewrite <- !size_dom. apply subseteq_size. intros a [b Hb]%elem_of_dom.
    apply elem_of_dom. destruct (live_heap Hinv a b Hb). eauto. }
  unfold for_each_fuel. lia.
Qed.

Lemma for_each_spec start :
  0 ≤ start < 2 ^ 64 →
  wp (radix_tree_for_each_slot record start [])
    (λ l st', st' = st ∧ lists m start (2 ^ 64) l) st.
Proof.
  intros Hs. unfold radix_tree_for_each_slot. rewrite wp_bind, wp_gets.
  apply (for_each_loop_spec _ start None _ start []); [|done|apply lists_nil|].
  - left. done.
  - pose proof size_bound. assert (size (rest m start) ≤ size m)%nat; [|lia].
    apply map_subseteq_size, map_filter_subseteq.
Qed.
End for_each.
