(* ===== verification/RadixClient.v ===== *)
(** * The radix tree as its clients see it

    The tree as a finite map: creation, the effect of a grace period, the
    specification of each public operation as a step of a map, and sequences
    of operations. *)
From S2P Require Import Prelude RadixDefs RadixInv RadixLookup RadixUpdate RadixInsert RadixRoom RadixDelete RadixIter.

(** ** From the tree's content to the map *)

Lemma represents_same st B st' B' m :
  (∀ idx v, m !! idx = Some v ↔ content st B idx v) → inv st' B' →
  same_content st B st' B' → represents st' m.
Proof. intros Hm Hinv Hc. exists B'. split; [done|]. intros idx v. by rewrite Hm, (Hc idx v). Qed.

Lemma updated_map st B st' B' (m : gmap Z Z) idx item :
  (∀ idx v, m !! idx = Some v ↔ content st B idx v) → item ≠ 0 → updated st B idx item st' B' →
  ∀ j v, <[idx := item]> m !! j = Some v ↔ content st' B' j v.
Proof.
  intros Hm Hne Hup j v. rewrite (Hup j v). case_decide as Hj.
  - subst j. rewrite lookup_insert_eq. naive_solver.
  - rewrite lookup_insert_ne by done. apply Hm.
Qed.

Lemma deleted_map st B st' B' (m : gmap Z Z) idx :
  (∀ idx v, m !! idx = Some v ↔ content st B idx v) → updated st B idx 0 st' B' →
  ∀ j v, delete idx m !! j = Some v ↔ content st' B' j v.
Proof.
  intros Hm Hup j v. rewrite (Hup j v). case_decide as Hj.
  - subst j. rewrite lookup_delete_eq. naive_solver.
  - rewrite lookup_delete_ne by done. apply Hm.
Qed.

Lemma represents_insert st B st' B' m idx item :
  (∀ idx v, m !! idx = Some v ↔ content st B idx v) → inv st' B' → item ≠ 0 →
  updated st B idx item st' B' → represents st' (<[idx := item]> m).
Proof. intros Hm Hinv Hne Hup. exists B'. split; [done|]. by apply (updated_map st B). Qed.

Lemma represents_delete st B st' B' m idx :
  (∀ idx v, m !! idx = Some v ↔ content st B idx v) → inv st' B' →
  updated st B idx 0 st' B' → represents st' (delete idx m).
Proof. intros Hm Hinv Hup. exists B'. split; [done|]. by apply (deleted_map st B). Qed.

Lemma represents_value_ok st m idx v : represents st m → m !! idx = Some v → v ≠ 0.
Proof. intros (B & Hinv & Hm) [? [? _] _|]%Hm; [lia|done]. Qed.

(** Only the key 0 alone can be stored without a node. *)
Definition extensible (m : gmap Z Z) (idx : Z) : Prop :=
  idx = 0 ∨ m !! 0 = None ∨ ∃ k v, k ≠ 0 ∧ m !! k = Some v.

Lemma represents_growable st m idx :
  represents st m → extensible m idx → growable st idx.
Proof.
  intros (B & Hinv & Hm) [?|Hext]; [by left|right]. intros Hr.
  assert (m !! 0 = Some (rnode (root st))) as H0 by (apply Hm; by apply content_direct).
  destruct Hext as [?|(k & v & Hk & Hkv)]; [congruence|].
  apply Hm in Hkv as [?|a b n i Hb]; [done|]. by eapply (live_not_direct Hinv).
Qed.

(** ** Creation and grace periods *)

Section client.
Context `{!Calloc radix_tree_node}.

(** The memory before the tree exists. *)
Definition no_tree (st : tstate) : Prop := heap st = ∅ ∧ rcu st = [].

Lemma root_alloc_spec st :
  no_tree st →
  wp (radix_tree_root_alloc true)
    (λ ok st', ok = true ∧ (represents st' ∅ ∨ calloc (ticks st) (heap st) = None)) st.
Proof.
  intros [Hh Hrcu]. unfold wp, radix_tree_root_alloc, mbind, M_bind, radix_tree_node_alloc.
  destruct (calloc (ticks st) (heap st)) as [a|] eqn:Ha; cbn; [|by auto].
  split; [done|]. left. exists {[a := 0]}. rewrite Hh, Hrcu in *. set (st1 := TState _ _ _ _ _).
  assert (aligned a) by (split; [by eapply calloc_aligned|by eapply calloc_range]).
  set (st0 := TState (Root 0 0) ∅ [] 0%nat 0).
  assert (inv st0 ∅) as Hinv0.
  { split; cbn; [by intros ??|by apply root_null|by intros ? ?%elem_of_nil|constructor|].
    intros x [? Hx]. by rewrite lookup_empty in Hx. }
  destruct (link_root st0 st1 a 0 0) as [Hinv Hc]; try done.
  split; [done|]. intros idx v. rewrite Hc, lookup_empty. split; [done|].
  intros [_ [? _] Hr|x b n i Hb]; [cbn in Hr; lia|]. by rewrite lookup_empty in Hb.
Qed.

Lemma run_callbacks_spec l st :
  NoDup l → (∀ a, a ∈ l → is_Some (heap st !! a)) →
  wp (run_callbacks l)
    (λ _ st', root st' = root st ∧ rcu st' = rcu st ∧
       ∀ a, heap st' !! a = if decide (a ∈ l) then None else heap st !! a) st.
Proof.
  revert st. induction l as [|x l IH]; intros st Hnd Hl; cbn [run_callbacks].
  - rewrite wp_ret. split; [done|]. split; [done|]. intros a. rewrite decide_False; [done|].
    apply not_elem_of_nil.
  - apply NoDup_cons_1_1 in Hnd as Hx. apply NoDup_cons_1_2 in Hnd.
    destruct (Hl x) as [n Hn]; [left|]. unfold radix_tree_node_rcu_free.
    rewrite !wp_bind, (wp_store_node x _ n), wp_modify by done.
    eapply wp_mono; [apply IH; [done|]|].
    + intros a Ha. cbn. assert (a ≠ x) by congruence.
      rewrite lookup_delete_ne, lookup_insert_ne by done. apply Hl. by right.
    + intros _ st' (Hr & Hrcu & Hh). split; [done|]. split; [done|]. intros a. rewrite Hh. cbn.
      destruct (decide (a = x)) as [->|].
      * rewrite (decide_True (P := x ∈ x :: l)) by left. rewrite decide_False by done.
        by rewrite lookup_delete_eq.
      * rewrite lookup_delete_ne, lookup_insert_ne by done.
        destruct (decide (a ∈ l)); [rewrite decide_True by (by right); done|].
        rewrite decide_False; [done|]. by intros [?|?]%elem_of_cons.
Qed.

(** A grace period frees the pending nodes, each once, and nothing else. *)
Lemma rcu_barrier_spec st B :
  inv st B →
  wp rcu_barrier
    (λ _ st', inv st' B ∧ same_content st B st' B ∧ root st' = root st ∧ rcu st' = [] ∧
       ∀ a, heap st' !! a = if decide (a ∈ rcu st) then None else heap st !! a) st.
Proof.
  intros Hinv. pose proof Hinv as [Hnodes Hroot Hpend Hnd Hnl].
  unfold rcu_barrier. rewrite !wp_bind, wp_gets, wp_bind. eapply wp_mono.
  { apply run_callbacks_spec; [done|]. intros a Ha. by apply Hpend. }
  intros _ st1 (Hr & Hrcu & Hh). rewrite wp_modify.
  assert (∀ a b, B !! a = Some b → heap st1 !! a = heap st !! a) as Hlive.
  { intros a b Hb. rewrite Hh, decide_False; [done|]. intros Ha. destruct (Hpend a Ha). congruence. }
  assert (same_content st B (TState (root st1) (heap st1) [] (ticks st1) (tverbose st1)) B) as Hc.
  { intros idx v. split.
    - intros [|a b n i Hb Hn]; [apply content_direct; cbn in *; congruence|].
      cbn in Hn. rewrite (Hlive a b) in Hn by done. by eapply content_leaf.
    - intros [|a b n i Hb Hn]; [apply content_direct; cbn in *; congruence|].
      eapply (content_leaf _ _ _ _ a b n); try done. cbn. by rewrite (Hlive a b). }
  split; [|done]. split; cbn; rewrite ?Hr.
  - intros a b Hb. destruct (Hnodes a b Hb) as (n & Hn & Hok). exists n.
    rewrite (Hlive a b) by done. split; [done|]. eapply node_ok_frame; [done|done| |].
    + intros _ pb pn HBp Hpn ? ?. exists pn. rewrite (Hlive (parent n) pb) by done. done.
    + intros c cn [cb HBc] Hcn Hpc. exists cn. rewrite (Hlive c cb) by done. eauto.
  - destruct Hroot as [| |r rn Hrn [rb HBr] Hhr Hpr]; [by apply root_null|by apply root_direct|].
    eapply (root_node _ _ _ r rn); [done|by eauto| |done]. by rewrite (Hlive r rb).
  - by intros a ?%elem_of_nil.
  - constructor.
  - intros a Ha. rewrite Hh in Ha. destruct (decide (a ∈ rcu st)) as [|Hna]; [by destruct Ha|].
    destruct (Hnl a Ha); [by left|done].
Qed.

(** ** The operations on the map *)

Lemma lookup_map st m idx :
  represents st m → 0 ≤ idx < 2 ^ 64 →
  wp (radix_tree_lookup idx) (λ r st', r = default 0 (m !! idx) ∧ st' = st) st.
Proof.
  intros (B & Hinv & Hm) Hi. unfold radix_tree_lookup. rewrite wp_bind.
  eapply wp_mono; [by apply (lookup_spec Hinv)|]. intros [v out] st' (-> & _ & Hc).
  rewrite wp_ret. split; [|done]. destruct (m !! idx) as [w|] eqn:Hw; cbn.
  - apply Hm, Hc in Hw as [-> _]. done.
  - destruct (decide (v = 0)) as [|Hv]; [done|]. exfalso.
    assert (m !! idx = Some v) by (apply Hm, Hc; done). congruence.
Qed.

Lemma insert_map st m idx item :
  represents st m → 0 ≤ idx < 2 ^ 64 → item_ok item → extensible m idx →
  wp (radix_tree_insert idx item)
    (λ e st',
       e = 0 ∧ m !! idx = None ∧ represents st' (<[idx := item]> m) ∨
       e = - EEXIST ∧ is_Some (m !! idx) ∧ represents st' m ∨
       e = - ENOMEM ∧ m !! idx = None ∧ alloc_fails st' ∧ represents st' m) st.
Proof.
  intros Hrep Hi Hitem Hext. pose proof (represents_growable st m idx Hrep Hext) as Hg.
  destruct Hrep as (B & Hinv & Hm). pose proof Hitem as [Hpos _].
  assert ((∀ v, ¬ content st B idx v) → m !! idx = None) as Hno.
  { intros Hno. destruct (m !! idx) as [v|] eqn:Hv; [|done]. apply Hm in Hv. by apply Hno in Hv. }
  eapply wp_mono; [by apply insert_spec|].
  intros e st' (B' & Hinv' & _ & _ & [(-> & Hn & Hup)|[(-> & [v Hv] & Hc)|(-> & Hf & Hn & Hc)]]).
  - left. split; [done|]. split; [by apply Hno|]. eapply represents_insert; [done|done|lia|done].
  - right. left. split; [done|]. split; [exists v; by apply Hm|]. by eapply represents_same.
  - right. right. split; [done|]. split; [by apply Hno|]. split; [done|]. by eapply represents_same.
Qed.

Lemma delete_item_map st m idx item :
  represents st m → 0 ≤ idx < 2 ^ 64 → (item ≠ 0 ∨ is_Some (m !! idx)) → verbose st < 3 →
  wp (radix_tree_delete_item idx item)
    (λ r st',
       m !! idx = Some r ∧ (item = 0 ∨ item = r) ∧ represents st' (delete idx m) ∨
       r = 0 ∧ item ≠ 0 ∧ m !! idx ≠ Some item ∧ st' = st) st.
Proof.
  intros (B & Hinv & Hm) Hi Hpre Hverb. eapply wp_mono.
  { apply (delete_item_spec st B idx item Hinv Hi); [|done]. destruct Hpre as [|[v Hv]]; [by left|].
    right. exists v. by apply Hm. }
  intros r st' [(B' & Hc & Hor & Hinv' & Hup & _)|(-> & -> & Hi0 & Hno)].
  - left. split; [by apply Hm|]. split; [done|]. by eapply represents_delete.
  - right. split; [done|]. split; [done|]. split; [|done]. by intros ?%Hm.
Qed.

(** [radix_tree_lookup_slot], then [radix_tree_replace_slot] when it found one. *)
Definition lookup_replace (idx item : Z) : T bool :=
  slot ← radix_tree_lookup_slot idx;
  match slot with
  | None => mret false
  | Some s => radix_tree_replace_slot s item;; mret true
  end.

Lemma lookup_replace_map st m idx item :
  represents st m → 0 ≤ idx < 2 ^ 64 → item_ok item →
  wp (lookup_replace idx item)
    (λ r st', r = true ∧ is_Some (m !! idx) ∧ represents st' (<[idx := item]> m) ∨
              r = false ∧ m !! idx = None ∧ st' = st) st.
Proof.
  intros (B & Hinv & Hm) Hi Hitem. unfold lookup_replace, radix_tree_lookup_slot.
  rewrite !wp_bind. eapply wp_mono; [by apply (lookup_spec Hinv)|].
  intros [v out] st' (-> & Hout & Hc). case_truthy v Hv.
  - destruct out as [[node slot]|]; [|done]. rewrite wp_ret. cbn [fmap option_fmap option_map snd].
    rewrite wp_bind. apply lookup_points in Hout; [|done].
    eapply wp_mono; [by eapply replace_item_spec|]. intros _ st' (B' & Hinv' & Hup & _).
    rewrite wp_ret. left. split; [done|]. split.
    + exists v. by apply Hm, Hc.
    + eapply represents_insert; try done. destruct Hitem. lia.
  - subst v. rewrite !wp_ret. right. split; [done|]. split; [|done].
    destruct (m !! idx) as [w|] eqn:Hw; [|done]. by apply Hm, Hc in Hw as [_ ?].
Qed.

Lemma for_each_map st m start :
  represents st m → 0 ≤ start < 2 ^ 64 →
  wp (radix_tree_for_each_slot record start [])
    (λ l st', st' = st ∧ lists m start (2 ^ 64) l) st.
Proof. intros (B & Hinv & Hm) Hs. by apply (for_each_spec Hinv m Hm). Qed.

Lemma rcu_barrier_map st m :
  represents st m →
  wp rcu_barrier (λ _ st', represents st' m ∧ rcu st' = []) st.
Proof.
  intros (B & Hinv & Hm). eapply wp_mono; [by apply rcu_barrier_spec|].
  intros _ st' (Hinv' & Hc & _ & Hr & _). split; [|done]. by eapply represents_same.
Qed.

(** ** Sequences of operations *)

Inductive op :=
| OpInsert (idx item : Z)
| OpLookup (idx : Z)
| OpDelete (idx item : Z)
| OpReplace (idx item : Z)
| OpForEach (start : Z)
| OpBarrier.

Inductive answer :=
| AInt (z : Z)
| AList (l : list (Z * Z)).

Definition run_op (o : op) : T answer :=
  match o with
  | OpInsert idx item => AInt <$> radix_tree_insert idx item
  | OpLookup idx => AInt <$> radix_tree_lookup idx
  | OpDelete idx item => AInt <$> radix_tree_delete_item idx item
  | OpReplace idx item => (λ b : bool, AInt (Z.b2z b)) <$> lookup_replace idx item
  | OpForEach start => AList <$> radix_tree_for_each_slot record start []
  | OpBarrier => (λ _, AInt 0) <$> rcu_barrier
  end.

Fixpoint run_ops (os : list op) : T (list answer) :=
  match os with
  | [] => mret []
  | o :: os => a ← run_op o; l ← run_ops os; mret (a :: l)
  end.

(** What a client may ask of the map [m]. *)
Definition op_legal (m : gmap Z Z) (o : op) : Prop :=
  match o with
  | OpInsert idx item => 0 ≤ idx < 2 ^ 64 ∧ item_ok item ∧ extensible m idx
  | OpLookup idx => 0 ≤ idx < 2 ^ 64
  | OpDelete idx item => 0 ≤ idx < 2 ^ 64 ∧ (item ≠ 0 ∨ is_Some (m !! idx))
  | OpReplace idx item => 0 ≤ idx < 2 ^ 64 ∧ item_ok item
  | OpForEach start => 0 ≤ start < 2 ^ 64
  | OpBarrier => True
  end.

(** The answers a map gives; an insertion may also find no memory. *)
Inductive map_step : gmap Z Z → op → answer → gmap Z Z → Prop :=
| ms_insert m idx item : m !! idx = None →
    map_step m (OpInsert idx item) (AInt 0) (<[idx := item]> m)
| ms_exists m idx item : is_Some (m !! idx) →
    map_step m (OpInsert idx item) (AInt (- EEXIST)) m
| ms_nomem m idx item : m !! idx = None →
    map_step m (OpInsert idx item) (AInt (- ENOMEM)) m
| ms_lookup m idx : map_step m (OpLookup idx) (AInt (default 0 (m !! idx))) m
| ms_delete m idx item v : m !! idx = Some v → (item = 0 ∨ item = v) →
    map_step m (OpDelete idx item) (AInt v) (delete idx m)
| ms_keep m idx item : item ≠ 0 → m !! idx ≠ Some item →
    map_step m (OpDelete idx item) (AInt 0) m
| ms_replace m idx item : is_Some (m !! idx) →
    map_step m (OpReplace idx item) (AInt 1) (<[idx := item]> m)
| ms_absent m idx item : m !! idx = None → map_step m (OpReplace idx item) (AInt 0) m
| ms_for_each m start l : lists m start (2 ^ 64) l → map_step m (OpForEach start) (AList l) m
| ms_barrier m : map_step m OpBarrier (AInt 0) m.

Inductive map_steps : gmap Z Z → list op → list answer → gmap Z Z → Prop :=
| mss_nil m : map_steps m [] [] m
| mss_cons m o a m1 os l m2 : map_step m o a m1 → map_steps m1 os l m2 →
    map_steps m (o :: os) (a :: l) m2.

(** Every operation is legal whatever the map answered before it. *)
Fixpoint ops_legal (m : gmap Z Z) (os : list op) : Prop :=
  match os with
  | [] => True
  | o :: os => op_legal m o ∧ ∀ a m', map_step m o a m' → ops_legal m' os
  end.

#[local] Instance room_lookup_replace idx item : Within node_room 0 (lookup_replace idx item).
Proof.
  unfold lookup_replace, radix_tree_lookup_slot. apply within_bind; [|intros [s|]; apply _].
  apply within_bind; [apply _|]. intros [v o]. case_match; apply _.
Qed.

(** One operation of the tree is a step of the map. *)
Lemma run_op_refines st m o :
  represents st m → op_legal m o → verbose st < 3 →
  wp (run_op o) (λ a st', (∃ m', map_step m o a m' ∧ represents st' m') ∧ verbose st' = verbose st) st.
Proof.
  intros Hrep Hlegal Hv. destruct o as [idx item|idx|idx item|idx item|start|];
    cbn [run_op op_legal] in *; apply wp_fmap.
  - destruct Hlegal as (? & ? & ?). eapply wp_mono; [apply (wp_within (R := node_room) 24); [apply _|by apply insert_map]|].
    intros e st' [[(-> & ? & ?)|[(-> & ? & ?)|(-> & ? & ? & ?)]] [_ ?]]; eauto using map_step.
  - eapply wp_mono; [by apply lookup_map|]. intros r st' (-> & ->). eauto using map_step.
  - destruct Hlegal. eapply wp_mono; [apply (wp_within (R := node_room) 0); [apply _|by apply delete_item_map]|].
    intros r st' [[(? & ? & ?)|(-> & ? & ? & ->)] [_ ?]]; eauto using map_step.
  - destruct Hlegal. eapply wp_mono; [apply (wp_within (R := node_room) 0); [apply _|by apply lookup_replace_map]|].
    intros r st' [[(-> & ? & ?)|(-> & ? & ->)] [_ ?]]; eauto using map_step.
  - eapply wp_mono; [by apply for_each_map|]. intros l st' (-> & ?). eauto using map_step.
  - eapply wp_mono; [apply (wp_within (R := node_room) 0); [apply _|by apply rcu_barrier_map]|].
    intros _ st' [(? & _) [_ ?]]. eauto using map_step.
Qed.

Lemma run_ops_refines st m os :
  represents st m → ops_legal m os → verbose st < 3 →
  wp (run_ops os) (λ l st', ∃ m', map_steps m os l m' ∧ represents st' m') st.
Proof.
  revert st m. induction os as [|o os IH]; intros st m Hrep Hlegal Hv; cbn [run_ops].
  - rewrite wp_ret. eauto using map_steps.
  - destruct Hlegal as [Ho Hos]. rewrite wp_bind.
    eapply wp_mono; [by apply run_op_refines|]. intros a st1 [(m1 & Hstep & Hrep1) Hv1].
    rewrite wp_bind. eapply wp_mono; [eapply IH; [done|by eapply Hos|lia]|].
    intros l st2 (m2 & Hsteps & Hrep2). rewrite wp_ret. eauto using map_steps.
Qed.
End client.
