(* ===== verification/RadixFull.v ===== *)
(** * The radix tree: no empty nodes

    A tree whose nodes all hold something keeps that property: insertion only
    leaves an empty node behind when libc has no memory, deletion never does.
    Such a tree has no node at all once its last entry is gone. *)
From S2P Require Import Prelude RadixDefs RadixInv RadixLookup RadixUpdate RadixInsert RadixRoom RadixDelete RadixClient.

(** ** A node that is not empty leads to an entry *)

Lemma full_reaches st B k a b n :
  inv st B → full st B 0 → B !! a = Some b → heap st !! a = Some n → shift n ≤ 6 * Z.of_nat k →
  ∃ idx v, content st B idx v.
Proof.
  intros Hinv Hf. revert a b n. induction k as [|k IH]; intros a b n Hb Hn Hk;
    pose proof (live_node Hinv _ _ _ Hb Hn) as Hok;
    assert (count n ≠ 0) as Hc by (intros Hz; by apply (live_nonnull Hinv a b Hb), (Hf a b n));
    rewrite (no_count _ _ _ _ _ _ Hok) in Hc;
    destruct (nonzero_witness _ Hc) as (i & e & He & Hne);
    destruct (no_level _ _ _ _ _ _ Hok) as [Hl Hm];
    (destruct (decide (shift n = 0)) as [Hs|Hs]; [by eauto using content_leaf|]); [lia|].
  destruct (no_child _ _ _ _ _ _ Hok Hs i e He Hne) as (c & cn & -> & [cb HBc] & Hcn & Hpc & _).
  destruct (no_parent _ _ _ _ _ _ (live_node Hinv _ _ _ HBc Hcn)) as (pb & pn & _ & Hpn & Hsp & _).
  { rewrite Hpc. by eapply live_nonnull. }
  apply (IH c cb cn HBc Hcn). rewrite Hpc in Hpn. assert (pn = n) as -> by congruence. lia.
Qed.

(** A full tree without entries is the empty tree. *)
Lemma full_empty st B :
  inv st B → full st B 0 → (∀ idx v, ¬ content st B idx v) → B = ∅ ∧ rnode (root st) = 0.
Proof.
  intros Hinv Hf Hno. assert (B = ∅) as ->.
  { apply map_eq. intros a. rewrite lookup_empty. destruct (B !! a) as [b|] eqn:Hb; [|done].
    destruct (live_heap Hinv a b Hb) as [n Hn].
    destruct (no_level _ _ _ _ _ _ (live_node Hinv _ _ _ Hb Hn)) as [Hl _].
    destruct (full_reaches st B 10 a b n) as (idx & v & Hc); try done; [lia|]. by destruct (Hno idx v). }
  split; [done|]. destruct (root_item st Hinv) as [?|Hit]; [done|].
  destruct (Hno 0 (rnode (root st))). by apply content_direct.
Qed.

(** ** The map, and a tree without empty nodes *)

Definition tight (st : tstate) (m : gmap Z Z) : Prop :=
  ∃ B, inv st B ∧ (∀ idx v, m !! idx = Some v ↔ content st B idx v) ∧ full st B 0.

Lemma tight_represents st m : tight st m → represents st m.
Proof. intros (B & ? & ? & _). by exists B. Qed.

(** Without entries the root is NULL, and what memory is left waits to be freed. *)
Lemma tight_empty st : tight st ∅ → rnode (root st) = 0 ∧ ∀ a, is_Some (heap st !! a) → a ∈ rcu st.
Proof.
  intros (B & Hinv & Hm & Hf). destruct (full_empty st B Hinv Hf) as [-> Hr].
  { intros idx v Hc%Hm. by rewrite lookup_empty in Hc. }
  split; [done|]. intros a Ha. destruct (inv_noleak _ _ Hinv a Ha) as [[b Hb]|]; [|done].
  by rewrite lookup_empty in Hb.
Qed.

Section tight.
Context `{!Calloc radix_tree_node}.

Lemma insert_tight st m idx item :
  tight st m → 0 ≤ idx < 2 ^ 64 → item_ok item → extensible m idx →
  wp (radix_tree_insert idx item) (λ e st',
    e = 0 ∧ tight st' (<[idx := item]> m) ∨ e = - EEXIST ∧ tight st' m ∨ e = - ENOMEM ∧ alloc_fails st') st.
Proof.
  intros Ht Hi Hit Hext. pose proof (represents_growable st m idx (tight_represents _ _ Ht) Hext) as Hg.
  destruct Ht as (B & Hinv & Hm & Hf). eapply wp_mono; [by apply insert_spec|].
  intros e st' (B' & Hinv' & _ & Hf' & [(-> & _ & Hup)|[(-> & _ & Hc)|(-> & Hfail & _)]]).
  - left. split; [done|]. exists B'. split; [done|]. split; [|by apply Hf'].
    destruct Hit. eapply (updated_map st B st' B' m); [done|lia|done].
  - right. left. split; [done|]. exists B'. split; [done|]. split; [|by apply Hf'].
    intros j v. by rewrite Hm, (Hc j v).
  - right. by right.
Qed.

Lemma delete_tight st m idx item :
  tight st m → 0 ≤ idx < 2 ^ 64 → (item ≠ 0 ∨ is_Some (m !! idx)) → verbose st < 3 →
  wp (radix_tree_delete_item idx item) (λ r st', tight st' (delete idx m) ∨ r = 0 ∧ tight st' m) st.
Proof.
  intros (B & Hinv & Hm & Hf) Hi Hpre Hverb. eapply wp_mono.
  { apply (delete_item_spec st B idx item Hinv Hi); [|done]. destruct Hpre as [|[v Hv]]; [by left|].
    right. exists v. by apply Hm. }
  intros r st' [(B' & _ & _ & Hinv' & Hup & Hf')|(-> & -> & _)].
  - left. exists B'. split; [done|]. split; [by eapply (deleted_map st B st' B' m)|auto].
  - right. split; [done|]. by exists B.
Qed.

(** After a grace period an empty tree has no memory left. *)
Lemma barrier_empty st :
  tight st ∅ → wp rcu_barrier (λ _ st', heap st' = ∅ ∧ rcu st' = [] ∧ root st' = root st ∧ verbose st' = verbose st) st.
Proof.
  intros Ht. destruct (tight_empty st Ht) as [_ Hpend]. destruct Ht as (B & Hinv & _).
  eapply wp_mono; [apply (wp_within (R := node_room) 0); [apply _|by apply rcu_barrier_spec]|].
  intros _ st' [(_ & _ & Hr & Hrcu & Hh) [_ Hv]]. split; [|done]. apply map_eq. intros a. rewrite Hh, lookup_empty. case_decide as Ha; [done|].
  destruct (heap st !! a) eqn:E; [|done]. destruct Ha. apply Hpend. by eexists.
Qed.
End tight.

(** ** A new tree, and the first entry at index 0 *)

(** The tree is one empty leaf. *)
Definition fresh_tree (st : tstate) : Prop :=
  ∃ r, aligned r ∧ rnode (root st) = node_to_entry r ∧ heap st = {[r := fresh_node 0 0 0 0]} ∧ rcu st = [].

Section fresh.
Context `{!Calloc radix_tree_node}.

Lemma root_alloc_fresh st :
  no_tree st → calloc (ticks st) (heap st) ≠ None →
  wp (radix_tree_root_alloc true) (λ ok st', ok = true ∧ fresh_tree st' ∧ verbose st' = verbose st) st.
Proof.
  intros [Hh Hrcu] Hmem. unfold wp, radix_tree_root_alloc, mbind, M_bind, radix_tree_node_alloc.
  destruct (calloc (ticks st) (heap st)) as [a|] eqn:Ha; [|done]. cbn. split; [done|]. split; [|done].
  exists a. split; [split; [by eapply calloc_aligned|by eapply calloc_range]|]. cbn. rewrite Hh, Hrcu. split; [done|]. split; [|done].
  apply insert_empty.
Qed.

(** The first insertion, at index 0, fills the only node. *)
Lemma first_insert st a :
  fresh_tree st → aligned a →
  wp (radix_tree_insert 0 a) (λ e st', e = 0 ∧ ∀ x n, heap st' !! x = Some n → count n ≠ 0) st.
Proof.
  intros (r & Hr & Hroot & Hh & _) Ha. assert (r ≠ 0) by (destruct Hr; lia).
  assert (heap st !! r = Some (fresh_node 0 0 0 0)) as Hn by (by rewrite Hh, lookup_singleton_eq).
  unfold radix_tree_insert, __radix_tree_create, radix_tree_load_root. rewrite !wp_bind, wp_get_rnode, Hroot.
  rewrite internal_node_to_entry, entry_to_node_entry, wp_bind, (wp_load_node r _) by done. rewrite wp_ret.
  change (node_maxindex (fresh_node 0 0 0 0) <? 0) with false.
  change (u32 (shift (fresh_node 0 0 0 0) + RADIX_TREE_MAP_SHIFT)) with 6.
  unfold LEVELS. cbn [create_walk]. change (6 <=? 0) with false. cbn iota.
  rewrite (truthy_nz (node_to_entry r)) by (by apply node_to_entry_nz). rewrite wp_bind, wp_ret.
  rewrite entry_to_node_entry, wp_bind, (wp_load_node r _) by done.
  rewrite wp_bind, (wp_descend (fresh_node 0 0 0 0) 0 0) by done.
  change (6 - RADIX_TREE_MAP_SHIFT <=? 0) with true. cbn iota. rewrite wp_ret, truthy_0.
  unfold insert_entries. rewrite !wp_bind. cbn [read_slot write_slot].
  change (digit (shift (fresh_node 0 0 0 0)) 0) with 0.
  rewrite wp_bind, (wp_load_node r _), (wp_node_slot _ 0 0) by done. rewrite truthy_0, wp_bind.
  rewrite (wp_store_slot r (fresh_node 0 0 0 0) 0 0) by done.
  rewrite truthy_nz, !wp_bind by done. erewrite wp_store_node by (cbn; by rewrite lookup_insert_eq).
  assert (xa_is_value a = false) as ->.
  { destruct Ha as [Ha _]. unfold xa_is_value. apply truthy_false. change 1 with (Z.ones 1).
    rewrite Z.land_ones by lia. zlia. }
  rewrite !wp_ret. change (1 <? 0) with false. cbn iota. rewrite wp_ret. split; [done|].
  intros x n. cbn. rewrite Hh. intros [[_ <-]|[Hx Hl]]%lookup_insert_Some; [done|].
  rewrite lookup_insert_ne, lookup_singleton_ne in Hl; done.
Qed.

(** A tree with nodes has one for its root. *)
Lemma nodes_growable st B idx : inv st B → B ≠ ∅ → growable st idx.
Proof.
  intros Hinv HB. right. intros [_ Hit]. destruct (inv_root _ _ Hinv) as [? ?|? ?|r n Hr [b Hb] _ _]; try done.
  rewrite Hr, internal_node_to_entry in Hit; [done|]. by eapply live_aligned.
Qed.

End fresh.
