(* ===== verification/RadixProps.v ===== *)
(** * The radix tree: the properties

    The theorems about radix_tree/radix-tree.c, each with a run of the code at
    which its hypotheses hold, and the runs on which the code departs from what
    its comments say. *)
From S2P Require Import Prelude RadixDefs RadixInv RadixLookup RadixUpdate RadixInsert RadixRoom RadixDelete RadixIter RadixClient RadixFull.

(** ** Example trees *)

#[local] Existing Instance bump.

Definition start_state : tstate := TState (Root 0 0) ∅ [] 0%nat 0.
Definition tree0 : tstate := exec (radix_tree_root_alloc true) start_state.
Definition tree1 : tstate := exec (radix_tree_insert 5 48) tree0.
Definition tree2 : tstate := exec (radix_tree_insert 70 64) tree1.
Definition map2 : gmap Z Z := <[70 := 64]> (<[5 := 48]> ∅).

(** An item's word is a non-NULL one without the internal tag. *)
Definition item_okb (e : Z) : bool :=
  (0 <? e) && (e <? 2 ^ 64) && negb (radix_tree_is_internal_node e).

Lemma item_okb_ok e : item_okb e = true → item_ok e.
Proof. unfold item_okb, item_ok. destruct (radix_tree_is_internal_node e); cbn; [by rewrite andb_false_r|]. intros. split; [lia|done]. Qed.

Lemma tree0_represents : represents tree0 ∅.
Proof.
  assert (no_tree start_state) as H0 by done.
  destruct (wp_exec _ _ start_state true (root_alloc_spec start_state H0)) as [_ [H|H]]; [by vm_compute|done|done].
Qed.

Lemma tree_insert st m idx item :
  represents st m → 0 ≤ idx < 2 ^ 64 → item_okb item = true → m !! 0 = None →
  radix_tree_insert idx item st = Ok (0, exec (radix_tree_insert idx item) st) →
  represents (exec (radix_tree_insert idx item) st) (<[idx := item]> m).
Proof.
  intros Hrep Hi Hit H0 Hrun. assert (extensible m idx) as Hext by (right; by left).
  destruct (wp_exec _ _ st 0 (insert_map st m idx item Hrep Hi (item_okb_ok _ Hit) Hext) Hrun)
    as [(_ & _ & H)|[(? & _)|(? & _)]]; done.
Qed.

Lemma tree1_represents : represents tree1 (<[5 := 48]> ∅).
Proof. apply tree_insert; [apply tree0_represents|lia|done|done|]. by vm_compute. Qed.

Lemma tree2_represents : represents tree2 map2.
Proof. apply tree_insert; [apply tree1_represents|lia|done|done|]. by vm_compute. Qed.

(** A sequence that is legal whatever the tree holds besides the key 0: the key
    0 is left alone and deletions name the item they expect. *)
Definition indexb (idx : Z) : bool := (0 <? idx) && (idx <? 2 ^ 64).

Definition op_okb (o : op) : bool :=
  match o with
  | OpInsert idx item => indexb idx && item_okb item
  | OpLookup idx => indexb idx
  | OpDelete idx item => indexb idx && negb (item =? 0)
  | OpReplace idx item => indexb idx && item_okb item
  | OpForEach start => (0 <=? start) && (start <? 2 ^ 64)
  | OpBarrier => true
  end.

Lemma op_okb_legal m o : m !! 0 = None → op_okb o = true → op_legal m o.
Proof.
  intros H0. destruct o; cbn; unfold indexb; rewrite ?andb_true_iff; intros Ho;
    repeat match goal with H : _ ∧ _ |- _ => destruct H end; repeat split; try lia;
    try (by apply item_okb_ok).
  - right. by left.
Qed.

Lemma op_okb_step `{!Calloc radix_tree_node} m o a m' :
  m !! 0 = None → op_okb o = true → map_step m o a m' → m' !! 0 = None.
Proof.
  intros H0 Ho Hs. destruct Hs; cbn in Ho; unfold indexb in Ho; try done.
  - rewrite lookup_insert_ne; [done|]. destruct (Z.ltb_spec 0 idx); [lia|done].
  - rewrite lookup_delete_None. by right.
  - rewrite lookup_insert_ne; [done|]. destruct (Z.ltb_spec 0 idx); [lia|done].
Qed.

Lemma ops_okb_legal `{!Calloc radix_tree_node} m os :
  m !! 0 = None → forallb op_okb os = true → ops_legal m os.
Proof.
  revert m. induction os as [|o os IH]; intros m H0; cbn; [done|].
  rewrite andb_true_iff. intros [Ho Hos]. split; [by apply op_okb_legal|].
  intros a m' Hs. apply IH; [|done]. by eapply op_okb_step.
Qed.

(** ** The tree is a finite map *)

(** C1: while the messages of verbosity 3 are off, a tree that represents a map
    answers every legal sequence of insertions, lookups, deletions, replacements,
    loops and grace periods as the map does, and represents the map's final
    value; no operation of the sequence faults, runs out of its loop bound or
    leaves the sequence unfinished. *)
Theorem radix_ops_refine_map `{!Calloc radix_tree_node} (st : tstate) (m : gmap Z Z) (os : list op) :
  represents st m → ops_legal m os → verbose st < 3 →
  ∃ answers st' m', run_ops os st = Ok (answers, st') ∧
    map_steps m os answers m' ∧ represents st' m'.
Proof.
  intros Hrep Hlegal Hv.
  destruct (proj1 (wp_returns _ _ _) (run_ops_refines st m os Hrep Hlegal Hv)) as (l & st' & ? & m' & ? & ?).
  eauto 10.
Qed.

Definition demo_ops : list op :=
  [OpInsert 9 32; OpLookup 5; OpInsert 5 80; OpDelete 70 64; OpForEach 0; OpBarrier].

Lemma demo_ops_legal : ops_legal map2 demo_ops.
Proof. by apply ops_okb_legal. Qed.

Lemma radix_ops_refine_map_witness :
  ∃ answers st' m', run_ops demo_ops tree2 = Ok (answers, st') ∧
    map_steps map2 demo_ops answers m' ∧ represents st' m'.
Proof. exact (radix_ops_refine_map tree2 map2 demo_ops tree2_represents demo_ops_legal ltac:(done)). Defined.



(** A lookup changes nothing and returns the item stored at the index, or
    NULL when there is none, for every index of the 64-bit range. *)
Theorem radix_tree_lookup_correct (st : tstate) (m : gmap Z Z) (idx : Z) :
  represents st m → 0 ≤ idx < 2 ^ 64 →
  radix_tree_lookup idx st = Ok (default 0 (m !! idx), st).
Proof.
  intros Hrep Hi.
  destruct (proj1 (wp_returns _ _ _) (lookup_map st m idx Hrep Hi)) as (r & st' & Hrun & -> & ->).
  done.
Qed.

Lemma radix_tree_lookup_correct_witness :
  radix_tree_lookup 70 tree2 = Ok (64, tree2) ∧ radix_tree_lookup (2 ^ 64 - 1) tree2 = Ok (0, tree2).
Proof.
  split.
  - apply (radix_tree_lookup_correct tree2 map2 70 tree2_represents); lia.
  - apply (radix_tree_lookup_correct tree2 map2 (2 ^ 64 - 1) tree2_represents); lia.
Defined.

(** C13: while the messages of verbosity 3 are off, deleting at an index that holds an entry, or naming the expected item,
    takes the entry out and returns it; when another item is there, or none, it
    returns NULL and changes nothing. *)
Theorem radix_tree_delete_item_correct (st : tstate) (m : gmap Z Z) (idx item : Z) :
  represents st m → 0 ≤ idx < 2 ^ 64 → (item ≠ 0 ∨ is_Some (m !! idx)) → verbose st < 3 →
  wp (radix_tree_delete_item idx item)
    (λ r st',
       m !! idx = Some r ∧ (item = 0 ∨ item = r) ∧ represents st' (delete idx m) ∨
       r = 0 ∧ item ≠ 0 ∧ m !! idx ≠ Some item ∧ st' = st) st.
Proof. apply delete_item_map. Qed.

Lemma radix_tree_delete_item_correct_witness :
  ∃ st', radix_tree_delete_item 70 0 tree2 = Ok (64, st') ∧ represents st' (delete 70 map2).
Proof.
  exists (exec (radix_tree_delete_item 70 0) tree2).
  assert (radix_tree_delete_item 70 0 tree2 = Ok (64, exec (radix_tree_delete_item 70 0) tree2))
    as Hrun by (by vm_compute).
  split; [exact Hrun|].
  assert (is_Some (map2 !! 70)) as Hsome by (by exists 64).
  destruct (wp_exec _ _ tree2 64 (radix_tree_delete_item_correct tree2 map2 70 0 tree2_represents
    ltac:(lia) (or_intror Hsome) ltac:(done)) Hrun) as [(_ & _ & H)|(H & _)]; [exact H|discriminate H].
Defined.

(** C4: the loop over all slots from a start index visits exactly the entries at
    or after it, each once, in ascending order of index, and terminates. *)
Theorem radix_tree_for_each_slot_sorted (st : tstate) (m : gmap Z Z) (start : Z) :
  represents st m → 0 ≤ start < 2 ^ 64 →
  ∃ l, radix_tree_for_each_slot record start [] st = Ok (l, st) ∧
    StronglySorted Z.lt l.*1 ∧
    ∀ j v, (j, v) ∈ l ↔ m !! j = Some v ∧ start ≤ j < 2 ^ 64.
Proof.
  intros Hrep Hs.
  destruct (proj1 (wp_returns _ _ _) (for_each_map st m start Hrep Hs)) as (l & st' & Hrun & -> & Hl).
  by exists l.
Qed.

Lemma radix_tree_for_each_slot_sorted_witness :
  radix_tree_for_each_slot record 3 [] tree2 = Ok ([(5, 48); (70, 64)], tree2) ∧
  ∃ l, radix_tree_for_each_slot record 3 [] tree2 = Ok (l, tree2) ∧
    StronglySorted Z.lt l.*1 ∧ ∀ j v, (j, v) ∈ l ↔ map2 !! j = Some v ∧ 3 ≤ j < 2 ^ 64.
Proof.
  split; [by vm_compute|].
  apply (radix_tree_for_each_slot_sorted tree2 map2 3 tree2_represents); lia.
Defined.

(** C27: a search from an index finds the least index at or after it that holds an
    entry, and the slot of that entry; it finds nothing only when no entry is
    left.  The walk restarts at most once for each node of the tree. *)
Theorem radix_tree_iter_find_least (st : tstate) (m : gmap Z Z) (it : radix_tree_iter) (start : Z) :
  represents st m → 0 ≤ start < 2 ^ 64 →
  wp (radix_tree_iter_find it start)
    (λ '(slot, it') st', st' = st ∧
       match slot with
       | None => ∀ j v, start ≤ j → m !! j ≠ Some v
       | Some s => ∃ v, read_slot s st = Ok (v, st) ∧ m !! index it' = Some v ∧
           start ≤ index it' ∧ ∀ j v, start ≤ j < index it' → m !! j ≠ Some v
       end) st.
Proof.
  intros (B & Hinv & Hm) Hs. unfold radix_tree_iter_find.
  eapply wp_mono; [apply (next_chunk_spec Hinv start); [by left|done|done]|].
  intros [[s|] it'] st' [-> Hp]; (split; [done|]).
  - destruct Hp as (j & v & Hj & Hg & Hat). exists v. split; [by eapply at_slot_read|].
    destruct Hat as (-> & _ & _ & Hc & _). split; [by apply Hm|]. split; [done|].
    intros k w Hk Hw%Hm. by eapply Hg.
  - intros j v Hj Hv%Hm. pose proof (content_range Hinv j v Hv). eapply Hp; [|done]. lia.
Qed.

Lemma radix_tree_iter_find_least_witness :
  represents tree2 map2 ∧
  wp (radix_tree_iter_find (Iter 0 0 0 0) 6)
    (λ '(slot, it') st', st' = tree2 ∧
       match slot with
       | None => ∀ j v, 6 ≤ j → map2 !! j ≠ Some v
       | Some s => ∃ v, read_slot s tree2 = Ok (v, tree2) ∧ map2 !! index it' = Some v ∧
           6 ≤ index it' ∧ ∀ j v, 6 ≤ j < index it' → map2 !! j ≠ Some v
       end) tree2.
Proof.
  split; [exact tree2_represents|].
  apply (radix_tree_iter_find_least tree2 map2 (Iter 0 0 0 0) 6 tree2_represents); lia.
Defined.

(** C37: a grace period frees each node whose release is pending, once, and no
    other; afterwards the memory holds the live nodes only, and the map is the
    one before. *)
Theorem rcu_barrier_frees_pending (st : tstate) (m : gmap Z Z) :
  represents st m →
  wp rcu_barrier
    (λ _ st', represents st' m ∧ rcu st' = [] ∧
       ∀ a, heap st' !! a = if decide (a ∈ rcu st) then None else heap st !! a) st.
Proof.
  intros (B & Hinv & Hm). eapply wp_mono; [by apply rcu_barrier_spec|].
  intros _ st' (Hinv' & Hc & _ & Hr & Hh). split; [|done]. by eapply represents_same.
Qed.

Definition tree3 : tstate := exec (radix_tree_delete_item 70 64) tree2.

Lemma tree3_represents : represents tree3 (delete 70 map2).
Proof.
  assert (radix_tree_delete_item 70 64 tree2 = Ok (64, tree3)) as Hrun by (by vm_compute).
  assert (64 ≠ 0) as Hne by lia.
  destruct (wp_exec _ _ tree2 64 (delete_item_map tree2 map2 70 64 tree2_represents
    ltac:(lia) (or_introl Hne) ltac:(done)) Hrun) as [(_ & _ & H)|(H & _)]; [exact H|discriminate H].
Qed.

Lemma rcu_barrier_frees_pending_witness :
  rcu tree3 ≠ [] ∧
  wp rcu_barrier
    (λ _ st', represents st' (delete 70 map2) ∧ rcu st' = [] ∧
       ∀ a, heap st' !! a = if decide (a ∈ rcu tree3) then None else heap tree3 !! a) tree3.
Proof.
  split; [by vm_compute|]. exact (rcu_barrier_frees_pending tree3 (delete 70 map2) tree3_represents).
Defined.

(** Storing an item through the slot a lookup found changes the map at that
    index alone; a lookup of an absent index finds no slot. *)
Theorem radix_tree_replace_slot_correct (st : tstate) (m : gmap Z Z) (idx item : Z) :
  represents st m → 0 ≤ idx < 2 ^ 64 → item_ok item →
  wp (lookup_replace idx item)
    (λ r st', r = true ∧ is_Some (m !! idx) ∧ represents st' (<[idx := item]> m) ∨
              r = false ∧ m !! idx = None ∧ st' = st) st.
Proof. apply lookup_replace_map. Qed.

Lemma radix_tree_replace_slot_correct_witness :
  ∃ st', lookup_replace 5 96 tree2 = Ok (true, st') ∧ represents st' (<[5 := 96]> map2).
Proof.
  exists (exec (lookup_replace 5 96) tree2).
  assert (lookup_replace 5 96 tree2 = Ok (true, exec (lookup_replace 5 96) tree2)) as Hrun
    by (by vm_compute).
  split; [exact Hrun|].
  destruct (wp_exec _ _ tree2 true (radix_tree_replace_slot_correct tree2 map2 5 96 tree2_represents
    ltac:(lia) (item_okb_ok 96 eq_refl)) Hrun) as [(_ & _ & H)|(H & _)]; [exact H|discriminate H].
Defined.

(** A new root represents the empty map, unless libc had no memory for its
    first node. *)
Theorem radix_tree_root_alloc_empty `{!Calloc radix_tree_node} (st : tstate) (a : Z) :
  heap st = ∅ → rcu st = [] → calloc (ticks st) (heap st) = Some a →
  ∃ st', radix_tree_root_alloc true st = Ok (true, st') ∧ represents st' ∅.
Proof.
  intros Hh Hr Ha.
  destruct (proj1 (wp_returns _ _ _) (root_alloc_spec st (conj Hh Hr))) as (ok & st' & Hrun & -> & [?|?]);
    [eauto|congruence].
Qed.

Lemma radix_tree_root_alloc_empty_witness :
  ∃ st', radix_tree_root_alloc true start_state = Ok (true, st') ∧ represents st' ∅.
Proof. apply (radix_tree_root_alloc_empty start_state 16); by vm_compute. Defined.




(** ** Where the code departs from its comments *)

(** Deleting an index that holds nothing, in range of the tree, loses entries:
    with items at 0 and 1, a deletion at the free index 5 returns NULL but
    lowers the leaf's count, and the deletion at 0 then takes the leaf, and the
    item at 1 with it, out of the tree. *)
Theorem radix_tree_delete_absent_loses_entry :
  let program :=
    radix_tree_root_alloc true;;
    _ ← radix_tree_insert 0 48;
    _ ← radix_tree_insert 1 64;
    a ← radix_tree_lookup 1;
    b ← radix_tree_delete 5;
    c ← radix_tree_delete 0;
    d ← radix_tree_lookup 1;
    mret (a, b, c, d) in
  (λ r, match r with Ok (x, _) => Some x | _ => None end) (program start_state) = Some (64, 0, 48, 0).
Proof. by vm_compute. Qed.

(** With the verbosity 3, taking the only entry out of a leaf prints a message
    about the node after it was handed to [call_rcu]. *)
Theorem radix_tree_delete_verbose_faults :
  let program :=
    radix_tree_root_alloc true;;
    _ ← radix_tree_insert 5 48;
    radix_tree_delete 5 in
  (λ r, match r with Ok (x, _) => Some x | _ => None end) (program (set_verbose 2 start_state)) = Some 48 ∧
  program (set_verbose 3 start_state) = Fault.
Proof. split; by vm_compute. Qed.

(** The only entry deleted, then the index 0 inserted. *)
Definition tree_empty : tstate := exec (radix_tree_delete_item 5 0) tree1.
Definition tree_direct : tstate := exec (radix_tree_insert 0 48) tree_empty.

Lemma tree_direct_represents : represents tree_direct {[0 := 48]}.
Proof.
  assert (represents tree_empty (delete 5 (<[5 := 48]> ∅))) as He.
  { assert (radix_tree_delete_item 5 0 tree1 = Ok (48, tree_empty)) as Hrun by (by vm_compute).
    assert (is_Some ((<[5 := 48]> ∅ : gmap Z Z) !! 5)) as Hsome by (by exists 48).
    destruct (wp_exec _ _ tree1 48 (delete_item_map tree1 _ 5 0 tree1_represents
      ltac:(lia) (or_intror Hsome) ltac:(done)) Hrun) as [(_ & _ & H)|(H & _)]; [exact H|discriminate H]. }
  apply (tree_insert tree_empty _ 0 48 He); [lia|done|done|]. by vm_compute.
Qed.

(** An item stored in the root's pointer is taken for a node when the tree
    grows: after the last entry went and the index 0 was inserted, the tree
    represents the map of that one item, and inserting the index 1 writes
    through the item instead of storing anything. *)
Theorem radix_tree_extend_writes_through_item :
  represents tree_direct {[0 := 48]} ∧ radix_tree_lookup 0 tree_direct = Ok (48, tree_direct) ∧
  radix_tree_insert 1 64 tree_direct = Fault.
Proof. split; [apply tree_direct_represents|]. split; by vm_compute. Qed.

(** [radix_tree_root_alloc] does not look at the result of its node
    allocation: without memory for the node it still returns a root, and every
    later lookup reads through NULL. *)
Theorem radix_tree_root_alloc_unchecked `{!Calloc radix_tree_node} (st : tstate) (idx : Z) :
  calloc (ticks st) (heap st) = None → heap st !! 0 = None →
  ∃ st', radix_tree_root_alloc true st = Ok (true, st') ∧ radix_tree_lookup idx st' = Fault.
Proof.
  intros Ha H0. unfold radix_tree_root_alloc, radix_tree_node_alloc, mbind, M_bind. rewrite Ha.
  eexists. split; [done|].
  unfold radix_tree_lookup, __radix_tree_lookup, radix_tree_load_root, get_rnode, gets, mbind, M_bind.
  cbn [root rnode]. change (radix_tree_is_internal_node (node_to_entry 0)) with true.
  change (entry_to_node (node_to_entry 0)) with 0. unfold load_node. cbn [heap]. by rewrite H0.
Qed.

Definition no_memory : Calloc radix_tree_node := {|
  calloc _ _ := None;
  calloc_fresh _ _ _ H := ltac:(discriminate H);
  calloc_aligned _ _ _ H := ltac:(discriminate H);
  calloc_range _ _ _ H := ltac:(discriminate H)
|}.

Lemma radix_tree_root_alloc_unchecked_witness :
  ∃ st', @radix_tree_root_alloc no_memory true start_state = Ok (true, st') ∧
    radix_tree_lookup 7 st' = Fault.
Proof. apply (@radix_tree_root_alloc_unchecked no_memory start_state 7); by vm_compute. Defined.
