(* ===== verification/ItemDefs.v ===== *)
(** * The items of radix_tree/test.c and the runs of radix_tree/benchmark.c

    An item is an object of the heap that knows its index; the tree holds its
    address at that index. *)
From S2P Require Import Prelude Loops RadixDefs.

Record item := Item { item_index : Z; item_order : Z }.

(** The tree, the items by address, and the number of calls of [malloc]. *)
Record istate := IState {
  tree : tstate;
  items : gmap Z item;
  mticks : nat
}.

#[export] Program Instance istate_verbose : Verbose istate := {|
  verbose st := verbose (tree st);
  set_verbose v st := IState (set_verbose v (tree st)) (items st) (mticks st)
|}.
Solve Obligations with done.
Next Obligation. by intros [[]]. Qed.

Abbreviation I := (M istate).

(** An operation of the tree leaves the items alone. *)
Definition on_tree {A} (m : T A) : I A := λ st,
  match m (tree st) with
  | Ok (x, t) => Ok (x, IState t (items st) (mticks st))
  | Fault => Fault
  | NoFuel => NoFuel
  end.

Definition load_item (a : Z) : I item := λ st,
  match items st !! a with Some it => Ok (it, st) | None => Fault end.

(** [free]: NULL is ignored, anything but an allocated item is a fault. *)
Definition free_item (a : Z) : I () := λ st,
  if a =? 0 then Ok ((), st)
  else match items st !! a with
       | Some _ => Ok ((), IState (tree st) (delete a (items st)) (mticks st))
       | None => Fault
       end.

(** A failed assertion ends the program. *)
Definition assert_ (b : bool) : I () := if b then mret () else fault.

Section ops.
Context `{!Calloc radix_tree_node, !Calloc item}.

(** ** test.c *)

(** Both fields are written through the result of [malloc], NULL or not. *)
Definition item_create (idx ord : Z) : I Z := λ st,
  match calloc (mticks st) (items st) with
  | Some ret => Ok (ret, IState (tree st) (<[ret := Item idx ord]> (items st)) (S (mticks st)))
  | None => Fault
  end.

Definition item_insert (idx : Z) : I Z :=
  item ← item_create idx 0;
  it ← load_item item;
  err ← on_tree (radix_tree_insert (item_index it) item);
  if truthy err then free_item item;; mret err else mret err.

Definition item_sanity (item idx : Z) : I () :=
  assert_ (negb (radix_tree_is_internal_node item));;
  it ← load_item item;
  assert_ (item_order it <? BITS_PER_LONG);;
  let mask := u64 (shl64 1 (item_order it) - 1) in
  assert_ (Z.lor (item_index it) mask =? Z.lor idx mask).

Definition item_free (item idx : Z) : I () := free_item item.

Definition item_delete (idx : Z) : I Z :=
  item ← on_tree (radix_tree_delete idx);
  if truthy item then item_free item idx;; mret 1 else mret 0.

Definition item_check_present (idx : Z) : I () :=
  item ← on_tree (radix_tree_lookup idx);
  assert_ (truthy item);;
  item_sanity item idx.

Definition item_lookup (idx : Z) : I Z := on_tree (radix_tree_lookup idx).

Definition item_check_absent (idx : Z) : I () :=
  item ← on_tree (radix_tree_lookup idx);
  assert_ (negb (truthy item)).

(** The address of a slot is the compiler's. *)
Variable slot_addr : slotref → Z.

(** The loop of [item_kill_tree]; its body tests the slot's own address. *)
Fixpoint kill_loop (fuel : nat) (slot : option slotref) (it : radix_tree_iter) : I () :=
  match fuel with
  | O => nofuel
  | S fuel =>
      '(slot, it) ← (match slot with
                     | Some _ => mret (slot, it)
                     | None => on_tree (radix_tree_next_chunk it 0)
                     end);
      match slot with
      | None => mret ()
      | Some s =>
          (if negb (xa_is_value (slot_addr s))
           then e ← on_tree (read_slot s); free_item e
           else mret ());;
          on_tree (radix_tree_replace_slot s 0);;
          '(slot, it) ← on_tree (radix_tree_next_slot s it 0);
          kill_loop fuel slot it
      end
  end.

Definition item_kill_tree : I () :=
  fuel ← gets (λ st, for_each_fuel (tree st));
  kill_loop fuel None (radix_tree_iter_init (Iter 0 0 0 0) 0);;
  e ← on_tree radix_tree_empty;
  assert_ e.

(** ** benchmark.c; the clock and the messages change no state of the tree *)

Definition benchmark_insert (sz step : Z) : I () :=
  for_up (S (turns sz step)) 0 sz step (λ idx, _ ← item_insert idx; mret ()).

Definition benchmark_delete (sz step : Z) : I () :=
  for_up (S (turns sz step)) 0 sz step (λ idx, _ ← item_delete idx; mret ()).

(** The sum of the slots' addresses that keeps the loop from being optimised away. *)
Definition benchmark_iter (loops : nat) : I Z :=
  let fix go n sink :=
    match n with
    | O => mret sink
    | S n =>
        sink ← on_tree (radix_tree_for_each_slot
                 (λ slot _ sink, mret (Z.lxor sink (slot_addr slot))) 0 sink);
        go n sink
    end in
  go loops 0.

(** [ret] is whether libc had memory for the root. *)
Definition benchmark_size (ret : bool) (sz step : Z) : I () :=
  ok ← on_tree (radix_tree_root_alloc ret);
  if (ok : bool) then
    benchmark_insert sz step;;
    _ ← benchmark_iter 1;
    benchmark_delete sz step;;
    item_kill_tree;;
    on_tree rcu_barrier
  else fault.

Definition benchmark_sizes : list Z := [Z.shiftl 1 10; Z.shiftl 1 20; 0].
Definition benchmark_steps : list Z := [1; 2; 7; 15; 63; 64; 65; 128; 256; 512; 12345; 0].

Definition benchmark (ret : bool) : I () :=
  for_nonzero benchmark_sizes (λ sz,
    for_nonzero benchmark_steps (λ step, benchmark_size ret sz step)).

(** The lines [my_benchmark] prints; nothing calls it. *)
Inductive line := Succeed (idx : Z) | Failed (idx : Z) | Shows (idx : Z) (e : option Z).

Definition deref_slot (idx : Z) : I line :=
  slot ← on_tree (radix_tree_lookup_slot idx);
  match slot with
  | Some s => e ← on_tree (read_slot s); mret (Shows idx (Some e))
  | None => fault
  end.

Definition show_slot (idx : Z) : I line :=
  slot ← on_tree (radix_tree_lookup_slot idx);
  match slot with
  | Some s => e ← on_tree (read_slot s); mret (Shows idx (Some e))
  | None => mret (Shows idx None)
  end.

Definition delete_and_show (idx : Z) : I (list line) :=
  d ← on_tree (radix_tree_delete idx);
  if truthy d then l ← show_slot idx; mret [Succeed idx; l] else mret [Failed idx].

Definition my_benchmark (ret : bool) : I (list line) :=
  ok ← on_tree (radix_tree_root_alloc ret);
  if (ok : bool) then
    _ ← on_tree (radix_tree_insert 2 2);
    _ ← on_tree (radix_tree_insert 6 6);
    _ ← on_tree (radix_tree_insert 65 65);
    l1 ← deref_slot 2;
    l2 ← deref_slot 65;
    l3 ← delete_and_show 6;
    l4 ← delete_and_show 65;
    mret ([l1; l2] ++ l3 ++ l4)
  else fault.
End ops.
