(* ===== verification/ItemOps.v ===== *)
(** * The items: ownership between the tree and the heap

    Every entry of the tree is an item of the heap that carries its index, and
    every item is in the tree: what is inserted is not leaked and what is
    deleted is freed. *)
From S2P Require Import Prelude RadixDefs RadixInv RadixLookup RadixUpdate RadixInsert RadixDelete RadixIter RadixRoom RadixClient RadixFull ItemDefs.

(** ** Operations of the tree *)

Lemma wp_on_tree {A} (m : T A) (Q : A → istate → Prop) st :
  wp (on_tree m) Q st ↔ wp m (λ x t, Q x (IState t (items st) (mticks st))) (tree st).
Proof. unfold wp, on_tree. by destruct (m (tree st)) as [[x t]| |]. Qed.

Lemma wp_load_item a it (Q : item → istate → Prop) st :
  items st !! a = Some it → wp (load_item a) Q st ↔ Q it st.
Proof. unfold wp, load_item. by intros ->. Qed.

Lemma wp_free_item a it (Q : () → istate → Prop) st :
  a ≠ 0 → items st !! a = Some it →
  wp (free_item a) Q st ↔ Q () (IState (tree st) (delete a (items st)) (mticks st)).
Proof. unfold wp, free_item. intros Ha ->. by destruct (Z.eqb_spec a 0). Qed.

Lemma wp_assert b (Q : () → istate → Prop) st : b = true → Q () st → wp (assert_ b) Q st.
Proof. by intros ->. Qed.

(** ** Ownership *)

(** The items are exactly the tree's entries, each with its index. *)
Definition bijection (m : gmap Z Z) (its : gmap Z item) : Prop :=
  (∀ idx a, m !! idx = Some a → its !! a = Some (Item idx 0)) ∧
  (∀ a it, its !! a = Some it → m !! item_index it = Some a).

Record owned (st : istate) (m : gmap Z Z) (B : gmap Z Z) : Prop := {
  ow_inv : inv (tree st) B;
  ow_map idx a : m !! idx = Some a ↔ content (tree st) B idx a;
  ow_items : bijection m (items st)
}.

Lemma bijection_insert m its idx a :
  bijection m its → m !! idx = None → its !! a = None →
  bijection (<[idx := a]> m) (<[a := Item idx 0]> its).
Proof.
  intros [Hm Hi] Hidx Ha. split.
  - intros j b [[-> ->]|[Hj Hb]]%lookup_insert_Some; [by rewrite lookup_insert_eq|].
    rewrite lookup_insert_ne; [by apply Hm|]. intros ->. by rewrite (Hm _ _ Hb) in Ha.
  - intros b it [[-> <-]|[Hb Hit]]%lookup_insert_Some; [by rewrite lookup_insert_eq|].
    rewrite lookup_insert_ne; [by apply Hi|]. intros Heq. apply Hi in Hit. congruence.
Qed.

Lemma bijection_delete m its idx a :
  bijection m its → m !! idx = Some a → bijection (delete idx m) (delete a its).
Proof.
  intros [Hm Hi] Ha. split.
  - intros j b [Hj Hb]%lookup_delete_Some. pose proof (Hm _ _ Hb) as Hit.
    rewrite lookup_delete_ne; [done|]. intros ->. pose proof (Hm _ _ Ha). congruence.
  - intros b it [Hb Hit]%lookup_delete_Some. pose proof (Hi _ _ Hit) as Hj.
    rewrite lookup_delete_ne; [done|]. intros ->. congruence.
Qed.

(** An entry of the tree is never NULL, nor a node's. *)
Lemma owned_item st m B idx a : owned st m B → m !! idx = Some a → item_ok a.
Proof.
  intros [Hinv Hm _] [|x b n i Hb Hn Hs Hi Hv _]%Hm; [done|].
  exact (no_leaf _ _ _ _ _ _ (live_node Hinv _ _ _ Hb Hn) Hs _ _ Hi Hv).
Qed.

Section ops.
Context `{!Calloc radix_tree_node, !Calloc item}.

Lemma wp_item_create idx ord (Q : Z → istate → Prop) st :
  calloc (mticks st) (items st) ≠ None →
  (∀ a, aligned a → items st !! a = None →
     Q a (IState (tree st) (<[a := Item idx ord]> (items st)) (S (mticks st)))) →
  wp (item_create idx ord) Q st.
Proof.
  intros Hmem HQ. unfold wp, item_create. destruct (calloc (mticks st) (items st)) as [a|] eqn:Ha; [|done].
  apply HQ; [|by eapply calloc_fresh]. split; [by eapply calloc_aligned|by eapply calloc_range].
Qed.

Lemma aligned_item a : aligned a → item_ok a.
Proof.
  intros [Ha Hr]. split; [lia|]. unfold radix_tree_is_internal_node, RADIX_TREE_ENTRY_MASK, RADIX_TREE_INTERNAL_NODE.
  rewrite land_3. apply Z.eqb_neq. zlia.
Qed.

(** *** [item_insert] *)

Inductive inserted (st : istate) (m : gmap Z Z) (B : gmap Z Z) (idx : Z) (st' : istate) (B' : gmap Z Z) : Z → Prop :=
| inserted_new a : m !! idx = None → items st !! a = None →
    items st' = <[a := Item idx 0]> (items st) → owned st' (<[idx := a]> m) B' → inserted st m B idx st' B' 0
| inserted_old : is_Some (m !! idx) → items st' = items st → owned st' m B' →
    inserted st m B idx st' B' (- EEXIST)
| inserted_not : m !! idx = None → alloc_fails (tree st') → items st' = items st → owned st' m B' →
    inserted st m B idx st' B' (- ENOMEM).

(** [R] is whatever is known of the tree's insertion besides. *)
Lemma item_insert_wp (R : Z → tstate → Prop) st m B idx :
  (∀ a, aligned a → wp (radix_tree_insert idx a) R (tree st)) →
  owned st m B → 0 ≤ idx < 2 ^ 64 → growable (tree st) idx → calloc (mticks st) (items st) ≠ None →
  wp (item_insert idx) (λ e st', R e (tree st') ∧
    ∃ B', B ⊆ B' ∧ (e ≠ - ENOMEM → full (tree st) B 0 → full (tree st') B' 0) ∧
      inserted st m B idx st' B' e) st.
Proof.
  intros HR [Hinv Hm Hbij] Hi Hg Hmem. unfold item_insert. rewrite wp_bind. apply wp_item_create; [done|].
  intros a Ha Hfresh. assert (a ≠ 0) by (destruct Ha; lia).
  rewrite wp_bind. rewrite (wp_load_item a (Item idx 0)) by (cbn; by rewrite lookup_insert_eq).
  rewrite wp_bind, wp_on_tree. cbn [tree items mticks item_index].
  eapply wp_mono; [apply wp_and; [by apply HR|apply (insert_spec _ B); [done..|by apply aligned_item]]|].
  assert (∀ v, content (tree st) B idx v → is_Some (m !! idx)) as Hsome by (intros v Hv%Hm; by eexists).
  assert ((∀ v, ¬ content (tree st) B idx v) → m !! idx = None) as Hnone.
  { intros Hno. destruct (m !! idx) as [v|] eqn:Hv; [|done]. by destruct (Hno v), (Hm idx v); auto. }
  assert (∀ t B' e, inv t B' → same_content (tree st) B t B' → truthy e = true →
    wp (free_item a;; mret e) (λ e' st', e' = e ∧ tree st' = t ∧ items st' = items st ∧ owned st' m B')
      (IState t (<[a := Item idx 0]> (items st)) (S (mticks st)))) as Hundo.
  { intros t B' e Hinv' Hc He. rewrite wp_bind, (wp_free_item a (Item idx 0)), wp_ret
      by (done || (cbn; by rewrite lookup_insert_eq)).
    assert (delete a (<[a := Item idx 0]> (items st)) = items st) as Heq by (by rewrite delete_insert_id).
    cbn. rewrite Heq. split; [done|]. split; [done|]. split; [done|]. split; [done| |done].
    intros j v. by rewrite Hm, (Hc j v). }
  intros e t [HRe (B' & Hinv' & Hs & Hf & Hor)].
  destruct Hor as [(-> & Hno & Hup)|[(-> & [v Hv] & Hc)|(-> & Hfail & Hno & Hc)]].
  - rewrite truthy_0, wp_ret. split; [done|]. exists B'. split; [done|]. split; [done|].
    apply (inserted_new _ _ _ _ _ _ a); [auto|done|done|]. split; [done| |by apply bijection_insert; auto].
    by apply (updated_map (tree st) B).
  - rewrite (truthy_nz (- EEXIST)) by done. eapply wp_mono; [by apply (Hundo t B' (- EEXIST))|].
    intros ? st' (-> & <- & Hit & How). split; [done|]. exists B'. split; [done|]. split; [done|].
    by apply inserted_old; [eapply Hsome|..].
  - rewrite (truthy_nz (- ENOMEM)) by done. eapply wp_mono; [by apply (Hundo t B' (- ENOMEM))|].
    intros ? st' (-> & <- & Hit & How). split; [done|]. exists B'. split; [done|]. split; [done|].
    by apply inserted_not; [apply Hnone|..].
Qed.

Lemma item_insert_spec st m B idx :
  owned st m B → 0 ≤ idx < 2 ^ 64 → growable (tree st) idx → calloc (mticks st) (items st) ≠ None →
  wp (item_insert idx) (λ e st', node_room 24 (tree st) (tree st') ∧
    ∃ B', B ⊆ B' ∧ (e ≠ - ENOMEM → full (tree st) B 0 → full (tree st') B' 0) ∧
      inserted st m B idx st' B' e) st.
Proof.
  intros How Hi Hg Hmem. apply (item_insert_wp (λ _ t, node_room 24 (tree st) t)); [|done..].
  intros a Ha. eapply wp_mono.
  { apply (wp_within (R := node_room) 24); [apply _|].
    apply (insert_spec _ B); [apply How|done|done|by apply aligned_item]. }
  by intros e t [_ ?].
Qed.

(** [malloc]'s result is not tested. *)
Lemma item_insert_no_memory st idx : calloc (mticks st) (items st) = None → item_insert idx st = Fault.
Proof. intros Hn. unfold item_insert, mbind, M_bind, item_create. by rewrite Hn. Qed.

(** *** [item_delete] and the lookups *)

Lemma item_delete_spec st m B idx a :
  owned st m B → 0 ≤ idx < 2 ^ 64 → m !! idx = Some a → verbose st < 3 →
  wp (item_delete idx) (λ r st', r = 1 ∧ items st' = delete a (items st) ∧ node_room 0 (tree st) (tree st') ∧
    ∃ B', owned st' (delete idx m) B' ∧ (full (tree st) B 0 → full (tree st') B' 0)) st.
Proof.
  intros How Hi Ha Hv. pose proof (owned_item st m B idx a How Ha) as [Hpos _]. destruct How as [Hinv Hm Hbij].
  unfold item_delete, radix_tree_delete. rewrite wp_bind, wp_on_tree. eapply wp_mono.
  { apply (wp_within (R := node_room) 0); [apply _|].
    apply (delete_item_spec (tree st) B idx 0 Hinv Hi); [|done]. right. exists a. by apply Hm. }
  intros r t [[(B' & Hr & _ & Hinv' & Hup & Hf)|(_ & _ & ? & _)] Hroom]; [|done].
  assert (r = a) as -> by (apply Hm in Hr; congruence). unfold item_free.
  rewrite truthy_nz by lia. rewrite wp_bind, (wp_free_item a (Item idx 0)), wp_ret by (lia || by apply Hbij).
  split; [done|]. split; [done|]. split; [done|]. exists B'. split; [|done].
  split; [done| |by apply bijection_delete]. by apply (deleted_map (tree st) B).
Qed.

Lemma item_lookup_spec st m B idx :
  owned st m B → 0 ≤ idx < 2 ^ 64 → item_lookup idx st = Ok (default 0 (m !! idx), st).
Proof.
  intros [Hinv Hm _] Hi.
  assert (represents (tree st) m) as Hrep by (by exists B).
  pose proof (proj1 (wp_returns _ _ _) (lookup_map (tree st) m idx Hrep Hi)) as (r & t & Hrun & -> & ->).
  unfold item_lookup, on_tree. rewrite Hrun. by destruct st.
Qed.

Lemma item_sanity_spec st a it idx :
  item_ok a → items st !! a = Some it → item_index it = idx → item_order it = 0 →
  item_sanity a idx st = Ok ((), st).
Proof.
  intros [_ Hint] Ha Hidx Hord.
  assert (wp (item_sanity a idx) (λ _ st', st' = st) st) as Hwp.
  { unfold item_sanity. rewrite wp_bind. apply wp_assert; [by rewrite Hint|].
    rewrite wp_bind, (wp_load_item a it), wp_bind by done. apply wp_assert; [by rewrite Hord|].
    apply wp_assert; [|done]. apply Z.eqb_eq. by rewrite Hidx. }
  by apply wp_returns in Hwp as ([] & ? & ? & ->).
Qed.

(** The assertions hold exactly where they should. *)
Lemma item_check_present_spec st m B idx :
  owned st m B → 0 ≤ idx < 2 ^ 64 →
  item_check_present idx st = if decide (is_Some (m !! idx)) then Ok ((), st) else Fault.
Proof.
  intros How Hi. pose proof (item_lookup_spec st m B idx How Hi) as Hl. unfold item_lookup in Hl.
  unfold item_check_present, mbind, M_bind. rewrite Hl.
  destruct (m !! idx) as [a|] eqn:Ha.
  - rewrite decide_True by (by eexists). change (default 0 (Some a)) with a. pose proof (owned_item st m B idx a How Ha) as Hit.
    rewrite truthy_nz by (destruct Hit; lia). cbn [assert_ mret M_ret].
    destruct (ow_items _ _ _ How) as [Hb _]. by apply (item_sanity_spec st a (Item idx 0)); [|apply Hb|..].
  - by rewrite decide_False by (by intros [? ?]).
Qed.

Lemma item_check_absent_spec st m B idx :
  owned st m B → 0 ≤ idx < 2 ^ 64 →
  item_check_absent idx st = if decide (is_Some (m !! idx)) then Fault else Ok ((), st).
Proof.
  intros How Hi. pose proof (item_lookup_spec st m B idx How Hi) as Hl. unfold item_lookup in Hl.
  unfold item_check_absent, mbind, M_bind. rewrite Hl. destruct (m !! idx) as [a|] eqn:Ha.
  - rewrite decide_True by (by eexists). change (default 0 (Some a)) with a. pose proof (owned_item st m B idx a How Ha) as Hit.
    by rewrite truthy_nz by (destruct Hit; lia).
  - by rewrite decide_False by (by intros [? ?]).
Qed.
End ops.
