(* ===== verification/ItemRuns.v ===== *)
(** * The items: the benchmark's runs

    A run inserts the multiples of its step, loops over the tree, deletes what
    it inserted and waits for the grace period.  With enough memory it gives
    back all it took but the root. *)
From S2P Require Import Prelude Loops RadixDefs RadixInv RadixLookup RadixUpdate RadixInsert RadixDelete RadixIter RadixRoom RadixClient RadixFull ItemDefs ItemOps.

(** ** The multiples of the step *)

(** The map's indices are the multiples of the step between two bounds. *)
Definition multiples (m : gmap Z Z) (step lo hi : Z) : Prop :=
  ∀ k, is_Some (m !! k) ↔ lo ≤ k < hi ∧ (step | k).

Lemma multiples_empty step lo : multiples ∅ step lo lo.
Proof. intros k. rewrite lookup_empty. split; [by intros [? ?]|lia]. Qed.

Lemma multiples_nil m step lo : multiples m step lo lo → m = ∅.
Proof.
  intros Hm. apply map_eq. intros k. rewrite lookup_empty. destruct (m !! k) eqn:Hk; [|done].
  assert (lo ≤ k < lo) by (apply Hm; by eexists). lia.
Qed.

(** Between a multiple and the next there is only the first. *)
Lemma multiple_next step j k : 0 < step → (step | k) → Z.of_nat j * step ≤ k < Z.of_nat (S j) * step → k = Z.of_nat j * step.
Proof. intros Hs [q ->] ?. assert (q = Z.of_nat j) by nia. lia. Qed.

Lemma multiples_insert m step j a :
  0 < step → multiples m step 0 (Z.of_nat j * step) →
  multiples (<[Z.of_nat j * step := a]> m) step 0 (Z.of_nat (S j) * step).
Proof.
  intros Hs Hm k. rewrite lookup_insert_is_Some, (Hm k). split.
  - intros [<-|[Hne [? ?]]]; (split; [lia|]); [apply Z.divide_factor_r|done].
  - intros [Hk Hd]. destruct (decide (Z.of_nat j * step = k)); [by left|right]. split; [done|].
    destruct (decide (k < Z.of_nat j * step)); [split; [lia|done]|].
    pose proof (multiple_next step j k Hs Hd). lia.
Qed.

Lemma multiples_delete m step j hi :
  0 < step → multiples m step (Z.of_nat j * step) hi →
  multiples (delete (Z.of_nat j * step) m) step (Z.of_nat (S j) * step) hi.
Proof.
  intros Hs Hm k. rewrite lookup_delete_is_Some, (Hm k). split.
  - intros [Hne [Hk Hd]]. split; [|done]. split; [|lia]. destruct (decide (k < Z.of_nat (S j) * step)); [|lia].
    destruct Hne. symmetry. apply multiple_next; [done|done|lia].
  - intros [Hk Hd]. split; [lia|]. split; [lia|done].
Qed.

(** ** Loops that only read *)

Lemma read_slot_same s st e st' : read_slot s st = Ok (e, st') → st' = st.
Proof.
  destruct s as [|a i]; cbn; [by intros [= _ <-]|].
  unfold mbind, M_bind, load_node, node_slot. destruct (heap st !! a) as [n|]; [|done].
  destruct (0 <=? i); [|done]. destruct (slots n !! Z.to_nat i); [|done]. by intros [= _ <-].
Qed.

(** A body that computes from the slot makes the same rounds as one that reads it. *)
Lemma for_each_loop_pure `{!Calloc radix_tree_node} {A} (f : slotref → A → A) fuel slot it acc x st l st' :
  for_each_loop fuel record slot it acc st = Ok (l, st') →
  ∃ y, for_each_loop fuel (λ s _ a, mret (f s a)) slot it x st = Ok (y, st').
Proof.
  revert slot it acc x st. induction fuel as [|fuel IH]; intros slot it acc x st; [done|].
  assert (∀ s it1 st1,
    (acc ← record s it1 acc; '(slot, it) ← radix_tree_next_slot s it1 0;
     for_each_loop fuel record slot it acc) st1 = Ok (l, st') →
    ∃ y, (x ← mret (f s x); '(slot, it) ← radix_tree_next_slot s it1 0;
          for_each_loop fuel (λ s _ a, mret (f s a)) slot it x) st1 = Ok (y, st')) as Hbody.
  { intros s it1 st1. unfold record, mbind, M_bind, mret, M_ret.
    destruct (read_slot s st1) as [[e st2]| |] eqn:Hr; try done. apply read_slot_same in Hr as ->.
    destruct (radix_tree_next_slot s it1 0 st1) as [[[s' it2] st3]| |]; try done. apply IH. }
  cbn [for_each_loop]. destruct slot as [s|]; [apply Hbody|].
  unfold mbind at 1 4, M_bind at 1 4. destruct (radix_tree_next_chunk it 0 st) as [[[[s|] it1] st1]| |]; try done.
  - apply Hbody.
  - intros [= _ ->]. by exists x.
Qed.

Section runs.
Context `{!Calloc radix_tree_node, !Calloc item} (slot_addr : slotref → Z).

Lemma benchmark_iter_spec st m :
  represents (tree st) m → ∃ sink, benchmark_iter slot_addr 1 st = Ok (sink, st).
Proof.
  intros Hrep. destruct (proj1 (wp_returns _ _ _) (for_each_map (tree st) m 0 Hrep ltac:(lia)))
    as (l & t & Hrun & -> & _).
  unfold radix_tree_for_each_slot, mbind, M_bind, gets in Hrun.
  destruct (for_each_loop_pure (λ s sink, Z.lxor sink (slot_addr s)) _ _ _ _ 0 _ _ _ Hrun) as [y Hy].
  exists y. unfold benchmark_iter, mbind, M_bind, on_tree, radix_tree_for_each_slot, gets. cbn -[for_each_loop for_each_fuel].
  unfold mbind, M_bind. rewrite Hy. by destruct st.
Qed.

(** ** Killing an empty tree *)

Lemma item_kill_empty st : rnode (root (tree st)) = 0 → item_kill_tree slot_addr st = Ok ((), st).
Proof.
  intros Hr. assert (wp (item_kill_tree slot_addr) (λ _ st', st' = st) st) as Hwp.
  { unfold item_kill_tree. rewrite wp_bind, wp_gets, wp_bind. destruct (for_each_fuel (tree st)) as [|n] eqn:Hf.
    { unfold for_each_fuel in Hf. lia. }
    cbn [kill_loop]. rewrite wp_bind, wp_on_tree. unfold radix_tree_next_chunk.
    change (truthy (Z.land 0 RADIX_TREE_ITER_TAGGED)) with false. cbn [radix_tree_iter_init next_index index].
    change ((0 =? 0) && truthy 0) with false. rewrite wp_bind, wp_gets. unfold restart_fuel. cbn [next_chunk_loop].
    rewrite wp_bind, load_root_leaf by (by rewrite Hr). rewrite Hr. change (0 <? 0) with false. rewrite truthy_0.
    cbn [negb]. rewrite !wp_ret. unfold radix_tree_empty. rewrite wp_bind, wp_on_tree, wp_bind, wp_get_rnode, wp_ret.
    cbn [tree]. rewrite Hr. apply wp_assert; [done|]. by destruct st. }
  by apply wp_returns in Hwp as ([] & ? & ? & ->).
Qed.
End runs.

(** ** A new tree *)

(** The state between two runs: nothing is left of the last one. *)
Definition cleared (st : istate) : Prop := no_tree (tree st) ∧ items st = ∅.

Section size.
Context `{!Calloc radix_tree_node, !Calloc item} (slot_addr : slotref → Z).

Lemma fresh_owned st :
  fresh_tree (tree st) → items st = ∅ → ∃ r, owned st ∅ {[r := 0]}.
Proof.
  intros (r & Hr & Hroot & Hh & Hrcu) Hit. exists r.
  set (st0 := TState (Root 0 0) ∅ [] 0%nat 0).
  assert (inv st0 ∅) as Hinv0.
  { split; cbn; [by intros ??|by apply root_null|by intros ? ?%elem_of_nil|constructor|].
    intros x [? Hx]. by rewrite lookup_empty in Hx. }
  destruct (link_root st0 (tree st) r 0 0) as [Hinv Hc]; try done.
  split; [done| |].
  - intros idx v. rewrite Hc, lookup_empty. split; [done|].
    intros [_ [? _] Hr0|x b n i Hb]; [cbn in Hr0; lia|]. by rewrite lookup_empty in Hb.
  - rewrite Hit. split; intros ? ?; by rewrite lookup_empty.
Qed.

(** The first [j] multiples are in the tree; the verbosity is [v]. *)
Record filled (v step : Z) (j : nat) (st : istate) (m B : gmap Z Z) : Prop := {
  fi_owned : owned st m B;
  fi_keys : multiples m step 0 (Z.of_nat j * step);
  fi_nodes : B ≠ ∅;
  fi_first : j = 0%nat → fresh_tree (tree st);
  fi_full : j ≠ 0%nat → full (tree st) B 0;
  fi_items : size (items st) = j;
  fi_heap : (size (heap (tree st)) ≤ 1 + 24 * j)%nat;
  fi_verbose : verbose st = v
}.

(** ** Filling the tree *)

Lemma serves_alloc {V} `{!Calloc V} N t (h : gmap Z V) : serves (V := V) N → (size h < N)%nat → calloc t h ≠ None.
Proof. intros Hs Hh. by apply Hs. Qed.

Lemma subset_nonempty (B B' : gmap Z Z) : B ≠ ∅ → B ⊆ B' → B' ≠ ∅.
Proof.
  intros HB Hs ->. apply HB, map_eq. intros a. rewrite lookup_empty. destruct (B !! a) eqn:Ha; [|done].
  eapply lookup_weaken in Ha; [|done]. by rewrite lookup_empty in Ha.
Qed.

Context (N : nat) (Hnodes : serves (V := radix_tree_node) N) (Hitems : serves (V := item) N).

(** What the tree's part of the insertion of a multiple adds. *)
Lemma insert_room v step j st m B a :
  filled v step j st m B → aligned a → 0 ≤ Z.of_nat j * step < 2 ^ 64 →
  wp (radix_tree_insert (Z.of_nat j * step) a)
    (λ e t, node_room 24 (tree st) t ∧ (j = 0%nat → ∀ x n, heap t !! x = Some n → count n ≠ 0)) (tree st).
Proof.
  intros [How _ HB Hfresh _ _ _ _] Ha Hi. apply wp_and.
  - eapply wp_mono; [apply (wp_within (R := node_room) 24); [apply _|]|by intros ? ? [_ ?]].
    apply (insert_spec _ B); [apply How|done| |by apply aligned_item].
    by eapply nodes_growable; [apply How|].
  - destruct j as [|j].
    + eapply wp_mono; [apply (first_insert _ a); [by apply Hfresh|done]|]. by intros e t [_ ?].
    + eapply wp_mono; [apply (insert_spec _ B); [apply How|done| |by apply aligned_item]|done].
      by eapply nodes_growable; [apply How|].
Qed.

Lemma insert_step v step j st m B :
  0 < step → Z.of_nat j * step < 2 ^ 64 → (24 * j + 25 < N)%nat → filled v step j st m B →
  wp (item_insert (Z.of_nat j * step)) (λ _ st', ∃ m' B', filled v step (S j) st' m' B') st.
Proof.
  intros Hs Hmax HN Hfi. pose proof Hfi as [How Hkeys HB Hfresh Hfull Hsz Hheap Hverb].
  assert (0 ≤ Z.of_nat j * step) by lia.
  eapply wp_mono.
  { apply (item_insert_wp (λ e t, node_room 24 (tree st) t ∧ (j = 0%nat → ∀ x n, heap t !! x = Some n → count n ≠ 0))
      st m B); [intros a Ha; by eapply insert_room|done|done|by eapply nodes_growable; [apply How|]|].
    by apply (serves_alloc N); [|lia]. }
  intros e st' [[[Hroom Hv'] Hfirst] (B' & HBs & Hf & Hins)].
  destruct Hins as [a Hno Hfresha Hits How'|[w Hw] _ _|_ (t & _ & Hfail) _ _].
  - exists (<[Z.of_nat j * step := a]> m), B'. split.
    + done.
    + by apply multiples_insert.
    + by eapply subset_nonempty.
    + done.
    + intros _. destruct j as [|j]; [|by apply Hf; [|apply Hfull]].
      intros x b n _ Hn Hz. by destruct (Hfirst eq_refl x n Hn).
    + rewrite Hits, map_size_insert_None by done. lia.
    + lia.
    + cbn [verbose istate_verbose] in *. congruence.
  - assert (is_Some (m !! (Z.of_nat j * step))) as Hk by (by eexists). apply Hkeys in Hk. lia.
  - destruct (serves_alloc N t (heap (tree st')) Hnodes); [lia|done].
Qed.

Lemma benchmark_insert_spec v sz step st m B :
  0 < step → 0 ≤ sz → sz + step ≤ 2 ^ 64 → (24 * turns sz step + 1 < N)%nat → filled v step 0 st m B →
  wp (benchmark_insert sz step) (λ _ st', ∃ m' B', filled v step (turns sz step) st' m' B') st.
Proof.
  intros Hs Hsz Hmax HN Hfi. unfold benchmark_insert.
  apply (for_up_rule (λ j st, ∃ m B, filled v step j st m B)); [done|done|done|by exists m, B|].
  intros j st1 Hj (m1 & B1 & Hfi1). rewrite wp_bind.
  assert (Z.of_nat j * step < sz) by (by apply turns_lt).
  eapply wp_mono; [apply (insert_step v step j st1 m1 B1); [done|lia|lia|done]|].
  intros e st2 Hfi2. by rewrite wp_ret.
Qed.

(** ** Emptying it *)

Lemma benchmark_delete_spec sz step st m B :
  0 < step → 0 ≤ sz → sz + step ≤ 2 ^ 64 → owned st m B → full (tree st) B 0 →
  multiples m step 0 (Z.of_nat (turns sz step) * step) → verbose st < 3 →
  wp (benchmark_delete sz step) (λ _ st', ∃ B', owned st' ∅ B' ∧ full (tree st') B' 0 ∧ verbose st' = verbose st) st.
Proof.
  intros Hs Hsz Hmax How Hf Hkeys Hv. unfold benchmark_delete. set (hi := Z.of_nat (turns sz step) * step) in *.
  eapply wp_mono.
  { apply (for_up_rule (λ j st', ∃ m B, owned st' m B ∧ full (tree st') B 0 ∧ multiples m step (Z.of_nat j * step) hi ∧
      verbose st' = verbose st));
      [done|done|done|by exists m, B|].
    intros j st1 Hj (m1 & B1 & How1 & Hf1 & Hk1 & Hv1). assert (Z.of_nat j * step < sz) by (by apply turns_lt).
    assert (is_Some (m1 !! (Z.of_nat j * step))) as [a Ha].
    { apply Hk1. split; [split; [lia|]|apply Z.divide_factor_r]. unfold hi. nia. }
    rewrite wp_bind. eapply wp_mono; [apply (item_delete_spec st1 m1 B1 _ a How1); [lia|done|lia]|].
    intros e st2 (_ & _ & [_ Hv2] & B2 & How2 & Hf2). rewrite wp_ret. exists (delete (Z.of_nat j * step) m1), B2.
    split; [done|]. split; [auto|]. split; [by apply multiples_delete|]. cbn [verbose istate_verbose] in *. congruence. }
  intros [] st' (m' & B' & How' & Hf' & Hk' & Hv'). apply multiples_nil in Hk' as ->. by exists B'.
Qed.

(** ** A whole run *)

Lemma owned_no_items st B : owned st ∅ B → items st = ∅.
Proof.
  intros [_ _ [_ Hi]]. apply map_eq. intros a. rewrite lookup_empty. destruct (items st !! a) as [it|] eqn:Ha; [|done].
  apply Hi in Ha. by rewrite lookup_empty in Ha.
Qed.

Lemma benchmark_size_spec sz step st :
  0 < step → 0 < sz → sz + step ≤ 2 ^ 64 → (24 * turns sz step + 1 < N)%nat → cleared st → verbose st < 3 →
  wp (benchmark_size slot_addr true sz step)
    (λ _ st', cleared st' ∧ rnode (root (tree st')) = 0 ∧ verbose st' = verbose st) st.
Proof.
  intros Hs Hsz Hmax HN [Hno Hit] Hv. unfold benchmark_size. rewrite wp_bind, wp_on_tree. eapply wp_mono.
  { apply root_alloc_fresh; [done|]. destruct Hno as [-> _]. apply (serves_alloc N); [done|]. rewrite map_size_empty. lia. }
  intros ok t (-> & Hfresh & Hvt). set (st1 := IState t _ _).
  destruct (fresh_owned st1 Hfresh Hit) as [r How]. rewrite wp_bind. eapply wp_mono.
  { apply (benchmark_insert_spec (verbose st) sz step st1 ∅ {[r := 0]}); [done|lia|done|done|]. split; [done|apply multiples_empty|apply insert_non_empty|done|done|..].
    - cbn. by rewrite Hit, map_size_empty.
    - destruct Hfresh as (? & _ & _ & Hh & _). cbn. by rewrite Hh, map_size_singleton.
    - exact Hvt. }
  intros [] st2 (m & B & [How2 Hk2 _ _ Hf2 _ _ Hv2]).
  assert (turns sz step ≠ 0%nat) as Hturns.
  { assert (0 < turns sz step)%nat by (apply turns_lt; lia). lia. }
  destruct (benchmark_iter_spec slot_addr st2 m) as [sink Hiter]; [exists B; split; apply How2|].
  rewrite wp_bind. unfold wp at 1. rewrite Hiter.
  rewrite wp_bind. eapply wp_mono; [apply (benchmark_delete_spec sz step st2 m B); try done; [lia|by apply Hf2|lia]|].
  intros [] st3 (B3 & How3 & Hf3 & Hv3). pose proof How3 as [Hinv3 Hm3 _].
  assert (tight (tree st3) ∅) as Ht by (by exists B3). pose proof (tight_empty _ Ht) as [Hr3 _].
  rewrite wp_bind. unfold wp at 1. rewrite (item_kill_empty slot_addr st3 Hr3), wp_on_tree.
  eapply wp_mono; [by apply barrier_empty|]. intros [] t4 (Hh & Hrcu & Hroot & Hv4). cbn.
  split; [|split; [by rewrite Hroot|cbn in *; congruence]]. split; [done|]. cbn. by eapply owned_no_items.
Qed.
End size.

(** ** All the runs *)

Lemma benchmark_spec `{!Calloc radix_tree_node, !Calloc item} slot_addr N st :
  serves (V := radix_tree_node) N → serves (V := item) N → 2 ^ 25 ≤ Z.of_nat N → cleared st → verbose st < 3 →
  wp (benchmark slot_addr true) (λ _ st', cleared st' ∧ verbose st' = verbose st) st.
Proof.
  intros Hn Hi HN Hst Hv. unfold benchmark.
  apply (for_nonzero_spec (λ st', cleared st' ∧ verbose st' = verbose st));
    [apply (bool_decide_unpack _); by vm_compute| |done].
  intros sz st1 Hsz Hsz0 Hst1.
  apply (for_nonzero_spec (λ st', cleared st' ∧ verbose st' = verbose st)); [apply (bool_decide_unpack _); by vm_compute| |done].
  intros step st2 Hstep Hstep0 [Hst2 Hv2].
  assert (0 < sz ≤ 2 ^ 20) as Hszr.
  { assert (Forall (λ x, 0 ≤ x ≤ 2 ^ 20) benchmark_sizes) as Hall by (repeat constructor; by vm_compute).
    rewrite list.Forall_forall in Hall. specialize (Hall sz Hsz). lia. }
  assert (0 < step ≤ 12345) as Hstepr.
  { assert (Forall (λ x, 0 ≤ x ≤ 12345) benchmark_steps) as Hall by (repeat constructor; by vm_compute).
    rewrite list.Forall_forall in Hall. specialize (Hall step Hstep). lia. }
  pose proof (turns_le sz step). eapply wp_mono.
  { apply (benchmark_size_spec slot_addr N Hn Hi sz step st2); [lia|lia|lia|lia|done|lia]. }
  intros [] st' (? & _ & ?). split; [done|congruence].
Qed.
