(* ===== verification/ItemClient.v ===== *)
(** * The items as their clients see them

    Sequences of insertions, deletions and checks against a set of indices. *)
From S2P Require Import Prelude RadixDefs RadixInv RadixInsert RadixDelete RadixRoom RadixClient RadixFull ItemDefs ItemOps.

Inductive iop := IInsert (k : Z) | IDelete (k : Z) | IPresent (k : Z) | IAbsent (k : Z).

Definition iop_index (o : iop) : Z := match o with IInsert k | IDelete k | IPresent k | IAbsent k => k end.

Inductive set_step : gset Z → iop → Z → gset Z → Prop :=
| ss_insert s k : k ∉ s → set_step s (IInsert k) 0 ({[k]} ∪ s)
| ss_exists s k : k ∈ s → set_step s (IInsert k) (- EEXIST) s
| ss_delete s k : k ∈ s → set_step s (IDelete k) 1 (s ∖ {[k]})
| ss_present s k : k ∈ s → set_step s (IPresent k) 0 s
| ss_absent s k : k ∉ s → set_step s (IAbsent k) 0 s.

(** A set has one answer. *)
Definition set_after (s : gset Z) (o : iop) : gset Z :=
  match o with IInsert k => {[k]} ∪ s | IDelete k => s ∖ {[k]} | IPresent _ | IAbsent _ => s end.

Lemma set_step_after s o a s' : set_step s o a s' → s' = set_after s o.
Proof. destruct 1; cbn; [done|set_solver|done..]. Qed.

Inductive set_steps : gset Z → list iop → list Z → gset Z → Prop :=
| sss_nil s : set_steps s [] [] s
| sss_cons s o a s1 os l s2 : set_step s o a s1 → set_steps s1 os l s2 → set_steps s (o :: os) (a :: l) s2.

(** What may be asked of the set: a deletion or a check that holds, and an
    insertion above an entry that is not alone at index 0. *)
Definition iop_legal (s : gset Z) (o : iop) : Prop :=
  0 ≤ iop_index o < 2 ^ 64 ∧
  match o with
  | IInsert k => k = 0 ∨ 0 ∉ s ∨ ∃ k', k' ≠ 0 ∧ k' ∈ s
  | IDelete k | IPresent k => k ∈ s
  | IAbsent k => k ∉ s
  end.

Fixpoint iops_legal (s : gset Z) (os : list iop) : Prop :=
  match os with
  | [] => True
  | o :: os => iop_legal s o ∧ iops_legal (set_after s o) os
  end.

(** The set's indices are in the tree, each with an item of its own, and there
    are no other items; the messages of verbosity 3 are off. *)
Definition holds_set (st : istate) (s : gset Z) : Prop :=
  ∃ m B, owned st m B ∧ dom m = s ∧ verbose st < 3.

Lemma holds_set_items st s k :
  holds_set st s → 0 ≤ k < 2 ^ 64 →
  size (items st) = size s ∧
  (k ∈ s → ∃ a, a ≠ 0 ∧ item_lookup k st = Ok (a, st) ∧ items st !! a = Some (Item k 0)) ∧
  (k ∉ s → item_lookup k st = Ok (0, st)).
Proof.
  intros (m & B & How & <- & _) Hk. pose proof (ow_items _ _ _ How) as [Hm Hi].
  pose proof (item_lookup_spec st m B k How Hk) as Hl. split; [|split].
  - assert (items st = list_to_map ((λ ka, (ka.2, Item ka.1 0)) <$> map_to_list m)) as ->.
    { apply map_eq. intros a. apply option_eq. intros it. rewrite <- elem_of_list_to_map.
      - rewrite list_elem_of_fmap. split.
        + intros Ha. exists (item_index it, a). pose proof (Hi _ _ Ha) as Hk'.
          split; [|by apply elem_of_map_to_list]. cbn. f_equal. apply Hm in Hk'. congruence.
        + intros ([k' a'] & [= -> ->] & Hin%elem_of_map_to_list). by apply Hm.
      - rewrite <- list_fmap_compose. apply (NoDup_fmap_2_strong _); [|apply NoDup_map_to_list].
        intros [k1 a1] [k2 a2] H1%elem_of_map_to_list H2%elem_of_map_to_list. cbn. intros ->.
        f_equal. apply Hm in H1, H2. congruence. }
    rewrite map_size_list_to_map.
    + by rewrite length_fmap, length_map_to_list, size_dom.
    + rewrite <- list_fmap_compose. apply (NoDup_fmap_2_strong _); [|apply NoDup_map_to_list].
      intros [k1 a1] [k2 a2] H1%elem_of_map_to_list H2%elem_of_map_to_list. cbn. intros ->.
      f_equal. apply Hm in H1, H2. congruence.
  - intros [a Ha]%elem_of_dom. rewrite Ha in Hl. exists a. destruct (owned_item st m B k a How Ha).
    split; [lia|]. split; [done|]. by apply Hm.
  - intros Hno%not_elem_of_dom. by rewrite Hno in Hl.
Qed.

Section ops.
Context `{!Calloc radix_tree_node, !Calloc item}.

Definition run_iop (o : iop) : I Z :=
  match o with
  | IInsert k => item_insert k
  | IDelete k => item_delete k
  | IPresent k => item_check_present k;; mret 0
  | IAbsent k => item_check_absent k;; mret 0
  end.

Fixpoint run_iops (os : list iop) : I (list Z) :=
  match os with
  | [] => mret []
  | o :: os => a ← run_iop o; l ← run_iops os; mret (a :: l)
  end.

(** How many objects the operations may take. *)
Definition enough (N : nat) (st : istate) (n : nat) : Prop :=
  (size (items st) + n ≤ N)%nat ∧ (size (heap (tree st)) + 25 * n ≤ N)%nat.

Context (N : nat) (Hnodes : serves (V := radix_tree_node) N) (Hitems : serves (V := item) N).

Lemma run_iop_spec st s o n :
  enough N st (S n) → holds_set st s → iop_legal s o →
  wp (run_iop o) (λ a st', ∃ s', set_step s o a s' ∧ holds_set st' s' ∧ enough N st' n) st.
Proof.
  intros [HNi HNn] (m & B & How & <- & Hverb) [Hk Hl]. pose proof How as [Hinv Hm Hbij]. unfold enough.
  destruct o as [k|k|k|k]; cbn [run_iop iop_index] in *.
  - assert (growable (tree st) k) as Hg.
    { apply (represents_growable _ m); [by exists B|]. destruct Hl as [?|[Hl|(k' & ? & [v Hv]%elem_of_dom)]];
        [by left|right; left; by apply not_elem_of_dom|right; right; eauto]. }
    eapply wp_mono; [apply (item_insert_spec st m B); try done; apply Hitems; lia|].
    intros e st' ([Hroom Hv'] & B' & _ & _ & Hins). cbn [verbose istate_verbose] in *.
    destruct Hins as [a Hno Hf Hit How'|Hin Hit How'|_ (t & _ & Hfail) _ _].
    + exists ({[k]} ∪ dom m). split; [constructor; by apply not_elem_of_dom|]. split.
      * exists (<[k := a]> m), B'. split; [done|]. split; [apply dom_insert_L|cbn in *; lia].
      * rewrite Hit, map_size_insert_None by done. lia.
    + exists (dom m). split; [constructor; by apply elem_of_dom|]. split; [exists m, B'; split; [done|]; split; [done|cbn in *; lia]|]. rewrite Hit. lia.
    + by destruct (Hnodes t (heap (tree st'))); [lia|].
  - pose proof Hl as [a Ha]%elem_of_dom.
    eapply wp_mono; [by apply (item_delete_spec st m B k a)|].
    intros r st' (-> & Hit & [Hroom Hv'] & B' & How' & _).
    exists (dom m ∖ {[k]}). split; [by constructor|]. split.
    + exists (delete k m), B'. split; [done|]. split; [apply dom_delete_L|cbn in *; lia].
    + rewrite Hit. destruct Hbij as [Hb _]. rewrite map_size_delete_Some by (eexists; by apply Hb). lia.
  - rewrite wp_bind. unfold wp at 1. rewrite (item_check_present_spec st m B) by done.
    rewrite decide_True by (by apply elem_of_dom). rewrite wp_ret. exists (dom m).
    split; [by constructor|]. split; [by exists m, B|lia].
  - rewrite wp_bind. unfold wp at 1. rewrite (item_check_absent_spec st m B) by done.
    rewrite decide_False by (by rewrite <- elem_of_dom). rewrite wp_ret. exists (dom m).
    split; [by constructor|]. split; [by exists m, B|lia].
Qed.

Lemma run_iops_spec st s os :
  enough N st (length os) → holds_set st s → iops_legal s os →
  wp (run_iops os) (λ l st', ∃ s', set_steps s os l s' ∧ holds_set st' s') st.
Proof.
  revert st s. induction os as [|o os IH]; intros st s HN Hst Hlegal; cbn [run_iops length] in *.
  { rewrite wp_ret. exists s. split; [constructor|done]. }
  destruct Hlegal as [Ho Hos]. rewrite wp_bind.
  eapply wp_mono; [by eapply run_iop_spec|]. intros a st1 (s1 & Hstep & Hst1 & HN1).
  rewrite wp_bind. eapply wp_mono; [apply (IH st1 s1); [done|done|by apply set_step_after in Hstep as ->]|].
  intros l st2 (s2 & Hsteps & Hst2). rewrite wp_ret. exists s2. split; [by econstructor|done].
Qed.
End ops.
