(* ===== verification/ItemProps.v ===== *)
(** * The items: the properties

    The theorems about radix_tree/test.c and radix_tree/benchmark.c, and the
    runs whose assertions fail. *)
From S2P Require Import Prelude Loops RadixDefs RadixInv RadixInsert RadixClient RadixFull ItemDefs ItemOps ItemRuns ItemClient.

(** ** Examples *)

#[local] Existing Instance bump.

Definition istart : istate := IState (TState (Root 0 0) ∅ [] 0%nat 0) ∅ 0%nat.

(** A layout: the slots behind 40 bytes of fields. *)
Definition slot_layout (s : slotref) : Z := match s with SlotRoot => 8 | SlotNode a i => a + 40 + 8 * i end.

Lemma istart_cleared : cleared istart.
Proof. by split. Qed.

Definition fresh_state : istate := exec (on_tree (radix_tree_root_alloc true)) istart.

Lemma fresh_holds : holds_set fresh_state ∅.
Proof.
  assert (fresh_tree (tree fresh_state)) as Hf.
  { assert (wp (radix_tree_root_alloc true) (λ ok st', ok = true ∧ fresh_tree st') (tree istart)) as Hwp
      by (eapply wp_mono; [by apply root_alloc_fresh|]; by intros ok t (? & ? & _)).
    by destruct (wp_exec _ _ (tree istart) true Hwp ltac:(by vm_compute)) as [_ ?]. }
  destruct (fresh_owned fresh_state Hf) as [r How]; [by vm_compute|]. exists ∅, {[r := 0]}. split; [done|].
  split; [apply dom_empty_L|by vm_compute].
Qed.

(** ** Ownership *)

(** C5: while the messages of verbosity 3 are off, the tree and the items' heap stay in step: with memory for them, a legal
    sequence of insertions, deletions and checks runs to its end, answers as a
    finite set of indices does, and leaves each index of the set with an item
    of its own that carries it and no other item in the heap. *)
Theorem item_ops_refine_set `{!Calloc radix_tree_node, !Calloc item} (N : nat) (st : istate) (s : gset Z)
    (os : list iop) :
  serves (V := radix_tree_node) N → serves (V := item) N → enough N st (length os) →
  holds_set st s → iops_legal s os →
  wp (run_iops os) (λ answers st', ∃ s',
    set_steps s os answers s' ∧ holds_set st' s' ∧ size (items st') = size s' ∧
    ∀ k, k ∈ s' → 0 ≤ k < 2 ^ 64 →
      ∃ a, a ≠ 0 ∧ item_lookup k st' = Ok (a, st') ∧ items st' !! a = Some (Item k 0)) st.
Proof.
  intros Hn Hi HN Hst Hlegal. eapply wp_mono; [by eapply run_iops_spec|]. intros l st' (s' & Hsteps & Hst').
  exists s'. split; [done|]. split; [done|].
  split; [apply (holds_set_items st' s' 0); [done|lia]|]. intros k Hk Hr.
  by destruct (holds_set_items st' s' k Hst' Hr) as (_ & Hin & _); apply Hin.
Qed.

Definition demo_iops : list iop :=
  [IInsert 3; IInsert 70; IInsert 3; IPresent 70; IAbsent 4; IDelete 3; IInsert (2 ^ 63)].

Lemma demo_iops_legal : iops_legal ∅ demo_iops.
Proof.
  cbn [iops_legal demo_iops set_after]. unfold iop_legal. cbn [iop_index].
  repeat match goal with |- _ ∧ _ => split | |- True => done | |- 0 ≤ _ < _ => lia end; try set_solver by lia.
  all: right; left; set_solver by lia.
Qed.

Lemma item_ops_refine_set_witness :
  wp (run_iops (Calloc0 := first_fit) (Calloc1 := first_fit) demo_iops) (λ answers st', ∃ s',
    set_steps ∅ demo_iops answers s' ∧ holds_set st' s' ∧ size (items st') = size s' ∧
    ∀ k, k ∈ s' → 0 ≤ k < 2 ^ 64 →
      ∃ a, a ≠ 0 ∧ item_lookup k st' = Ok (a, st') ∧ items st' !! a = Some (Item k 0)) fresh_state ∧
  (λ r, match r with Ok (l, st') => Some (l, size (items st')) | _ => None end)
    (run_iops (Calloc0 := first_fit) (Calloc1 := first_fit) demo_iops fresh_state) =
    Some ([0; 0; - EEXIST; 0; 0; 1; 0], 2%nat).
Proof.
  split; [|by vm_compute].
  apply (item_ops_refine_set (Calloc0 := first_fit) (Calloc1 := first_fit) 200 fresh_state ∅ demo_iops
    (first_fit_memory 200 ltac:(lia)) (first_fit_memory 200 ltac:(lia))).
  - split; apply Nat.leb_le; by vm_compute.
  - exact fresh_holds.
  - exact demo_iops_legal.
Defined.

(** Every outcome of [item_insert]: the item is in the tree, or it is freed
    because the index is taken or libc refused a node; without an item it
    faults. *)
Theorem item_insert_outcomes `{!Calloc radix_tree_node, !Calloc item} (st : istate) (m B : gmap Z Z) (idx : Z) :
  owned st m B → 0 ≤ idx < 2 ^ 64 → growable (tree st) idx →
  if decide (calloc (mticks st) (items st) = None) then item_insert idx st = Fault
  else wp (item_insert idx) (λ e st', ∃ B', inserted st m B idx st' B' e) st.
Proof.
  intros How Hi Hg. case_decide as Hmem; [by apply item_insert_no_memory|].
  eapply wp_mono; [by apply (item_insert_spec st m B)|]. intros e st' (_ & B' & _ & _ & ?). by exists B'.
Qed.

(** ** The benchmark *)

(** With memory for 24 nodes and an item per turn, a run of the benchmark
    inserts the multiples of its step below its size, loops over them, deletes
    them and returns: no assertion fails, every item and every node it took is
    freed, and the root is NULL. *)
Theorem benchmark_size_gives_back `{!Calloc radix_tree_node, !Calloc item} (slot_addr : slotref → Z)
    (N : nat) (sz step : Z) (st : istate) :
  serves (V := radix_tree_node) N → serves (V := item) N → (24 * turns sz step + 1 < N)%nat →
  0 < step → 0 < sz → sz + step ≤ 2 ^ 64 → cleared st → verbose st < 3 →
  ∃ st', benchmark_size slot_addr true sz step st = Ok ((), st') ∧ cleared st' ∧ rnode (root (tree st')) = 0.
Proof.
  intros Hn Hi HN Hs Hsz Hmax Hst Hv.
  destruct (proj1 (wp_returns _ _ _) (benchmark_size_spec slot_addr N Hn Hi sz step st Hs Hsz Hmax HN Hst Hv))
    as ([] & st' & ? & ? & ? & _). eauto.
Qed.

Lemma benchmark_size_gives_back_witness :
  (∃ st', benchmark_size (Calloc0 := first_fit) (Calloc1 := first_fit) slot_layout true (2 ^ 20) 7 istart = Ok ((), st') ∧
     cleared st' ∧ rnode (root (tree st')) = 0) ∧
  (λ r, match r with Ok (_, st') => Some (size (heap (tree st')), size (items st'), ticks (tree st'), mticks st') | _ => None end)
    (benchmark_size slot_layout true 130 7 istart) = Some (0%nat, 0%nat, 3%nat, 19%nat).
Proof.
  split; [|by vm_compute].
  assert (0 < 7) as H7 by lia. assert (0 ≤ 2 ^ 20) as H20 by lia.
  pose proof (turns_le (2 ^ 20) 7 H7 H20) as Ht.
  apply (benchmark_size_gives_back (Calloc0 := first_fit) (Calloc1 := first_fit) slot_layout (Z.to_nat (2 ^ 25)) (2 ^ 20) 7 istart).
  - apply first_fit_memory. rewrite Z2Nat.id; lia.
  - apply first_fit_memory. rewrite Z2Nat.id; lia.
  - lia.
  - lia.
  - lia.
  - lia.
  - exact istart_cleared.
  - done.
Defined.

(** All the runs of [benchmark], of up to 2^20 items each. *)
Theorem benchmark_gives_back `{!Calloc radix_tree_node, !Calloc item} (slot_addr : slotref → Z) (N : nat) (st : istate) :
  serves (V := radix_tree_node) N → serves (V := item) N → 2 ^ 25 ≤ Z.of_nat N → cleared st → verbose st < 3 →
  ∃ st', benchmark slot_addr true st = Ok ((), st') ∧ cleared st'.
Proof.
  intros Hn Hi HN Hst Hv.
  destruct (proj1 (wp_returns _ _ _) (benchmark_spec slot_addr N st Hn Hi HN Hst Hv)) as ([] & st' & ? & ? & _). eauto.
Qed.

(** What nothing calls: the words 2, 6 and 65 as items, the first two with the
    tag of a node. *)
Example my_benchmark_prints :
  (λ r, match r with Ok (l, _) => Some l | _ => None end) (my_benchmark true istart) =
  Some [Shows 2 (Some 2); Shows 65 (Some 65); Succeed 6; Shows 6 None; Succeed 65; Shows 65 None].
Proof. by vm_compute. Qed.

(** ** Assertions that fail *)

(** [item_kill_tree] stores NULL through slots without their node: the nodes
    stay, and its last assertion fails on every tree of a few items, on a new
    tree, and on one whose only index was beyond the first node. *)
Example item_kill_tree_asserts :
  (on_tree (radix_tree_root_alloc true);; _ ← item_insert 3; _ ← item_insert 70; item_kill_tree slot_layout) istart = Fault ∧
  (on_tree (radix_tree_root_alloc true);; item_kill_tree slot_layout) istart = Fault ∧
  (on_tree (radix_tree_root_alloc true);; _ ← item_insert 70; _ ← item_delete 70; item_kill_tree slot_layout) istart = Fault ∧
  benchmark_size slot_layout true 0 1 istart = Fault.
Proof. by vm_compute. Qed.
