(* ===== verification/HotringDefs.v ===== *)
(** * The hot ring of hotring/hotring.c: data and operations

    A bucket of the table points to a head object, whose word holds the address
    of the ring's hot node in its low 48 bits and an access counter above it.
    The nodes of a ring are linked by words of the same kind. *)
From Stdlib Require Import SpecFloat.
From S2P Require Import Prelude.

(** ** Packed words (hotring/list.h, hotring/hotring.h)

    The bit-fields of [struct list_head] and [struct head] in the word the
    union shares with a pointer, lowest bits first: 48 bits of address, then
    14 bits of counter for a node and 15 bits of counter and the active bit
    for a head. *)

Definition field (lo w x : Z) : Z := Z.land (Z.shiftr x lo) (Z.ones w).

Definition set_field (lo w x v : Z) : Z :=
  Z.lor (Z.ldiff x (Z.shiftl (Z.ones w) lo)) (Z.shiftl (Z.land v (Z.ones w)) lo).

Definition addr (x : Z) : Z := field 0 48 x.
Definition set_addr (x a : Z) : Z := set_field 0 48 x a.
Definition counter (x : Z) : Z := field 48 14 x.
Definition set_counter (x c : Z) : Z := set_field 48 14 x c.
Definition head_counter (x : Z) : Z := field 48 15 x.
Definition set_head_counter (x c : Z) : Z := set_field 48 15 x c.
Definition set_active (x b : Z) : Z := set_field 63 1 x b.

(** ** Objects *)

(** A node; [word] is its embedded [struct list_head], at offset 0. *)
Record hash_node := HNode { word : Z; tag : Z; key : Z; value : Z }.

Record hash := Hash { hash_n : Z; hash_k : Z; hash_size : Z; hash_slots : Z }.

Inductive obj :=
| ONode (nd : hash_node)
| OHead (w : Z)
| OHash (h : hash)
| OSlots (l : list Z).

(** The memory, the globals of hotring.c, and the number of allocations. *)
Record hstate := HState {
  mem : gmap Z obj;
  nr_request : Z;
  cur_hash : Z;
  test_verbose : Z;
  hticks : nat
}.

#[export] Program Instance hstate_verbose : Verbose hstate := {|
  verbose := test_verbose;
  set_verbose v st := HState (mem st) (nr_request st) (cur_hash st) v (hticks st)
|}.
Solve Obligations with done.
Next Obligation. by destruct s. Qed.

Abbreviation H := (M hstate).

Definition set_mem (m : gmap Z obj) (st : hstate) : hstate :=
  HState m (nr_request st) (cur_hash st) (test_verbose st) (hticks st).
Definition set_nr_request (r : Z) (st : hstate) : hstate :=
  HState (mem st) r (cur_hash st) (test_verbose st) (hticks st).
Definition set_cur_hash (h : Z) (st : hstate) : hstate :=
  HState (mem st) (nr_request st) h (test_verbose st) (hticks st).

Definition with_word (w : Z) (nd : hash_node) : hash_node := HNode w (tag nd) (key nd) (value nd).
Definition with_tag (t : Z) (nd : hash_node) : hash_node := HNode (word nd) t (key nd) (value nd).
Definition with_key (x : Z) (nd : hash_node) : hash_node := HNode (word nd) (tag nd) x (value nd).
Definition with_value (v : Z) (nd : hash_node) : hash_node := HNode (word nd) (tag nd) (key nd) v.

(** ** Memory access: a fault unless an object of the kind lives there *)

Definition load_node (a : Z) : H hash_node := λ st,
  match mem st !! a with Some (ONode nd) => Ok (nd, st) | _ => Fault end.

Definition store_node (a : Z) (f : hash_node → hash_node) : H () := λ st,
  match mem st !! a with
  | Some (ONode nd) => Ok ((), set_mem (<[a := ONode (f nd)]> (mem st)) st)
  | _ => Fault
  end.

Definition load_head (a : Z) : H Z := λ st,
  match mem st !! a with Some (OHead w) => Ok (w, st) | _ => Fault end.

Definition store_head (a : Z) (f : Z → Z) : H () := λ st,
  match mem st !! a with
  | Some (OHead w) => Ok ((), set_mem (<[a := OHead (f w)]> (mem st)) st)
  | _ => Fault
  end.

Definition load_hash (a : Z) : H hash := λ st,
  match mem st !! a with Some (OHash h) => Ok (h, st) | _ => Fault end.

(** [h->slots[i]] *)
Definition load_slot (h i : Z) : H Z := λ st,
  match mem st !! h with
  | Some (OHash t) =>
      match mem st !! hash_slots t with
      | Some (OSlots l) =>
          if 0 <=? i then match l !! Z.to_nat i with Some x => Ok (x, st) | None => Fault end
          else Fault
      | _ => Fault
      end
  | _ => Fault
  end.

Definition store_slot (h i x : Z) : H () := λ st,
  match mem st !! h with
  | Some (OHash t) =>
      match mem st !! hash_slots t with
      | Some (OSlots l) =>
          if 0 <=? i then
            match l !! Z.to_nat i with
            | Some _ => Ok ((), set_mem (<[hash_slots t := OSlots (<[Z.to_nat i := x]> l)]> (mem st)) st)
            | None => Fault
            end
          else Fault
      | _ => Fault
      end
  | _ => Fault
  end.

(** [free]: NULL is ignored, anything but an allocated object is a fault. *)
Definition free (a : Z) : H () := λ st,
  if a =? 0 then Ok ((), st)
  else match mem st !! a with
       | Some _ => Ok ((), set_mem (delete a (mem st)) st)
       | None => Fault
       end.

(** [x << s] on [int]: no meaning when the result does not fit. *)
Definition int_shl (x s : Z) : H Z :=
  if (0 <=? x) && (0 <=? s) && (s <? 32) && (Z.shiftl x s <? 2 ^ 31)
  then mret (Z.shiftl x s) else fault.

(** [1UL << s] *)
Definition ulong_bit (s : Z) : H Z :=
  if (0 <=? s) && (s <? 64) then mret (Z.shiftl 1 s) else fault.

(** ** Lists of one link (hotring/list.h) *)

Definition LIST_POISON1 : Z := 0x00100100.

Definition INIT_LIST_HEAD (a : Z) : H () := store_node a (with_word a).

Definition __list_add (new prev next : Z) : H () :=
  store_node new (with_word next);;
  store_node prev (λ nd, with_word (set_addr (word nd) new) nd).

Definition list_add (new head : Z) : H () :=
  nd ← load_node head;
  __list_add new head (word nd).

Definition __list_del (prev next : Z) : H () := store_node prev (with_word next).

Definition __list_del_by_addr (prev iptr : Z) : H () :=
  store_node prev (λ nd, with_word (set_addr (word nd) iptr) nd).

Definition list_del (prev entry : Z) : H () :=
  nd ← load_node entry;
  __list_del_by_addr prev (addr (word nd));;
  store_node entry (with_word LIST_POISON1).

Definition list_del_init (prev entry : Z) : H () :=
  nd ← load_node entry;
  __list_del prev (word nd);;
  INIT_LIST_HEAD entry.

Definition list_move (prev list head : Z) : H () :=
  nd ← load_node list;
  __list_del prev (word nd);;
  list_add list head.

Definition list_empty (head : Z) : H bool :=
  nd ← load_node head; mret (word nd =? head).

Definition __iptr_to_ptr (iptr : Z) : Z := iptr.

(** The loop [for (p = head->addr; p != head; p = p->addr)] with a body that
    goes on with a new state ([inl]) or leaves the loop ([inr]). *)
Fixpoint for_each_from {S R} (fuel : nat) (p head : Z) (s : S) (body : Z → S → H (S + R))
    : H (S + R) :=
  match fuel with
  | O => nofuel
  | Datatypes.S fuel =>
      if p =? head then mret (inl s)
      else
        r ← body p s;
        match r with
        | inr x => mret (inr x)
        | inl s =>
            nd ← load_node p;
            for_each_from fuel (__iptr_to_ptr (addr (word nd))) head s body
        end
  end.

(** A ring visits each object at most once. *)
Definition ring_fuel (st : hstate) : nat := S (size (mem st)).

Definition list_for_each {S R} (head : Z) (s : S) (body : Z → S → H (S + R)) : H (S + R) :=
  fuel ← gets ring_fuel;
  nd ← load_node head;
  for_each_from fuel (__iptr_to_ptr (addr (word nd))) head s body.

Section ops.
Context `{!Calloc obj}.

(** ** Allocation *)

Definition alloc (o : obj) : H Z := λ st,
  let st' m := HState m (nr_request st) (cur_hash st) (test_verbose st) (S (hticks st)) in
  match calloc (hticks st) (mem st) with
  | Some a => Ok (a, st' (<[a := o]> (mem st)))
  | None => Ok (0, st' (mem st))
  end.

Definition head_alloc : H Z := alloc (OHead 0).

Definition hash_node_alloc : H Z := alloc (ONode (HNode 0 0 0 0)).

Definition hash_alloc (nbits kbits : Z) : H Z :=
  ret ← alloc (OHash (Hash 0 0 0 0));
  (if truthy ret then
     sz ← int_shl 1 kbits;
     a ← alloc (OSlots (replicate (Z.to_nat sz) 0));
     (if truthy a then
        modify (λ st, set_mem (<[ret := OHash (Hash nbits kbits sz a)]> (mem st)) st)
      else fault)
   else mret ());;
  modify (set_cur_hash ret);;
  mret ret.

Definition hash_extend (h : Z) : H Z := mret 0.

(** ** Hashing: (index, tag) *)

Definition hashCode (h key : Z) : H (Z * Z) :=
  t ← load_hash h;
  m ← ulong_bit (hash_n t);
  let hash_value := key mod m in
  d ← int_shl 1 (u64 (hash_n t - hash_k t));
  mret (key / d, hash_value mod d).

Definition get_head_node_by_head_pointer (head_pointer : Z) : H Z :=
  if truthy head_pointer then
    w ← load_head head_pointer;
    mret (__iptr_to_ptr (addr w))
  else mret 0.

Definition __hash_get_first (h index : Z) : H (option Z) :=
  head_pointer ← load_slot h index;
  if truthy head_pointer then
    head_node ← get_head_node_by_head_pointer head_pointer;
    mret (Some head_node)
  else mret None.

Definition __hash_get_largest (h hashIndex : Z) : H (option Z) :=
  head_pointer ← load_slot h hashIndex;
  if truthy head_pointer then
    head_node ← get_head_node_by_head_pointer head_pointer;
    r ← list_for_each head_node head_node (λ next prev,
          np ← load_node prev;
          nn ← load_node next;
          mret (if tag nn <? tag np then inr prev else inl next));
    mret (Some match r with inl prev | inr prev => prev end)
  else mret None.

(** ** Lookup *)

Inductive hash_get_t := GET_NOT_FOUND | GET_SUCCESS | GET_ACCESS_HOT | GET_ACCESS_COLD.

Definition bump_counter (a : Z) : H () :=
  store_node a (λ nd, with_word (set_counter (word nd) (counter (word nd) + 1)) nd).

(** Returns the outcome, what is stored through [nodep] if anything is, and
    what is stored through [prevp]. *)
Definition __hash_get (h key' : Z) : H (hash_get_t * option Z * Z) :=
  '(hashIndex, _) ← hashCode h key';
  head_pointer ← load_slot h hashIndex;
  if truthy head_pointer then
    store_head head_pointer (λ w, set_head_counter w (head_counter w + 1));;
    head_node ← get_head_node_by_head_pointer head_pointer;
    hd ← load_node head_node;
    if key hd =? key' then
      bump_counter head_node;;
      mret (GET_ACCESS_HOT, Some head_node, 0)
    else
      r ← list_for_each head_node head_node (λ tmp prev,
            nt ← load_node tmp;
            if key nt =? key' then
              bump_counter tmp;;
              mret (inr (Some (tmp, prev)))
            else
              np ← load_node prev;
              if (key np <? key') && (key' <? key nt) then mret (inr None)
              else if (key' <? key nt) && (key nt <? key np) then mret (inr None)
              else if (key nt <? key np) && (key np <? key') then mret (inr None)
              else mret (inl tmp));
      match r with
      | inr (Some (tmp, prev)) => mret (GET_ACCESS_COLD, Some tmp, prev)
      | _ => mret (GET_NOT_FOUND, None, 0)
      end
  else mret (GET_NOT_FOUND, None, 0).

(** ** Insertion *)

Definition __hash_create (h index tag' : Z) : H Z :=
  head_pointer ← load_slot h index;
  node ← (if truthy head_pointer then
            head_node ← get_head_node_by_head_pointer head_pointer;
            node ← hash_node_alloc;
            r ← list_for_each head_node head_node (λ next prev,
                  nn ← load_node next;
                  np ← load_node prev;
                  if ((tag nn <? tag np) && ((tag' <=? tag nn) || (tag np <? tag')))
                     || ((tag np <? tag') && (tag' <=? tag nn))
                  then list_add node prev;; mret (inr ())
                  else mret (inl next));
            match r with
            | inr _ => mret node
            | inl prev => list_add node prev;; mret node
            end
          else
            head_pointer ← head_alloc;
            store_slot h index head_pointer;;
            node ← hash_node_alloc;
            INIT_LIST_HEAD node;;
            store_head head_pointer (λ _, node);;
            mret node);
  store_node node (λ nd, with_word (set_counter (word nd) 1) nd);;
  mret node.

Definition insert_entries (node key' tag' value' : Z) : H Z :=
  nd ← load_node node;
  if truthy (value nd) then mret (- EEXIST)
  else
    store_node node (with_key key');;
    store_node node (with_tag tag');;
    store_node node (with_value value');;
    mret 1.

Definition hash_insert (h key' value' : Z) : H Z :=
  '(hashIndex, hashTag) ← hashCode h key';
  node ← __hash_create h hashIndex hashTag;
  error ← insert_entries node key' hashTag value';
  if error <? 0 then mret error else mret 0.

(** ** Deletion *)

(** [free], then a message that reads the node when the verbosity is 3 or more. *)
Definition hotring_node_free (node : Z) : H () :=
  free node;;
  v ← gets test_verbose;
  if 3 <=? v then _ ← load_node node; mret () else mret ().

(** The first eight bytes of the object at an address. *)
Definition zero_word (a : Z) : H () := λ st,
  match mem st !! a with
  | Some (ONode nd) => Ok ((), set_mem (<[a := ONode (with_word 0 nd)]> (mem st)) st)
  | Some (OHead _) => Ok ((), set_mem (<[a := OHead 0]> (mem st)) st)
  | Some (OHash t) => Ok ((), set_mem (<[a := OHash (Hash 0 (hash_k t) (hash_size t) (hash_slots t))]> (mem st)) st)
  | Some (OSlots (_ :: l)) => Ok ((), set_mem (<[a := OSlots (0 :: l)]> (mem st)) st)
  | _ => Fault
  end.

(** The third [memset] is given the value, not its address. *)
Definition hotring_node_rcu_free (node : Z) : H () :=
  store_node node (with_tag 0);;
  store_node node (with_key 0);;
  nd ← load_node node;
  zero_word (value nd);;
  INIT_LIST_HEAD node;;
  free node.

Definition hotring_head_free_by_index (h index : Z) : H () :=
  head_pointer ← load_slot h index;
  store_slot h index 0;;
  free head_pointer.

Definition hotring_head_free (h key' : Z) : H () :=
  '(hashIndex, _) ← hashCode h key';
  head_pointer ← load_slot h hashIndex;
  store_slot h hashIndex 0;;
  free head_pointer.

Definition hotring_delete_head (h index : Z) : H bool :=
  head_pointer ← load_slot h index;
  head_node ← get_head_node_by_head_pointer head_pointer;
  hd ← load_node head_node;
  if head_node =? word hd then
    hotring_node_free head_node;;
    hotring_head_free_by_index h index;;
    mret true
  else
    let next_head_node := __iptr_to_ptr (addr (word hd)) in
    store_head head_pointer (λ _, next_head_node);;
    r ← list_for_each head_node 0 (λ p _, mret (@inl Z () p));
    match r with
    | inl prev =>
        list_del prev head_node;;
        hotring_node_free head_node;;
        mret true
    | inr _ => fault
    end.

Definition hotring_delete (h key' : Z) : H bool :=
  '(ret, target, prev) ← __hash_get h key';
  match target with
  | None => mret false
  | Some target =>
      (if truthy prev then list_del prev target else mret ());;
      hotring_node_free target;;
      (if truthy prev then mret () else hotring_head_free h key');;
      mret true
  end.

(** ** Printing: the rings of a table, bucket by bucket *)

Definition row : Type := Z * Z * Z.

Definition row_of (nd : hash_node) : row := (key nd, tag nd, value nd).

(** The loop [for (i = 0; i < n; i++)] over a state. *)
Fixpoint for_range {A} (fuel : nat) (i bound : Z) (s : A) (body : Z → A → H A) : H A :=
  match fuel with
  | O => nofuel
  | S fuel => if i <? bound then s ← body i s; for_range fuel (i + 1) bound s body else mret s
  end.

Definition range_loop {A} (bound : Z) (s : A) (body : Z → A → H A) : H A :=
  for_range (S (Z.to_nat bound)) 0 bound s body.

(** The rings are walked at any verbosity; what is printed of them is printed,
    and the nodes read, at 2 or more. *)
Definition display (h : Z) : H (list (option (list row))) :=
  t ← load_hash h;
  range_loop (hash_size t) [] (λ i out,
    first ← __hash_get_first h i;
    match first with
    | None => b ← printv 2; mret (if (b : bool) then out ++ [None] else out)
    | Some node =>
        b ← printv 2;
        rows ← (if (b : bool) then nd ← load_node node; mret [row_of nd] else mret []);
        r ← list_for_each node rows (λ p rows,
              b ← printv 2;
              if (b : bool) then tmp ← load_node p; mret (@inl (list row) () (rows ++ [row_of tmp]))
              else mret (inl rows));
        b ← printv 2;
        mret (if (b : bool) then out ++ [match r with inl rows => Some rows | inr _ => None end] else out)
    end).

(** ** Rehashing *)

Definition NBITS : Z := 32.

(** The loop over the buckets of the old table, at the bucket [i]: two
    milestones, and a head of the new table for each. *)
Definition mark_body (h new bits halfTag i : Z) : H () :=
  head ← load_slot h i;
  if truthy head then
    node ← __hash_create h i halfTag;
    base ← int_shl i bits;
    _ ← insert_entries node (base + halfTag) halfTag 0;
    head_pointer ← head_alloc;
    store_slot new (i * 2 + 1) head_pointer;;
    store_head head_pointer (λ _, node);;
    node ← __hash_create h i 0;
    base ← int_shl i bits;
    _ ← insert_entries node base 0 0;
    head_pointer ← head_alloc;
    store_slot new (i * 2) head_pointer;;
    store_head head_pointer (λ _, node)
  else mret ().

Definition hotring_rehash_init (h : Z) : H Z :=
  t ← load_hash h;
  let hash_tag_bits := s32 (hash_n t - hash_k t) in
  _ ← ulong_bit hash_tag_bits;
  halfTag ← ulong_bit (hash_tag_bits - 1);
  new ← hash_alloc NBITS (hash_k t + 1);
  range_loop (hash_size t) () (λ i _, mark_body h new hash_tag_bits halfTag i);;
  mret new.

(** A lookup that leaves its first output alone when it finds nothing. *)
Definition get_into (h key' old : Z) : H (Z * Z) :=
  '(_, node, prev) ← __hash_get h key';
  mret (default old node, prev).

(** The split of the bucket [i]; the heads are those of the bucket before it. *)
Definition split_body (h bits halfTag i : Z) (heads : Z * Z) : H (Z * Z) :=
  let '(ring1_head, ring2_head) := heads in
  head ← load_slot h i;
  if truthy head then
    base ← int_shl i bits;
    '(ring1_head, ring2_tail) ← get_into h base ring1_head;
    '(ring2_head, ring1_tail) ← get_into h (base + halfTag) ring2_head;
    store_node ring1_tail (with_word ring1_head);;
    store_node ring2_tail (with_word ring2_head);;
    mret (ring1_head, ring2_head)
  else mret (ring1_head, ring2_head).

(** The deletion of the milestone of a new bucket. *)
Definition prune_body (h i : Z) : H () :=
  head ← load_slot h i;
  if truthy head then _ ← hotring_delete_head h i; mret () else mret ().

Definition hotring_rehash (h : Z) : H Z :=
  new ← hotring_rehash_init h;
  t ← load_hash h;
  let hash_tag_bits := s32 (hash_n t - hash_k t) in
  halfTag ← ulong_bit (hash_tag_bits - 1);
  _ ← range_loop (hash_size t) (0, 0) (split_body h hash_tag_bits halfTag);
  t' ← load_hash new;
  range_loop (hash_size t') () (λ i _, prune_body new i);;
  _ ← display new;
  mret new.

(** ** Moving the head to the hottest node *)

(** [double] *)
Definition dbl (z : Z) : spec_float := binary_normalize 53 1024 z 0 false.
Definition dadd : spec_float → spec_float → spec_float := SFadd 53 1024.
Definition dmul : spec_float → spec_float → spec_float := SFmul 53 1024.
Definition ddiv : spec_float → spec_float → spec_float := SFdiv 53 1024.

Definition INCOME_THRESHOLD : Z := 5.

(** The expected walk when node [t] is the head: the inner loop over [i]. *)
Fixpoint income_from (counters : list Z) (total : spec_float) (nr t i : Z) (acc : spec_float)
    : spec_float :=
  match counters with
  | [] => acc
  | c :: counters =>
      income_from counters total nr t (i + 1)
        (dadd acc (dmul (ddiv (dbl c) total) (dbl (Z.abs (Z.rem (i - t) nr)))))
  end.

Definition income_of (counters : list Z) (total : spec_float) (t : Z) : spec_float :=
  income_from counters total (Z.of_nat (length counters)) t 0 (dbl 0).

(** The outer loop: ([min_income], [nr_hottest]). *)
Fixpoint hottest_from (fuel : nat) (counters : list Z) (total : spec_float) (t : Z)
    (best : spec_float * Z) : spec_float * Z :=
  match fuel with
  | O => best
  | S fuel =>
      let income := income_of counters total t in
      hottest_from fuel counters total (t + 1)
        (if SFltb income (fst best) then (income, t) else best)
  end.

Definition hottest_of (counters : list Z) (total : spec_float) : spec_float * Z :=
  hottest_from (length counters) counters total 0 (dbl 1000000000, 0).

Inductive hotspot_shift_t := SHIFT_REHASH | SHIFT_SUCCESS.

(** The size of the array [counters]. *)
Definition MAX_COUNTERS : nat := 100000.

Definition take_counter (a : Z) : H Z :=
  nd ← load_node a;
  store_node a (λ nd, with_word (set_counter (word nd) 0) nd);;
  mret (counter (word nd)).

Definition do_hotspot_shift (head head_node : Z) : H hotspot_shift_t :=
  store_head head (λ w, set_active w 1);;
  w ← load_head head;
  let total_counter := dbl (head_counter w) in
  c ← take_counter head_node;
  r ← list_for_each head_node [c] (λ p counters,
        if Nat.ltb (length counters) MAX_COUNTERS then
          c ← take_counter p;
          mret (@inl (list Z) () (counters ++ [c]))
        else fault);
  let counters := match r with inl l => l | inr _ => [] end in
  let head_income := income_of counters total_counter 0 in
  let '(min_income, nr_hottest) := hottest_of counters total_counter in
  let stay_hot : H hotspot_shift_t :=
    store_head head (λ w, set_head_counter w 0);;
    store_head head (λ w, set_active w 0);;
    mret SHIFT_SUCCESS in
  if SFeqb min_income head_income then stay_hot
  else
    r ← list_for_each head_node 1 (λ p i,
          mret (if i =? nr_hottest then inr p else inl (i + 1)));
    let hottest := match r with inr p => p | inl _ => 0 end in
    store_head head (λ _, hottest);;
    if SFltb (dbl INCOME_THRESHOLD) min_income then mret SHIFT_REHASH else stay_hot.

(** Returns what [*hashp] is afterwards. *)
Definition hotspot_shift (h index : Z) : H Z :=
  head_pointer ← load_slot h index;
  head_node ← get_head_node_by_head_pointer head_pointer;
  ret ← do_hotspot_shift head_pointer head_node;
  match ret with
  | SHIFT_SUCCESS => mret h
  | SHIFT_REHASH => hotring_rehash h
  end.

(** ** The public lookup: (found, node if found, previous node, [*hashp]) *)

(** [nr_request++] on [int] *)
Definition count_request : H () := λ st,
  if nr_request st + 1 <? 2 ^ 31 then Ok ((), set_nr_request (nr_request st + 1) st) else Fault.

Definition hash_get (h key' : Z) : H (bool * option Z * Z * Z) :=
  count_request;;
  '(ret, node, prev) ← __hash_get h key';
  '(hashIndex, _) ← hashCode h key';
  match ret with
  | GET_SUCCESS | GET_ACCESS_HOT => mret (true, node, prev, h)
  | GET_ACCESS_COLD =>
      r ← gets nr_request;
      if 5 <=? r then
        h' ← hotspot_shift h hashIndex;
        modify (set_nr_request 0);;
        mret (true, node, prev, h')
      else mret (true, node, prev, h)
  | GET_NOT_FOUND => mret (false, node, prev, h)
  end.
End ops.
