(* ===== verification/Cyclic.v ===== *)
(** * Cyclically sorted lists

    The order of a hot ring: read from its head, the keys are a rotation of an
    ascending list.  Where a walk along such a list may stop, and where a new
    key goes. *)
From S2P Require Import Prelude.

Definition ascending (l : list Z) : Prop := StronglySorted Z.le l.

(** [l] is an ascending list cut in two with the parts exchanged. *)
Definition cyc_sorted (l : list Z) : Prop := ∃ l1 l2, l = l1 ++ l2 ∧ ascending (l2 ++ l1).

(** ** Ascending lists *)

Lemma ascending_app l1 l2 :
  ascending (l1 ++ l2) ↔
  ascending l1 ∧ ascending l2 ∧ ∀ x y, x ∈ l1 → y ∈ l2 → x ≤ y.
Proof.
  induction l1 as [|a l1 IH]; cbn.
  - split; [|tauto]. intros ?. split; [constructor|]. split; [done|]. by intros x y ?%elem_of_nil.
  - split.
    + intros [Hs Hf]%StronglySorted_inv. apply IH in Hs as (H1 & H2 & H3).
      apply List.Forall_app in Hf as [Hf1 Hf2]. split; [by constructor|]. split; [done|].
      intros x y [->|Hx]%elem_of_cons Hy; [|by apply H3].
      by apply (proj1 (Forall_elem _ _) Hf2).
    + intros ([Hs Hf]%StronglySorted_inv & H2 & H3). constructor.
      * apply IH. split; [done|]. split; [done|]. intros x y ??. apply H3; [by right|done].
      * apply List.Forall_app. split; [done|]. apply Forall_elem. intros y Hy. apply H3; [left|done].
Qed.

Lemma ascending_cons x l : ascending (x :: l) ↔ ascending l ∧ ∀ y, y ∈ l → x ≤ y.
Proof.
  split.
  - intros [Hs Hf]%StronglySorted_inv. split; [done|]. by apply Forall_elem.
  - intros [Hs Hf]. constructor; [done|]. by apply Forall_elem.
Qed.

Lemma ascending_singleton x : ascending [x].
Proof. repeat constructor. Qed.

Lemma ascending_insert u x y v t :
  ascending (u ++ x :: y :: v) → x ≤ t ≤ y → ascending (u ++ x :: t :: y :: v).
Proof.
  intros (Hu & Hxy & Hu')%ascending_app Ht. apply ascending_cons in Hxy as [Hy Hx].
  pose proof Hy as [Hv Hyv]%ascending_cons. apply ascending_app. split; [done|]. split.
  - rewrite !ascending_cons. split; [split; [by apply ascending_cons|]|].
    + intros z [->|Hz]%elem_of_cons; [lia|]. specialize (Hyv z Hz). lia.
    + intros z [->|Hz]%elem_of_cons; [lia|]. by apply Hx.
  - intros z w Hz Hw. rewrite !elem_of_cons in Hw. destruct Hw as [->|[->|Hw]].
    + apply Hu'; [done|left].
    + transitivity x; [apply Hu'; [done|left]|lia].
    + apply Hu'; [done|]. rewrite !elem_of_cons. tauto.
Qed.

(** Where two neighbours lie with respect to a cut. *)
Lemma app_cut {A} (l1 l2 p q : list A) x y :
  p ++ x :: y :: q = l1 ++ l2 →
  (∃ r1, l1 = p ++ x :: y :: r1 ∧ q = r1 ++ l2) ∨
  (l1 = p ++ [x] ∧ l2 = y :: q) ∨
  (∃ r2, l2 = r2 ++ x :: y :: q ∧ p = l1 ++ r2).
Proof.
  intros Heq. apply app_eq_app in Heq as (k & [[Hp Hk]|[Hl1 Hl2]]).
  - right. right. by exists k.
  - destruct k as [|a [|b k]]; cbn in *; simplify_eq.
    + right. right. exists []. by rewrite !app_nil_r.
    + right. by left.
    + left. by exists k.
Qed.

(** ** Walking along a cyclically sorted list *)

(** What two neighbours say about the rest. *)
Lemma cyc_neighbours p x y q :
  cyc_sorted (p ++ x :: y :: q) →
  x ≤ y ∧ (∀ z, z ∈ p ++ x :: y :: q → z ≤ x ∨ y ≤ z) ∨
  y ≤ x ∧ (∀ z, z ∈ p ++ x :: y :: q → y ≤ z ≤ x).
Proof.
  intros (l1 & l2 & Heq & Hs).
  apply app_cut in Heq as [(r1 & -> & ->)|[[-> ->]|(r2 & -> & ->)]].
  - left. apply ascending_app in Hs as (H2 & H1 & H21). apply ascending_app in H1 as (Hp & Hxy & Hpxy).
    apply ascending_cons in Hxy as [Hy Hx]. apply ascending_cons in Hy as [Hr Hy].
    split; [apply Hx; left|]. intros z Hz.
    rewrite elem_of_app, !elem_of_cons, elem_of_app in Hz.
    destruct Hz as [Hz|[->|[->|[Hz|Hz]]]].
    + left. apply Hpxy; [done|left].
    + by left.
    + by right.
    + right. by apply Hy.
    + left. apply H21; [done|]. set_solver.
  - right. apply ascending_app in Hs as (H2 & H1 & H21). apply ascending_cons in H2 as [Hq Hy].
    apply ascending_app in H1 as (Hp & _ & Hpx). split; [apply H21; set_solver|].
    intros z Hz. rewrite elem_of_app, !elem_of_cons in Hz. destruct Hz as [Hz|[->|[->|Hz]]].
    + split; [apply H21; set_solver|apply Hpx; set_solver].
    + split; [apply H21; set_solver|done].
    + split; [done|apply H21; set_solver].
    + split; [by apply Hy|apply H21; set_solver].
  - left. apply ascending_app in Hs as (H2 & H1 & H21). apply ascending_app in H2 as (Hr & Hxy & Hrxy).
    apply ascending_cons in Hxy as [Hy Hx]. apply ascending_cons in Hy as [Hq Hy].
    split; [apply Hx; left|]. intros z Hz.
    rewrite !elem_of_app, !elem_of_cons in Hz. destruct Hz as [[Hz|Hz]|[->|[->|Hz]]].
    + right. apply H21; set_solver.
    + left. apply Hrxy; [done|left].
    + by left.
    + by right.
    + right. by apply Hy.
Qed.

(** The three tests of the lookup's walk: the key is not in the ring. *)
Lemma cyc_absent p x y q key :
  cyc_sorted (p ++ x :: y :: q) →
  (x < key < y ∨ key < y ∧ y < x ∨ y < x ∧ x < key) →
  key ∉ p ++ x :: y :: q.
Proof.
  intros Hc Ht Hin. destruct (cyc_neighbours p x y q Hc) as [[Hxy Hz]|[Hyx Hz]].
  - specialize (Hz key Hin). lia.
  - specialize (Hz key Hin). lia.
Qed.

(** ** Inserting a key *)

(** The test of the insertion's walk: [t] goes between [x] and [y]. *)
Definition fits (t x y : Z) : bool :=
  ((y <? x) && ((t <=? y) || (x <? t))) || ((x <? t) && (t <=? y)).

Lemma fits_spec t x y :
  fits t x y = true ↔ (y < x ∧ (t ≤ y ∨ x < t)) ∨ (x < t ≤ y).
Proof. unfold fits. rewrite orb_true_iff, !andb_true_iff, orb_true_iff. lia. Qed.

Lemma cyc_insert_between p x y q t :
  cyc_sorted (p ++ x :: y :: q) → fits t x y = true → cyc_sorted (p ++ x :: t :: y :: q).
Proof.
  rewrite fits_spec. intros Hc Ht. pose proof Hc as (l1 & l2 & Heq & Hs).
  apply app_cut in Heq as [(r1 & -> & ->)|[[-> ->]|(r2 & -> & ->)]].
  - exists (p ++ x :: t :: y :: r1), l2. split; [by rewrite <- app_assoc|].
    rewrite app_assoc in Hs. rewrite app_assoc. apply ascending_insert; [done|].
    apply ascending_app in Hs as (_ & [Hy Hx]%ascending_cons & _).
    assert (x ≤ y) by (apply Hx; left). lia.
  - destruct (cyc_neighbours p x y q Hc) as [[? Hz]|[? Hz]].
    { assert (x < t ≤ y ∨ y < x) as Hor by lia. pose proof Hs as (Hyq & Hpx & H21)%ascending_app.
      assert (y ≤ x) by (apply H21; set_solver). lia. }
    destruct (decide (t ≤ y)).
    + exists (p ++ [x]), (t :: y :: q). split; [by rewrite <- app_assoc|].
      cbn. apply ascending_cons. split; [done|]. intros z Hz'. transitivity y; [done|].
      apply Hz. set_solver.
    + exists (p ++ [x; t]), (y :: q). split; [by rewrite <- app_assoc|].
      replace ((y :: q) ++ p ++ [x; t]) with (((y :: q) ++ p ++ [x]) ++ [t])
        by (cbn; by rewrite <- !app_assoc).
      apply ascending_app. split; [done|]. split; [apply ascending_singleton|].
      intros z w Hz' ->%list_elem_of_singleton. transitivity x; [|lia]. apply Hz. set_solver.
  - exists l1, (r2 ++ x :: t :: y :: q). split; [by rewrite <- app_assoc|].
    rewrite <- app_assoc in *. cbn in *. apply ascending_insert; [done|].
    apply ascending_app in Hs as (_ & [Hy Hx]%ascending_cons & _).
    assert (x ≤ y) by (apply Hx; left). lia.
Qed.

(** A walk that met no place for [t] below it stays below it. *)
Lemma ascending_below x l t :
  ascending (x :: l) → x < t → (∀ p a b q, x :: l = p ++ a :: b :: q → fits t a b = false) →
  ∀ z, z ∈ x :: l → z < t.
Proof.
  revert x. induction l as [|y l IH]; intros x Hs Hx Hno z Hz.
  - apply list_elem_of_singleton in Hz as ->. done.
  - apply ascending_cons in Hs as [Hs Hxs]. apply elem_of_cons in Hz as [->|Hz]; [done|].
    apply (IH y); [done| |intros p a b q Heq; apply (Hno (x :: p) a b q); cbn; by rewrite Heq|done].
    specialize (Hno [] x y l eq_refl). destruct (decide (y < t)) as [|Hge]; [done|].
    assert (fits t x y = true) by (apply fits_spec; lia). congruence.
Qed.

Lemma fits_suffix {A} (f : A → A → bool) l1 l2 :
  (∀ p a b q, l1 ++ l2 = p ++ a :: b :: q → f a b = false) →
  ∀ p a b q, l2 = p ++ a :: b :: q → f a b = false.
Proof. intros Hno p a b q ->. apply (Hno (l1 ++ p) a b q). by rewrite <- app_assoc. Qed.

Lemma fits_prefix {A} (f : A → A → bool) l1 l2 :
  (∀ p a b q, l1 ++ l2 = p ++ a :: b :: q → f a b = false) →
  ∀ p a b q, l1 = p ++ a :: b :: q → f a b = false.
Proof. intros Hno p a b q ->. apply (Hno p a b (q ++ l2)). by rewrite <- app_assoc. Qed.

Lemma ascending_snoc l t : ascending l → (∀ z, z ∈ l → z ≤ t) → ascending (l ++ [t]).
Proof.
  intros Hs Hl. apply ascending_app. split; [done|]. split; [apply ascending_singleton|].
  intros z w Hz ->%list_elem_of_singleton. by apply Hl.
Qed.

Lemma asc_insert_end a l t :
  ascending (a :: l) → (∀ p x y q, a :: l = p ++ x :: y :: q → fits t x y = false) →
  cyc_sorted ((a :: l) ++ [t]).
Proof.
  intros Hs Hno. destruct (decide (a < t)) as [Hat|Hta].
  - exists ((a :: l) ++ [t]), []. split; [by rewrite app_nil_r|].
    apply (ascending_snoc (a :: l)); [done|]. intros z Hz.
    pose proof (ascending_below a l t Hs Hat Hno z Hz). lia.
  - exists (a :: l), [t]. split; [done|]. apply (ascending_cons t). split; [done|].
    intros z Hz. apply ascending_cons in Hs as [_ Hs].
    apply elem_of_cons in Hz as [->|Hz]; [lia|]. specialize (Hs z Hz). lia.
Qed.

(** A list whose greatest key is its least one is ascending. *)
Lemma ascending_const l x : (∀ z, z ∈ l → z = x) → ascending l.
Proof.
  induction l as [|y l IH]; intros Hl; [constructor|]. apply ascending_cons. split.
  - apply IH. intros z Hz. apply Hl. by right.
  - intros z Hz. rewrite (Hl y), (Hl z); [done|by right|left].
Qed.

(** A walk that found no place puts the key at the end, before the head. *)
Lemma cyc_insert_end a l t :
  cyc_sorted (a :: l) → (∀ p x y q, a :: l = p ++ x :: y :: q → fits t x y = false) →
  cyc_sorted ((a :: l) ++ [t]).
Proof.
  intros (l1 & l2 & Heq & Hs) Hno.
  destruct l1 as [|a' l1]; cbn in Heq.
  { subst l2. rewrite app_nil_r in Hs. by apply asc_insert_end. }
  destruct l2 as [|b l2].
  { rewrite app_nil_r in Heq. injection Heq as <- ->. by apply asc_insert_end. }
  injection Heq as <- ->. change (a :: l1 ++ b :: l2) with ((a :: l1) ++ b :: l2) in *.
  destruct (exists_last (l := a :: l1)) as (p & x & Hlast); [done|].
  pose proof Hs as (H2 & H1 & H21)%ascending_app.
  assert (x ∈ a :: l1) as Hx by (rewrite Hlast; set_solver).
  assert (b ≤ x) as Hbx by (apply H21; [left|done]).
  destruct (decide (b = x)) as [->|Hne].
  - apply asc_insert_end; [|done]. apply (ascending_const _ x).
    apply (ascending_cons x) in Hs as [Hs Hmin]. intros z Hz.
    assert (z ≤ x).
    { apply (elem_of_app (a :: l1) (x :: l2)) in Hz as [Hz|Hz]; [|by apply H21].
      rewrite Hlast in *. apply ascending_app in H1 as (_ & _ & Hp).
      apply elem_of_app in Hz as [Hz|Hz%list_elem_of_singleton]; [apply Hp; [done|left]|lia]. }
    assert (x ≤ z); [|lia]. apply (elem_of_app (a :: l1) (x :: l2)) in Hz as [Hz|Hz].
    + apply H21; [left|done].
    + apply elem_of_cons in Hz as [->|Hz]; [done|]. apply Hmin. set_solver.
  - assert (fits t x b = false) as Hf.
    { apply (Hno p x b l2). rewrite Hlast, <- app_assoc. done. }
    assert (b < t ≤ x) as [Hbt Htx].
    { destruct (decide (b < t ≤ x)); [done|]. assert (fits t x b = true); [|congruence].
      apply fits_spec. lia. }
    assert (∀ z, z ∈ b :: l2 → z < t) as Hl2.
    { apply ascending_below; [done|done|]. by eapply (fits_suffix (fits t)). }
    assert (t ≤ a) as Hta.
    { destruct (decide (a < t)) as [Hat|]; [|lia].
      assert (x < t); [|lia]. apply (ascending_below a l1 t); [done|done| |done].
      by eapply (fits_prefix (fits t)). }
    exists (a :: l1), ((b :: l2) ++ [t]). split; [by rewrite <- app_assoc|].
    rewrite <- app_assoc. apply ascending_app. split; [done|]. split.
    + apply (ascending_cons t). split; [done|]. intros z Hz.
      apply ascending_cons in H1 as [_ H1]. apply elem_of_cons in Hz as [->|Hz]; [done|].
      specialize (H1 z Hz). lia.
    + intros z w Hz Hw. apply Hl2 in Hz as Hzt. apply elem_of_cons in Hw as [->|Hw]; [lia|].
      by apply H21.
Qed.

(** ** Rotations and deletions *)

Lemma cyc_rotate l1 l2 : cyc_sorted (l1 ++ l2) → cyc_sorted (l2 ++ l1).
Proof.
  intros (k1 & k2 & Heq & Hs). apply app_eq_app in Heq as (r & [[-> ->]|[-> ->]]).
  - exists (l2 ++ k1), r. split; [by rewrite <- app_assoc|]. by rewrite <- app_assoc in Hs.
  - exists r, (k2 ++ l1). split; [by rewrite <- app_assoc|]. by rewrite <- app_assoc.
Qed.

Lemma ascending_delete u x v : ascending (u ++ x :: v) → ascending (u ++ v).
Proof.
  intros (Hu & [Hv _]%ascending_cons & Huv)%ascending_app. apply ascending_app.
  split; [done|]. split; [done|]. intros z w ??. apply Huv; [done|by right].
Qed.

Lemma cyc_delete p x q : cyc_sorted (p ++ x :: q) → cyc_sorted (p ++ q).
Proof.
  intros (l1 & l2 & Heq & Hs). apply app_eq_app in Heq as (r & [[-> ->]|[-> Hr]]).
  - exists l1, (r ++ q). split; [by rewrite <- app_assoc|].
    rewrite <- app_assoc in *. by eapply ascending_delete.
  - destruct r as [|y r]; cbn in Hr; simplify_eq.
    + rewrite app_nil_r in *. exists p, q. split; [done|]. by eapply (ascending_delete []).
    + exists (p ++ r), l2. split; [by rewrite <- app_assoc|].
      rewrite app_assoc in *. by eapply ascending_delete.
Qed.

Lemma cyc_sorted_singleton x : cyc_sorted [x].
Proof. exists [x], []. split; [done|]. apply ascending_singleton. Qed.

(** Read from its least element, a cyclically sorted list is ascending. *)
Lemma cyc_least x l : cyc_sorted (x :: l) → (∀ y, y ∈ l → x < y) → ascending (x :: l).
Proof.
  intros (l1 & l2 & Heq & Hs) Hx. destruct l1 as [|y l1]; cbn in Heq.
  - rewrite app_nil_r in Hs. by rewrite Heq.
  - injection Heq as <- ->. destruct l2 as [|z l2]; [by rewrite app_nil_r|].
    apply ascending_app in Hs as (_ & _ & H21). specialize (H21 z x ltac:(left) ltac:(left)).
    specialize (Hx z). assert (z ∈ l1 ++ z :: l2) by set_solver. apply Hx in H. lia.
Qed.

(** Two neighbours stay neighbours in a rotation that does not begin with the second. *)
Lemma rotate_adjacent {A} (p u v q : list A) x y z :
  p ++ x :: y :: q = u ++ z :: v → y ≠ z → ∃ p' q', (z :: v) ++ u = p' ++ x :: y :: q'.
Proof.
  intros Heq Hyz. apply app_cut in Heq as [(r1 & -> & _)|[[_ Heq]|(r2 & -> & _)]].
  - exists (z :: v ++ p), r1. cbn. by rewrite <- app_assoc.
  - congruence.
  - exists r2, (q ++ u). by rewrite <- app_assoc.
Qed.
