(* ===== verification/HotringInv.v ===== *)
(** * The hot ring: packed words, rings and the table's invariant *)
From S2P Require Import Prelude Cyclic HotringDefs.

(** ** Packed words *)

Lemma field_bits lo w x i :
  0 ≤ lo → 0 ≤ w → 0 ≤ i → Z.testbit (field lo w x) i = Z.testbit x (i + lo) && (i <? w).
Proof.
  intros. unfold field. rewrite Z.land_spec, Z.shiftr_spec, Z.testbit_ones_nonneg by lia. done.
Qed.

Lemma set_field_bits lo w x v i :
  0 ≤ lo → 0 ≤ w → 0 ≤ i →
  Z.testbit (set_field lo w x v) i =
  if (lo <=? i) && (i <? lo + w) then Z.testbit v (i - lo) else Z.testbit x i.
Proof.
  intros. unfold set_field. rewrite Z.lor_spec, Z.ldiff_spec.
  destruct (Z.leb_spec lo i) as [Hlo|Hlo]; cbn [andb].
  - rewrite !Z.shiftl_spec, Z.land_spec, Z.testbit_ones_nonneg by lia.
    destruct (Z.ltb_spec i (lo + w)); destruct (Z.ltb_spec (i - lo) w); try lia; cbn [negb].
    + by rewrite andb_false_r, andb_true_r.
    + by rewrite andb_true_r, andb_false_r, orb_false_r.
  - rewrite !Z.shiftl_spec, !(Z.testbit_neg_r _ (i - lo)) by lia. cbn.
    by rewrite andb_true_r, orb_false_r.
Qed.

Lemma field_set_same lo w x v :
  0 ≤ lo → 0 ≤ w → field lo w (set_field lo w x v) = v mod 2 ^ w.
Proof.
  intros. apply Z.bits_inj'. intros i Hi. rewrite field_bits, set_field_bits by lia.
  destruct (Z.ltb_spec i w).
  - rewrite Z.mod_pow2_bits_low by lia. rewrite (proj2 (Z.leb_le _ _)), (proj2 (Z.ltb_lt _ _)) by lia.
    cbn. rewrite andb_true_r. f_equal. lia.
  - by rewrite Z.mod_pow2_bits_high, andb_false_r by lia.
Qed.

Lemma field_set_other lo w lo' w' x v :
  0 ≤ lo → 0 ≤ w → 0 ≤ lo' → 0 ≤ w' → (lo + w ≤ lo' ∨ lo' + w' ≤ lo) →
  field lo' w' (set_field lo w x v) = field lo' w' x.
Proof.
  intros. apply Z.bits_inj'. intros i Hi. rewrite !field_bits, set_field_bits by lia.
  destruct (Z.ltb_spec i w'); [|by rewrite !andb_false_r]. f_equal.
  destruct (Z.leb_spec lo (i + lo')); destruct (Z.ltb_spec (i + lo') (lo + w)); cbn; lia || done.
Qed.

Lemma field_range lo w x : 0 ≤ w → 0 ≤ field lo w x < 2 ^ w.
Proof. intros. unfold field. rewrite Z.land_ones by lia. apply Z.mod_pos_bound. by apply pow2_pos. Qed.

(** A pointer into the 48-bit address space, not NULL. *)
Definition ptr (a : Z) : Prop := 0 < a < 2 ^ 48.

Lemma addr_ptr a : ptr a → addr a = a.
Proof.
  intros [? ?]. unfold addr, field. rewrite Z.shiftr_0_r, Z.land_ones by lia.
  apply Z.mod_small. lia.
Qed.

Lemma addr_set_addr x a : ptr a → addr (set_addr x a) = a.
Proof. intros [? ?]. unfold addr, set_addr. rewrite field_set_same by lia. apply Z.mod_small. lia. Qed.

Lemma addr_set_counter x c : addr (set_counter x c) = addr x.
Proof. apply field_set_other; lia. Qed.
Lemma addr_set_head_counter x c : addr (set_head_counter x c) = addr x.
Proof. apply field_set_other; lia. Qed.
Lemma addr_set_active x b : addr (set_active x b) = addr x.
Proof. apply field_set_other; lia. Qed.
Lemma counter_set_addr x a : counter (set_addr x a) = counter x.
Proof. apply field_set_other; lia. Qed.
Lemma counter_set_counter x c : counter (set_counter x c) = c mod 2 ^ 14.
Proof. apply field_set_same; lia. Qed.
Lemma head_counter_set x c : head_counter (set_head_counter x c) = c mod 2 ^ 15.
Proof. apply field_set_same; lia. Qed.
Lemma head_counter_set_active x b : head_counter (set_active x b) = head_counter x.
Proof. apply field_set_other; lia. Qed.

Create Rewrite HintDb packed.
#[export] Hint Rewrite addr_set_counter addr_set_head_counter addr_set_active counter_set_addr : packed.

(** ** Rings *)

Definition node_at (st : hstate) (a : Z) (nd : hash_node) : Prop := mem st !! a = Some (ONode nd).

(** Each of the nodes [l] points to the next, the last to [e]. *)
Fixpoint path (st : hstate) (l : list Z) (e : Z) : Prop :=
  match l with
  | [] => True
  | a :: l => (∃ nd, node_at st a nd ∧ addr (word nd) = hd e l) ∧ path st l e
  end.

Lemma path_app st l1 l2 e : path st (l1 ++ l2) e ↔ path st l1 (hd e l2) ∧ path st l2 e.
Proof.
  induction l1 as [|a l1 IH]; cbn; [tauto|]. rewrite IH.
  replace (hd e (l1 ++ l2)) with (hd (hd e l2) l1) by (by destruct l1). tauto.
Qed.

(** Memories that agree on the links of [l]. *)
Lemma path_frame st st' l e :
  (∀ a nd, a ∈ l → node_at st a nd → ∃ nd', node_at st' a nd' ∧ addr (word nd') = addr (word nd)) →
  path st l e → path st' l e.
Proof.
  induction l as [|a l IH]; intros Hfr; cbn; [done|]. intros [(nd & Hnd & Ha) Hp]. split.
  - destruct (Hfr a nd) as (nd' & ? & Heq); [left|done|]. exists nd'. by rewrite Heq.
  - apply IH; [|done]. intros b nb Hb. apply Hfr. by right.
Qed.

Definition ring (st : hstate) (l : list Z) : Prop :=
  path st l (hd 0 l) ∧ NoDup l ∧ Forall ptr l.

Lemma path_node st l e a : path st l e → a ∈ l → ∃ nd, node_at st a nd.
Proof.
  induction l as [|b l IH]; cbn; [by intros _ ?%elem_of_nil|].
  intros [(nd & ? & _) Hp] [->|Ha]%elem_of_cons; eauto.
Qed.

(** What the nodes of a list hold. *)
Definition the_node (st : hstate) (a : Z) : hash_node :=
  match mem st !! a with Some (ONode nd) => nd | _ => HNode 0 0 0 0 end.

Lemma the_node_at st a nd : node_at st a nd → the_node st a = nd.
Proof. unfold node_at, the_node. by intros ->. Qed.

(** ** Memory access *)

Lemma wp_load_hnode a nd (Q : hash_node → hstate → Prop) st :
  node_at st a nd → wp (load_node a) Q st ↔ Q nd st.
Proof. unfold node_at, wp, load_node. by intros ->. Qed.

Lemma wp_store_hnode a f nd (Q : () → hstate → Prop) st :
  node_at st a nd → wp (store_node a f) Q st ↔ Q () (set_mem (<[a := ONode (f nd)]> (mem st)) st).
Proof. unfold node_at, wp, store_node. by intros ->. Qed.

Lemma wp_load_head a w (Q : Z → hstate → Prop) st :
  mem st !! a = Some (OHead w) → wp (load_head a) Q st ↔ Q w st.
Proof. unfold wp, load_head. by intros ->. Qed.

Lemma wp_store_head a f w (Q : () → hstate → Prop) st :
  mem st !! a = Some (OHead w) →
  wp (store_head a f) Q st ↔ Q () (set_mem (<[a := OHead (f w)]> (mem st)) st).
Proof. unfold wp, store_head. by intros ->. Qed.

Lemma wp_load_hash a t (Q : hash → hstate → Prop) st :
  mem st !! a = Some (OHash t) → wp (load_hash a) Q st ↔ Q t st.
Proof. unfold wp, load_hash. by intros ->. Qed.

Lemma wp_load_slot h t l i x (Q : Z → hstate → Prop) st :
  mem st !! h = Some (OHash t) → mem st !! hash_slots t = Some (OSlots l) → 0 ≤ i →
  l !! Z.to_nat i = Some x → wp (load_slot h i) Q st ↔ Q x st.
Proof.
  unfold wp, load_slot. intros -> -> Hi Hx. rewrite (proj2 (Z.leb_le 0 i)) by done. by rewrite Hx.
Qed.

Lemma wp_store_hslot h t l i x y (Q : () → hstate → Prop) st :
  mem st !! h = Some (OHash t) → mem st !! hash_slots t = Some (OSlots l) → 0 ≤ i →
  l !! Z.to_nat i = Some y →
  wp (store_slot h i x) Q st ↔
  Q () (set_mem (<[hash_slots t := OSlots (<[Z.to_nat i := x]> l)]> (mem st)) st).
Proof.
  unfold wp, store_slot. intros -> -> Hi Hx. rewrite (proj2 (Z.leb_le 0 i)) by done. by rewrite Hx.
Qed.

Lemma wp_int_shl x s (Q : Z → hstate → Prop) st :
  0 ≤ x → 0 ≤ s < 32 → x * 2 ^ s < 2 ^ 31 → wp (int_shl x s) Q st ↔ Q (x * 2 ^ s) st.
Proof.
  intros Hx Hs Hb. unfold int_shl. rewrite Z.shiftl_mul_pow2 by lia.
  rewrite (proj2 (Z.leb_le 0 x)), (proj2 (Z.leb_le 0 s)), (proj2 (Z.ltb_lt s 32)),
    (proj2 (Z.ltb_lt _ (2 ^ 31))) by lia. done.
Qed.

Lemma wp_ulong_bit s (Q : Z → hstate → Prop) st :
  0 ≤ s < 64 → wp (ulong_bit s) Q st ↔ Q (2 ^ s) st.
Proof.
  intros Hs. unfold ulong_bit. rewrite (proj2 (Z.leb_le 0 s)), (proj2 (Z.ltb_lt s 64)) by lia.
  cbn [andb]. by rewrite wp_ret, Z.shiftl_1_l.
Qed.

(** ** The walk along a ring *)

Section walk.
Context {A R : Type} (F : Prop) (a : Z) (l : list Z) (body : Z → A → H (A + R)).
Context (I : list Z → A → hstate → Prop) (Q : A + R → hstate → Prop).
Context (Hnd : NoDup (a :: l)).
Context (Hbody : ∀ p x q s st, l = p ++ x :: q → I p s st →
  wpf F (body x s) (λ r st', match r with
    | inl s' => I (p ++ [x]) s' st' ∧ ∃ nd, node_at st' x nd ∧ addr (word nd) = hd a q
    | inr r => Q (inr r) st'
    end) st).
Context (Hend : ∀ s st, I l s st → Q (inl s) st).

Lemma for_each_from_rule fuel p q s st :
  l = p ++ q → (length q < fuel)%nat → I p s st →
  wpf F (for_each_from fuel (hd a q) a s body) Q st.
Proof.
  revert p q s st. induction fuel as [|fuel IH]; intros p q s st Hl Hf HI; [lia|].
  cbn [for_each_from]. destruct q as [|x q]; cbn [hd].
  - rewrite Z.eqb_refl, wpf_ret. apply Hend. by rewrite Hl, app_nil_r.
  - assert (x ≠ a) as Hxa.
    { intros ->. apply NoDup_cons_1_1 in Hnd. apply Hnd. rewrite Hl. set_solver. }
    rewrite (proj2 (Z.eqb_neq x a)) by done. rewrite wpf_bind.
    eapply wpf_mono; [by apply (Hbody p x q)|]. intros [s'|r] st'.
    + intros [HI' (nd & Hn & Ha)]. apply wpf_bind_wp. rewrite (wp_load_hnode x nd) by done.
      unfold __iptr_to_ptr. rewrite Ha.
      apply (IH (p ++ [x]) q); [by rewrite <- app_assoc|cbn in Hf; lia|done].
    + intros HQ. by rewrite wpf_ret.
Qed.

Lemma list_for_each_rulef s st :
  (∃ nd, node_at st a nd ∧ addr (word nd) = hd a l) → (length l < ring_fuel st)%nat →
  I [] s st → wpf F (list_for_each a s body) Q st.
Proof.
  intros (nd & Hn & Ha) Hf HI. unfold list_for_each.
  apply wpf_bind_wp. rewrite wp_gets. apply wpf_bind_wp. rewrite (wp_load_hnode a nd) by done.
  unfold __iptr_to_ptr. rewrite Ha. by apply (for_each_from_rule _ [] l).
Qed.
End walk.

(** The rule for a body that does not fault. *)
Lemma list_for_each_rule {A R} a l (body : Z → A → H (A + R)) (I : list Z → A → hstate → Prop)
    (Q : A + R → hstate → Prop) :
  NoDup (a :: l) →
  (∀ p x q s st, l = p ++ x :: q → I p s st →
    wp (body x s) (λ r st', match r with
      | inl s' => I (p ++ [x]) s' st' ∧ ∃ nd, node_at st' x nd ∧ addr (word nd) = hd a q
      | inr r => Q (inr r) st'
      end) st) →
  (∀ s st, I l s st → Q (inl s) st) →
  ∀ s st, (∃ nd, node_at st a nd ∧ addr (word nd) = hd a l) → (length l < ring_fuel st)%nat →
  I [] s st → wp (list_for_each a s body) Q st.
Proof.
  intros ? Hbody ? s st ???. apply wp_wpf. eapply (list_for_each_rulef False a l body I); try done.
Qed.

(** A ring is no longer than the memory is large. *)
Lemma ring_length st l : ring st l → (length l ≤ size (mem st))%nat.
Proof.
  intros (Hp & Hnd & _).
  assert (list_to_set l ⊆ (dom (mem st) : gset Z)) as Hsub.
  { intros a Ha%elem_of_list_to_set. destruct (path_node st l _ a Hp Ha) as [nd Hn].
    apply elem_of_dom. by eexists. }
  apply subseteq_size in Hsub. rewrite size_list_to_set, size_dom in Hsub; done.
Qed.

Lemma ring_head st a l : ring st (a :: l) → ∃ nd, node_at st a nd ∧ addr (word nd) = hd a l.
Proof. by intros [[H _] _]. Qed.

Lemma ring_fuel_enough st a l : ring st (a :: l) → (length l < ring_fuel st)%nat.
Proof. intros Hr. apply ring_length in Hr. unfold ring_fuel. cbn in Hr. lia. Qed.

(** The link of a node inside a ring. *)
Lemma ring_link st a l p x q :
  ring st (a :: l) → l = p ++ x :: q → ∃ nd, node_at st x nd ∧ addr (word nd) = hd a q.
Proof.
  intros [Hp _] ->. change (a :: p ++ x :: q) with ((a :: p) ++ x :: q) in Hp.
  apply path_app in Hp as [_ [H _]]. done.
Qed.

(** ** Memories that differ in their counters only *)

Definition obj_sim (o o' : obj) : Prop :=
  match o, o' with
  | ONode nd, ONode nd' =>
      addr (word nd') = addr (word nd) ∧ tag nd' = tag nd ∧ key nd' = key nd ∧ value nd' = value nd
  | OHead w, OHead w' => addr w' = addr w
  | OHash t, OHash t' => t' = t
  | OSlots l, OSlots l' => l' = l
  | _, _ => False
  end.

Definition globals (st : hstate) : Z * Z * Z := (nr_request st, cur_hash st, test_verbose st).

(** Nothing lives at NULL. *)
Definition null_free (st : hstate) : Prop := mem st !! 0 = None.

Definition sim (st st' : hstate) : Prop :=
  (globals st' = globals st ∧ (null_free st → null_free st')) ∧
  ∀ a o, mem st !! a = Some o → ∃ o', mem st' !! a = Some o' ∧ obj_sim o o'.

Lemma obj_sim_refl o : obj_sim o o.
Proof. by destruct o. Qed.

#[export] Instance sim_preorder : PreOrder sim.
Proof.
  split.
  - intros st. split; [done|]. intros a o Ho. exists o. split; [done|]. apply obj_sim_refl.
  - intros st1 st2 st3 [[Hg12 Hn12] H12] [[Hg23 Hn23] H23]. split; [split; [congruence|auto]|]. intros a o Ho.
    destruct (H12 a o Ho) as (o2 & Ho2 & S2). destruct (H23 a o2 Ho2) as (o3 & Ho3 & S3).
    exists o3. split; [done|]. destruct o, o2, o3; cbn in *; intuition congruence.
Qed.

(** A store that changes only what [sim] ignores. *)
Lemma sim_store st a o o' :
  mem st !! a = Some o → obj_sim o o' → sim st (set_mem (<[a := o']> (mem st)) st).
Proof.
  intros Ho Hs. split.
  { split; [done|]. unfold null_free. cbn. intros H0. rewrite lookup_insert_ne; congruence. }
  intros b ob Hb. cbn. destruct (decide (b = a)) as [->|].
  - rewrite lookup_insert_eq. exists o'. split; [done|]. by assert (ob = o) as -> by congruence.
  - rewrite lookup_insert_ne by done. exists ob. split; [done|]. apply obj_sim_refl.
Qed.

(** The object at [a] is there, with all but its links. *)
Definition obj_keeps (o o' : obj) : Prop :=
  match o, o' with
  | ONode nd, ONode nd' => tag nd' = tag nd ∧ key nd' = key nd ∧ value nd' = value nd
  | ONode _, _ => False
  | _, _ => obj_sim o o'
  end.

Definition sim_at (st st' : hstate) (a : Z) : Prop :=
  ∀ o, mem st !! a = Some o → ∃ o', mem st' !! a = Some o' ∧ obj_keeps o o'.

Lemma sim_at_same st st' a : mem st' !! a = mem st !! a → sim_at st st' a.
Proof. intros Heq o Ho. exists o. rewrite Heq. split; [done|]. by destruct o. Qed.

Lemma sim_sim_at st st' a : sim st st' → sim_at st st' a.
Proof.
  intros [_ Hs] o Ho. destruct (Hs a o Ho) as (o' & ? & Ho'). exists o'. split; [done|].
  destruct o, o'; try done. apply Ho'.
Qed.

Lemma sim_at_trans st1 st2 st3 a : sim_at st1 st2 a → sim_at st2 st3 a → sim_at st1 st3 a.
Proof.
  intros H12 H23 o Ho. destruct (H12 o Ho) as (o2 & Ho2 & S2). destruct (H23 o2 Ho2) as (o3 & Ho3 & S3).
  exists o3. split; [done|]. destruct o, o2, o3; cbn in *; intuition congruence.
Qed.

(** What a node holds, when it is kept. *)
Lemma sim_at_node st st' a nd :
  sim_at st st' a → node_at st a nd →
  ∃ nd', node_at st' a nd' ∧ tag nd' = tag nd ∧ key nd' = key nd ∧ value nd' = value nd.
Proof. intros Hs Hn. destruct (Hs _ Hn) as ([nd'| | |] & ? & ?); try done. by exists nd'. Qed.

Lemma sim_node st st' a nd :
  sim st st' → node_at st a nd →
  ∃ nd', node_at st' a nd' ∧ addr (word nd') = addr (word nd) ∧ tag nd' = tag nd ∧
    key nd' = key nd ∧ value nd' = value nd.
Proof.
  intros [_ Hs] Hn. destruct (Hs a _ Hn) as ([nd'| | |] & ? & ?); try done. exists nd'. done.
Qed.

Lemma sim_path st st' l e : sim st st' → path st l e → path st' l e.
Proof.
  intros Hs. apply path_frame. intros a nd _ Hn.
  destruct (sim_node st st' a nd Hs Hn) as (nd' & ? & ? & _). eauto.
Qed.

Lemma sim_ring st st' l : sim st st' → ring st l → ring st' l.
Proof. intros Hs (Hp & ? & ?). split; [by eapply sim_path|done]. Qed.

Lemma sim_fields st st' l e a :
  sim st st' → path st l e → a ∈ l →
  tag (the_node st' a) = tag (the_node st a) ∧ key (the_node st' a) = key (the_node st a) ∧
  value (the_node st' a) = value (the_node st a).
Proof.
  intros Hs Hp Ha. destruct (path_node st l e a Hp Ha) as [nd Hn].
  destruct (sim_node st st' a nd Hs Hn) as (nd' & Hn' & _ & ? & ? & ?).
  by rewrite (the_node_at st a nd Hn), (the_node_at st' a nd' Hn').
Qed.

(** ** The table *)

(** The number of tags of a bucket. *)
Definition tag_range (t : hash) : Z := 2 ^ (hash_n t - hash_k t).

Definition params_ok (t : hash) : Prop :=
  0 ≤ hash_k t ≤ hash_n t ∧ hash_n t < 64 ∧ hash_n t - hash_k t < 31.

(** A key is where its hash value says. *)
Definition node_ok (t : hash) (i : Z) (nd : hash_node) : Prop :=
  0 ≤ key nd ∧ key nd / tag_range t = i ∧ tag nd = key nd mod tag_range t.

Definition tags (st : hstate) (l : list Z) : list Z := (λ a, tag (the_node st a)) <$> l.
Definition keys (st : hstate) (l : list Z) : list Z := (λ a, key (the_node st a)) <$> l.

(** A bucket: empty, or a head that points to a ring in cyclic order. *)
Definition bucket (st : hstate) (t : hash) (i hp : Z) (l : list Z) : Prop :=
  hp = 0 ∧ l = [] ∨
  ptr hp ∧ l ≠ [] ∧ (∃ w, mem st !! hp = Some (OHead w) ∧ addr w = hd 0 l) ∧ ring st l ∧
  (∀ a, a ∈ l → node_ok t i (the_node st a)) ∧ cyc_sorted (tags st l).

Record table (st : hstate) (h : Z) (t : hash) (sl : list Z) (R : list (list Z)) : Prop := {
  tb_null : null_free st;
  tb_hash : mem st !! h = Some (OHash t);
  tb_slots : mem st !! hash_slots t = Some (OSlots sl);
  tb_params : params_ok t;
  tb_size : hash_size t = Z.of_nat (length R) ∧ Z.of_nat (length R) = 2 ^ hash_k t;
  tb_length : length sl = length R;
  tb_bucket i hp l : sl !! i = Some hp → R !! i = Some l → bucket st t (Z.of_nat i) hp l;
  tb_nodup : NoDup (mjoin R);
  tb_heads i j hp : sl !! i = Some hp → sl !! j = Some hp → hp ≠ 0 → i = j
}.

(** [R] lists the rings of the table [h], bucket by bucket, from their heads. *)
Definition hinv (st : hstate) (h : Z) (R : list (list Z)) : Prop := ∃ t sl, table st h t sl R.

(** What the table holds, in no particular order. *)
Definition entry (st : hstate) (a : Z) : Z * Z := (key (the_node st a), value (the_node st a)).
Definition entries (st : hstate) (R : list (list Z)) : list (Z * Z) := entry st <$> mjoin R.

(** The hot key of each bucket, the one its head leads to. *)
Definition head_keys (st : hstate) (R : list (list Z)) : list (option Z) :=
  (λ l : list Z, (λ a, key (the_node st a)) <$> head l) <$> R.

(** Within a bucket, the order of the tags is the order of the keys. *)
Lemma ascending_fmap (f : Z → Z) l : (∀ x y, x ≤ y → f x ≤ f y) → ascending l → ascending (f <$> l).
Proof.
  intros Hf. induction l as [|x l IH]; [done|]. intros [Hs Hx]%ascending_cons.
  apply ascending_cons. split; [by apply IH|]. intros y [z [-> Hz]]%list_elem_of_fmap. apply Hf, Hx, Hz.
Qed.

Lemma cyc_sorted_fmap (f : Z → Z) l : (∀ x y, x ≤ y → f x ≤ f y) → cyc_sorted l → cyc_sorted (f <$> l).
Proof.
  intros Hf (l1 & l2 & -> & Hs). exists (f <$> l1), (f <$> l2). split; [by rewrite fmap_app|].
  rewrite <- fmap_app. by apply ascending_fmap.
Qed.

Lemma tag_range_pos t : params_ok t → 0 < tag_range t.
Proof. intros [? ?]. apply pow2_pos. lia. Qed.

Lemma keys_of_tags st t i l :
  params_ok t → (∀ a, a ∈ l → node_ok t i (the_node st a)) →
  keys st l = (λ x, i * tag_range t + x) <$> tags st l.
Proof.
  intros Hp%tag_range_pos Hok. unfold keys, tags. induction l as [|a l IH]; [done|].
  rewrite !fmap_cons. f_equal.
  - destruct (Hok a) as (? & Hi & Ht); [left|]. rewrite Ht, <- Hi.
    pose proof (Z.div_mod (key (the_node st a)) (tag_range t)). lia.
  - apply IH. intros b Hb. apply Hok. by right.
Qed.

Lemma keys_sorted st t i l :
  params_ok t → (∀ a, a ∈ l → node_ok t i (the_node st a)) → cyc_sorted (tags st l) →
  cyc_sorted (keys st l).
Proof.
  intros Hp Hok Hc. rewrite (keys_of_tags st t i l Hp Hok). apply cyc_sorted_fmap; [|done]. intros; lia.
Qed.

Lemma sim_the_node st st' l e (f : hash_node → Z) :
  sim st st' → path st l e → (∀ n n', tag n = tag n' → key n = key n' → value n = value n' → f n = f n') →
  (λ a, f (the_node st' a)) <$> l = (λ a, f (the_node st a)) <$> l.
Proof.
  intros Hs Hp Hf. apply list_fmap_ext. intros i a Ha. apply list_elem_of_lookup_2 in Ha.
  destruct (sim_fields st st' l e a Hs Hp Ha) as (? & ? & ?). by apply Hf.
Qed.

Lemma sim_bucket st st' t i hp l : sim st st' → bucket st t i hp l → bucket st' t i hp l.
Proof.
  intros Hs [?|(Hp & Hne & (w & Hw & Ha) & Hr & Hok & Hc)]; [by left|right].
  split; [done|]. split; [done|]. split.
  { destruct Hs as [_ Hs]. destruct (Hs hp _ Hw) as ([|w'| |] & ? & Hw'); try done.
    exists w'. cbn in Hw'. by rewrite Hw'. }
  pose proof Hr as (Hpath & _). split; [by eapply sim_ring|]. split.
  - intros a Ha'. destruct (sim_fields st st' l _ a Hs Hpath Ha') as (Ht & Hk & _).
    unfold node_ok. rewrite Ht, Hk. by apply Hok.
  - unfold tags in *. rewrite (sim_the_node st st' l (hd 0 l) tag); done.
Qed.

Lemma sim_table st st' h t sl R : sim st st' → table st h t sl R → table st' h t sl R.
Proof.
  intros Hs [H0 Hh Hsl Hp Hsz Hlen Hb Hnd Hhd]. pose proof Hs as [[_ Hs0] Hm].
  destruct (Hm h _ Hh) as ([| |t'|] & Ht' & Hsim); try done. cbn in Hsim. subst t'.
  destruct (Hm _ _ Hsl) as ([| | |sl'] & Hsl' & Hsim); try done. cbn in Hsim. subst sl'.
  split; try done; [by apply Hs0|]. intros i hp l ??. eapply sim_bucket; [done|]. by apply Hb.
Qed.

Lemma bucket_nodes st t i hp l a :
  bucket st t i hp l → a ∈ l → ∃ nd, node_at st a nd.
Proof.
  intros [[_ ->]|(_ & _ & _ & [Hp _] & _)] Ha; [by apply elem_of_nil in Ha|]. by eapply path_node.
Qed.

Lemma table_nodes st h t sl R a :
  table st h t sl R → a ∈ mjoin R → ∃ nd, node_at st a nd.
Proof.
  intros Htb (l & Ha & Hl)%list_elem_of_join. apply list_elem_of_lookup in Hl as [i Hi].
  assert (∃ hp, sl !! i = Some hp) as [hp Hhp].
  { apply lookup_lt_is_Some_2. rewrite (tb_length _ _ _ _ _ Htb). by eapply lookup_lt_Some. }
  eapply bucket_nodes; [by eapply tb_bucket|done].
Qed.

Lemma sim_entries st st' h t sl R :
  sim st st' → table st h t sl R → entries st' R = entries st R.
Proof.
  intros Hs Htb. apply list_fmap_ext. intros i a Ha%list_elem_of_lookup_2.
  destruct (table_nodes _ _ _ _ _ _ Htb Ha) as [nd Hn].
  destruct (sim_node st st' a nd Hs Hn) as (nd' & Hn' & _ & _ & Hk & Hv).
  unfold entry. by rewrite (the_node_at st a nd Hn), (the_node_at st' a nd' Hn'), Hk, Hv.
Qed.

Lemma sim_head_keys st st' h t sl R :
  sim st st' → table st h t sl R → head_keys st' R = head_keys st R.
Proof.
  intros Hs Htb. apply list_fmap_ext. intros i l Hl. destruct l as [|a l]; [done|]. cbn. f_equal.
  assert (a ∈ mjoin R) as Ha.
  { apply list_elem_of_join. exists (a :: l). split; [left|by eapply list_elem_of_lookup_2]. }
  destruct (table_nodes _ _ _ _ _ _ Htb Ha) as [nd Hn].
  destruct (sim_node st st' a nd Hs Hn) as (nd' & Hn' & _ & _ & Hk & _).
  by rewrite (the_node_at st a nd Hn), (the_node_at st' a nd' Hn').
Qed.

(** ** Changing one bucket *)

Lemma the_node_same st st' a : mem st' !! a = mem st !! a → the_node st' a = the_node st a.
Proof. unfold the_node. by intros ->. Qed.

Lemma bucket_keep st st' t i hp l :
  (∀ a, a ∈ l → mem st' !! a = mem st !! a) → sim_at st st' hp →
  bucket st t i hp l → bucket st' t i hp l.
Proof.
  intros Hl Hhp [?|(Hp & Hne & (w & Hw & Haw) & (Hpath & Hr) & Hok & Hc)]; [by left|right].
  split; [done|]. split; [done|]. split.
  { destruct (Hhp _ Hw) as ([|w'| |] & ? & Hw'); try done. exists w'. cbn in Hw'. by rewrite Hw'. }
  split; [split; [|done]|].
  - eapply path_frame; [|done]. intros a nd Ha Hn. exists nd. unfold node_at in *. by rewrite Hl.
  - split.
    + intros a Ha. rewrite (the_node_same st st' a) by (by apply Hl). by apply Hok.
    + unfold tags. erewrite list_fmap_ext; [done|]. intros j a Ha%list_elem_of_lookup_2.
      cbn. by rewrite (the_node_same st st' a) by (by apply Hl).
Qed.

Lemma bucket_same st st' t i hp l :
  (∀ a, a ∈ l → mem st' !! a = mem st !! a) → mem st' !! hp = mem st !! hp →
  bucket st t i hp l → bucket st' t i hp l.
Proof. intros ? ?. by apply bucket_keep, sim_at_same. Qed.

(** A table is a matter of the memory. *)
Lemma table_mem st st' h t sl R : mem st' = mem st → table st h t sl R → table st' h t sl R.
Proof.
  intros Hm [H0 Hh Hsl Hp Hsz Hlen Hb Hnd Hhd]. split; try done; try (by rewrite Hm).
  - unfold null_free. by rewrite Hm.
  - intros i hp l Hi Hl. apply (bucket_same st st'); [by intros; rewrite Hm|by rewrite Hm|]. by apply Hb.
Qed.

Section update.
Context (st st' : hstate) (h : Z) (t : hash) (sl : list Z) (R : list (list Z)).
Context (i : nat) (hp : Z) (l : list Z).
Context (Htb : table st h t sl R) (Hhp : sl !! i = Some hp) (Hl : R !! i = Some l).
Context (Hfr : ∀ a, is_Some (mem st !! a) → a ∉ l → a ≠ hp → a ≠ hash_slots t →
  mem st' !! a = mem st !! a).

(** What another bucket needs is as it was. *)
Lemma update_other j hpj lj :
  j ≠ i → sl !! j = Some hpj → R !! j = Some lj →
  (∀ a, a ∈ lj → mem st' !! a = mem st !! a) ∧ (lj ≠ [] → mem st' !! hpj = mem st !! hpj).
Proof.
  intros Hji Hj Hlj. pose proof (tb_bucket _ _ _ _ _ Htb j hpj lj Hj Hlj) as Hbj.
  pose proof (tb_bucket _ _ _ _ _ Htb i hp l Hhp Hl) as Hbi.
  pose proof (tb_slots _ _ _ _ _ Htb) as Hslots. split.
  - intros a Ha. destruct (bucket_nodes _ _ _ _ _ _ Hbj Ha) as [nd Hn].
    apply Hfr; [by eexists| | |].
    + intros Hal. destruct (join_split R i l Hl) as (rest & Hperm & _ & Hrest).
      pose proof (tb_nodup _ _ _ _ _ Htb) as Hnd'. rewrite Hperm in Hnd'.
      apply list.NoDup_app in Hnd' as (_ & Hdisj & _). apply (Hdisj a Hal). by eapply Hrest.
    + intros ->. destruct Hbi as [[-> ->]|(_ & _ & (w & Hw & _) & _)]; [|congruence].
      pose proof (tb_null _ _ _ _ _ Htb). congruence.
    + intros ->. unfold node_at in Hn. congruence.
  - intros Hne. destruct Hbj as [[_ ->]|(Hp & _ & (w & Hw & _) & _)]; [done|].
    apply Hfr; [by eexists| | |].
    + intros Hal. destruct (bucket_nodes _ _ _ _ _ _ Hbi Hal) as [nd Hn].
      unfold node_at in Hn. congruence.
    + intros ->. apply Hji. eapply (tb_heads _ _ _ _ _ Htb); [done|done|]. destruct Hp. lia.
    + intros ->. congruence.
Qed.

(** The other buckets hold what they held. *)
Lemma update_entries l' :
  ∃ E, entries st R ≡ₚ (entry st <$> l) ++ E ∧
    entries st' (<[i := l']> R) ≡ₚ (entry st' <$> l') ++ E.
Proof.
  destruct (join_split R i l Hl) as (rest & Hperm & Hperm' & _).
  exists (entry st <$> rest). unfold entries. split; [by rewrite Hperm, fmap_app|].
  rewrite Hperm', fmap_app. f_equiv. erewrite list_fmap_ext; [done|].
  intros k a Ha%list_elem_of_lookup_2. unfold entry.
  rewrite (the_node_same st st' a); [done|].
  assert (a ∈ mjoin R) as Hj by (rewrite Hperm; apply elem_of_app; by right).
  apply list_elem_of_join in Hj as (lj & Ha' & Hlj). apply list_elem_of_lookup in Hlj as [j Hlj].
  assert (j ≠ i) as Hji.
  { intros ->. assert (lj = l) as -> by congruence.
    pose proof (tb_nodup _ _ _ _ _ Htb) as Hndr. rewrite Hperm in Hndr.
    apply list.NoDup_app in Hndr as (_ & Hdisj & _). by eapply Hdisj. }
  destruct (lookup_lt_is_Some_2 sl j) as [hpj Hj].
  { rewrite (tb_length _ _ _ _ _ Htb). by eapply lookup_lt_Some. }
  by apply (update_other j hpj lj).
Qed.

(** The other hot keys are what they were. *)
Lemma update_head_keys l' :
  head_keys st' (<[i := l']> R) = <[i := (λ a, key (the_node st' a)) <$> head l']> (head_keys st R).
Proof.
  unfold head_keys. rewrite list_fmap_insert. apply list_eq. intros j.
  destruct (decide (i = j)) as [<-|Hij].
  - pose proof (lookup_lt_Some _ _ _ Hl). by rewrite !list_lookup_insert_eq by (by rewrite length_fmap).
  - rewrite !list_lookup_insert_ne, !list_lookup_fmap by done. destruct (R !! j) as [lj|] eqn:Hlj; [|done].
    destruct (lookup_lt_is_Some_2 sl j) as [hpj Hj]; [rewrite (tb_length _ _ _ _ _ Htb); by eapply lookup_lt_Some|].
    destruct (update_other j hpj lj) as [Hsame _]; [done..|]. destruct lj as [|a lj]; [done|].
    cbn. rewrite (the_node_same st st' a); [done|]. apply Hsame. left.
Qed.

Context (hp' : Z) (l' : list Z).
Context (Hnull : null_free st') (Hh : mem st' !! h = Some (OHash t)).
Context (Hsl : mem st' !! hash_slots t = Some (OSlots (<[i := hp']> sl))).
Context (Hb : bucket st' t (Z.of_nat i) hp' l').
Context (Hnd : NoDup l') (Hin : ∀ a, a ∈ l' → a ∈ l ∨ a ∉ mjoin R).
Context (Hhd : hp' = hp ∨ hp' ∉ sl ∨ hp' = 0).

Lemma update_table : table st' h t (<[i := hp']> sl) (<[i := l']> R).
Proof.
  pose proof Htb as [_ _ _ Hp Hsz Hlen Hbs Hndr Hheads].
  pose proof (lookup_lt_Some _ _ _ Hhp) as Hilt.
  split; try done.
  - by rewrite length_insert.
  - by rewrite !length_insert.
  - intros j hpj lj Hj Hlj. destruct (decide (i = j)) as [<-|Hij].
    + rewrite list_lookup_insert_eq in Hj by done.
      rewrite list_lookup_insert_eq in Hlj by (by eapply lookup_lt_Some). by simplify_eq.
    + rewrite list_lookup_insert_ne in Hj by done. rewrite list_lookup_insert_ne in Hlj by done.
      destruct (update_other j hpj lj) as [Ho1 Ho2]; [done..|].
      destruct (decide (lj = [])) as [->|Hne].
      * destruct (Hbs j hpj [] Hj Hlj) as [?|(_ & ? & _)]; [by left|done].
      * eapply bucket_same; [done|by apply Ho2|]. by apply Hbs.
  - destruct (join_split R i l Hl) as (rest & Hperm & Hperm' & _). rewrite Hperm'.
    rewrite Hperm in Hndr. apply list.NoDup_app in Hndr as (_ & Hdisj & Hrest).
    apply list.NoDup_app. split; [done|]. split; [|done]. intros a Ha Hr.
    destruct (Hin a Ha) as [?|Hno]; [by eapply Hdisj|]. apply Hno. rewrite Hperm.
    apply elem_of_app. by right.
  - intros j k hpj Hj Hk Hne.
    destruct (decide (i = j)) as [<-|Hij], (decide (i = k)) as [<-|Hik]; [done| | |].
    + rewrite list_lookup_insert_eq in Hj by done. rewrite list_lookup_insert_ne in Hk by done.
      injection Hj as ->. destruct Hhd as [->|[Hno|?]]; [by eapply Hheads| |done].
      exfalso. apply Hno. by eapply list_elem_of_lookup_2.
    + rewrite list_lookup_insert_eq in Hk by done. rewrite list_lookup_insert_ne in Hj by done.
      injection Hk as ->. destruct Hhd as [->|[Hno|?]]; [by eapply Hheads| |done].
      exfalso. apply Hno. by eapply list_elem_of_lookup_2.
    + rewrite list_lookup_insert_ne in Hj by done. rewrite list_lookup_insert_ne in Hk by done.
      by eapply Hheads.
Qed.

End update.

(** The data of a node that is kept. *)
Lemma kept_data st st' h t sl R a :
  table st h t sl R → a ∈ mjoin R → sim_at st st' a →
  key (the_node st' a) = key (the_node st a) ∧ value (the_node st' a) = value (the_node st a).
Proof.
  intros Htb Ha Hs. destruct (table_nodes _ _ _ _ _ _ Htb Ha) as [nd Hn].
  destruct (sim_at_node st st' a nd Hs Hn) as (nd' & Hn' & _ & ? & ?).
  by rewrite (the_node_at _ _ _ Hn), (the_node_at _ _ _ Hn').
Qed.

Lemma in_ring {A} (R : list (list A)) i l a : R !! i = Some l → a ∈ l → a ∈ mjoin R.
Proof. intros Hl Ha. apply list_elem_of_join. exists l. split; [done|]. by eapply list_elem_of_lookup_2. Qed.

(** The slot of a ring. *)
Lemma slot_of st h t sl R i l : table st h t sl R → R !! i = Some l → ∃ hp, sl !! i = Some hp.
Proof.
  intros Htb Hl. apply lookup_lt_is_Some_2. rewrite (tb_length _ _ _ _ _ Htb). by eapply lookup_lt_Some.
Qed.

(** ** The loop over the buckets *)

Lemma range_loop_rule {A} F (n : nat) (body : Z → A → H A) (P : nat → A → hstate → Prop) s st :
  (∀ i s st, (i < n)%nat → P i s st → wpf F (body (Z.of_nat i) s) (P (S i)) st) →
  P 0%nat s st → wpf F (range_loop (Z.of_nat n) s body) (P n) st.
Proof.
  intros Hbody H0. unfold range_loop. rewrite Nat2Z.id.
  assert (∀ fuel i s st, (i + fuel = S n)%nat → (i ≤ n)%nat → P i s st →
    wpf F (for_range fuel (Z.of_nat i) (Z.of_nat n) s body) (P n) st) as Hgen.
  { induction fuel as [|fuel IH]; intros i s1 st1 Hi Hle HP; cbn [for_range]; [lia|].
    destruct (Z.ltb_spec (Z.of_nat i) (Z.of_nat n)).
    - rewrite wpf_bind. eapply wpf_mono; [apply Hbody; [lia|done]|]. intros s2 st2 HP2.
      replace (Z.of_nat i + 1) with (Z.of_nat (S i)) by lia. apply IH; [lia|lia|done].
    - rewrite wpf_ret. by assert (i = n) as <- by lia. }
  apply (Hgen _ 0%nat); [lia|lia|done].
Qed.
