(* ===== verification/HotringGet.v ===== *)
(** * The hot ring: lookup *)
From S2P Require Import Prelude Cyclic HotringDefs HotringInv.

Lemma hashCode_spec st h t key' (Q : Z * Z → hstate → Prop) :
  mem st !! h = Some (OHash t) → params_ok t → 0 ≤ key' →
  wp (hashCode h key') Q st ↔ Q (key' / tag_range t, key' mod tag_range t) st.
Proof.
  intros Hh (Hk & Hn & Hd) Hkey. unfold hashCode.
  rewrite wp_bind, (wp_load_hash h t) by done. rewrite wp_bind, wp_ulong_bit by lia.
  rewrite wrap_small by lia.
  assert (2 ^ (hash_n t - hash_k t) ≤ 2 ^ 30) by (apply Z.pow_le_mono_r; lia).
  rewrite wp_bind, wp_int_shl, wp_ret by lia. rewrite Z.mul_1_l. fold (tag_range t).
  replace ((key' mod 2 ^ hash_n t) mod tag_range t) with (key' mod tag_range t); [done|].
  symmetry. apply Z.mod_mod_divide. exists (2 ^ hash_k t). unfold tag_range.
  rewrite <- Z.pow_add_r by lia. f_equal. lia.
Qed.

(** The bucket an in-range key belongs to. *)
Lemma key_bucket st h t sl R key' :
  table st h t sl R → 0 ≤ key' < 2 ^ hash_n t →
  ∃ i hp l, Z.of_nat i = key' / tag_range t ∧ sl !! i = Some hp ∧ R !! i = Some l ∧
    bucket st t (key' / tag_range t) hp l.
Proof.
  intros Htb Hkey. pose proof Htb as [_ Hh Hsl Hp [Hsz Hsz2] Hlen Hb Hnd Hhd].
  pose proof (tag_range_pos t Hp) as Hpos. destruct Hp as (Hk & Hn & Hd).
  assert (0 ≤ key' / tag_range t < 2 ^ hash_k t) as Hi.
  { split; [apply Z.div_pos; lia|]. apply Z.div_lt_upper_bound; [done|].
    unfold tag_range. rewrite <- Z.pow_add_r by lia.
    replace (hash_n t - hash_k t + hash_k t) with (hash_n t) by lia. lia. }
  set (i := Z.to_nat (key' / tag_range t)).
  assert (i < length R)%nat as Hlt by lia.
  destruct (lookup_lt_is_Some_2 R i Hlt) as [l Hl].
  destruct (lookup_lt_is_Some_2 sl i) as [hp Hhp]; [lia|].
  exists i, hp, l. assert (Z.of_nat i = key' / tag_range t) as Hieq by lia.
  split; [done|]. split; [done|]. split; [done|]. rewrite <- Hieq. by apply Hb.
Qed.

(** How a lookup in the ring [l] ends. *)
Definition got (st : hstate) (l : list Z) (key' : Z) (r : hash_get_t * option Z * Z) : Prop :=
  match r with
  | (GET_NOT_FOUND, node, prev) => node = None ∧ prev = 0 ∧ key' ∉ keys st l
  | (GET_ACCESS_HOT, node, prev) => prev = 0 ∧
      ∃ a q, l = a :: q ∧ node = Some a ∧ key (the_node st a) = key'
  | (GET_ACCESS_COLD, node, prev) =>
      key (the_node st (hd 0 l)) ≠ key' ∧
      ∃ p y q, l = p ++ prev :: y :: q ∧ node = Some y ∧ key (the_node st y) = key'
  | (GET_SUCCESS, _, _) => False
  end.

(** One more access to a node. *)
Lemma bump_counter_spec st a nd :
  node_at st a nd →
  wp (bump_counter a) (λ _ st', sim st st' ∧ ∀ b, b ≠ a → mem st' !! b = mem st !! b) st.
Proof.
  intros Hn. unfold bump_counter. rewrite (wp_store_hnode a _ nd) by done. split.
  - eapply sim_store; [done|]. cbn. rewrite addr_set_counter. done.
  - intros b ?. cbn. by rewrite lookup_insert_ne.
Qed.

Lemma keys_app st l1 l2 : keys st (l1 ++ l2) = keys st l1 ++ keys st l2.
Proof. apply fmap_app. Qed.

(** The step of the walk from [prev] to [tmp]. *)
Definition get_step (key' tmp prev : Z) : H (Z + option (Z * Z)) :=
  nt ← load_node tmp;
  if key nt =? key' then
    bump_counter tmp;;
    mret (inr (Some (tmp, prev)))
  else
    np ← load_node prev;
    if (key np <? key') && (key' <? key nt) then mret (inr None)
    else if (key' <? key nt) && (key nt <? key np) then mret (inr None)
    else if (key nt <? key np) && (key np <? key') then mret (inr None)
    else mret (inl tmp).

Section walk.
Context (st : hstate) (a : Z) (l : list Z) (key' : Z).
Context (Hr : ring st (a :: l)) (Hc : cyc_sorted (keys st (a :: l))).

(** Up to [prev], the last of the nodes passed, the key was not met. *)
Definition passed (p : list Z) (prev : Z) (st1 : hstate) : Prop :=
  st1 = st ∧ (∃ p', a :: p = p' ++ [prev]) ∧ key' ∉ keys st (a :: p).

Lemma get_step_spec p x q prev :
  l = p ++ x :: q → passed p prev st →
  wp (get_step key' x prev)
    (λ r st', match r with
       | inl prev' => passed (p ++ [x]) prev' st'
       | inr (Some (tmp, prev')) => sim st st' ∧ (∀ b, b ≠ x → mem st' !! b = mem st !! b) ∧
           tmp = x ∧ prev' = prev ∧ key (the_node st x) = key' ∧ ∃ p', a :: l = p' ++ prev :: x :: q
       | inr None => st' = st ∧ key' ∉ keys st (a :: l)
       end) st.
Proof.
  intros Hl (_ & [p' Hp'] & Hno).
  assert (a :: l = p' ++ prev :: x :: q) as Hal.
  { rewrite Hl. change (a :: p ++ x :: q) with ((a :: p) ++ x :: q). by rewrite Hp', <- app_assoc. }
  destruct (ring_link st a l p x q Hr Hl) as (nx & Hnx & Hax).
  assert (∃ np, node_at st prev np) as [np Hnp].
  { apply (path_node st (a :: l) (hd 0 (a :: l)) prev); [apply Hr|]. rewrite Hal. set_solver. }
  unfold get_step. rewrite wp_bind, (wp_load_hnode x nx) by done.
  pose proof (the_node_at st x nx Hnx) as Htx. pose proof (the_node_at st prev np Hnp) as Htp.
  destruct (Z.eqb_spec (key nx) key') as [Hk|Hk].
  - rewrite wp_bind. eapply wp_mono; [by eapply bump_counter_spec|].
    intros ? st' (Hsim & Hfr). rewrite wp_ret. split; [done|]. split; [done|]. rewrite Htx. eauto.
  - rewrite wp_bind, (wp_load_hnode prev np) by done.
    assert (keys st (a :: l) = keys st p' ++ key np :: key nx :: keys st q) as Hkeys.
    { rewrite Hal. unfold keys. by rewrite fmap_app, !fmap_cons, Htx, Htp. }
    assert (passed (p ++ [x]) x st) as Hnext.
    { split; [done|]. split; [by exists (a :: p)|].
      rewrite app_comm_cons, keys_app. rewrite not_elem_of_app. split; [done|].
      cbn. rewrite Htx. set_solver. }
    rewrite Hkeys in Hc. pose proof (cyc_absent _ _ _ _ key' Hc) as Habs. rewrite <- Hkeys in Habs.
    destruct (Z.ltb_spec (key np) key'), (Z.ltb_spec key' (key nx)), (Z.ltb_spec (key nx) (key np));
      cbn [andb]; rewrite wp_ret; try (split; [done|]; apply Habs; lia); done.
Qed.

Lemma get_walk_spec :
  key (the_node st a) ≠ key' →
  wp (list_for_each a a (get_step key'))
    (λ r st', match r with
       | inr (Some (tmp, prev)) => sim st st' ∧ (∀ b, b ∉ a :: l → mem st' !! b = mem st !! b) ∧
           key (the_node st tmp) = key' ∧ ∃ p q, a :: l = p ++ prev :: tmp :: q
       | _ => st' = st ∧ key' ∉ keys st (a :: l)
       end) st.
Proof.
  intros Hne. pose proof Hr as (_ & Hnd & _).
  eapply (list_for_each_rule a l _ (λ p prev st1, passed p prev st1)).
  - done.
  - intros p x q prev st1 Hl Hpass. pose proof Hpass as (-> & _).
    eapply wp_mono; [by eapply get_step_spec|]. intros [prev'|[[tmp prev']|]] st'.
    + intros Hp. split; [done|]. destruct Hp as (-> & _). by eapply ring_link.
    + intros (? & Hfr & -> & -> & ? & p' & Hp'). split; [done|].
      split; [intros b Hb; apply Hfr; set_solver|]. split; [done|]. by exists p', q.
    + done.
  - intros prev st1 (-> & _ & Hno). done.
  - by apply ring_head.
  - by apply (ring_fuel_enough st a).
  - split; [done|]. split; [by exists []|]. cbn. set_solver.
Qed.
End walk.

(** A lookup needs its own bucket only, and changes nothing outside of it. *)
Lemma hash_get_bucket st h t sl i hp l key' :
  mem st !! h = Some (OHash t) → mem st !! hash_slots t = Some (OSlots sl) → params_ok t →
  sl !! i = Some hp → 0 ≤ key' → Z.of_nat i = key' / tag_range t → bucket st t (Z.of_nat i) hp l →
  wp (__hash_get h key') (λ r st', sim st st' ∧ got st l key' r ∧
    ∀ b, b ∉ l → b ≠ hp → mem st' !! b = mem st !! b) st.
Proof.
  intros Hh Hsl Hp Hhp Hkey Hi Hb.
  unfold __hash_get. rewrite wp_bind, (hashCode_spec st h t) by (done || lia).
  rewrite wp_bind, (wp_load_slot h t sl _ hp) by (done || lia || by rewrite <- Hi, Nat2Z.id).
  destruct Hb as [[-> ->]|(Hptr & Hne & (w & Hw & Haw) & Hr & Hok & Hc)].
  { rewrite truthy_0, wp_ret. split; [reflexivity|]. split; [|done]. split; [done|]. split; [done|].
    apply not_elem_of_nil. }
  destruct l as [|a l]; [done|]. cbn [hd] in Haw.
  rewrite (truthy_nz hp) by (destruct Hptr; lia).
  rewrite wp_bind, (wp_store_head hp _ w) by done. set (st1 := set_mem _ st).
  assert (sim st st1) as Hs1. { eapply sim_store; [done|]. cbn. apply addr_set_head_counter. }
  assert (mem st1 !! hp = Some (OHead (set_head_counter w (head_counter w + 1)))) as Hw1.
  { subst st1. cbn. by rewrite lookup_insert_eq. }
  assert (∀ b, b ≠ hp → mem st1 !! b = mem st !! b) as Hfr1.
  { intros b ?. subst st1. cbn. by rewrite lookup_insert_ne. }
  unfold get_head_node_by_head_pointer. rewrite wp_bind, (truthy_nz hp) by (destruct Hptr; lia).
  rewrite wp_bind, (wp_load_head hp _ _ _ Hw1), wp_ret.
  unfold __iptr_to_ptr. rewrite addr_set_head_counter, Haw.
  pose proof (sim_ring st st1 _ Hs1 Hr) as Hr1. pose proof Hr as (Hpath & _).
  destruct (ring_head st1 a l Hr1) as (nd & Hnd & _).
  rewrite wp_bind, (wp_load_hnode a nd) by done.
  assert (∀ x, x ∈ a :: l → key (the_node st1 x) = key (the_node st x)) as Hkx.
  { intros x Hx. by apply (sim_fields st st1 (a :: l) (hd 0 (a :: l)) x). }
  assert (key (the_node st a) = key nd) as Hka.
  { rewrite <- Hkx by left. by rewrite (the_node_at st1 a nd). }
  assert (keys st1 (a :: l) = keys st (a :: l)) as Hkeys.
  { apply (sim_the_node st st1 (a :: l) (hd 0 (a :: l)) key); done. }
  destruct (Z.eqb_spec (key nd) key') as [Hk|Hk].
  - rewrite wp_bind. eapply wp_mono; [by eapply bump_counter_spec|]. intros ? st2 (Hs2 & Hfr2).
    rewrite wp_ret. split; [by transitivity st1|]. split.
    + split; [done|]. exists a, l. rewrite Hka. done.
    + intros b Hb ?. rewrite Hfr2 by set_solver. by apply Hfr1.
  - rewrite wp_bind. fold (get_step key'). eapply wp_mono.
    { eapply (get_walk_spec st1 a l key' Hr1).
      - rewrite Hkeys. by eapply keys_sorted.
      - rewrite Hkx by left. by rewrite Hka. }
    intros [prev|[[tmp prev]|]] st2.
    + intros [-> Hno]. rewrite wp_ret. rewrite Hkeys in Hno. split; [done|]. split; [done|]. auto.
    + intros (Hs2 & Hfr2 & Htmp & p & q & Hal). rewrite wp_ret. split; [by transitivity st1|].
      split; [|intros b Hb ?; rewrite Hfr2 by done; by apply Hfr1]. split; [cbn; by rewrite Hka|].
      exists p, tmp, q. split; [done|]. split; [done|]. rewrite <- Hkx; [done|]. rewrite Hal. set_solver.
    + intros [-> Hno]. rewrite wp_ret. rewrite Hkeys in Hno. split; [done|]. split; [done|]. auto.
Qed.

Lemma hash_get_spec st h t sl R key' :
  table st h t sl R → 0 ≤ key' < 2 ^ hash_n t →
  wp (__hash_get h key') (λ r st', sim st st' ∧
    ∃ i l, Z.of_nat i = key' / tag_range t ∧ R !! i = Some l ∧ got st l key' r) st.
Proof.
  intros Htb Hkey. pose proof Htb as [_ Hh Hsl Hp _ _ _ _ _].
  destruct (key_bucket st h t sl R key' Htb Hkey) as (i & hp & l & Hi & Hhp & Hl & Hb).
  rewrite <- Hi in Hb. eapply wp_mono.
  { apply (hash_get_bucket st h t sl i hp l key'); done || lia. }
  intros r st' (Hsim & Hg & _). split; [done|]. by exists i, l.
Qed.
