(* ===== verification/HotringInsert.v ===== *)
(** * The hot ring: insertion

    A new node goes into the ring of its bucket at a place that keeps the
    cyclic order of the tags. *)
From S2P Require Import Prelude Cyclic HotringDefs HotringInv HotringGet.

Section insert.
Context `{!Calloc obj}.

(** The allocator has refused an object to a heap of less than [N]. *)
Definition out_of_memory (N : nat) : Prop := ∃ t m, (size m < N)%nat ∧ calloc t m = None.

(** ** Allocation *)

Lemma wp_alloc N o (Q : Z → hstate → Prop) st :
  (size (mem st) < N)%nat →
  (∀ a st', ptr a → mem st !! a = None → mem st' = <[a := o]> (mem st) → globals st' = globals st →
     Q a st') →
  (∀ st', out_of_memory N → mem st' = mem st → Q 0 st') →
  wp (alloc o) Q st.
Proof.
  intros HN Hok Hfail. unfold wp, alloc.
  destruct (calloc (hticks st) (mem st)) as [a|] eqn:Ha.
  - apply Hok; [|by eapply calloc_fresh|done|done].
    pose proof (calloc_range _ _ _ Ha) as [? ?]. split; [done|].
    assert (2 ^ 47 < 2 ^ 48) by (by vm_compute). lia.
  - apply Hfail; [|done]. by exists (hticks st), (mem st).
Qed.

Lemma sim_fresh st st' a o :
  ptr a → mem st !! a = None → mem st' = <[a := o]> (mem st) → globals st' = globals st → sim st st'.
Proof.
  intros Hp Ha Hm Hg. split.
  - split; [done|]. unfold null_free. rewrite Hm. intros. destruct Hp. rewrite lookup_insert_ne by lia. done.
  - intros b ob Hb. exists ob. split; [|apply obj_sim_refl]. rewrite Hm, lookup_insert_ne by congruence. done.
Qed.

(** A store through NULL faults. *)
Lemma wpf_store_null {A} F f (k : () → H A) (Q : A → hstate → Prop) st :
  null_free st → F → wpf F (store_node 0 f ≫= k) Q st.
Proof. unfold null_free, wpf, mbind, M_bind, store_node. by intros -> ?. Qed.

(** ** The place of the new node *)

(** [t] may follow [x] in the ring [p ++ x :: q]. *)
Definition place (st : hstate) (t : Z) (p : list Z) (x : Z) (q : list Z) : Prop :=
  cyc_sorted (tags st p ++ tag (the_node st x) :: t :: tags st q).

Definition create_step (node t next prev : Z) : H (Z + ()) :=
  nn ← load_node next;
  np ← load_node prev;
  if ((tag nn <? tag np) && ((t <=? tag nn) || (tag np <? t)))
     || ((tag np <? t) && (t <=? tag nn))
  then list_add node prev;; mret (inr ())
  else mret (inl next).

(** The links after [list_add c x]. *)
Definition added (st : hstate) (c x : Z) (st' : hstate) : Prop :=
  ∃ nx nc, node_at st x nx ∧ node_at st c nc ∧
    st' = set_mem (<[x := ONode (with_word (set_addr (word nx) c) nx)]>
                    (<[c := ONode (with_word (word nx) nc)]> (mem st))) st.

Lemma list_add_spec st c x nc nx :
  node_at st c nc → node_at st x nx → c ≠ x → wp (list_add c x) (λ _, added st c x) st.
Proof.
  intros Hc Hx Hne. unfold list_add, __list_add. rewrite wp_bind, (wp_load_hnode x nx) by done.
  rewrite wp_bind, (wp_store_hnode c _ nc) by done.
  rewrite (wp_store_hnode x _ nx) by (unfold node_at; cbn; by rewrite lookup_insert_ne).
  exists nx, nc. done.
Qed.

Section walk.
Context (st : hstate) (a : Z) (l : list Z) (c t : Z) (nc : hash_node).
Context (Hr : ring st (a :: l)) (Hs : cyc_sorted (tags st (a :: l))).
Context (Hnc : node_at st c nc) (Hcl : c ∉ a :: l).

(** No place was found up to [prev]. *)
Definition unplaced (p : list Z) (prev : Z) (st1 : hstate) : Prop :=
  st1 = st ∧ (∃ p', a :: p = p' ++ [prev]) ∧
  ∀ u x y v, tags st (a :: p) = u ++ x :: y :: v → fits t x y = false.

Lemma create_step_spec p x q prev :
  l = p ++ x :: q → unplaced p prev st →
  wp (create_step c t x prev)
    (λ r st', match r with
       | inl prev' => unplaced (p ++ [x]) prev' st'
       | inr _ => added st c prev st' ∧ ∃ p', a :: l = p' ++ prev :: x :: q ∧ place st t p' prev (x :: q)
       end) st.
Proof.
  intros Hl (_ & [p' Hp'] & Hno).
  assert (a :: l = p' ++ prev :: x :: q) as Hal.
  { rewrite Hl. change (a :: p ++ x :: q) with ((a :: p) ++ x :: q). by rewrite Hp', <- app_assoc. }
  destruct (ring_link st a l p x q Hr Hl) as (nx & Hnx & Hax).
  assert (∃ np, node_at st prev np) as [np Hnp].
  { apply (path_node st (a :: l) (hd 0 (a :: l)) prev); [apply Hr|]. rewrite Hal. set_solver. }
  pose proof (the_node_at st x nx Hnx) as Htx. pose proof (the_node_at st prev np Hnp) as Htp.
  unfold create_step. rewrite wp_bind, (wp_load_hnode x nx), wp_bind, (wp_load_hnode prev np) by done.
  change (((tag nx <? tag np) && ((t <=? tag nx) || (tag np <? t)))
     || ((tag np <? t) && (t <=? tag nx))) with (fits t (tag np) (tag nx)).
  assert (tags st (a :: l) = tags st p' ++ tag np :: tag nx :: tags st q) as Htags.
  { rewrite Hal. unfold tags. by rewrite fmap_app, !fmap_cons, Htx, Htp. }
  destruct (fits t (tag np) (tag nx)) eqn:Hf.
  - rewrite wp_bind. eapply wp_mono.
    { apply (list_add_spec st c prev nc np); [done|done|]. rewrite Hal in Hcl. set_solver. }
    intros ? st' Had. rewrite wp_ret. split; [done|]. exists p'. split; [done|].
    unfold place. cbn. rewrite Htp, Htx. rewrite Htags in Hs. by apply cyc_insert_between.
  - rewrite wp_ret. split; [done|]. split; [by exists (a :: p)|].
    intros u y z v Huv. rewrite app_comm_cons in Huv. unfold tags in Huv. rewrite fmap_app in Huv.
    destruct v as [|v0 v] using rev_ind.
    + rewrite Hp', fmap_app in Huv. cbn in Huv. rewrite <- app_assoc in Huv. cbn in Huv.
      rewrite Htp, Htx in Huv. change (u ++ [y; z]) with (u ++ [y] ++ [z]) in Huv.
      rewrite app_assoc in Huv. change ([tag np; tag nx]) with ([tag np] ++ [tag nx]) in Huv.
      rewrite app_assoc in Huv. apply app_inj_tail in Huv as [Huv <-].
      apply app_inj_tail in Huv as [_ <-]. done.
    + apply (Hno u y z v). cbn in Huv.
      replace (u ++ y :: z :: v ++ [v0]) with ((u ++ y :: z :: v) ++ [v0]) in Huv
        by (by rewrite <- app_assoc).
      rewrite app_comm_cons in Huv. by apply app_inj_tail in Huv as [Huv _].
Qed.

Lemma create_ring_walk_spec :
  wp (list_for_each a a (create_step c t))
    (λ r st', match r with
       | inr _ => ∃ p x q, a :: l = p ++ x :: q ∧ place st t p x q ∧ added st c x st'
       | inl x => st' = st ∧ ∃ p, a :: l = p ++ [x] ∧ place st t p x []
       end) st.
Proof.
  pose proof Hr as (_ & Hnd & _).
  eapply (list_for_each_rule a l _ (λ p prev st1, unplaced p prev st1)).
  - done.
  - intros p x q prev st1 Hl Hpass. pose proof Hpass as (-> & _).
    eapply wp_mono; [by eapply create_step_spec|]. intros [prev'|[]] st'.
    + intros Hp. split; [done|]. destruct Hp as (-> & _). by eapply ring_link.
    + intros (? & p' & ? & ?). by exists p', prev, (x :: q).
  - intros x st1 (-> & [p Hp] & Hno). split; [done|]. exists p. split; [done|].
    unfold place. rewrite Hp in *. unfold tags in *. rewrite fmap_app in *. cbn in *.
    destruct p as [|b p].
    + cbn in *. apply (cyc_insert_end _ []); [done|]. intros u y z v Huv.
      destruct u as [|? [|]]; discriminate Huv.
    + cbn in *. rewrite app_comm_cons in *.
      replace ((tag (the_node st b) :: ((λ a, tag (the_node st a)) <$> p)) ++ [tag (the_node st x); t])
        with ((tag (the_node st b) :: ((λ a, tag (the_node st a)) <$> p) ++ [tag (the_node st x)]) ++ [t])
        by (cbn; by rewrite <- app_assoc).
      apply cyc_insert_end; done.
  - by apply ring_head.
  - by apply (ring_fuel_enough st a).
  - split; [done|]. split; [by exists []|]. intros u x y v Huv. destruct u as [|? [|]]; discriminate Huv.
Qed.
End walk.

(** ** A node spliced into a ring *)

Lemma hd_app_cons (e : Z) (p : list Z) x q q' : hd e (p ++ x :: q) = hd e (p ++ x :: q').
Proof. by destruct p. Qed.

Lemma fmap_tags_same st st' l :
  (∀ a, a ∈ l → tag (the_node st' a) = tag (the_node st a)) → tags st' l = tags st l.
Proof. intros Hl. apply list_fmap_ext. intros i a Ha%list_elem_of_lookup_2. by apply Hl. Qed.

Section splice.
Context (st st' : hstate) (p q : list Z) (x c : Z) (nx nx' nc' : hash_node) (t : hash) (i : Z).
Context (Hr : ring st (p ++ x :: q)) (Hc : ptr c) (Hfresh : mem st !! c = None).
Context (Hnx : node_at st x nx) (Hnx' : node_at st' x nx') (Hnc' : node_at st' c nc').
Context (Hax : addr (word nx') = c) (Hac : addr (word nc') = addr (word nx)).
Context (Hsame : tag nx' = tag nx ∧ key nx' = key nx ∧ value nx' = value nx).
Context (Hfr : ∀ a, a ≠ x → a ≠ c → mem st' !! a = mem st !! a).

Lemma splice_notin : c ∉ p ++ x :: q.
Proof.
  intros Hin. destruct Hr as (Hp & _). destruct (path_node _ _ _ _ Hp Hin) as [nd Hn].
  unfold node_at in Hn. congruence.
Qed.

Lemma splice_x : x ∉ p ∧ x ∉ q.
Proof.
  destruct Hr as (_ & Hnd & _). apply list.NoDup_app in Hnd as (_ & Hd & Hnd).
  apply NoDup_cons_1_1 in Hnd. split; [|done]. intros Hx. apply (Hd x Hx). left.
Qed.

Lemma splice_ring : ring st' (p ++ x :: c :: q).
Proof.
  destruct splice_x as [Hxp Hxq]. pose proof splice_notin as Hcn.
  destruct Hr as (Hpath & Hnd & Hptr).
  assert (∀ l e, x ∉ l → c ∉ l → path st l e → path st' l e) as Hkeep.
  { intros l e Hxl Hcl. apply path_frame. intros a nd Ha Hn. exists nd. split; [|done].
    unfold node_at in *. rewrite Hfr; [done|by intros ->..]. }
  split; [|split].
  - rewrite (hd_app_cons 0 p x (c :: q) q). apply path_app in Hpath as [Hpp Hpx].
    apply path_app. cbn in *. split; [apply Hkeep; [done|set_solver|done]|].
    destruct Hpx as [(nd & Hnd' & Ha) Hpq]. assert (nd = nx) as -> by (unfold node_at in *; congruence).
    split; [by eauto|]. split; [|apply Hkeep; [done|set_solver|done]].
    exists nc'. split; [done|]. by rewrite Hac.
  - apply list.NoDup_app in Hnd as (Hndp & Hd & Hndx). apply list.NoDup_app. split; [done|]. split.
    + intros a Ha. rewrite !elem_of_cons. intros [->|[->|Hq]]; [done|set_solver|].
      apply (Hd a Ha). by right.
    + pose proof (NoDup_cons_1_2 _ _ Hndx). constructor; [|constructor; [set_solver|done]].
      rewrite elem_of_cons. intros [->|?]; [|done]. unfold node_at in *. congruence.
  - apply List.Forall_app in Hptr as [? Hx]. apply List.Forall_app. split; [done|].
    inversion Hx; subst. constructor; [done|]. by constructor.
Qed.

Lemma splice_old a : a ∈ p ++ x :: q →
  tag (the_node st' a) = tag (the_node st a) ∧ key (the_node st' a) = key (the_node st a) ∧
  value (the_node st' a) = value (the_node st a).
Proof.
  intros Ha. destruct (decide (a = x)) as [->|].
  - by rewrite (the_node_at st x nx), (the_node_at st' x nx').
  - rewrite (the_node_same st st' a); [done|]. apply Hfr; [done|]. intros ->. by apply splice_notin.
Qed.

Lemma splice_bucket hp w :
  ptr hp → mem st !! hp = Some (OHead w) → addr w = hd 0 (p ++ x :: q) →
  (∀ a, a ∈ p ++ x :: q → node_ok t i (the_node st a)) → node_ok t i nc' →
  place st (tag nc') p x q → bucket st' t i hp (p ++ x :: c :: q).
Proof.
  intros Hhp Hw Haw Hok Hokc Hpl. right. split; [done|]. split; [by destruct p|].
  assert (hp ≠ x) by (unfold node_at in *; congruence). assert (hp ≠ c) by congruence.
  split; [|split; [apply splice_ring|split]].
  - exists w. rewrite Hfr by done. split; [done|]. by rewrite (hd_app_cons 0 p x (c :: q) q).
  - intros a Ha. destruct (decide (a = c)) as [->|Hac'].
    + by rewrite (the_node_at st' c nc').
    + assert (a ∈ p ++ x :: q) as Ha' by set_solver.
      destruct (splice_old a Ha') as (Ht & Hk & _). unfold node_ok. rewrite Ht, Hk. by apply Hok.
  - unfold place in Hpl. unfold tags. rewrite fmap_app, !fmap_cons.
    rewrite (the_node_at st' c nc') by done.
    fold (tags st' p) (tags st' q). rewrite (fmap_tags_same st st' p), (fmap_tags_same st st' q).
    2:{ intros a Ha. apply splice_old. set_solver. } 2:{ intros a Ha. apply splice_old. set_solver. }
    destruct (splice_old x) as (Ht & _); [set_solver|]. by rewrite Ht.
Qed.

Lemma splice_entries :
  (entry st' <$> (p ++ x :: c :: q)) ≡ₚ (key nc', value nc') :: (entry st <$> (p ++ x :: q)).
Proof.
  rewrite !fmap_app, !fmap_cons.
  assert (∀ l : list Z, (∀ a, a ∈ l → a ∈ p ++ x :: q) → entry st' <$> l = entry st <$> l) as Hsm.
  { intros l Hl. apply list_fmap_ext. intros j a Ha%list_elem_of_lookup_2.
    destruct (splice_old a (Hl a Ha)) as (_ & Hk & Hv). unfold entry. by rewrite Hk, Hv. }
  rewrite (Hsm p), (Hsm q) by set_solver.
  assert (entry st' x = entry st x) as ->.
  { destruct (splice_old x) as (_ & Hk & Hv); [set_solver|]. unfold entry. by rewrite Hk, Hv. }
  replace (entry st' c) with (key nc', value nc')
    by (unfold entry; by rewrite (the_node_at st' c nc')).
  solve_Permutation.
Qed.
End splice.

(** ** [__hash_create] *)

(** The new node, without its data, is linked into the ring of its bucket. *)
Definition linked (st : hstate) (tg : Z) (l : list Z) (c w : Z) (st' : hstate) : Prop :=
  ∃ p x q nx, l = p ++ x :: q ∧ place st tg p x q ∧ node_at st x nx ∧
    addr w = addr (word nx) ∧ node_at st' x (with_word (set_addr (word nx) c) nx) ∧
    ∀ a, a ≠ x → a ≠ c → mem st' !! a = mem st !! a.

(** The new node is alone in a new ring. *)
Definition alone (st : hstate) (t : hash) (sl : list Z) (i : nat) (c w : Z) (st' : hstate) : Prop :=
  ∃ hp', ptr hp' ∧ hp' ≠ c ∧ mem st !! hp' = None ∧ mem st' !! hp' = Some (OHead c) ∧
    addr w = c ∧ mem st' !! hash_slots t = Some (OSlots (<[i := hp']> sl)) ∧
    ∀ a, a ≠ c → a ≠ hp' → a ≠ hash_slots t → mem st' !! a = mem st !! a.

Definition create_post (st : hstate) (t : hash) (sl : list Z) (i : nat) (l : list Z) (tg c : Z)
    (st' : hstate) : Prop :=
  ptr c ∧ mem st !! c = None ∧ null_free st' ∧
  ∃ w, node_at st' c (HNode w 0 0 0) ∧
    (l = [] ∧ alone st t sl i c w st' ∨ l ≠ [] ∧ linked st tg l c w st').

(** The last store of [__hash_create]: the counter of the new node. *)
Lemma finish_linked st tg l c w st1 :
  linked st tg l c w st1 → c ∉ l →
  linked st tg l c (set_counter w 1) (set_mem (<[c := ONode (HNode (set_counter w 1) 0 0 0)]> (mem st1)) st1).
Proof.
  intros (p & x & q & nx & -> & Hpl & Hnx & Ha & Hx & Hfr) Hcl.
  assert (x ≠ c) by set_solver. exists p, x, q, nx. unfold node_at in *. cbn.
  rewrite addr_set_counter. repeat split; try done.
  - by rewrite lookup_insert_ne.
  - intros a ??. rewrite lookup_insert_ne by done. by apply Hfr.
Qed.

Lemma wpf_fault {S A} (F : Prop) (m : M S A) (Q : A → S → Prop) s : F → m s = Fault → wpf F m Q s.
Proof. unfold wpf. by intros ? ->. Qed.

(** Without a node, the walk ends in a store through NULL. *)
Lemma list_add_null N st x (Q : () → hstate → Prop) :
  (out_of_memory N) → null_free st → wpf (out_of_memory N) (list_add 0 x) Q st.
Proof.
  intros Hf H0. apply wpf_fault; [done|]. unfold list_add, __list_add, mbind, M_bind, load_node.
  destruct (mem st !! x) as [[]|]; try done. unfold store_node. by rewrite H0.
Qed.

Lemma create_step_null N st x prev nx np tg (Q : Z + () → hstate → Prop) :
  (out_of_memory N) → null_free st → node_at st x nx → node_at st prev np → Q (inl x) st →
  wpf (out_of_memory N) (create_step 0 tg x prev) Q st.
Proof.
  intros Hf H0 Hx Hp HQ. unfold create_step. apply wpf_bind_wp. rewrite (wp_load_hnode x nx) by done.
  apply wpf_bind_wp. rewrite (wp_load_hnode prev np) by done.
  destruct (_ || _); [|done]. rewrite wpf_bind. by apply list_add_null.
Qed.

Lemma create_ring_null N st a l tg (Q : Z → hstate → Prop) :
  (out_of_memory N) → null_free st → ring st (a :: l) →
  wpf (out_of_memory N)
    (r ← list_for_each a a (create_step 0 tg);
     match r with inr _ => mret 0 | inl prev => list_add 0 prev;; mret 0 end) Q st.
Proof.
  intros Hf H0 Hr. pose proof Hr as (Hpath & Hnd & _). rewrite wpf_bind.
  eapply (list_for_each_rulef _ a l _ (λ p prev st1, st1 = st ∧ prev ∈ a :: p)).
  - done.
  - intros p x q prev st1 Hl [-> Hprev]. destruct (ring_link st a l p x q Hr Hl) as (nx & Hx & Hax).
    destruct (path_node st (a :: l) (hd 0 (a :: l)) prev) as [np Hp]; [done|rewrite Hl; set_solver|].
    eapply create_step_null; try done. cbn. split; [|by eauto]. split; [done|]. set_solver.
  - intros prev st1 [-> _]. rewrite wpf_bind. by apply list_add_null.
  - by apply ring_head.
  - by apply (ring_fuel_enough st a).
  - split; [done|]. left.
Qed.

Lemma added_linked st st1 a l c tg p x q st' :
  mem st !! c = None → mem st1 = <[c := ONode (HNode 0 0 0 0)]> (mem st) →
  a :: l = p ++ x :: q → place st1 tg p x q → ring st (a :: l) → added st1 c x st' →
  ∃ w, node_at st' c (HNode w 0 0 0) ∧ linked st tg (a :: l) c w st'.
Proof.
  intros Hfresh Hm Hal Hpl (Hpath & _) (nx & nc & Hnx & Hnc & ->). unfold node_at in *.
  rewrite Hm, lookup_insert_eq in Hnc. injection Hnc as <-.
  assert (∃ nd, node_at st x nd) as [nd Hnd].
  { eapply path_node; [done|]. rewrite Hal. set_solver. }
  assert (x ≠ c) by (unfold node_at in *; congruence).
  rewrite Hm, lookup_insert_ne in Hnx by done.
  exists (word nx). cbn. rewrite lookup_insert_ne, lookup_insert_eq by done. split; [done|].
  exists p, x, q, nx. split; [done|]. split.
  { unfold place, tags in *. assert (∀ b, b ∈ a :: l → the_node st1 b = the_node st b) as Hsm.
    { intros b Hb. apply the_node_same. rewrite Hm, lookup_insert_ne; [done|]. intros ->.
      destruct (path_node _ _ _ _ Hpath Hb) as [? Hb']. unfold node_at in Hb'. congruence. }
    rewrite (Hsm x) in Hpl by (rewrite Hal; set_solver).
    assert (∀ k : list Z, (∀ b, b ∈ k → b ∈ a :: l) →
      ((λ b, tag (the_node st1 b)) <$> k) = ((λ b, tag (the_node st b)) <$> k)) as Hmap.
    { intros k Hk. apply list_fmap_ext. intros j b Hb%list_elem_of_lookup_2. by rewrite Hsm by auto. }
    rewrite (Hmap p), (Hmap q) in Hpl by (rewrite Hal; set_solver). done. }
  split; [done|]. split; [done|]. split; [unfold node_at; cbn; by rewrite lookup_insert_eq|].
  intros b ??. cbn. by rewrite Hm, !lookup_insert_ne.
Qed.

Lemma create_ring_spec N st a l tg :
  (size (mem st) < N)%nat → null_free st → ring st (a :: l) → cyc_sorted (tags st (a :: l)) →
  wpf (out_of_memory N)
    (node ← hash_node_alloc;
     r ← list_for_each a a (create_step node tg);
     match r with
     | inr _ => mret node
     | inl prev => list_add node prev;; mret node
     end)
    (λ c st', ptr c ∧ mem st !! c = None ∧
       ∃ w, node_at st' c (HNode w 0 0 0) ∧ linked st tg (a :: l) c w st') st.
Proof.
  intros HN H0 Hr Hs. apply wpf_bind_wp. apply (wp_alloc N); [done| |]; cycle 1.
  { intros st1 Hf Hm. apply (create_ring_null N st1 a l); [done|unfold null_free; by rewrite Hm|].
    destruct Hr as (Hp & ?). split; [|done]. eapply path_frame; [|done].
    intros b nd _ Hn. exists nd. unfold node_at in *. by rewrite Hm. }
  intros c st1 Hc Hfresh Hm Hg. pose proof (sim_fresh st st1 c _ Hc Hfresh Hm Hg) as Hsim.
  assert (c ∉ a :: l) as Hcl.
  { intros Hin. destruct Hr as (Hp & _). destruct (path_node _ _ _ _ Hp Hin) as [nd Hn].
    unfold node_at in Hn. congruence. }
  assert (node_at st1 c (HNode 0 0 0 0)) as Hnc. { unfold node_at. by rewrite Hm, lookup_insert_eq. }
  assert (tags st1 (a :: l) = tags st (a :: l)) as Htags.
  { unfold tags. by apply (sim_the_node st st1 (a :: l) (hd 0 (a :: l)) tag Hsim (proj1 Hr)). }
  rewrite wpf_bind. apply wpf_of_wp. eapply wp_mono.
  { apply (create_ring_walk_spec st1 a l c tg (HNode 0 0 0 0)); [by eapply sim_ring|by rewrite Htags|done|done]. }
  intros [x|[]] st2.
  - intros (-> & p & Hal & Hpl). apply wpf_bind_wp.
    destruct (path_node st1 (a :: l) (hd 0 (a :: l)) x) as [nx Hnx].
    { by apply (sim_ring st st1). } { rewrite Hal. set_solver. }
    eapply wp_mono; [eapply (list_add_spec st1 c x); [done|done|rewrite Hal in Hcl; set_solver]|].
    intros ? st3 Had. rewrite wpf_ret. split; [done|]. split; [done|].
    by apply (added_linked st st1 a l c tg p x [] st3).
  - intros (p & x & q & Hal & Hpl & Had). rewrite wpf_ret. split; [done|]. split; [done|].
    by apply (added_linked st st1 a l c tg p x q st2).
Qed.

(** ** [hash_insert] *)

(** The data go into the new node, and nowhere else. *)
Lemma fill_entry_spec st c w key' tag' value' :
  node_at st c (HNode w 0 0 0) →
  wp (insert_entries c key' tag' value')
    (λ e st', e = 1 ∧ node_at st' c (HNode w tag' key' value') ∧ globals st' = globals st ∧
       ∀ a, a ≠ c → mem st' !! a = mem st !! a) st.
Proof.
  intros Hc. unfold insert_entries. rewrite wp_bind, (wp_load_hnode c _ _ _ Hc). cbn [value].
  rewrite truthy_0, wp_bind, (wp_store_hnode c _ _ _ _ Hc).
  rewrite wp_bind. erewrite wp_store_hnode by (unfold node_at; cbn; by rewrite lookup_insert_eq).
  rewrite wp_bind. erewrite wp_store_hnode by (unfold node_at; cbn; by rewrite lookup_insert_eq).
  rewrite wp_ret. split; [done|]. split; [unfold node_at; cbn; by rewrite lookup_insert_eq|].
  split; [done|]. intros a Ha. cbn. by rewrite !lookup_insert_ne.
Qed.

(** The node's data have arrived in the ring it was linked into. *)
Lemma linked_table st h t sl R i hp l c w st1 st' key' value' :
  table st h t sl R → sl !! i = Some hp → R !! i = Some l → l ≠ [] →
  0 ≤ key' → key' / tag_range t = Z.of_nat i → ptr c → mem st !! c = None →
  linked st (key' mod tag_range t) l c w st1 → 
  node_at st' c (HNode w (key' mod tag_range t) key' value') →
  (∀ a, a ≠ c → mem st' !! a = mem st1 !! a) →
  ∃ p x q, l = p ++ x :: q ∧ table st' h t sl (<[i := p ++ x :: c :: q]> R) ∧
    entries st' (<[i := p ++ x :: c :: q]> R) ≡ₚ (key', value') :: entries st R ∧
    (∀ a, a ≠ c → sim_at st st' a) ∧ head_keys st' (<[i := p ++ x :: c :: q]> R) = head_keys st R.
Proof.
  intros Htb Hhp Hl Hne Hk0 Hi Hc Hfresh (p & x & q & nx & -> & Hpl & Hnx & Haw & Hnx1 & Hfr1) Hc' Hfr'.
  pose proof (tb_bucket _ _ _ _ _ Htb i hp _ Hhp Hl) as [[_ ?]|(Hptr & _ & (w0 & Hw0 & Ha0) & Hr & Hok & _)];
    [done|].
  assert (x ≠ c) as Hxc by (unfold node_at in *; congruence).
  assert (node_at st' x (with_word (set_addr (word nx) c) nx)) as Hnx'.
  { unfold node_at in *. by rewrite Hfr'. }
  assert (∀ a, a ≠ x → a ≠ c → mem st' !! a = mem st !! a) as Hfr.
  { intros a ??. rewrite Hfr' by done. by apply Hfr1. }
  assert (addr (word (with_word (set_addr (word nx) c) nx)) = c) as Hax by (by apply addr_set_addr).
  assert (bucket st' t (Z.of_nat i) hp (p ++ x :: c :: q)) as Hb.
  { eapply (splice_bucket st st' p q x c nx); done. }
  assert (ring st' (p ++ x :: c :: q)) as (_ & Hnd' & _)
    by (eapply (splice_ring st st' p q x c nx); done).
  pose proof (tb_null _ _ _ _ _ Htb) as H0. pose proof (tb_hash _ _ _ _ _ Htb) as Hh.
  pose proof (tb_slots _ _ _ _ _ Htb) as Hs.
  assert (null_free st') as H0'.
  { unfold null_free in *. rewrite Hfr; [done|unfold node_at in *; congruence|destruct Hc; lia]. }
  assert (<[i := hp]> sl = sl) as Hsl by (by apply list_insert_id).
  assert (mem st' !! h = Some (OHash t)) as Hh'.
  { rewrite Hfr; [done|unfold node_at in *; congruence|congruence]. }
  assert (mem st' !! hash_slots t = Some (OSlots (<[i := hp]> sl))) as Hs'.
  { rewrite Hsl, Hfr; [done|unfold node_at in *; congruence|congruence]. }
  assert (∀ a, is_Some (mem st !! a) → a ∉ p ++ x :: q → a ≠ hp → a ≠ hash_slots t →
    mem st' !! a = mem st !! a) as Hother.
  { intros a [? Ha] Hna _ _. apply Hfr; [set_solver|congruence]. }
  assert (∀ a, a ∈ p ++ x :: c :: q → a ∈ p ++ x :: q ∨ a ∉ mjoin R) as Hin.
  { intros a Ha. destruct (decide (a = c)) as [->|]; [right|left; set_solver].
    intros Hj. destruct (table_nodes _ _ _ _ _ _ Htb Hj). unfold node_at in *. congruence. }
  assert (∀ a, a ≠ c → sim_at st st' a) as Hat.
  { intros a Ha. destruct (decide (a = x)) as [->|]; [|by apply sim_at_same, Hfr].
    intros o Ho. assert (o = ONode nx) as -> by (unfold node_at in *; congruence). by eexists. }
  exists p, x, q. split; [done|]. split; [|split; [|split; [done|]]].
  - rewrite <- Hsl at 1. eapply (update_table st st' h t sl R i hp _ Htb); try done. by left.
  - destruct (update_entries st st' h t sl R i hp (p ++ x :: q) Htb Hhp Hl Hother (p ++ x :: c :: q))
      as (E & HE & HE'). rewrite HE', HE.
    assert ((entry st' <$> (p ++ x :: c :: q)) ≡ₚ (key', value') :: (entry st <$> (p ++ x :: q))) as ->;
      [|done].
    eapply (splice_entries st st' p q x c nx _ (HNode w (key' mod tag_range t) key' value')); done.
  - rewrite (update_head_keys st st' h t sl R i hp _ Htb Hhp Hl Hother). apply list_insert_id.
    unfold head_keys. rewrite list_lookup_fmap, Hl. cbn.
    assert (∃ a q1 q2, p ++ x :: q = a :: q1 ∧ p ++ x :: c :: q = a :: q2) as (a & q1 & q2 & Hq1 & Hq2)
      by (destruct p; cbn; eauto 6).
    rewrite Hq1 in Hl |- *. rewrite Hq2.
    assert (a ∈ mjoin R) as Ha by (eapply (in_ring R i (a :: q1)); [done|left]).
    cbn. f_equal. f_equal. symmetry. eapply kept_data; [done|done|]. apply Hat. intros ->.
    destruct (table_nodes _ _ _ _ _ _ Htb Ha). unfold node_at in *. congruence.
Qed.

Lemma alone_table st h t sl R i c w st1 st' key' value' :
  table st h t sl R → sl !! i = Some 0 → R !! i = Some [] →
  0 ≤ key' → key' / tag_range t = Z.of_nat i → ptr c → mem st !! c = None →
  alone st t sl i c w st1 →
  node_at st' c (HNode w (key' mod tag_range t) key' value') →
  (∀ a, a ≠ c → mem st' !! a = mem st1 !! a) → null_free st' →
  ∃ sl' R', table st' h t sl' R' ∧ entries st' R' ≡ₚ (key', value') :: entries st R ∧
    head_keys st' R' = <[i := Some key']> (head_keys st R).
Proof.
  intros Htb Hhp Hl Hk0 Hi Hc Hfresh (hp' & Hp' & Hne & Hfresh' & Hhp' & Haw & Hsl1 & Hfr1) Hc' Hfr' H0'.
  pose proof (tb_hash _ _ _ _ _ Htb) as Hh. pose proof (tb_slots _ _ _ _ _ Htb) as Hs.
  assert (hash_slots t ≠ c) by congruence. assert (hash_slots t ≠ hp') by congruence.
  assert (mem st' !! hash_slots t = Some (OSlots (<[i := hp']> sl))) as Hs' by (by rewrite Hfr').
  assert (∀ a, a ≠ c → a ≠ hp' → a ≠ hash_slots t → mem st' !! a = mem st !! a) as Hfr.
  { intros a ???. rewrite Hfr' by done. by apply Hfr1. }
  assert (mem st' !! h = Some (OHash t)) as Hh'.
  { rewrite Hfr; [done|congruence..]. }
  assert (bucket st' t (Z.of_nat i) hp' [c]) as Hb.
  { right. split; [done|]. split; [done|]. split.
    - exists c. rewrite Hfr' by done. split; [done|]. by apply addr_ptr.
    - split; [|split].
      + split; [|split; [apply NoDup_singleton|by constructor]]. split; [|done]. by eauto.
      + intros a ->%list_elem_of_singleton. rewrite (the_node_at st' c _ Hc'). by rewrite <- Hi.
      + apply cyc_sorted_singleton. }
  assert (∀ a, is_Some (mem st !! a) → a ∉ [] → a ≠ 0 → a ≠ hash_slots t →
    mem st' !! a = mem st !! a) as Hother.
  { intros a [? Ha] _ _ ?. apply Hfr; congruence. }
  exists (<[i := hp']> sl), (<[i := [c]]> R). split; [|split].
  - eapply (update_table st st' h t sl R i 0 [] Htb); try done.
    + apply NoDup_singleton.
    + intros a ->%list_elem_of_singleton. right. intros Hj.
      destruct (table_nodes _ _ _ _ _ _ Htb Hj). unfold node_at in *. congruence.
    + right. left. intros Hin. apply list_elem_of_lookup in Hin as [j Hj].
      destruct (lookup_lt_is_Some_2 R j) as [lj Hlj].
      { rewrite <- (tb_length _ _ _ _ _ Htb). by eapply lookup_lt_Some. }
      destruct (tb_bucket _ _ _ _ _ Htb j hp' lj Hj Hlj) as [[? _]|(_ & _ & (w' & Hw' & _) & _)];
        [destruct Hp'; lia|congruence].
  - destruct (update_entries st st' h t sl R i 0 [] Htb Hhp Hl Hother [c]) as (E & HE & HE').
    rewrite HE', HE. cbn. unfold entry. by rewrite (the_node_at st' c _ Hc').
  - rewrite (update_head_keys st st' h t sl R i 0 [] Htb Hhp Hl Hother). cbn. by rewrite (the_node_at st' c _ Hc').
Qed.

(** The part of [__hash_create] for an empty bucket. *)
(** The bucket is given the head, or NULL, and the node made and linked. *)
Lemma create_alone_node N st h t sl i hp st1 :
  (S (size (mem st)) < N)%nat → h ≠ 0 → sl !! i = Some 0 →
  null_free st1 → (size (mem st1) ≤ S (size (mem st)))%nat → (hp = 0 → out_of_memory N) →
  mem st1 !! h = Some (OHash t) → mem st1 !! hash_slots t = Some (OSlots sl) →
  (hp ≠ 0 → ptr hp ∧ mem st1 !! hp = Some (OHead 0) ∧ mem st !! hp = None) →
  (∀ a, a ≠ hp → mem st1 !! a = mem st !! a) →
  wpf (out_of_memory N)
    (store_slot h (Z.of_nat i) hp;;
     node ← hash_node_alloc;
     INIT_LIST_HEAD node;;
     store_head hp (λ _, node);;
     mret node)
    (λ c st', ptr c ∧ mem st !! c = None ∧ null_free st' ∧
       ∃ w, node_at st' c (HNode w 0 0 0) ∧ alone st t sl i c w st') st1.
Proof.
  intros HN Hh0 Hi H01 Hsz Hmem Hh1 Hs1 Hhp Hfr1. apply wpf_bind_wp.
  rewrite (wp_store_hslot h t sl _ _ 0) by (done || lia || by rewrite Nat2Z.id).
  rewrite Nat2Z.id. set (st2 := set_mem _ st1).
  assert (hash_slots t ≠ 0) as Hs0. { intros Heq. unfold null_free in H01. congruence. }
  apply wpf_bind_wp. apply (wp_alloc N).
  - subst st2. cbn. rewrite map_size_insert_Some by (rewrite Hs1; done). lia.
  - intros c st3 Hc Hfresh Hm Hg. subst st2. cbn in Hm, Hfresh.
    assert (c ≠ hash_slots t) as Hcs. { intros ->. by rewrite lookup_insert_eq in Hfresh. }
    rewrite lookup_insert_ne in Hfresh by done.
    assert (node_at st3 c (HNode 0 0 0 0)) as Hn3. { unfold node_at. by rewrite Hm, lookup_insert_eq. }
    unfold INIT_LIST_HEAD. apply wpf_bind_wp. rewrite (wp_store_hnode c _ _ _ _ Hn3).
    destruct (decide (hp = 0)) as [->|Hne].
    { apply wpf_fault; [by apply Hmem|]. unfold mbind, M_bind, store_head. cbn.
      rewrite Hm. destruct Hc. rewrite !lookup_insert_ne by lia. by rewrite H01. }
    destruct (Hhp Hne) as (Hp & Hhp1 & Hhpf).
    assert (hp ≠ c) by congruence. assert (hp ≠ hash_slots t) by congruence.
    apply wpf_bind_wp. erewrite wp_store_head.
    2:{ cbn. rewrite lookup_insert_ne, Hm by done. rewrite !lookup_insert_ne by done. done. }
    rewrite wpf_ret. split; [done|]. split; [by rewrite <- Hfr1|].
    split.
    { unfold null_free. cbn. rewrite Hm. destruct Hc, Hp. rewrite !lookup_insert_ne by lia. done. }
    exists c. split.
    { unfold node_at. cbn. by rewrite lookup_insert_ne, lookup_insert_eq. }
    exists hp. split; [done|]. split; [done|]. split; [done|]. cbn.
    split; [by rewrite lookup_insert_eq|]. split; [by apply addr_ptr|].
    split.
    + rewrite !lookup_insert_ne, Hm by done. by rewrite lookup_insert_ne, lookup_insert_eq.
    + intros a ???. rewrite !lookup_insert_ne, Hm by done. rewrite !lookup_insert_ne by done. by apply Hfr1.
  - intros st3 Hf Hm. rewrite wpf_bind. apply wpf_fault; [done|].
    unfold INIT_LIST_HEAD, store_node. rewrite Hm. subst st2. cbn.
    rewrite lookup_insert_ne by done. by rewrite H01.
Qed.

Lemma create_alone_spec N st h t sl i :
  (S (size (mem st)) < N)%nat →   null_free st → mem st !! h = Some (OHash t) → mem st !! hash_slots t = Some (OSlots sl) →
  sl !! i = Some 0 → h ≠ 0 →
  wpf (out_of_memory N)
    (head_pointer ← head_alloc;
     store_slot h (Z.of_nat i) head_pointer;;
     node ← hash_node_alloc;
     INIT_LIST_HEAD node;;
     store_head head_pointer (λ _, node);;
     mret node)
    (λ c st', ptr c ∧ mem st !! c = None ∧ null_free st' ∧
       ∃ w, node_at st' c (HNode w 0 0 0) ∧ alone st t sl i c w st') st.
Proof.
  intros HN H0 Hh Hs Hi Hh0. apply wpf_bind_wp.
  apply (wp_alloc N); [lia| |].
  - intros hp st1 Hp Hfresh Hm Hg. apply (create_alone_node N st h t sl i); try done.
    + unfold null_free. rewrite Hm. destruct Hp. rewrite lookup_insert_ne by lia. done.
    + rewrite Hm, map_size_insert_None; done.
    + destruct Hp. lia.
    + rewrite Hm, lookup_insert_ne by congruence. done.
    + rewrite Hm, lookup_insert_ne by congruence. done.
    + intros _. rewrite Hm, lookup_insert_eq. done.
    + intros a ?. by rewrite Hm, lookup_insert_ne.
  - intros st1 Hf Hm. apply (create_alone_node N st h t sl i); unfold null_free; rewrite ?Hm; try done; lia.
Qed.

(** [__hash_create] in any bucket of a table. *)
Lemma hash_create_spec N st h t sl R i hp l tg :
  (S (size (mem st)) < N)%nat → table st h t sl R → sl !! i = Some hp → R !! i = Some l →
  wpf (out_of_memory N) (__hash_create h (Z.of_nat i) tg) (create_post st t sl i l tg) st.
Proof.
  intros HN Htb Hhp Hl. pose proof Htb as [H0 Hh Hs _ _ _ Hb _ _]. specialize (Hb i hp l Hhp Hl).
  assert (h ≠ 0) as Hh0. { intros ->. unfold null_free in H0. congruence. }
  unfold __hash_create. apply wpf_bind_wp.
  rewrite (wp_load_slot h t sl _ hp) by (done || lia || by rewrite Nat2Z.id).
  rewrite wpf_bind. destruct Hb as [[-> ->]|(Hptr & Hne & (w0 & Hw0 & Ha0) & Hr & Hok & Hcs)].
  - rewrite truthy_0. eapply wpf_mono; [by apply (create_alone_spec N st h t sl i)|].
    intros c st1 (Hc & Hfresh & H01 & w & Hnc & hp' & Hp' & Hnec & Hf' & Hhp' & Haw & Hsl' & Hfr).
    apply wpf_bind_wp. rewrite (wp_store_hnode c _ _ _ _ Hnc), wpf_ret.
    assert (hash_slots t ≠ c) by congruence. destruct Hc as [? ?].
    split; [done|]. split; [done|]. split; [unfold null_free; cbn; by rewrite lookup_insert_ne by lia|].
    eexists. split; [unfold node_at; cbn; by rewrite lookup_insert_eq|]. left. split; [done|].
    exists hp'. cbn. rewrite addr_set_counter, !lookup_insert_ne by done. repeat split; try done; try apply Hp'.
    intros a ???. rewrite lookup_insert_ne by done. by apply Hfr.
  - destruct l as [|a l]; [done|]. cbn [hd] in Ha0. rewrite (truthy_nz hp) by (destruct Hptr; lia).
    unfold get_head_node_by_head_pointer. apply wpf_bind_wp. rewrite (truthy_nz hp) by (destruct Hptr; lia).
    rewrite wp_bind, (wp_load_head hp w0), wp_ret by done. unfold __iptr_to_ptr. rewrite Ha0.
    fold (create_step). eapply wpf_mono; [by apply (create_ring_spec N st a l); [lia|..]|].
    intros c st1 (Hc & Hfresh & w & Hnc & Hlk).
    apply wpf_bind_wp. rewrite (wp_store_hnode c _ _ _ _ Hnc), wpf_ret.
    assert (c ∉ a :: l) as Hcl.
    { intros Hin. destruct (path_node _ _ _ _ (proj1 Hr) Hin) as [nd Hn]. unfold node_at in Hn. congruence. }
    split; [done|]. split; [done|]. split.
    + unfold null_free. cbn. destruct Hc. rewrite lookup_insert_ne by lia.
      destruct Hlk as (p & x & q & nx & Hal & _ & Hnx & _ & _ & Hfr). rewrite Hfr; [done| |lia].
      unfold node_at in Hnx. unfold null_free in H0. congruence.
    + eexists. split; [unfold node_at; cbn; by rewrite lookup_insert_eq|]. right. split; [done|].
      by apply finish_linked.
Qed.

(** The hot keys after an insertion into the bucket [i]: a key that finds it
    empty becomes its hot key. *)
Definition warm (i : nat) (k : Z) (hots : list (option Z)) : list (option Z) :=
  match hots !! i with Some None => <[i := Some k]> hots | _ => hots end.

Lemma hash_insert_hot N st h t sl R key' value' :
  (S (size (mem st)) < N)%nat →   table st h t sl R → 0 ≤ key' < 2 ^ hash_n t →
  wpf (out_of_memory N) (hash_insert h key' value')
    (λ e st', e = 0 ∧ ∃ sl' R', table st' h t sl' R' ∧
       entries st' R' ≡ₚ (key', value') :: entries st R ∧
       head_keys st' R' = warm (Z.to_nat (key' / tag_range t)) key' (head_keys st R)) st.
Proof.
  intros HN Htb Hkey. pose proof Htb as [H0 Hh Hs Hp _ _ _ _ _].
  destruct (key_bucket st h t sl R key' Htb Hkey) as (i & hp & l & Hi & Hhp & Hl & Hb).
  assert (head_keys st R !! i = Some ((λ a, key (the_node st a)) <$> head l)) as Hhead
    by (unfold head_keys; by rewrite list_lookup_fmap, Hl).
  unfold hash_insert, warm. apply wpf_bind_wp. rewrite (hashCode_spec st h t), <- Hi, Nat2Z.id, Hhead by (done || lia).
  rewrite wpf_bind. eapply wpf_mono; [by eapply hash_create_spec|].
  intros c st1 (Hc & Hfresh & H01 & w & Hnc & Hor). apply wpf_bind_wp.
  eapply wp_mono; [by apply fill_entry_spec|]. intros e st2 (-> & Hnc2 & _ & Hfr2).
  cbn [Z.ltb Z.compare]. rewrite wpf_ret. split; [done|].
  destruct Hor as [[-> Hal]|[Hne Hlk]].
  - assert (hp = 0) as -> by (by destruct Hb as [[? _]|(_ & ? & _)]).
    eapply (alone_table st h t sl R i c w st1 st2); try done; try lia.
    unfold null_free in *. rewrite Hfr2; [done|]. destruct Hc. lia.
  - destruct (linked_table st h t sl R i hp l c w st1 st2 key' value') as (? & ? & ? & _ & ? & ? & _ & ?); try done; [lia|].
    destruct l as [|a l]; [done|]. cbn. eauto.
Qed.

Lemma hash_insert_spec N st h t sl R key' value' :
  (S (size (mem st)) < N)%nat →   table st h t sl R → 0 ≤ key' < 2 ^ hash_n t →
  wpf (out_of_memory N) (hash_insert h key' value')
    (λ e st', e = 0 ∧ ∃ sl' R', table st' h t sl' R' ∧
       entries st' R' ≡ₚ (key', value') :: entries st R) st.
Proof.
  intros. eapply wpf_mono; [by eapply hash_insert_hot|]. intros e st' (? & sl' & R' & ? & ? & _). eauto.
Qed.
End insert.
