(* ===== verification/HotringDelete.v ===== *)
(** * The hot ring: deletion and the move of the head *)
From Stdlib Require Import SpecFloat.
From S2P Require Import Prelude Cyclic HotringDefs HotringInv HotringGet HotringInsert.

Section delete.

(** ** A node taken out of a ring *)

Section unlink.
Context (st : hstate) (p q : list Z) (x y : Z) (Hr : ring st (p ++ x :: y :: q)).

Lemma unlink_notin : x ∉ p ∧ x ∉ q ∧ y ∉ p ∧ y ∉ q ∧ x ≠ y ∧ NoDup (p ++ x :: q).
Proof.
  destruct Hr as (_ & Hnd & _). pose proof Hnd as Hnd0.
  apply list.NoDup_app in Hnd as (Hp & Hd & Hnd).
  pose proof (NoDup_cons_1_1 _ _ Hnd). pose proof (NoDup_cons_1_2 _ _ Hnd) as Hyq.
  pose proof (NoDup_cons_1_1 _ _ Hyq). pose proof (NoDup_cons_1_2 _ _ Hyq).
  split_and!; try set_solver.
  apply list.NoDup_app. split; [done|]. split; [set_solver|]. constructor; [set_solver|done].
Qed.

Context (st' : hstate) (nx nx' ny : hash_node) (t : hash) (i : Z).
Context (Hnx : node_at st x nx) (Hny : node_at st y ny) (Hnx' : node_at st' x nx').
Context (Hax : addr (word nx') = addr (word ny)).
Context (Hsame : tag nx' = tag nx ∧ key nx' = key nx ∧ value nx' = value nx).
Context (Hfr : ∀ a, a ≠ x → a ≠ y → mem st' !! a = mem st !! a).

Lemma unlink_ring : ring st' (p ++ x :: q).
Proof.
  destruct unlink_notin as (Hxp & Hxq & Hyp & Hyq & Hxy & Hnd'). destruct Hr as (Hpath & _ & Hptr).
  assert (∀ l e, x ∉ l → y ∉ l → path st l e → path st' l e) as Hkeep.
  { intros l e Hxl Hyl. apply path_frame. intros a nd Ha Hn. exists nd. split; [|done].
    unfold node_at in *. rewrite Hfr; [done|by intros ->..]. }
  split; [|split; [done|]].
  - rewrite (hd_app_cons 0 p x q (y :: q)). apply path_app in Hpath as [Hpp Hpx].
    apply path_app. cbn in *. split; [by apply Hkeep|].
    destruct Hpx as [_ [(nd & Hnd & Ha) Hpq]]. assert (nd = ny) as -> by (unfold node_at in *; congruence).
    split; [|by apply Hkeep]. exists nx'. split; [done|]. by rewrite Hax.
  - apply List.Forall_app in Hptr as [? Hx]. apply List.Forall_app. split; [done|].
    inversion Hx as [|? ? ? Hyq']; subst. inversion Hyq'; subst. by constructor.
Qed.

Lemma unlink_old a : a ∈ p ++ x :: q →
  tag (the_node st' a) = tag (the_node st a) ∧ key (the_node st' a) = key (the_node st a) ∧
  value (the_node st' a) = value (the_node st a).
Proof.
  intros Ha. destruct unlink_notin as (Hxp & Hxq & Hyp & Hyq & Hxy & _).
  destruct (decide (a = x)) as [->|].
  - by rewrite (the_node_at st x nx), (the_node_at st' x nx').
  - rewrite (the_node_same st st' a); [done|]. apply Hfr; [done|]. set_solver.
Qed.

Lemma unlink_bucket hp w :
  ptr hp → mem st !! hp = Some (OHead w) → addr w = hd 0 (p ++ x :: y :: q) →
  (∀ a, a ∈ p ++ x :: y :: q → node_ok t i (the_node st a)) →
  cyc_sorted (tags st (p ++ x :: y :: q)) → bucket st' t i hp (p ++ x :: q).
Proof.
  intros Hhp Hw Haw Hok Hcs. right. split; [done|]. split; [by destruct p|].
  assert (hp ≠ x) by (unfold node_at in *; congruence).
  assert (hp ≠ y) by (unfold node_at in *; congruence).
  split; [|split; [apply unlink_ring|split]].
  - exists w. rewrite Hfr by done. split; [done|]. by rewrite (hd_app_cons 0 p x q (y :: q)).
  - intros a Ha. destruct (unlink_old a Ha) as (Ht & Hk & _). unfold node_ok. rewrite Ht, Hk.
    apply Hok. set_solver.
  - rewrite (fmap_tags_same st st').
    2:{ intros a Ha. by apply unlink_old. }
    unfold tags in *. rewrite fmap_app in *. rewrite !fmap_cons in *.
    rewrite cons_middle, app_assoc in Hcs. rewrite cons_middle, app_assoc.
    by eapply cyc_delete.
Qed.

Lemma unlink_entries :
  (entry st <$> (p ++ x :: y :: q)) ≡ₚ (key ny, value ny) :: (entry st' <$> (p ++ x :: q)).
Proof.
  rewrite !fmap_app, !fmap_cons.
  assert (∀ l : list Z, (∀ a, a ∈ l → a ∈ p ++ x :: q) → entry st' <$> l = entry st <$> l) as Hsm.
  { intros l Hl. apply list_fmap_ext. intros j a Ha%list_elem_of_lookup_2.
    destruct (unlink_old a (Hl a Ha)) as (_ & Hk & Hv). unfold entry. by rewrite Hk, Hv. }
  rewrite (Hsm p), (Hsm q) by set_solver.
  assert (entry st' x = entry st x) as ->.
  { destruct (unlink_old x) as (_ & Hk & Hv); [set_solver|]. unfold entry. by rewrite Hk, Hv. }
  replace (entry st y) with (key ny, value ny)
    by (unfold entry; by rewrite (the_node_at st y ny)).
  solve_Permutation.
Qed.
End unlink.

(** ** [hotring_delete] *)

Lemma wp_free a (Q : () → hstate → Prop) st :
  a ≠ 0 → is_Some (mem st !! a) → wp (free a) Q st ↔ Q () (set_mem (delete a (mem st)) st).
Proof.
  intros Ha [o Ho]. unfold wp, free. rewrite (proj2 (Z.eqb_neq a 0)) by done. by rewrite Ho.
Qed.

Lemma wp_hnode_free a (Q : () → hstate → Prop) st :
  a ≠ 0 → is_Some (mem st !! a) → test_verbose st < 3 →
  wp (hotring_node_free a) Q st ↔ Q () (set_mem (delete a (mem st)) st).
Proof.
  intros Ha Ho Hv. unfold hotring_node_free. rewrite wp_bind, wp_free by done.
  rewrite wp_bind, wp_gets. cbn [test_verbose set_mem]. rewrite (proj2 (Z.leb_gt 3 _)) by done.
  by rewrite wp_ret.
Qed.

(** The keys of a table are where their hash says. *)
Lemma entries_bucket st h t sl R i l key' v :
  table st h t sl R → R !! i = Some l → Z.of_nat i = key' / tag_range t →
  (key', v) ∈ entries st R → key' ∈ keys st l.
Proof.
  intros Htb Hl Hi (a & Heq & Ha)%list_elem_of_fmap. unfold entry in Heq. injection Heq as Hk Hv.
  apply list_elem_of_join in Ha as (lj & Ha & Hlj). apply list_elem_of_lookup in Hlj as [j Hlj].
  destruct (lookup_lt_is_Some_2 sl j) as [hpj Hj].
  { rewrite (tb_length _ _ _ _ _ Htb). by eapply lookup_lt_Some. }
  destruct (tb_bucket _ _ _ _ _ Htb j hpj lj Hj Hlj) as [[_ ->]|(_ & _ & _ & _ & Hok & _)].
  { by apply elem_of_nil in Ha. }
  destruct (Hok a Ha) as (_ & Hd & _). assert (j = i) as -> by (rewrite <- Hk in Hd; lia).
  assert (lj = l) as -> by congruence. apply list_elem_of_fmap. by exists a.
Qed.

(** Deleting a node that is not the head of its ring. *)
Lemma delete_cold st h t sl R i hp p x y q :
  table st h t sl R → sl !! i = Some hp → R !! i = Some (p ++ x :: y :: q) → test_verbose st < 3 →
  wp (list_del x y;; hotring_node_free y)
    (λ _ st', table st' h t sl (<[i := p ++ x :: q]> R) ∧
       entries st R ≡ₚ entry st y :: entries st' (<[i := p ++ x :: q]> R) ∧
       globals st' = globals st ∧ (∀ a, a ≠ y → sim_at st st' a) ∧
       (∀ a, a ≠ x → a ≠ y → mem st' !! a = mem st !! a) ∧
       head_keys st' (<[i := p ++ x :: q]> R) = head_keys st R ∧ mem st' !! y = None) st.
Proof.
  intros Htb Hhp Hl Hv.
  pose proof (tb_bucket _ _ _ _ _ Htb i hp _ Hhp Hl) as [[_ Habs]|(Hptr & _ & (w0 & Hw0 & Ha0) & Hr & Hok & Hcs)].
  { by destruct p. }
  pose proof Hr as (Hpath & Hnd & Hptrs).
  destruct (path_node _ _ _ x Hpath) as [nx Hnx]; [set_solver|].
  destruct (path_node _ _ _ y Hpath) as [ny Hny]; [set_solver|].
  destruct (unlink_notin st p q x y Hr) as (_ & _ & _ & _ & Hxy & Hnd').
  assert (y ≠ 0) as Hy0.
  { assert (ptr y) as [? ?]; [|lia]. apply (proj1 (Forall_elem _ _) Hptrs). set_solver. }
  unfold list_del, __list_del_by_addr. rewrite wp_bind, wp_bind, (wp_load_hnode y ny) by done.
  rewrite wp_bind, (wp_store_hnode x _ nx) by done.
  erewrite wp_store_hnode by (unfold node_at; cbn; by rewrite lookup_insert_ne).
  rewrite wp_hnode_free; [|done|cbn; rewrite lookup_insert_eq; by eexists|done].
  set (st' := set_mem _ _). set (nx' := with_word (set_addr (word nx) (addr (word ny))) nx).
  assert (node_at st' x nx') as Hnx'.
  { unfold node_at. subst st'. cbn. by rewrite lookup_delete_ne, lookup_insert_ne, lookup_insert_eq. }
  assert (∀ a, a ≠ x → a ≠ y → mem st' !! a = mem st !! a) as Hfr.
  { intros a ??. subst st'. cbn. by rewrite lookup_delete_ne, !lookup_insert_ne. }
  assert (addr (word nx') = addr (word ny)) as Hax.
  { cbn. unfold addr, set_addr. rewrite field_set_same by lia. apply Z.mod_small. apply field_range. lia. }
  assert (bucket st' t (Z.of_nat i) hp (p ++ x :: q)) as Hb.
  { eapply (unlink_bucket st p q x y Hr st' nx nx' ny); done. }
  pose proof (tb_null _ _ _ _ _ Htb) as H0. pose proof (tb_hash _ _ _ _ _ Htb) as Hh.
  pose proof (tb_slots _ _ _ _ _ Htb) as Hs.
  assert (<[i := hp]> sl = sl) as Hsl by (by apply list_insert_id).
  assert (null_free st') as H0'.
  { unfold null_free in *. rewrite Hfr; [done|unfold node_at in *; congruence|done]. }
  assert (mem st' !! h = Some (OHash t)) as Hh'.
  { rewrite Hfr; [done|unfold node_at in *; congruence..]. }
  assert (mem st' !! hash_slots t = Some (OSlots (<[i := hp]> sl))) as Hs'.
  { rewrite Hsl, Hfr; [done|unfold node_at in *; congruence..]. }
  assert (∀ a, is_Some (mem st !! a) → a ∉ p ++ x :: y :: q → a ≠ hp → a ≠ hash_slots t →
    mem st' !! a = mem st !! a) as Hother.
  { intros a _ Hna _ _. apply Hfr; set_solver. }
  assert (∀ a, a ≠ y → sim_at st st' a) as Hat.
  { intros a Ha. destruct (decide (a = x)) as [->|]; [|by apply sim_at_same, Hfr].
    intros o Ho. unfold node_at in *. eexists. split; [done|]. by simplify_eq. }
  split; [|split; [|split; [done|split; [done|split; [done|split]]]]].
  - rewrite <- Hsl at 1. eapply (update_table st st' h t sl R i hp _ Htb); try done; [set_solver|by left].
  - destruct (update_entries st st' h t sl R i hp _ Htb Hhp Hl Hother (p ++ x :: q)) as (E & HE & HE').
    rewrite HE', HE.
    assert ((entry st <$> (p ++ x :: y :: q)) ≡ₚ (key ny, value ny) :: (entry st' <$> (p ++ x :: q))) as ->.
    { eapply (unlink_entries st p q x y Hr st' nx nx' ny); done. }
    assert (entry st y = (key ny, value ny)) as -> by (unfold entry; by rewrite (the_node_at st y ny)).
    done.
  - rewrite (update_head_keys st st' h t sl R i hp _ Htb Hhp Hl Hother). apply list_insert_id.
    unfold head_keys. rewrite list_lookup_fmap, Hl. cbn.
    assert (∃ a q1 q2, p ++ x :: y :: q = a :: q1 ∧ p ++ x :: q = a :: q2 ∧ a ≠ y) as (a & q1 & q2 & Hq1 & Hq2 & Hay).
    { destruct p as [|a p]; cbn; [by eauto 6|]. exists a. do 2 eexists. split; [done|]. split; [done|].
      cbn in Hnd. apply list.NoDup_cons in Hnd as [Hnd _]. set_solver. }
    rewrite Hq1 in Hl |- *. rewrite Hq2. cbn. do 2 f_equal. symmetry. eapply kept_data; [done| |by apply Hat].
    eapply (in_ring R i (a :: q1)); [done|left].
  - subst st'. cbn. by rewrite lookup_delete_eq.
Qed.

(** The head node of a ring freed and its bucket emptied. *)
Lemma drop_ring st h t sl R i hp a l :
  table st h t sl R → sl !! i = Some hp → R !! i = Some (a :: l) → test_verbose st < 3 →
  wp (hotring_node_free a;; hotring_head_free_by_index h (Z.of_nat i))
    (λ _ st', table st' h t (<[i := 0]> sl) (<[i := []]> R) ∧
       entries st R ≡ₚ (entry st <$> (a :: l)) ++ entries st' (<[i := []]> R) ∧ globals st' = globals st ∧
       (∀ b, b ≠ a → b ≠ hp → b ≠ hash_slots t → mem st' !! b = mem st !! b) ∧
       mem st' !! a = None ∧ mem st' !! hp = None ∧
       head_keys st' (<[i := []]> R) = <[i := None]> (head_keys st R)) st.
Proof.
  intros Htb Hhp Hl Hv.
  pose proof (tb_bucket _ _ _ _ _ Htb i hp _ Hhp Hl) as [[_ ?]|(Hptr & _ & (w0 & Hw0 & Ha0) & Hr & Hok & Hcs)];
    [done|].
  pose proof Hr as (Hpath & _ & Hptrs). inversion Hptrs as [|? ? Hpa _]; subst.
  destruct (path_node _ _ _ a Hpath) as [na Hna]; [left|].
  pose proof Htb as [H0 Hh Hs Hp _ _ _ _ _].
  assert (a ≠ 0) as Hane by (destruct Hpa; lia). assert (hp ≠ 0) as Hhp0 by (destruct Hptr; lia).
  assert (a ≠ h) by (unfold node_at in *; congruence).
  assert (a ≠ hash_slots t) by (unfold node_at in *; congruence).
  assert (a ≠ hp) by (unfold node_at in *; congruence).
  assert (hp ≠ hash_slots t) by congruence. assert (hp ≠ h) by congruence.
  rewrite wp_bind, wp_hnode_free by (done || by eexists).
  set (st1 := set_mem _ st). unfold hotring_head_free_by_index.
  assert (mem st1 !! h = Some (OHash t)) as Hh1 by (subst st1; cbn; by rewrite lookup_delete_ne).
  assert (mem st1 !! hash_slots t = Some (OSlots sl)) as Hs1 by (subst st1; cbn; by rewrite lookup_delete_ne).
  rewrite wp_bind, (wp_load_slot h t sl _ hp) by (done || lia || by rewrite Nat2Z.id).
  rewrite wp_bind, (wp_store_hslot h t sl _ _ hp) by (done || lia || by rewrite Nat2Z.id).
  rewrite Nat2Z.id.
  rewrite wp_free; [|done|subst st1; cbn; rewrite lookup_insert_ne, lookup_delete_ne by done; by eexists].
  set (st' := set_mem _ _).
  assert (mem st' = delete hp (<[hash_slots t := OSlots (<[i := 0]> sl)]> (delete a (mem st)))) as Hm by done.
  assert (globals st' = globals st) as Hg by done.
  clearbody st'. assert (h ≠ hash_slots t) by congruence.
  assert (∀ b, b ≠ a → b ≠ hp → b ≠ hash_slots t → mem st' !! b = mem st !! b) as Hfr.
  { intros b ???. by rewrite Hm, lookup_delete_ne, lookup_insert_ne, lookup_delete_ne. }
  assert (∀ b, is_Some (mem st !! b) → b ∉ a :: l → b ≠ hp → b ≠ hash_slots t →
    mem st' !! b = mem st !! b) as Hother by (intros b _ Hb ??; apply Hfr; set_solver).
  split; [|split; [|split; [done|split; [done|split; [|split]]]]].
  - eapply (update_table st st' h t sl R i hp _ Htb); try done.
    + unfold null_free in *. rewrite Hm, lookup_delete_ne by done.
      rewrite lookup_insert_ne by congruence. by rewrite lookup_delete_ne.
    + by rewrite Hm, lookup_delete_ne, lookup_insert_ne, lookup_delete_ne.
    + by rewrite Hm, lookup_delete_ne, lookup_insert_eq.
    + by left.
    + constructor.
    + by intros ? ?%elem_of_nil.
    + by right; right.
  - destruct (update_entries st st' h t sl R i hp _ Htb Hhp Hl Hother []) as (E & HE & HE').
    by rewrite HE', HE.
  - by rewrite Hm, lookup_delete_ne, lookup_insert_ne, lookup_delete_eq.
  - by rewrite Hm, lookup_delete_eq.
  - by rewrite (update_head_keys st st' h t sl R i hp _ Htb Hhp Hl Hother).
Qed.

(** The head of the ring and its first node are freed, the bucket is empty; the
    other nodes of the ring stay, and nothing leads to them. *)
Definition dropped (st : hstate) (h : Z) (t : hash) (sl : list Z) (R : list (list Z)) (i : nat)
    (hp a : Z) (l : list Z) (st' : hstate) : Prop :=
  table st' h t (<[i := 0]> sl) (<[i := []]> R) ∧
  entries st R ≡ₚ (entry st <$> (a :: l)) ++ entries st' (<[i := []]> R) ∧
  mem st' !! a = None ∧ mem st' !! hp = None ∧ (∀ b, b ∈ l → is_Some (mem st' !! b)) ∧
  head_keys st' (<[i := []]> R) = <[i := None]> (head_keys st R).

(** Deleting the head of a ring: its bucket is emptied. *)
Lemma delete_hot st h t sl R i hp a l key' :
  table st h t sl R → sl !! i = Some hp → R !! i = Some (a :: l) → test_verbose st < 3 →
  0 ≤ key' → Z.of_nat i = key' / tag_range t →
  wp (hotring_node_free a;; hotring_head_free h key')
    (λ _ st', dropped st h t sl R i hp a l st') st.
Proof.
  intros Htb Hhp Hl Hv Hk Hi.
  pose proof (drop_ring st h t sl R i hp a l Htb Hhp Hl Hv) as Hwp.
  pose proof (tb_bucket _ _ _ _ _ Htb i hp _ Hhp Hl) as [[_ ?]|(_ & _ & _ & Hr & _)]; [done|].
  pose proof Hr as (Hpath & _ & Hptrs). inversion Hptrs as [|? ? [? ?] _]; subst.
  destruct (path_node _ _ _ a Hpath) as [na Hna]; [left|].
  pose proof Htb as [_ Hh _ Hp _ _ _ _ _]. assert (a ≠ h) by (unfold node_at in *; congruence).
  rewrite wp_bind, wp_hnode_free in Hwp by (done || lia || by eexists).
  rewrite wp_bind, wp_hnode_free by (done || lia || by eexists).
  unfold hotring_head_free. rewrite wp_bind, (hashCode_spec _ h t).
  2:{ cbn. by rewrite lookup_delete_ne. } 2:{ done. } 2:{ done. }
  rewrite <- Hi. eapply wp_mono; [exact Hwp|]. intros ? st' (Htb' & HE & _ & Hfr & Hna' & Hhp' & Hheads).
  split; [done|]. split; [done|]. split; [done|]. split; [done|]. split; [|done]. intros b Hb.
  destruct (path_node _ _ _ b Hpath) as [nb Hnb]; [by right|]. pose proof (proj1 (proj2 Hr)) as Hnd.
  apply list.NoDup_cons in Hnd as [Hab _].
  assert (mem st !! hp ≠ Some (ONode nb)) as Hhn.
  { destruct (tb_bucket _ _ _ _ _ Htb i hp _ Hhp Hl) as [[_ ?]|(_ & _ & (w & Hw & _) & _)]; [done|]. by rewrite Hw. }
  pose proof (tb_slots _ _ _ _ _ Htb) as Hs. unfold node_at in Hnb.
  rewrite Hfr; [by eexists|..]; congruence.
Qed.

(** The key of the first node of some ring. *)
Definition hot_key (st : hstate) (R : list (list Z)) (key' : Z) : Prop :=
  ∃ i a l, R !! i = Some (a :: l) ∧ key (the_node st a) = key'.

Lemma not_hot_key st h t sl R i l key' :
  table st h t sl R → R !! i = Some l → Z.of_nat i = key' / tag_range t →
  key (the_node st (hd 0 l)) ≠ key' → ¬ hot_key st R key'.
Proof.
  intros Htb Hl Hi Hne (j & a & lj & Hlj & Hk). apply Hne.
  destruct (lookup_lt_is_Some_2 sl j) as [hpj Hj].
  { rewrite (tb_length _ _ _ _ _ Htb). by eapply lookup_lt_Some. }
  destruct (tb_bucket _ _ _ _ _ Htb j hpj _ Hj Hlj) as [[_ ?]|(_ & _ & _ & _ & Hok & _)]; [done|].
  destruct (Hok a) as (_ & Hd & _); [left|]. rewrite Hk in Hd. assert (j = i) as -> by lia.
  rewrite Hl in Hlj. injection Hlj as ->. done.
Qed.

(** What [hotring_delete] does, the head of a ring included. *)
Definition delete_post (st : hstate) (h : Z) (t : hash) (sl : list Z) (R : list (list Z)) (key' : Z) (r : bool)
    (st' : hstate) : Prop :=
  if r then
    (¬ hot_key st R key' ∧ ∃ R' v, table st' h t sl R' ∧ entries st R ≡ₚ (key', v) :: entries st' R' ∧
       head_keys st' R' = head_keys st R) ∨
    (∃ i hp a l, sl !! i = Some hp ∧ R !! i = Some (a :: l) ∧ key (the_node st a) = key' ∧
       Z.of_nat i = key' / tag_range t ∧ dropped st h t sl R i hp a l st')
  else
    (∀ v, (key', v) ∉ entries st R) ∧ table st' h t sl R ∧ entries st' R = entries st R ∧
    head_keys st' R = head_keys st R.

Lemma hotring_delete_spec st h t sl R key' :
  table st h t sl R → 0 ≤ key' < 2 ^ hash_n t → test_verbose st < 3 →
  wp (hotring_delete h key') (delete_post st h t sl R key') st.
Proof.
  intros Htb Hkey Hv. unfold hotring_delete. rewrite wp_bind.
  eapply wp_mono; [by eapply hash_get_spec|].
  intros [[r node] prev] st1 (Hsim & i & l & Hi & Hl & Hgot).
  pose proof (sim_table _ _ _ _ _ _ Hsim Htb) as Htb1. pose proof (sim_entries _ _ _ _ _ _ Hsim Htb) as Hent.
  pose proof (sim_head_keys _ _ _ _ _ _ Hsim Htb) as Hheads.
  assert (test_verbose st1 < 3) as Hv1. { destruct Hsim as [[Hg _] _]. unfold globals in Hg. congruence. }
  destruct (lookup_lt_is_Some_2 sl i) as [hp Hhp].
  { rewrite (tb_length _ _ _ _ _ Htb). by eapply lookup_lt_Some. }
  assert (∀ a, a ∈ l → entry st1 a = entry st a) as Hen.
  { intros a Ha. destruct (tb_bucket _ _ _ _ _ Htb i hp l Hhp Hl) as [[_ ->]|(_ & _ & _ & [Hp _] & _)].
    { by apply elem_of_nil in Ha. }
    destruct (sim_fields st st1 l _ a Hsim Hp Ha) as (_ & Hk & Hvl). unfold entry. by rewrite Hk, Hvl. }
  destruct r; cbn in Hgot; [| |destruct Hgot as (-> & a & q & -> & -> & Hka)
                           |destruct Hgot as (Hcold & p & y & q & -> & -> & Hky)].
  - destruct Hgot as (-> & -> & Hno). rewrite wp_ret. split; [|by rewrite Hent, Hheads].
    intros v Hin. apply Hno. by eapply entries_bucket.
  - done.
  - rewrite truthy_0. cbn [mbind]. rewrite wp_bind, wp_ret.
    assert (wp (hotring_node_free a;; hotring_head_free h key')
      (λ _ st', delete_post st h t sl R key' true st') st1) as Hwp.
    { eapply wp_mono; [by eapply (delete_hot st1 h t sl R i hp a q); [..|lia|done]|].
      intros _ st' (Htb' & HE & ? & ? & ? & Hhd). right. exists i, hp, a, q.
      split; [done|]. split; [done|]. split; [done|]. split; [done|].
      split; [done|]. split; [|split; [done|]; split; [done|]; split; [done|by rewrite Hhd, Hheads]].
      rewrite <- Hent, HE. f_equiv.
      erewrite list_fmap_ext; [done|]. intros j b Hb%list_elem_of_lookup_2. by apply Hen. }
    rewrite wp_bind in Hwp. rewrite wp_bind. eapply wp_mono; [exact Hwp|]. intros ? st2 Hwp2.
    rewrite wp_bind. eapply wp_mono; [exact Hwp2|]. intros ? st3 Hpost. by rewrite wp_ret.
  - assert (prev ≠ 0) as Hp0.
    { destruct (tb_bucket _ _ _ _ _ Htb i hp _ Hhp Hl) as [[_ ?]|(_ & _ & _ & (_ & _ & Hptrs) & _)].
      { by destruct p. }
      assert (ptr prev) as [? ?]; [|lia]. apply (proj1 (Forall_elem _ _) Hptrs). set_solver. }
    rewrite (truthy_nz prev) by done.
    assert (wp (list_del prev y;; hotring_node_free y)
      (λ _ st', delete_post st h t sl R key' true st') st1) as Hwp.
    { eapply wp_mono; [by eapply (delete_cold st1 h t sl R i hp p prev y q)|].
      intros _ st' (Htb' & HE & _ & _ & _ & Hhd & _). left.
      split; [by eapply not_hot_key|].
      exists (<[i := p ++ prev :: q]> R), (value (the_node st y)). split; [done|]. split; [|by rewrite Hhd, Hheads].
      rewrite <- Hent, HE, Hen by set_solver.
      unfold entry at 1. by rewrite Hky. }
    rewrite wp_bind in Hwp. rewrite wp_bind. eapply wp_mono; [exact Hwp|]. intros ? st2 Hwp2.
    rewrite wp_bind. eapply wp_mono; [exact Hwp2|]. intros ? st3 Hpost. by rewrite wp_bind, !wp_ret.
Qed.
End delete.
