(* ===== verification/HotringShift.v ===== *)
(** * The hot ring: moving the head to the hottest node *)
From Stdlib Require Import SpecFloat.
From S2P Require Import Prelude Cyclic HotringDefs HotringInv HotringGet HotringInsert HotringDelete.

(** ** The choice *)

Lemma SFltb_trans x y z : SFltb x y = true → SFltb y z = true → SFltb x z = true.
Proof.
  unfold SFltb, SFcompare.
  destruct x as [[]|[]| |[] mx ex], y as [[]|[]| |[] my ey], z as [[]|[]| |[] mz ez]; try done.
  all: intros Hxy Hyz; destruct (Z.compare_spec ex ey), (Z.compare_spec ey ez); try done.
  all: destruct (Z.compare_spec ex ez); try lia; try done.
  all: change (Pos.compare_cont Eq mx my) with (Pos.compare mx my) in *;
    change (Pos.compare_cont Eq my mz) with (Pos.compare my mz) in *;
    change (Pos.compare_cont Eq mx mz) with (Pos.compare mx mz) in *.
  all: destruct (Pos.compare_spec mx my), (Pos.compare_spec my mz), (Pos.compare_spec mx mz); (done || lia).
Qed.

Lemma SFltb_irrefl x : SFltb x x = false.
Proof.
  unfold SFltb, SFcompare. destruct x as [[]|[]| |[] m e]; try done;
    rewrite Z.compare_refl; cbn; by rewrite Pos.compare_cont_refl.
Qed.

Lemma SFltb_not_nan x y : SFltb x y = true → SFeqb x x = true.
Proof.
  unfold SFltb, SFeqb, SFcompare. destruct x as [b|b| |b m e]; try done.
  - by destruct b.
  - intros _. destruct b; rewrite Z.compare_refl; cbn; by rewrite Pos.compare_cont_refl.
Qed.

Lemma SFltb_eqb x y : SFltb x y = true → SFeqb x y = false.
Proof. unfold SFltb, SFeqb. by destruct (SFcompare x y) as [[]|]. Qed.

(** No position among the first [n] has a lower income than [j], and [j] has a
    lower one than the present head's unless it is that head's. *)
Definition least_upto (counters : list Z) (total : spec_float) (n j : Z) : Prop :=
  0 ≤ j < n ∧
  (∀ k, 0 ≤ k < n → SFltb (income_of counters total k) (income_of counters total j) = false) ∧
  (j ≠ 0 → SFltb (income_of counters total j) (income_of counters total 0) = true).

Definition least_income (counters : list Z) (total : spec_float) (j : nat) : Prop :=
  least_upto counters total (Z.of_nat (length counters)) (Z.of_nat j).

Lemma least_next counters total n j :
  least_upto counters total n j →
  least_upto counters total (n + 1)
    (if SFltb (income_of counters total n) (income_of counters total j) then n else j).
Proof.
  intros (Hj & Hmin & H0). destruct (SFltb (income_of _ _ n) _) eqn:Hlt; (split; [lia|]); split.
  - intros k Hk. destruct (decide (k = n)) as [->|]; [apply SFltb_irrefl|].
    destruct (SFltb (income_of _ _ k) (income_of _ _ n)) eqn:Hkn; [|done].
    pose proof (Hmin k ltac:(lia)). by rewrite (SFltb_trans _ _ _ Hkn Hlt) in *.
  - intros _. destruct (decide (j = 0)) as [->|]; [done|]. apply (SFltb_trans _ _ _ Hlt). by apply H0.
  - intros k Hk. destruct (decide (k = n)) as [->|]; [done|]. apply Hmin. lia.
  - done.
Qed.

Lemma hottest_from_spec fuel counters total n j0 :
  least_upto counters total n j0 →
  let '(m, j) := hottest_from fuel counters total n (income_of counters total j0, j0) in
  m = income_of counters total j ∧ least_upto counters total (n + Z.of_nat fuel) j.
Proof.
  revert n j0. induction fuel as [|fuel IH]; intros n j0 Hl; cbn [hottest_from fst].
  { split; [done|]. by rewrite Z.add_0_r. }
  pose proof (IH (n + 1) _ (least_next _ _ _ _ Hl)) as Hn.
  replace (n + Z.of_nat (S fuel)) with (n + 1 + Z.of_nat fuel) by lia.
  by destruct (SFltb (income_of counters total n) (income_of counters total j0)).
Qed.

(** When the head's own income is in range, the search finds the position with
    the least income. *)
Lemma hottest_of_spec c counters total m j :
  hottest_of (c :: counters) total = (m, j) →
  SFltb (income_of (c :: counters) total 0) (dbl 1000000000) = true →
  m = income_of (c :: counters) total j ∧
  least_upto (c :: counters) total (Z.of_nat (length (c :: counters))) j.
Proof.
  unfold hottest_of. cbn [length hottest_from fst]. intros Heq Hlt. rewrite Hlt in Heq.
  assert (least_upto (c :: counters) total (0 + 1) 0) as H1.
  { split; [lia|]. split; [|done]. intros k Hk. replace k with 0 by lia. apply SFltb_irrefl. }
  pose proof (hottest_from_spec (length counters) _ _ _ _ H1) as Hs. rewrite Heq in Hs.
  by replace (Z.of_nat (S (length counters))) with (0 + 1 + Z.of_nat (length counters)) by lia.
Qed.

(** ** Rotating a ring *)

#[local] Opaque dbl income_of hottest_of MAX_COUNTERS.

Lemma ring_rotate st p q : ring st (p ++ q) → ring st (q ++ p).
Proof.
  intros (Hp & Hnd & Hptr).
  destruct p as [|a p]; [by rewrite app_nil_r in *|]. destruct q as [|b q].
  { rewrite app_nil_r in Hp, Hnd, Hptr. done. }
  apply path_app in Hp as [Hp Hq]. split; [apply path_app; done|]. split.
  - by rewrite (Permutation_app_comm (b :: q)).
  - apply List.Forall_app in Hptr as [??]. by apply List.Forall_app.
Qed.

(** The counters a shift reads, and the state after they are taken. *)
Definition counters_of (st : hstate) (l : list Z) : list Z := (λ a, counter (word (the_node st a))) <$> l.

Lemma take_counter_spec st a nd :
  node_at st a nd →
  wp (take_counter a) (λ c st', c = counter (word nd) ∧ sim st st' ∧
    node_at st' a (with_word (set_counter (word nd) 0) nd) ∧
    ∀ b, b ≠ a → mem st' !! b = mem st !! b) st.
Proof.
  intros Hn. unfold take_counter. rewrite wp_bind, (wp_load_hnode a nd) by done.
  rewrite wp_bind, (wp_store_hnode a _ nd), wp_ret by done. split; [done|]. split.
  - eapply sim_store; [done|]. cbn. by rewrite addr_set_counter.
  - split; [unfold node_at; cbn; by rewrite lookup_insert_eq|]. intros b ?. cbn. by rewrite lookup_insert_ne.
Qed.

Definition shift_step (p : Z) (counters : list Z) : H (list Z + ()) :=
  if Nat.ltb (length counters) MAX_COUNTERS then
    c ← take_counter p;
    mret (@inl (list Z) () (counters ++ [c]))
  else fault.

Definition find_step (nr_hottest p i : Z) : H (Z + Z) :=
  mret (if i =? nr_hottest then inr p else inl (i + 1)).

Section walks.
Context (st : hstate) (a : Z) (l : list Z) (Hr : ring st (a :: l)).

(** The counters of the first nodes are taken, the others are as before. *)
Definition taken (p : list Z) (counters : list Z) (st1 : hstate) : Prop :=
  sim st st1 ∧ counters = counters_of st (a :: p) ∧
  (∀ x, x ∉ a :: p → mem st1 !! x = mem st !! x) ∧
  ∀ x, x ∈ a :: p → counter (word (the_node st1 x)) = 0.

Lemma take_walk st0 c0 :
  (length (a :: l) ≤ MAX_COUNTERS)%nat → taken [] c0 st0 →
  wp (list_for_each a c0 shift_step)
    (λ r st', match r with
       | inl counters => taken l counters st'
       | inr _ => False
       end) st0.
Proof.
  intros Hmax H0. pose proof Hr as (Hpath & Hnd & _). pose proof H0 as (Hsim0 & _).
  eapply (list_for_each_rule a l shift_step taken); [exact Hnd| |intros ? ? Ht; exact Ht| | |exact H0].
  - intros p x q counters st1 Hl (Hsim & Hc & Hsame & Hzero).
    destruct (ring_link st a l p x q Hr Hl) as (nx & Hnx & Hax).
    assert (x ∉ a :: p) as Hxp.
    { rewrite Hl in Hnd. rewrite app_comm_cons in Hnd. apply list.NoDup_app in Hnd as (_ & Hd & _).
      intros Hx. apply (Hd x Hx). left. }
    assert (node_at st1 x nx) as Hnx1. { unfold node_at. by rewrite Hsame. }
    unfold shift_step. rewrite (proj2 (Nat.ltb_lt _ _)).
    2:{ rewrite Hc. unfold counters_of. rewrite length_fmap. rewrite Hl in Hmax.
        cbn [length] in *. rewrite length_app in Hmax. cbn [length] in Hmax. lia. }
    rewrite wp_bind. eapply wp_mono; [by apply take_counter_spec|].
    intros c st2 (-> & Hs2 & Hn2 & Hfr2). rewrite wp_ret. split.
    + split; [by transitivity st1|]. split.
      * rewrite Hc. unfold counters_of. rewrite app_comm_cons, fmap_app. cbn.
        by rewrite (the_node_at st x nx).
      * split.
        -- intros y Hy. rewrite Hfr2 by set_solver. apply Hsame. set_solver.
        -- intros y Hy. destruct (decide (y = x)) as [->|].
           ++ rewrite (the_node_at st2 x _ Hn2). cbn. rewrite counter_set_counter. done.
           ++ rewrite (the_node_same st1 st2 y) by (by apply Hfr2). apply Hzero. set_solver.
    + eexists. split; [done|]. cbn. by rewrite addr_set_counter.
  - destruct (ring_head st a l Hr) as (nd & Hn & Ha).
    destruct (sim_node st st0 a nd Hsim0 Hn) as (nd' & ? & Ha' & _). exists nd'. by rewrite Ha'.
  - by apply (ring_fuel_enough st0 a), (sim_ring st st0).
Qed.

Lemma find_walk j :
  1 ≤ j < Z.of_nat (length (a :: l)) →
  wp (list_for_each a 1 (find_step j))
    (λ r st', st' = st ∧ match r with
       | inr x => ∃ p q, l = p ++ x :: q ∧ Z.of_nat (length (a :: p)) = j
       | inl _ => False
       end) st.
Proof.
  intros Hj. pose proof Hr as (_ & Hnd & _).
  eapply (list_for_each_rule a l (find_step j)
    (λ p i st1, st1 = st ∧ i = Z.of_nat (length p) + 1 ∧ i ≤ j)); try done.
  - intros p x q i st1 Hl (-> & -> & Hle). unfold find_step. rewrite wp_ret.
    destruct (Z.eqb_spec (Z.of_nat (length p) + 1) j); [split; [done|]; exists p, q; cbn [length]; split; [done|lia]|].
    split; [|by eapply ring_link].
    split; [done|]. rewrite length_app. cbn. lia.
  - intros i st1 (-> & -> & Hle). cbn [length] in Hj. lia.
  - by apply ring_head.
  - by apply (ring_fuel_enough st a).
  - split; [done|]. cbn. lia.
Qed.
End walks.

(** ** [do_hotspot_shift] *)

(** The head word changes, and points to a node of the ring. *)
Lemma head_moved st st' h t sl R i hp p q :
  table st h t sl R → sl !! i = Some hp → R !! i = Some (p ++ q) → q ≠ [] →
  (∃ w, mem st' !! hp = Some (OHead w) ∧ addr w = hd 0 q) →
  (∀ a, a ≠ hp → mem st' !! a = mem st !! a) → hp ≠ 0 →
  table st' h t sl (<[i := q ++ p]> R) ∧ entries st' (<[i := q ++ p]> R) ≡ₚ entries st R.
Proof.
  intros Htb Hhp Hl Hq (w & Hw & Haw) Hfr Hhp0.
  pose proof (tb_bucket _ _ _ _ _ Htb i hp _ Hhp Hl) as [[? _]|(Hptr & Hne & (w0 & Hw0 & Ha0) & Hr & Hok & Hcs)];
    [done|].
  pose proof Htb as [H0 Hh Hs Hp _ _ _ _ _].
  assert (∀ a, a ∈ p ++ q → a ≠ hp) as Hnhp.
  { intros a Ha ->. destruct (path_node _ _ _ _ (proj1 Hr) Ha) as [nd Hn]. unfold node_at in Hn. congruence. }
  assert (bucket st' t (Z.of_nat i) hp (q ++ p)) as Hb.
  { right. split; [done|]. split; [by destruct q|]. split; [exists w; split; [done|]; by destruct q|].
    apply ring_rotate in Hr as Hr'. split; [|split].
    - destruct Hr' as (Hp' & ?). split; [|done]. eapply path_frame; [|done].
      intros a nd Ha Hn. exists nd. split; [|done]. unfold node_at in *. rewrite Hfr; [done|].
      apply Hnhp. set_solver.
    - intros a Ha. rewrite (the_node_same st st' a); [apply Hok; set_solver|].
      apply Hfr, Hnhp. set_solver.
    - rewrite (fmap_tags_same st st').
      2:{ intros a Ha. rewrite (the_node_same st st' a); [done|]. apply Hfr, Hnhp. set_solver. }
      unfold tags in *. rewrite fmap_app in *. by apply cyc_rotate. }
  assert (∀ a, is_Some (mem st !! a) → a ∉ p ++ q → a ≠ hp → a ≠ hash_slots t →
    mem st' !! a = mem st !! a) as Hother by (intros; by apply Hfr).
  assert (<[i := hp]> sl = sl) as Hsl by (by apply list_insert_id). split.
  - rewrite <- Hsl at 1. eapply (update_table st st' h t sl R i hp _ Htb); try done.
    + unfold null_free in *. by rewrite Hfr.
    + rewrite Hfr; [done|congruence].
    + rewrite Hsl, Hfr; [done|congruence].
    + apply ring_rotate in Hr. apply Hr.
    + intros a Ha. left. set_solver.
    + by left.
  - destruct (update_entries st st' h t sl R i hp _ Htb Hhp Hl Hother (q ++ p)) as (E & HE & HE').
    rewrite HE', HE. f_equiv. rewrite !fmap_app, (Permutation_app_comm (entry st' <$> q)).
    assert (∀ k : list Z, (∀ a, a ∈ k → a ∈ p ++ q) → entry st' <$> k = entry st <$> k) as Hsm.
    { intros k Hk. apply list_fmap_ext. intros j a Ha%list_elem_of_lookup_2.
      unfold entry. rewrite (the_node_same st st' a); [done|]. by apply Hfr, Hnhp, Hk. }
    by rewrite (Hsm p), (Hsm q) by set_solver.
Qed.

(** The table is the same but for the counters and the place of one head, which
    has gone to the position with the least income for the counters [cs] and
    their total; the answer asks for a rehash when that income is still too
    much after a move. *)
Definition shifted (st : hstate) (h : Z) (t : hash) (sl : list Z) (R : list (list Z)) (i : nat)
    (l cs : list Z) (total : spec_float) (ret : hotspot_shift_t) (st' : hstate) : Prop :=
  ∃ p q, l = p ++ q ∧ q ≠ [] ∧ table st' h t sl (<[i := q ++ p]> R) ∧
    entries st' (<[i := q ++ p]> R) ≡ₚ entries st R ∧
    (∀ a, a ∈ l → counter (word (the_node st' a)) = 0) ∧
    least_income cs total (length p) ∧
    (ret = SHIFT_REHASH ↔
     p ≠ [] ∧ SFltb (dbl INCOME_THRESHOLD) (income_of cs total (Z.of_nat (length p))) = true).

(** The counter and the active bit are cleared. *)
Lemma stay_hot_spec st hp w :
  mem st !! hp = Some (OHead w) →
  wp (store_head hp (λ w, set_head_counter w 0);; store_head hp (λ w, set_active w 0);; mret SHIFT_SUCCESS)
    (λ ret st', ret = SHIFT_SUCCESS ∧ (∃ w', mem st' !! hp = Some (OHead w') ∧ addr w' = addr w) ∧ ∀ x, x ≠ hp → mem st' !! x = mem st !! x) st.
Proof.
  intros Hw. rewrite wp_bind, (wp_store_head hp _ _ _ _ Hw), wp_bind.
  erewrite wp_store_head by (cbn; by rewrite lookup_insert_eq). rewrite wp_ret.
  split; [done|]. split.
  - eexists. cbn. rewrite lookup_insert_eq. split; [done|]. by rewrite addr_set_active, addr_set_head_counter.
  - intros x ?. cbn. by rewrite !lookup_insert_ne.
Qed.

(** The walk has cleared the counters, and the head points to a node of the
    ring, the old one or another. *)
Lemma shift_done st st3 st4 h t sl R i hp l p q wf cs total ret :
  table st h t sl R → sim st st3 → sl !! i = Some hp → R !! i = Some l → l = p ++ q → q ≠ [] →
  hp ≠ 0 → (∀ x, x ∈ l → x ≠ hp) → (∀ x, x ∈ l → counter (word (the_node st3 x)) = 0) →
  mem st4 !! hp = Some (OHead wf) → addr wf = hd 0 q → (∀ x, x ≠ hp → mem st4 !! x = mem st3 !! x) →
  least_income cs total (length p) →
  (ret = SHIFT_REHASH ↔
   p ≠ [] ∧ SFltb (dbl INCOME_THRESHOLD) (income_of cs total (Z.of_nat (length p))) = true) →
  shifted st h t sl R i l cs total ret st4.
Proof.
  intros Htb Hs Hhp Hl Hpq Hq Hhp0 Hnhp Hzero Hwf Haw Hfr4 Hleast Hret.
  exists p, q. split; [done|]. split; [done|].
  destruct (head_moved st3 st4 h t sl R i hp p q) as [Htb4 He4]; try done.
  { by apply (sim_table _ _ _ _ _ _ Hs). } { by rewrite <- Hpq. } { by exists wf. }
  split; [done|]. split; [by rewrite He4, (sim_entries _ _ _ _ _ _ Hs Htb)|]. split; [|done]. intros x Hx.
  rewrite (the_node_same st3 st4 x); [by apply Hzero|]. by apply Hfr4, Hnhp.
Qed.

Lemma do_hotspot_shift_spec st h t sl R i hp a l w :
  table st h t sl R → sl !! i = Some hp → R !! i = Some (a :: l) → mem st !! hp = Some (OHead w) →
  (length (a :: l) ≤ MAX_COUNTERS)%nat →
  SFltb (income_of (counters_of st (a :: l)) (dbl (head_counter w)) 0) (dbl 1000000000) = true →
  wp (do_hotspot_shift hp a)
    (shifted st h t sl R i (a :: l) (counters_of st (a :: l)) (dbl (head_counter w))) st.
Proof.
  intros Htb Hhp Hl Hw Hmax Hinc.
  pose proof (tb_bucket _ _ _ _ _ Htb i hp _ Hhp Hl) as [[_ ?]|(Hptr & _ & (w0 & Hw0 & Ha0) & Hr & _ & _)];
    [done|].
  assert (w0 = w) as -> by congruence. cbn [hd] in Ha0.
  assert (hp ≠ 0) as Hhp0 by (destruct Hptr; lia).
  unfold do_hotspot_shift. rewrite wp_bind, (wp_store_head hp _ w) by done.
  set (st1 := set_mem _ st).
  assert (sim st st1) as Hs1. { eapply sim_store; [done|]. cbn. apply addr_set_active. }
  assert (mem st1 !! hp = Some (OHead (set_active w 1))) as Hw1.
  { subst st1. cbn. by rewrite lookup_insert_eq. }
  rewrite wp_bind, (wp_load_head hp _ _ _ Hw1), head_counter_set_active.
  pose proof (sim_ring _ _ _ Hs1 Hr) as Hr1. pose proof (sim_table _ _ _ _ _ _ Hs1 Htb) as Htb1.
  assert (∀ x, x ≠ hp → mem st1 !! x = mem st !! x) as Hfr1.
  { intros x ?. subst st1. cbn. by rewrite lookup_insert_ne. }
  assert (∀ x, x ∈ a :: l → x ≠ hp) as Hnhp.
  { intros x Hx ->. destruct (path_node _ _ _ _ (proj1 Hr) Hx) as [nd Hn]. unfold node_at in Hn. congruence. }
  assert (counters_of st1 (a :: l) = counters_of st (a :: l)) as Hco.
  { apply list_fmap_ext. intros k x Hx%list_elem_of_lookup_2.
    by rewrite (the_node_same st st1 x) by (by apply Hfr1, Hnhp). }
  clearbody st1. destruct (ring_head st1 a l Hr1) as (na & Hna & _).
  rewrite wp_bind. eapply wp_mono; [by apply take_counter_spec|].
  intros c st2 (-> & Hs2 & Hn2 & Hfr2). fold shift_step. rewrite wp_bind.
  eapply wp_mono.
  { apply (take_walk st1 a l Hr1); [done|]. split; [done|]. split.
    - unfold counters_of. cbn. by rewrite (the_node_at st1 a na).
    - split.
      + intros x Hx. apply Hfr2. intros ->. apply Hx. left.
      + intros x ->%list_elem_of_singleton. rewrite (the_node_at st2 a _ Hn2). cbn.
        by rewrite counter_set_counter. }
  intros [counters|[]] st3; [|done]. intros (Hs3 & -> & Hfr3 & Hzero). cbn zeta iota beta.
  rewrite Hco. set (cs := counters_of st (a :: l)) in *. set (total := dbl (head_counter w)) in *.
  assert (sim st st3) as Hs03 by (by transitivity st1).
  pose proof (sim_table _ _ _ _ _ _ Hs03 Htb) as Htb3. pose proof (sim_entries _ _ _ _ _ _ Hs03 Htb) as He3.
  assert (mem st3 !! hp = Some (OHead (set_active w 1))) as Hw3.
  { rewrite Hfr3; [done|]. intros Hin. by apply (Hnhp hp Hin). }
  assert (∀ x, x ∈ a :: l → counter (word (the_node st3 x)) = 0) as Hzero3 by exact Hzero.
  destruct (hottest_of cs total) as [m j] eqn:Hhot.
  pose proof Hhot as Hchoice. apply (hottest_of_spec _ _ _ _ _) in Hchoice; [|exact Hinc].
  change (length (counter (word (the_node st a)) :: _)) with (length cs) in Hchoice.
  change (counter (word (the_node st a)) :: _) with cs in Hchoice. destruct Hchoice as [-> Hleast].
  destruct (SFeqb (income_of cs total j) (income_of cs total 0)) eqn:Heq.
  - assert (j = 0) as ->.
    { destruct (decide (j = 0)) as [|Hj0]; [done|]. destruct Hleast as (_ & _ & Hlt).
      by rewrite (SFltb_eqb _ _ (Hlt Hj0)) in Heq. }
    eapply wp_mono; [by eapply stay_hot_spec|]. intros _ st4 (-> & (wf & Hwf & Hawf) & Hfr4).
    eapply (shift_done st st3 st4 h t sl R i hp (a :: l) [] (a :: l)); try done. { by rewrite Hawf, addr_set_active. }
    split; [done|]. by intros [? _].
  - destruct (decide (j = 0)) as [->|Hj0].
    { by rewrite (SFltb_not_nan _ _ Hinc) in Heq. }
    fold (find_step j). rewrite wp_bind. eapply wp_mono.
    { apply (find_walk st3 a l); [by apply (sim_ring st st3)|]. destruct Hleast as (Hj & _).
      unfold cs, counters_of in Hj. rewrite length_fmap in Hj. lia. }
    intros [?|x] st4 [-> Hx]; [done|]. destruct Hx as (p & q & -> & <-).
    assert (ptr x) as Hptrx.
    { destruct Hr as (_ & _ & Hptrs). apply (proj1 (Forall_elem _ _) Hptrs).
      clear. set_solver. }
    rewrite wp_bind, (wp_store_head hp _ _ _ _ Hw3). set (st5 := set_mem _ _).
    assert (mem st5 !! hp = Some (OHead x)) as Hw5 by (subst st5; cbn; by rewrite lookup_insert_eq).
    assert (∀ y, y ≠ hp → mem st5 !! y = mem st3 !! y) as Hfr5 by (intros y ?; subst st5; cbn; by rewrite lookup_insert_ne).
    destruct (SFltb (dbl INCOME_THRESHOLD) _) eqn:Hmuch.
    + rewrite wp_ret. eapply (shift_done st st3 st5 h t sl R i hp _ (a :: p) (x :: q)); try done. by apply addr_ptr.
    + eapply wp_mono; [by eapply stay_hot_spec|]. intros _ st6 (-> & (wf & Hwf & Hawf) & Hfr6).
      eapply (shift_done st st3 st6 h t sl R i hp _ (a :: p) (x :: q)); try done.
      * by rewrite Hawf, addr_ptr.
      * intros y ?. by rewrite Hfr6, Hfr5.
      * split; [done|]. intros [_ Hm]. by rewrite Hmuch in Hm.
Qed.
