(* ===== verification/HotringBlind.v ===== *)
(** * The hot ring: what does not look at the tags

    Lookup, deletion and the move of the head read keys and links only.  A
    memory whose tags are out of date, such as the one a rehash leaves, is
    therefore as good to them as the one with every tag recomputed. *)
From S2P Require Import Prelude Cyclic HotringDefs HotringInv HotringGet.

(** ** Recomputing the tags *)

(** Every node with the tag that a table of [r] tags gives its key. *)
Definition retag_obj (r : Z) (o : obj) : obj :=
  match o with ONode nd => ONode (with_tag (key nd mod r) nd) | _ => o end.

Definition retag (r : Z) (st : hstate) : hstate := set_mem (retag_obj r <$> mem st) st.

Lemma retag_lookup r st a : mem (retag r st) !! a = retag_obj r <$> mem st !! a.
Proof. apply lookup_fmap. Qed.

Lemma retag_insert r st a o : retag r (set_mem (<[a := o]> (mem st)) st) =
  set_mem (<[a := retag_obj r o]> (mem (retag r st))) (retag r st).
Proof. unfold retag. cbn. by rewrite fmap_insert. Qed.

Lemma retag_delete r st a : retag r (set_mem (delete a (mem st)) st) =
  set_mem (delete a (mem (retag r st))) (retag r st).
Proof. unfold retag. cbn. by rewrite fmap_delete. Qed.

Lemma node_at_retag r st a nd : node_at st a nd → node_at (retag r st) a (with_tag (key nd mod r) nd).
Proof. unfold node_at. rewrite retag_lookup. by intros ->. Qed.

Lemma node_at_retag_inv r st a nd :
  node_at (retag r st) a nd → ∃ nd0, node_at st a nd0 ∧ nd = with_tag (key nd0 mod r) nd0.
Proof.
  unfold node_at. rewrite retag_lookup. destruct (mem st !! a) as [[nd0| | |]|]; cbn; try done.
  intros [= <-]. by exists nd0.
Qed.

Lemma the_node_retag r st a :
  key (the_node (retag r st) a) = key (the_node st a) ∧ value (the_node (retag r st) a) = value (the_node st a)
  ∧ word (the_node (retag r st) a) = word (the_node st a).
Proof. unfold the_node. rewrite retag_lookup. by destruct (mem st !! a) as [[]|]. Qed.

Lemma tag_retag r st a nd : node_at st a nd → tag (the_node (retag r st) a) = key nd mod r.
Proof. intros H%(node_at_retag r). by rewrite (the_node_at _ _ _ H). Qed.

Lemma entry_retag r st a : entry (retag r st) a = entry st a.
Proof. destruct (the_node_retag r st a) as (Hk & Hv & _). unfold entry. by rewrite Hk, Hv. Qed.

Lemma entries_retag r st R : entries (retag r st) R = entries st R.
Proof. apply list_fmap_ext. intros. apply entry_retag. Qed.

Lemma path_retag r st l e : path (retag r st) l e ↔ path st l e.
Proof.
  induction l as [|a l IH]; cbn; [done|]. rewrite IH. f_equiv. split.
  - intros (nd & (nd0 & ? & ->)%node_at_retag_inv & ?). by exists nd0.
  - intros (nd & ? & ?). eexists. split; [by apply node_at_retag|done].
Qed.

Lemma ring_retag r st l : ring (retag r st) l ↔ ring st l.
Proof. unfold ring. by rewrite path_retag. Qed.

(** ** Runs that are the same in both memories *)

Class Blind {A} (r : Z) (m : H A) : Prop :=
  blind st : m (retag r st) =
    match m st with
    | Ok (x, st') => Ok (x, retag r st')
    | Fault => Fault
    | NoFuel => NoFuel
    end.

Lemma wp_retag {A} r (m : H A) `{!Blind r m} Q st :
  wp m Q (retag r st) ↔ wp m (λ x st', Q x (retag r st')) st.
Proof. unfold wp. rewrite blind. by destruct (m st) as [[x st']| |]. Qed.

Section blind.
Context {r : Z}.

#[export] Instance blind_ret {A} (x : A) : Blind r (mret x).
Proof. done. Qed.
#[export] Instance blind_fault {A} : Blind r (fault (A := A)).
Proof. done. Qed.
#[export] Instance blind_nofuel {A} : Blind r (nofuel (A := A)).
Proof. done. Qed.

#[export] Instance blind_bind {A B} (m : H A) (f : A → H B) :
  Blind r m → (∀ x, Blind r (f x)) → Blind r (m ≫= f).
Proof.
  intros Hm Hf st. unfold mbind, M_bind. rewrite (Hm st). destruct (m st) as [[x st']| |]; [|done..].
  apply Hf.
Qed.

(** A load whose continuation is the same for every tag. *)
Lemma blind_load_node {B} a (f : hash_node → H B) :
  (∀ nd t st, f (with_tag t nd) st = f nd st) → (∀ nd, Blind r (f nd)) → Blind r (load_node a ≫= f).
Proof.
  intros Ht Hf st. unfold mbind, M_bind, load_node. rewrite retag_lookup.
  destruct (mem st !! a) as [[nd| | |]|]; cbn; [|done..]. by rewrite Ht, Hf.
Qed.

(** A store of a new link. *)
#[export] Instance blind_store_word a (g : Z → Z) : Blind r (store_node a (λ nd, with_word (g (word nd)) nd)).
Proof.
  intros st. unfold store_node. rewrite retag_lookup.
  destruct (mem st !! a) as [[nd| | |]|]; cbn; [|done..]. by rewrite retag_insert.
Qed.
#[export] Instance blind_store_link a w : Blind r (store_node a (with_word w)).
Proof. apply (blind_store_word a (λ _, w)). Qed.

#[export] Instance blind_load_head a : Blind r (load_head a).
Proof. intros st. unfold load_head. rewrite retag_lookup. by destruct (mem st !! a) as [[]|]. Qed.
#[export] Instance blind_store_head a f : Blind r (store_head a f).
Proof.
  intros st. unfold store_head. rewrite retag_lookup. destruct (mem st !! a) as [[]|]; cbn; [done| |done..].
  by rewrite retag_insert.
Qed.
#[export] Instance blind_load_hash a : Blind r (load_hash a).
Proof. intros st. unfold load_hash. rewrite retag_lookup. by destruct (mem st !! a) as [[]|]. Qed.
#[export] Instance blind_load_slot h i : Blind r (load_slot h i).
Proof.
  intros st. unfold load_slot. rewrite retag_lookup. destruct (mem st !! h) as [[| |t|]|]; cbn; try done.
  rewrite lookup_fmap. destruct (mem st !! hash_slots t) as [[| | |l]|]; cbn; try done. by repeat case_match.
Qed.
#[export] Instance blind_store_slot h i x : Blind r (store_slot h i x).
Proof.
  intros st. unfold store_slot. rewrite retag_lookup. destruct (mem st !! h) as [[| |t|]|]; cbn; try done.
  rewrite lookup_fmap. destruct (mem st !! hash_slots t) as [[| | |l]|]; cbn; try done.
  repeat case_match; try done. by rewrite retag_insert.
Qed.
#[export] Instance blind_free a : Blind r (free a).
Proof.
  intros st. unfold free. rewrite retag_lookup. case_match; [done|].
  destruct (mem st !! a); cbn; [|done]. by rewrite retag_delete.
Qed.
#[export] Instance blind_ring_fuel : Blind r (gets ring_fuel).
Proof. intros st. unfold gets, ring_fuel. cbn. by rewrite map_size_fmap. Qed.
#[export] Instance blind_verbose : Blind r (gets test_verbose).
Proof. done. Qed.
#[export] Instance blind_count_request : Blind r count_request.
Proof. intros st. unfold count_request. cbn. by case_match. Qed.
#[export] Instance blind_nr_request : Blind r (gets nr_request).
Proof. done. Qed.
#[export] Instance blind_set_nr_request x : Blind r (modify (set_nr_request x)).
Proof. done. Qed.

#[local] Ltac blind :=
  repeat (apply _ || case_match || (apply blind_load_node; [done|intros]) || (apply blind_bind; [|intros])).

#[export] Instance blind_for_each_from {A R} fuel p head (s : A) (body : Z → A → H (A + R)) :
  (∀ x y, Blind r (body x y)) → Blind r (for_each_from fuel p head s body).
Proof. intros ?. revert p s. induction fuel; intros p s; cbn [for_each_from]; blind. Qed.
#[export] Instance blind_list_for_each {A R} head (s : A) (body : Z → A → H (A + R)) :
  (∀ x y, Blind r (body x y)) → Blind r (list_for_each head s body).
Proof. intros ?. unfold list_for_each. blind. Qed.
#[export] Instance blind_for_range {A} fuel i bound (s : A) (body : Z → A → H A) :
  (∀ x y, Blind r (body x y)) → Blind r (for_range fuel i bound s body).
Proof. intros ?. revert i s. induction fuel; intros i s; cbn [for_range]; blind. Qed.

#[export] Instance blind_list_del prev e : Blind r (list_del prev e).
Proof.
  unfold list_del, __list_del_by_addr. apply blind_load_node; [done|intros nd].
  apply blind_bind; [|intros; apply _]. apply (blind_store_word prev (λ w, set_addr w (addr (word nd)))).
Qed.
#[export] Instance blind_node_free a : Blind r (hotring_node_free a).
Proof. unfold hotring_node_free. blind. Qed.
#[export] Instance blind_hashCode h k : Blind r (hashCode h k).
Proof. unfold hashCode, ulong_bit, int_shl. blind. Qed.
#[export] Instance blind_head_node a : Blind r (get_head_node_by_head_pointer a).
Proof. unfold get_head_node_by_head_pointer. blind. Qed.
#[export] Instance blind_bump a : Blind r (bump_counter a).
Proof. apply (blind_store_word a (λ w, set_counter w (counter w + 1))). Qed.
#[export] Instance blind_get h k : Blind r (__hash_get h k).
Proof.
  unfold __hash_get. apply blind_bind; [apply _|intros [i ?]]. apply blind_bind; [apply _|intros hp].
  case_match; [|apply _]. apply blind_bind; [apply _|intros _]. apply blind_bind; [apply _|intros a].
  apply blind_load_node; [done|intros nd]. case_match; [blind|].
  apply blind_bind; [|intros [|[[]|]]; apply _].
  apply blind_list_for_each. intros x y. blind.
Qed.
#[export] Instance blind_head_free h k : Blind r (hotring_head_free h k).
Proof. unfold hotring_head_free. blind. Qed.
#[export] Instance blind_head_free_by_index h i : Blind r (hotring_head_free_by_index h i).
Proof. unfold hotring_head_free_by_index. blind. Qed.
#[export] Instance blind_delete h k : Blind r (hotring_delete h k).
Proof. unfold hotring_delete. blind. Qed.
#[export] Instance blind_delete_head h i : Blind r (hotring_delete_head h i).
Proof. unfold hotring_delete_head. blind. Qed.
End blind.
