(* ===== verification/HotringClient.v ===== *)
(** * The hot ring as its clients see it

    Creation of a table, and sequences of insertions, lookups and deletions
    against a multiset of (key, value) pairs. *)
From S2P Require Import Prelude Cyclic HotringDefs HotringInv HotringGet HotringInsert HotringDelete.

(** ** What every operation leaves alone

    The verbosity never changes, and an operation allocates at most [k]
    objects. *)

Definition calm (k : nat) (st st' : hstate) : Prop :=
  test_verbose st' = test_verbose st ∧ (size (mem st') ≤ size (mem st) + k)%nat.

#[export] Instance calm_graded : Graded calm.
Proof.
  split; [intros; split; [done|lia]|]. intros i j st1 st2 st3 [? ?] [? ?]. split; [congruence|lia].
Qed.

Lemma calm_0 st st' : calm 0 st st' → calm 2 st st'.
Proof. intros [? ?]. split; [done|lia]. Qed.

Abbreviation Quiet := (Within calm).

Section quiet.
Context `{!Calloc obj}.

#[local] Ltac access :=
  intros ? ? ?; repeat case_match; intros [= _ <-];
  (split; [done|]); cbn; rewrite ?map_size_insert_Some by (by eexists); try lia.

#[export] Instance quiet_load_node k a : Quiet k (load_node a).
Proof. unfold load_node. access. Qed.
#[export] Instance quiet_store_node k a f : Quiet k (store_node a f).
Proof. unfold store_node. access. Qed.
#[export] Instance quiet_load_head k a : Quiet k (load_head a).
Proof. unfold load_head. access. Qed.
#[export] Instance quiet_store_head k a f : Quiet k (store_head a f).
Proof. unfold store_head. access. Qed.
#[export] Instance quiet_load_hash k a : Quiet k (load_hash a).
Proof. unfold load_hash. access. Qed.
#[export] Instance quiet_load_slot k h i : Quiet k (load_slot h i).
Proof. unfold load_slot. access. Qed.
#[export] Instance quiet_store_slot k h i x : Quiet k (store_slot h i x).
Proof. unfold store_slot. access. Qed.
#[export] Instance quiet_free k a : Quiet k (free a).
Proof.
  unfold free. access.
  match goal with E : mem _ !! a = Some _ |- _ => rewrite (map_size_delete_Some _ _ (ex_intro _ _ E)) end. lia.
Qed.

Lemma quiet_alloc o : Quiet 1 (alloc o).
Proof.
  unfold alloc. intros st x st'. case_match eqn:E; intros [= _ <-]; (split; [done|]); cbn; [|lia].
  rewrite map_size_insert_None by (by eapply calloc_fresh). lia.
Qed.

#[export] Instance quiet_bind_alloc {B} k o (f : Z → H B) :
  (∀ x, Quiet k (f x)) → Quiet (S k) (alloc o ≫= f).
Proof. apply (within_plus 1), quiet_alloc. Qed.

#[local] Ltac quiet0 := repeat (case_match || apply _ || (apply within_bind; [|intros])).

#[export] Instance quiet_for_each_from {A R} fuel p head (s : A) (body : Z → A → H (A + R)) :
  (∀ x y, Quiet 0 (body x y)) → Quiet 0 (for_each_from fuel p head s body).
Proof. intros ?. revert p s. induction fuel; intros p s; cbn [for_each_from]; quiet0. Qed.
#[export] Instance quiet_list_for_each {A R} head (s : A) (body : Z → A → H (A + R)) :
  (∀ x y, Quiet 0 (body x y)) → Quiet 0 (list_for_each head s body).
Proof. intros ?. unfold list_for_each. quiet0. Qed.
#[local] Ltac quiet :=
  repeat (case_match || apply _ || (apply quiet_list_for_each; intros)
          || (apply quiet_bind_alloc; intros) || (apply within_bind; [|intros])).

#[export] Instance quiet_hashCode h k : Quiet 0 (hashCode h k).
Proof. unfold hashCode, ulong_bit, int_shl. quiet. Qed.
#[export] Instance quiet_hash_get h k : Quiet 0 (__hash_get h k).
Proof. unfold __hash_get, get_head_node_by_head_pointer, bump_counter. quiet. Qed.

(** A head and a node at most. *)
#[export] Instance quiet_create h i t : Quiet 2 (__hash_create h i t).
Proof.
  unfold __hash_create, get_head_node_by_head_pointer, head_alloc, hash_node_alloc, INIT_LIST_HEAD,
    list_add, __list_add. apply within_bind; [apply _|intros]. apply within_last; [|intros; quiet].
  case_match; quiet.
Qed.
#[export] Instance quiet_insert h k v : Quiet 2 (hash_insert h k v).
Proof.
  unfold hash_insert, insert_entries. apply within_bind; [apply _|intros]. case_match.
  apply within_last; [apply _|intros]. quiet.
Qed.
#[export] Instance quiet_delete h k : Quiet 0 (hotring_delete h k).
Proof.
  unfold hotring_delete, list_del, __list_del_by_addr, hotring_node_free, hotring_head_free. quiet.
Qed.
End quiet.

(** ** A new table *)

Section client.
Context `{!Calloc obj}.

Lemma table_empty st h t :
  null_free st → mem st !! h = Some (OHash t) →
  mem st !! hash_slots t = Some (OSlots (replicate (Z.to_nat (2 ^ hash_k t)) 0)) →
  params_ok t → hash_size t = 2 ^ hash_k t →
  table st h t (replicate (Z.to_nat (2 ^ hash_k t)) 0) (replicate (Z.to_nat (2 ^ hash_k t)) []).
Proof.
  intros H0 Hh Hs Hp Hsz. pose proof Hp as ((? & ?) & ? & ?).
  assert (0 < 2 ^ hash_k t) by lia.
  split; try done.
  - rewrite length_replicate. lia.
  - by rewrite !length_replicate.
  - intros i hp l [-> _]%lookup_replicate [-> _]%lookup_replicate. by left.
  - rewrite join_replicate. constructor.
  - by intros i j hp [-> _]%lookup_replicate.
Qed.

Lemma entries_replicate st n : entries st (replicate n []) = [].
Proof. unfold entries. by rewrite join_replicate. Qed.

Lemma hash_alloc_spec N st nbits kbits :
  (S (size (mem st)) < N)%nat →
  null_free st → 0 ≤ kbits ≤ nbits → nbits < 64 → nbits - kbits < 31 → kbits < 31 →
  wpf (out_of_memory N) (hash_alloc nbits kbits)
    (λ h st', h = 0 ∧ out_of_memory N ∧ mem st' = mem st ∨
       ∃ t sl R, table st' h t sl R ∧ entries st' R = [] ∧ hash_n t = nbits ∧ hash_k t = kbits ∧
         cur_hash st' = h ∧ (∀ a o, mem st !! a = Some o → mem st' !! a = Some o) ∧
         sl = replicate (Z.to_nat (2 ^ kbits)) 0 ∧ mem st !! hash_slots t = None ∧
         (base.size (mem st') ≤ base.size (mem st) + 2)%nat ∧ test_verbose st' = test_verbose st) st.
Proof.
  intros HN H0 Hk Hn Hd Hk31. unfold hash_alloc. apply wpf_bind_wp. apply (wp_alloc N); [lia|..].
  2:{ intros st1 Hoom Hm. rewrite truthy_0. left. done. }
  intros h st1 Hph Hfree Hm1 Hg1. rewrite truthy_nz by (destruct Hph; lia).
  assert (2 ^ kbits < 2 ^ 31) by (apply Z.pow_lt_mono_r; lia).
  assert (0 < 2 ^ kbits) by lia.
  rewrite !wpf_bind. apply wpf_of_wp. rewrite wp_int_shl, Z.mul_1_l by lia.
  apply wpf_bind_wp. apply (wp_alloc N); [by rewrite Hm1, map_size_insert_None|..].
  2:{ intros st2 Hoom _. rewrite truthy_0. done. }
  intros a st2 Hpa Hfree2 Hm2 Hg2. rewrite truthy_nz by (destruct Hpa; lia).
  unfold wpf, modify, mbind, M_bind, mret, M_ret. right.
  set (t := Hash nbits kbits (2 ^ kbits) a).
  assert (a ≠ h) as Hah. { intros ->. by rewrite Hm1, lookup_insert_eq in Hfree2. }
  exists t, (replicate (Z.to_nat (2 ^ kbits)) 0), (replicate (Z.to_nat (2 ^ kbits)) []).
  destruct Hph, Hpa. split; [|split; [apply entries_replicate|]].
  - apply (table_empty _ h t); cbn.
    + unfold null_free in *. cbn. rewrite Hm2, Hm1, !lookup_insert_ne by lia. done.
    + by rewrite lookup_insert_eq.
    + rewrite lookup_insert_ne, Hm2, lookup_insert_eq by done. done.
    + unfold params_ok. cbn. lia.
    + done.
  - assert (mem st !! a = None) as Hafree. { by rewrite Hm1, lookup_insert_ne in Hfree2 by done. }
    split; [done|]. split; [done|]. split; [done|]. split; [|split; [done|split; [done|split]]].
    + intros x o Hx. cbn. assert (x ≠ h) by congruence. assert (x ≠ a) by congruence.
      by rewrite lookup_insert_ne, Hm2, lookup_insert_ne, Hm1, lookup_insert_ne.
    + cbn. rewrite map_size_insert_Some by (rewrite Hm2, lookup_insert_ne, Hm1, lookup_insert_eq by done; by eexists).
      rewrite Hm2, map_size_insert_None, Hm1, map_size_insert_None by done. lia.
    + unfold globals in Hg1, Hg2. cbn. congruence.
Qed.

(** ** Lookups *)

Lemma entry_in st R i l a : R !! i = Some l → a ∈ l → entry st a ∈ entries st R.
Proof.
  intros Hl Ha. apply list_elem_of_fmap. exists a. split; [done|].
  apply list_elem_of_join. exists l. split; [done|]. by eapply list_elem_of_lookup_2.
Qed.

(** The outcome of a lookup, as a value: that of the node found. *)
Definition outcome (st : hstate) (node : option Z) : option Z := (λ a, value (the_node st a)) <$> node.

Definition lookup_post (E : list (Z * Z)) (key' : Z) (v : option Z) : Prop :=
  match v with
  | Some v => (key', v) ∈ E
  | None => ∀ v, (key', v) ∉ E
  end.

Lemma got_lookup st h t sl R i l key' r node prev :
  table st h t sl R → R !! i = Some l → Z.of_nat i = key' / tag_range t →
  got st l key' (r, node, prev) →
  lookup_post (entries st R) key' (outcome st node) ∧ (node = None ↔ r = GET_NOT_FOUND) ∧
  ∀ a, node = Some a → a ∈ l.
Proof.
  intros Htb Hl Hi Hg. destruct r; cbn in Hg; [| |destruct Hg as (-> & a & q & -> & -> & Hk)
                           |destruct Hg as (_ & p & a & q & -> & -> & Hk)].
  - destruct Hg as (-> & -> & Hno). split; [|done]. intros v Hin. apply Hno. by eapply entries_bucket.
  - done.
  - split; [|split; [done|]]; [|intros ? [= <-]; set_solver].
    cbn. rewrite <- Hk. eapply (entry_in st R i _ a Hl). set_solver.
  - split; [|split; [done|]]; [|intros ? [= <-]; set_solver].
    cbn. rewrite <- Hk. eapply (entry_in st R i _ a Hl). set_solver.
Qed.

Lemma hash_get_lookup st h t sl R key' :
  table st h t sl R → 0 ≤ key' < 2 ^ hash_n t →
  wp (__hash_get h key') (λ '(r, node, prev) st',
    sim st st' ∧ table st' h t sl R ∧ entries st' R = entries st R ∧
    lookup_post (entries st R) key' (outcome st' node) ∧ (node = None ↔ r = GET_NOT_FOUND) ∧
    ∀ a, node = Some a → ∃ nd, node_at st' a nd) st.
Proof.
  intros Htb Hkey. eapply wp_mono; [by eapply hash_get_spec|].
  intros [[r node] prev] st' (Hsim & i & l & Hi & Hl & Hg).
  pose proof (sim_table _ _ _ _ _ _ Hsim Htb) as Htb'. pose proof (sim_entries _ _ _ _ _ _ Hsim Htb) as Hent.
  destruct (got_lookup st h t sl R i l key' r node prev Htb Hl Hi Hg) as (Hlk & Hr & Hin).
  split; [done|]. split; [done|]. split; [done|].
  destruct (lookup_lt_is_Some_2 sl i) as [hp Hhp].
  { rewrite (tb_length _ _ _ _ _ Htb). by eapply lookup_lt_Some. }
  assert (∀ a, a ∈ l → value (the_node st' a) = value (the_node st a) ∧ ∃ nd, node_at st' a nd) as Hv.
  { intros a Ha. destruct (tb_bucket _ _ _ _ _ Htb i hp l Hhp Hl) as [[_ ->]|(_ & _ & _ & [Hp _] & _)].
    { by apply elem_of_nil in Ha. }
    destruct (sim_fields st st' l _ a Hsim Hp Ha) as (_ & _ & Hvl). split; [done|].
    destruct (path_node st l _ a Hp Ha) as [nd Hn]. destruct (sim_node st st' a nd Hsim Hn) as (nd' & ? & _).
    by exists nd'. }
  split; [|split; [done|]]; [|intros a Ha; by apply Hv, Hin].
  destruct node as [a|]; [|done]. cbn in *. destruct (Hv a) as [-> _]; [by apply Hin|done].
Qed.

(** ** Sequences of operations *)

Inductive hop := HopInsert (k v : Z) | HopGet (k : Z) | HopDelete (k : Z).
Inductive hanswer := AnsCode (e : Z) | AnsValue (v : option Z) | AnsDeleted (b : bool).

(** The client reads the value of the node a lookup stored through its argument. *)
Definition run_hop (h : Z) (o : hop) : H hanswer :=
  match o with
  | HopInsert k v => e ← hash_insert h k v; mret (AnsCode e)
  | HopGet k =>
      '(_, node, _) ← __hash_get h k;
      match node with
      | None => mret (AnsValue None)
      | Some a => nd ← load_node a; mret (AnsValue (Some (value nd)))
      end
  | HopDelete k => b ← hotring_delete h k; mret (AnsDeleted b)
  end.

Fixpoint run_hops (h : Z) (os : list hop) : H (list hanswer) :=
  match os with
  | [] => mret []
  | o :: os => a ← run_hop h o; l ← run_hops h os; mret (a :: l)
  end.

(** What the table stands for: a multiset of pairs, and the hot key of each
    bucket, if it has one. *)
Definition mset : Type := list (Z * Z) * list (option Z).

Definition bucket_of (range k : Z) : nat := Z.to_nat (k / range).

(** Lookups change nothing.  A key inserted into a bucket without a hot key is its
    hot key.  A deletion of a key that is not hot takes out one of its pairs;
    the deletion of a hot key takes out all the pairs of its bucket. *)
Inductive mset_step (range : Z) : mset → hop → hanswer → mset → Prop :=
| ms_insert E hots k v :
    mset_step range (E, hots) (HopInsert k v) (AnsCode 0) ((k, v) :: E, warm (bucket_of range k) k hots)
| ms_get E hots k v : lookup_post E k v → mset_step range (E, hots) (HopGet k) (AnsValue v) (E, hots)
| ms_delete_cold E hots k v E' :
    hots !! bucket_of range k ≠ Some (Some k) → E ≡ₚ (k, v) :: E' →
    mset_step range (E, hots) (HopDelete k) (AnsDeleted true) (E', hots)
| ms_delete_hot E hots k v :
    hots !! bucket_of range k = Some (Some k) → (k, v) ∈ E →
    mset_step range (E, hots) (HopDelete k) (AnsDeleted true)
      (filter (λ x, x.1 / range ≠ k / range) E, <[bucket_of range k := None]> hots)
| ms_absent E hots k :
    (∀ v, (k, v) ∉ E) → mset_step range (E, hots) (HopDelete k) (AnsDeleted false) (E, hots).

Inductive mset_steps (range : Z) : mset → list hop → list hanswer → mset → Prop :=
| mss_nil m : mset_steps range m [] [] m
| mss_cons m o a m1 os l m' :
    mset_step range m o a m1 → mset_steps range m1 os l m' → mset_steps range m (o :: os) (a :: l) m'.

Definition hop_key (o : hop) : Z := match o with HopInsert k _ | HopGet k | HopDelete k => k end.

#[export] Instance lookup_post_proper : Proper ((≡ₚ) ==> eq ==> eq ==> iff) lookup_post.
Proof.
  intros E E' HE k ? <- v ? <-. destruct v as [v|]; cbn; [by rewrite HE|].
  split; intros Hno v; [rewrite <- HE|rewrite HE]; apply Hno.
Qed.

(** The table [h] holds the multiset [E]. *)
Definition holds (st : hstate) (h : Z) (t : hash) (E : list (Z * Z)) : Prop :=
  ∃ sl R, table st h t sl R ∧ entries st R ≡ₚ E.

(** ... with these hot keys. *)
Definition holds_mset (st : hstate) (h : Z) (t : hash) (m : mset) : Prop :=
  ∃ sl R, table st h t sl R ∧ entries st R ≡ₚ m.1 ∧ head_keys st R = m.2.

Lemma holds_mset_intro st h t E : holds st h t E → ∃ hots, holds_mset st h t (E, hots).
Proof. intros (sl & R & ? & ?). by exists (head_keys st R), sl, R. Qed.

Definition hop_post (h : Z) (t : hash) (m : mset) (o : hop) (a : hanswer) (st' : hstate) : Prop :=
  ∃ m', holds_mset st' h t m' ∧ mset_step (tag_range t) m o a m'.

Lemma filter_none {A} (P : A → Prop) `{∀ x, Decision (P x)} (l : list A) : (∀ x, x ∈ l → ¬ P x) → filter P l = [].
Proof.
  induction l as [|x l IH]; [done|]. intros Hl. rewrite list.filter_cons_False by (apply Hl; left).
  apply IH. intros y Hy. apply Hl. by right.
Qed.

Lemma filter_all {A} (P : A → Prop) `{∀ x, Decision (P x)} (l : list A) : (∀ x, x ∈ l → P x) → filter P l = l.
Proof.
  induction l as [|x l IH]; [done|]. intros Hl. rewrite list.filter_cons_True by (apply Hl; left).
  f_equal. apply IH. intros y Hy. apply Hl. by right.
Qed.

(** An empty bucket has no pairs. *)
Lemma entries_no_bucket st h t sl R i k v :
  table st h t sl R → R !! i = Some [] → (k, v) ∈ entries st R → Z.of_nat i ≠ k / tag_range t.
Proof.
  intros Htb Hl Hin Hi. pose proof (entries_bucket st h t sl R i [] k v Htb Hl Hi Hin) as Hk.
  by apply elem_of_nil in Hk.
Qed.

(** The pairs of one bucket taken out of a table. *)
Lemma dropped_filter st h t sl R i hp a l st' :
  table st h t sl R → dropped st h t sl R i hp a l st' → R !! i = Some (a :: l) →
  entries st' (<[i := []]> R) ≡ₚ filter (λ x, x.1 / tag_range t ≠ Z.of_nat i) (entries st R).
Proof.
  intros Htb (Htb' & HE & _) Hl. rewrite HE, list.filter_app.
  assert (filter (λ x, x.1 / tag_range t ≠ Z.of_nat i) (entry st <$> a :: l) = []) as ->.
  { apply filter_none. intros x Hx. apply list_elem_of_fmap in Hx as (b & -> & Hb). intros Hno. apply Hno.
    destruct (slot_of _ _ _ _ _ _ _ Htb Hl) as [hp' Hhp].
    destruct (tb_bucket _ _ _ _ _ Htb i hp' _ Hhp Hl) as [[_ ?]|(_ & _ & _ & _ & Hok & _)]; [done|].
    by destruct (Hok b Hb) as (_ & ? & _). }
  cbn [app]. rewrite filter_all; [done|]. intros [k v] Hx. cbn. intros Heq.
  eapply (entries_no_bucket st' h t _ _ i k v Htb'); [|done|done].
  apply list_lookup_insert_eq. by eapply lookup_lt_Some.
Qed.

Lemma hot_lookup st h t sl R k :
  table st h t sl R → 0 ≤ k →
  head_keys st R !! bucket_of (tag_range t) k = Some (Some k) ↔ hot_key st R k.
Proof.
  intros Htb Hk. unfold head_keys, hot_key, bucket_of. rewrite list_lookup_fmap. split.
  - destruct (R !! _) as [[|a l]|] eqn:Hl; [done| |done]. cbn. intros [= Ha]. eauto.
  - intros (i & a & l & Hl & Ha). destruct (slot_of _ _ _ _ _ _ _ Htb Hl) as [hp Hhp].
    destruct (tb_bucket _ _ _ _ _ Htb i hp _ Hhp Hl) as [[_ ?]|(_ & _ & _ & _ & Hok & _)]; [done|].
    destruct (Hok a) as (_ & Hi & _); [left|]. rewrite <- Ha, Hi, Nat2Z.id, Hl. done.
Qed.

Lemma delete_hop st h t sl R E k b st' :
  table st h t sl R → entries st R ≡ₚ E → 0 ≤ k → delete_post st h t sl R k b st' →
  hop_post h t (E, head_keys st R) (HopDelete k) (AnsDeleted b) st'.
Proof.
  intros Htb HE Hk Hd. destruct b; cbn in Hd.
  - destruct Hd as [(Hcold & R' & v & Htb' & Hp & Hh)|(i & hp & a & l & Hhp & Hl & Ha & Hi & Hdr)].
    + exists (entries st' R', head_keys st R). split; [by exists sl, R'|].
      apply (ms_delete_cold _ _ _ _ v); [by rewrite (hot_lookup st h t sl R k Htb Hk)|by rewrite <- HE].
    + pose proof Hdr as (Htb' & _ & _ & _ & _ & Hh). pose proof (dropped_filter _ _ _ _ _ _ _ _ _ _ Htb Hdr Hl) as Hf.
      rewrite Hi in Hf.
      eexists. split; [|apply (ms_delete_hot _ _ _ k (value (the_node st a)))].
      * exists (<[i := 0]> sl), (<[i := []]> R). split; [done|]. cbn. split; [by rewrite Hf, HE|].
        rewrite Hh. unfold bucket_of. by rewrite <- Hi, Nat2Z.id.
      * apply (hot_lookup st h t sl R k Htb Hk). by exists i, a, l.
      * rewrite <- HE, <- Ha. eapply (entry_in st R i _ a Hl). left.
  - destruct Hd as (Hno & Htb' & Hent & Hh). exists (E, head_keys st R).
    split; [exists sl, R; by rewrite Hent|]. apply ms_absent. intros v. rewrite <- HE. apply Hno.
Qed.

(** A lookup or a deletion. *)
Definition reading (o : hop) : Prop := match o with HopInsert _ _ => False | _ => True end.

Lemma reading_hop_spec st h t m o :
  reading o → holds_mset st h t m → 0 ≤ hop_key o < 2 ^ hash_n t → test_verbose st < 3 →
  wp (run_hop h o) (λ a st', hop_post h t m o a st' ∧ calm 2 st st') st.
Proof.
  destruct m as [E hots]. intros Ho (sl & R & Htb & HE & Hh) Hkey Hv. cbn in HE, Hh. subst hots.
  destruct o as [k v|k|k]; cbn [run_hop hop_key] in *; [done|..].
  - rewrite wp_bind. eapply wp_mono; [apply (wp_within (R := calm) 0); [apply _|by eapply hash_get_lookup]|].
    intros [[r node] prev] st' [(Hsim & Htb' & Hent & Hlk & _ & Hnode) Hq%calm_0].
    assert (hop_post h t (E, head_keys st R) (HopGet k) (AnsValue (outcome st' node)) st') as Hpost.
    { exists (E, head_keys st R). split; [|constructor; by rewrite <- HE].
      exists sl, R. split; [done|]. by rewrite Hent, (sim_head_keys _ _ _ _ _ _ Hsim Htb). }
    destruct node as [a|]; [|by rewrite wp_ret].
    destruct (Hnode a eq_refl) as [nd Hn]. rewrite wp_bind, (wp_load_hnode a nd), wp_ret by done.
    cbn in Hpost. rewrite (the_node_at st' a nd) in Hpost by done. done.
  - rewrite wp_bind. eapply wp_mono; [apply (wp_within (R := calm) 0); [apply _|by eapply hotring_delete_spec]|].
    intros b st' [Hpost Hq%calm_0]. rewrite wp_ret. split; [eapply delete_hop; try done; lia|done].
Qed.

Lemma run_hop_spec N st h t m o :
  (size (mem st) + 2 ≤ N)%nat →
  holds_mset st h t m → 0 ≤ hop_key o < 2 ^ hash_n t → test_verbose st < 3 →
  wpf (out_of_memory N) (run_hop h o)
    (λ a st', hop_post h t m o a st' ∧ calm 2 st st') st.
Proof.
  intros HN Hh Hkey Hv. destruct o as [k v|k|k]; [|by apply wpf_of_wp, reading_hop_spec..].
  destruct m as [E hots], Hh as (sl & R & Htb & HE & Hh). cbn [run_hop hop_key fst snd] in *. subst hots.
  rewrite wpf_bind. eapply wpf_mono; [apply (wpf_within (R := calm) 2); [apply _|eapply (hash_insert_hot N); [lia|done..]]|].
  intros e st' [(-> & sl' & R' & Htb' & HE' & Hh') Hq]. rewrite wpf_ret. split; [|done].
  eexists. split; [|constructor]. exists sl', R'. split; [done|]. cbn. by rewrite HE', HE.
Qed.

Lemma run_hops_spec N st h t m os :
  (size (mem st) + 2 * length os ≤ N)%nat →
  holds_mset st h t m → Forall (λ o, 0 ≤ hop_key o < 2 ^ hash_n t) os → test_verbose st < 3 →
  wpf (out_of_memory N) (run_hops h os)
    (λ l st', ∃ m', holds_mset st' h t m' ∧ mset_steps (tag_range t) m os l m') st.
Proof.
  revert st m. induction os as [|o os IH]; intros st m HN Hh Hk Hv; cbn [run_hops length] in *.
  { rewrite wpf_ret. exists m. split; [done|constructor]. }
  apply List.Forall_cons_iff in Hk as [Hko Hk].
  rewrite wpf_bind. eapply wpf_mono; [apply run_hop_spec; [lia|done..]|]. intros a st1 [(m1 & Hh1 & Hs) [Hv1 Hsz]].
  rewrite wpf_bind. eapply wpf_mono; [apply IH; try done; lia|]. intros l st2 (m2 & Hh2 & Hss).
  rewrite wpf_ret. exists m2. split; [done|]. econstructor; [exact Hs|exact Hss].
Qed.

Lemma reading_hops_spec st h t m os :
  Forall reading os → holds_mset st h t m → Forall (λ o, 0 ≤ hop_key o < 2 ^ hash_n t) os → test_verbose st < 3 →
  wp (run_hops h os) (λ l st', ∃ m', holds_mset st' h t m' ∧ mset_steps (tag_range t) m os l m') st.
Proof.
  revert st m. induction os as [|o os IH]; intros st m Hr Hh Hk Hv; cbn [run_hops].
  { rewrite wp_ret. exists m. split; [done|constructor]. }
  apply List.Forall_cons_iff in Hk as [Hko Hk]. apply List.Forall_cons_iff in Hr as [Hro Hr].
  rewrite wp_bind. eapply wp_mono; [by apply reading_hop_spec|]. intros a st1 [(m1 & Hh1 & Hs) [Hv1 _]].
  rewrite wp_bind. eapply wp_mono; [apply IH; try done; lia|]. intros l st2 (m2 & Hh2 & Hss).
  rewrite wp_ret. exists m2. split; [done|]. econstructor; [exact Hs|exact Hss].
Qed.

(** ** The public lookup between two shifts *)

Lemma set_nr_request_table st r h t sl R :
  table st h t sl R → table (set_nr_request r st) h t sl R.
Proof. by apply table_mem. Qed.

Lemma wp_count_request (Q : () → hstate → Prop) st :
  nr_request st + 1 < 2 ^ 31 → wp count_request Q st ↔ Q () (set_nr_request (nr_request st + 1) st).
Proof. intros Hn. unfold wp, count_request. by rewrite (proj2 (Z.ltb_lt _ _) Hn). Qed.

Lemma hash_get_quiet st h t sl R key' :
  table st h t sl R → 0 ≤ key' < 2 ^ hash_n t → nr_request st + 1 < 5 →
  wp (hash_get h key') (λ '(found, node, prev, h') st',
    h' = h ∧ nr_request st' = nr_request st + 1 ∧ table st' h t sl R ∧
    entries st' R = entries st R ∧ lookup_post (entries st R) key' (outcome st' node) ∧
    (found = false ↔ node = None)) st.
Proof.
  intros Htb Hkey Hnr. unfold hash_get. rewrite wp_bind, wp_count_request, wp_bind by lia.
  set (st1 := set_nr_request _ st). assert (table st1 h t sl R) as Htb1 by (by apply set_nr_request_table).
  eapply wp_mono; [by apply (hash_get_lookup st1)|].
  intros [[r node] prev] st' (Hsim & Htb' & Hent & Hlk & Hr & _).
  pose proof Htb' as [_ Hh _ Hp _ _ _ _ _]. rewrite wp_bind, (hashCode_spec st' h t) by (done || lia).
  assert (nr_request st' = nr_request st + 1) as Hn.
  { destruct Hsim as [[Hg _] _]. unfold globals in Hg. cbn in Hg. congruence. }
  destruct r; [rewrite wp_ret; naive_solver..|].
  rewrite wp_bind, wp_gets, Hn. destruct (Z.leb_spec 5 (nr_request st + 1)); [lia|].
  rewrite wp_ret. naive_solver.
Qed.

(** An access to the node at the head adds one to the head's counter, to its width. *)
Lemma hot_get st h t sl R i hp a l w :
  table st h t sl R → sl !! i = Some hp → R !! i = Some (a :: l) → mem st !! hp = Some (OHead w) →
  nr_request st + 1 < 2 ^ 31 →
  wp (hash_get h (key (the_node st a))) (λ '(found, node, prev, h') st',
    found = true ∧ node = Some a ∧ h' = h ∧ table st' h t sl R ∧ nr_request st' = nr_request st + 1 ∧
    key (the_node st' a) = key (the_node st a) ∧
    ∃ w', mem st' !! hp = Some (OHead w') ∧ head_counter w' = (head_counter w + 1) mod 2 ^ 15) st.
Proof.
  intros Htb Hhp Hl Hw Hnr. set (k := key (the_node st a)). unfold hash_get. rewrite wp_bind, wp_count_request by done.
  set (st1 := set_nr_request _ st). assert (table st1 h t sl R) as Htb1 by (by apply set_nr_request_table).
  pose proof Htb1 as [_ Hh Hsl Hp _ _ _ _ _].
  destruct (tb_bucket _ _ _ _ _ Htb1 i hp _ Hhp Hl) as [[_ ?]|(Hptr & _ & (w1 & Hw1 & Haw) & Hr & Hok & _)];
    [done|].
  assert (w1 = w) as -> by (cbn in Hw1; congruence). destruct (Hok a) as (Hk0 & Hki & _); [left|].
  change (the_node st1 a) with (the_node st a) in Hk0, Hki. fold k in Hk0, Hki.
  assert (hp ≠ 0) as Hnz by (destruct Hptr; lia). destruct (ring_head st1 a l Hr) as (nd & Hnd & _).
  assert (key nd = k) as Hkn. { unfold k. by rewrite <- (the_node_at st1 a nd Hnd). }
  assert (a ≠ hp) as Hahp by (intros ->; unfold node_at in Hnd; congruence).
  unfold __hash_get. rewrite !wp_bind, (hashCode_spec st1 h t) by done. rewrite Hki.
  rewrite wp_bind, (wp_load_slot h t sl _ hp) by (done || lia || by rewrite Nat2Z.id).
  rewrite truthy_nz, wp_bind, (wp_store_head hp _ w) by done. set (st2 := set_mem _ st1).
  set (w2 := set_head_counter w (head_counter w + 1)).
  assert (mem st2 !! hp = Some (OHead w2)) as Hw2 by (subst st2; cbn; by rewrite lookup_insert_eq).
  assert (node_at st2 a nd) as Hnd2 by (unfold node_at, st2; cbn; by rewrite lookup_insert_ne).
  unfold get_head_node_by_head_pointer. rewrite truthy_nz, !wp_bind, (wp_load_head hp _ _ _ Hw2), wp_ret by done.
  unfold __iptr_to_ptr, w2. rewrite addr_set_head_counter, Haw. cbn [hd].
  rewrite wp_bind, (wp_load_hnode a nd), Hkn, Z.eqb_refl by done.
  assert (sim st1 st2) as Hs2. { eapply sim_store; [done|]. cbn. apply addr_set_head_counter. }
  unfold bump_counter. rewrite wp_bind, (wp_store_hnode a _ nd), wp_ret by done. set (st3 := set_mem _ st2).
  assert (sim st2 st3) as Hs3. { eapply sim_store; [done|]. cbn. by rewrite addr_set_counter. }
  assert (table st3 h t sl R) as Htb3.
  { apply (sim_table st2 st3); [done|]. by apply (sim_table st1 st2). }
  rewrite wp_bind, (hashCode_spec st3 h t), wp_ret by (done || apply Htb3).
  split; [done|]. split; [done|]. split; [done|]. split; [done|]. split; [done|]. split.
  - assert (node_at st3 a (with_word (set_counter (word nd) (counter (word nd) + 1)) nd)) as Hn3
      by (unfold node_at, st3; cbn; by rewrite lookup_insert_eq).
    by rewrite (the_node_at st3 a _ Hn3).
  - exists w2. split; [subst st3; cbn; by rewrite lookup_insert_ne|]. apply field_set_same; lia.
Qed.

(** [n] lookups of the key. *)
Fixpoint many_gets (n : nat) (h key' : Z) : H bool :=
  match n with
  | O => mret true
  | S n => '(b, _, _, _) ← hash_get h key'; b' ← many_gets n h key'; mret (b && b')
  end.

Lemma many_hot_gets n st h t sl R i hp a l w :
  table st h t sl R → sl !! i = Some hp → R !! i = Some (a :: l) → mem st !! hp = Some (OHead w) →
  nr_request st + Z.of_nat n < 2 ^ 31 →
  wp (many_gets n h (key (the_node st a))) (λ b st', b = true ∧ table st' h t sl R ∧
    nr_request st' = nr_request st + Z.of_nat n ∧
    ∃ w', mem st' !! hp = Some (OHead w') ∧ head_counter w' = (head_counter w + Z.of_nat n) mod 2 ^ 15) st.
Proof.
  revert st w. induction n as [|n IH]; intros st w Htb Hhp Hl Hw Hnr; cbn [many_gets].
  { rewrite wp_ret. split; [done|]. split; [done|]. split; [lia|]. exists w. split; [done|].
    rewrite Z.add_0_r, Z.mod_small; [done|]. apply field_range; lia. }
  rewrite wp_bind. eapply wp_mono; [eapply hot_get; try done; lia|].
  intros [[[b node] prev] h'] st1 (-> & _ & _ & Htb1 & Hn1 & Hk & w1 & Hw1 & Hc1). rewrite wp_bind, <- Hk.
  eapply wp_mono; [eapply IH; try done; lia|]. intros b st2 (-> & Htb2 & Hn2 & w2 & Hw2 & Hc2). rewrite wp_ret.
  split; [done|]. split; [done|]. split; [lia|]. exists w2. split; [done|].
  rewrite Hc2, Hc1, Z.add_mod_idemp_l by lia. f_equal. lia.
Qed.
End client.
