(* ===== verification/HotringMark.v ===== *)
(** * The hot ring: the milestones of a rehash

    The first loop of a rehash gives each ring of the old table two nodes
    without a value, where the rings of the new table are to begin, and the
    new table heads that point to them. *)
From S2P Require Import Prelude Cyclic HotringDefs HotringInv HotringGet HotringInsert HotringDelete HotringClient.

Definition head_to (st : hstate) (hp a : Z) : Prop :=
  ptr hp ∧ ∃ w, mem st !! hp = Some (OHead w) ∧ addr w = a.

(** An array of slots that are not the table's may change. *)
Lemma table_frame st st' h t sl R y :
  table st h t sl R → y ≠ hash_slots t → (∀ o, mem st !! y = Some o → ∃ ys, o = OSlots ys) → null_free st' →
  (∀ b o, b ≠ y → mem st !! b = Some o → mem st' !! b = Some o) →
  table st' h t sl R ∧ entries st' R = entries st R.
Proof.
  intros Htb Hy Hys H0' Hfr. pose proof Htb as [H0 Hh Hsl Hp Hsz Hlen Hb Hnd Hhd].
  assert (∀ a, a ∈ mjoin R → mem st' !! a = mem st !! a) as Hnode.
  { intros a Ha. destruct (table_nodes _ _ _ _ _ _ Htb Ha) as [nd Hn]. unfold node_at in Hn.
    rewrite Hn. apply Hfr; [|done]. intros ->. by destruct (Hys _ Hn). }
  split; [split; try done|].
  - apply Hfr; [|done]. intros ->. by destruct (Hys _ Hh).
  - by apply Hfr.
  - intros i hp l Hi Hl. pose proof (Hb i hp l Hi Hl) as [?|Hbk]; [by left|].
    apply (bucket_same st st'); [|..|by right].
    + intros a Ha. apply Hnode, list_elem_of_join. exists l. split; [done|]. by eapply list_elem_of_lookup_2.
    + destruct Hbk as (_ & _ & (w & Hw & _) & _). rewrite Hw. apply Hfr; [|done]. intros ->. by destruct (Hys _ Hw).
  - apply list_fmap_ext. intros k a Ha%list_elem_of_lookup_2. unfold entry.
    by rewrite (the_node_same st st' a) by (by apply Hnode).
Qed.

Lemma size_one_more st st' c :
  (∀ a, a ≠ c → is_Some (mem st' !! a) → is_Some (mem st !! a)) →
  (base.size (mem st') ≤ S (base.size (mem st)))%nat.
Proof.
  intros Hfr. rewrite <- !size_dom. transitivity (base.size ({[c]} ∪ dom (mem st) : gset Z)).
  - apply subseteq_size. intros a [o Ho]%elem_of_dom. apply elem_of_union.
    destruct (decide (a = c)) as [->|Ha]; [left; by apply elem_of_singleton|right].
    apply elem_of_dom. apply Hfr; [done|by eexists].
  - rewrite size_union_alt, size_singleton.
    assert (base.size (dom (mem st) ∖ {[c]} : gset Z) ≤ base.size (dom (mem st)))%nat; [|lia].
    apply subseteq_size. set_solver.
Qed.

Section plant.
Context `{!Calloc obj}.

(** A node [c] for [key'] in the ring [l] of the bucket [i], which is [l']
    then, and a head for it in the slot [j] of the new table. *)
Record planted (st : hstate) (h : Z) (t : hash) (sl : list Z) (R : list (list Z)) (i : nat)
    (l : list Z) (key' : Z) (t' : hash) (nsl : list Z) (j : nat) (st' : hstate) (l' : list Z) (c hp' : Z)
    : Prop := {
  pl_ring : ∃ p x q, l = p ++ x :: q ∧ l' = p ++ x :: c :: q;
  pl_table : table st' h t sl (<[i := l']> R);
  pl_entries : entries st' (<[i := l']> R) ≡ₚ (key', 0) :: entries st R;
  pl_key : key (the_node st' c) = key';
  pl_fresh : mem st !! hp' = None;
  pl_head : head_to st' hp' c;
  pl_slots : mem st' !! hash_slots t' = Some (OSlots (<[j := hp']> nsl));
  pl_keeps a : a ≠ hash_slots t' → sim_at st st' a;
  pl_size : (base.size (mem st') ≤ base.size (mem st) + 2)%nat;
  pl_verbose : test_verbose st' = test_verbose st
}.

(** The node alone is in its place. *)
Record grown (st : hstate) (h : Z) (t : hash) (sl : list Z) (R : list (list Z)) (i : nat)
    (l : list Z) (key' : Z) (st' : hstate) (l' : list Z) (c : Z) : Prop := {
  gr_ring : ∃ p x q, l = p ++ x :: q ∧ l' = p ++ x :: c :: q;
  gr_table : table st' h t sl (<[i := l']> R);
  gr_entries : entries st' (<[i := l']> R) ≡ₚ (key', 0) :: entries st R;
  gr_ptr : ptr c;
  gr_node : ∃ w tg, node_at st' c (HNode w tg key' 0);
  gr_keeps a : sim_at st st' a;
  gr_size : (base.size (mem st') ≤ base.size (mem st) + 1)%nat;
  gr_verbose : test_verbose st' = test_verbose st
}.

Lemma grown_rule {A} N st h t sl R i hp l tg (f : Z → Z) key' (K : Z → H A) Q :
  (base.size (mem st) + 1 < N)%nat → table st h t sl R → sl !! i = Some hp → R !! i = Some l → l ≠ [] →
  Z.of_nat i * tag_range t < 2 ^ 31 → f (Z.of_nat i * tag_range t) = key' → 0 ≤ key' →
  key' / tag_range t = Z.of_nat i → key' mod tag_range t = tg →
  (∀ st' l' c, grown st h t sl R i l key' st' l' c → wpf (out_of_memory N) (K c) Q st') →
  wpf (out_of_memory N)
    (node ← __hash_create h (Z.of_nat i) tg;
     base ← int_shl (Z.of_nat i) (hash_n t - hash_k t);
     _ ← insert_entries node (f base) tg 0;
     K node) Q st.
Proof.
  intros HN Htb Hhp Hl Hne Hbase Hf Hk0 Hki Hkt HK.
  pose proof Htb as [H0 _ _ Hpar _ _ _ _ _]. pose proof Hpar as (? & ? & ?).
  rewrite wpf_bind. eapply wpf_mono.
  { apply (wpf_within (R := calm) 2); [apply _|]. eapply (hash_create_spec N); [lia|done..]. }
  intros c st1 [(Hc & Hfresh & H01 & w & Hnc & Hor) [Hv1 _]].
  destruct Hor as [[? _]|[_ Hlk]]; [done|].
  apply wpf_bind_wp. fold (tag_range t) in *. rewrite wp_int_shl by (unfold tag_range in *; lia).
  fold (tag_range t). rewrite Hf.
  apply wpf_bind_wp. eapply wp_mono; [by apply fill_entry_spec|]. intros e st2 (-> & Hnc2 & Hg2 & Hfr2).
  subst tg. destruct (linked_table st h t sl R i hp l c w st1 st2 key' 0) as (p & x & q & Hpq & Htb2 & HE2 & Hat);
    try done.
  apply (HK st2 (p ++ x :: c :: q) c). split; try done.
  - by exists p, x, q.
  - by exists w, (key' mod tag_range t).
  - intros a. destruct (decide (a = c)) as [->|]; [intros o Ho; congruence|by apply Hat].
  - rewrite Nat.add_1_r. apply (size_one_more _ _ c). intros a Ha. rewrite Hfr2 by done.
    destruct Hlk as (? & x' & ? & nx & _ & _ & Hnx & _ & _ & Hfr). destruct (decide (a = x')) as [->|].
    + intros _. by eexists.
    + by rewrite Hfr.
  - unfold globals in Hg2. congruence.
Qed.

Lemma plant_rule {A} N st h t sl R i hp l new t' nsl j tg (f : Z → Z) key' (K : H A) Q :
  (base.size (mem st) + 1 < N)%nat → table st h t sl R → sl !! i = Some hp → R !! i = Some l → l ≠ [] →
  Z.of_nat i * tag_range t < 2 ^ 31 → f (Z.of_nat i * tag_range t) = key' → 0 ≤ key' →
  key' / tag_range t = Z.of_nat i → key' mod tag_range t = tg →
  mem st !! new = Some (OHash t') → mem st !! hash_slots t' = Some (OSlots nsl) →
  hash_slots t' ≠ hash_slots t → (j < length nsl)%nat →
  (∀ st' l' c hp', planted st h t sl R i l key' t' nsl j st' l' c hp' → wpf (out_of_memory N) K Q st') →
  wpf (out_of_memory N)
    (node ← __hash_create h (Z.of_nat i) tg;
     base ← int_shl (Z.of_nat i) (hash_n t - hash_k t);
     _ ← insert_entries node (f base) tg 0;
     head_pointer ← head_alloc;
     store_slot new (Z.of_nat j) head_pointer;;
     store_head head_pointer (λ _, node);;
     K) Q st.
Proof.
  intros HN Htb Hhp Hl Hne Hbase Hf Hk0 Hki Hkt Hnew Hnsl Hdiff Hj HK.
  apply (grown_rule N st h t sl R i hp l tg f key'); try done.
  intros st2 l' c [Hring Htb2 HE2 Hc (w & tg' & Hnc2) Hat2 Hsz2 Hv2].
  destruct (Hat2 new _ Hnew) as ([| |t2|] & Hnew2 & Heq); try done. cbn in Heq. subst t2.
  destruct (Hat2 _ _ Hnsl) as ([| | |l2] & Hnsl2 & Heq); try done. cbn in Heq. subst l2.
  destruct (lookup_lt_is_Some_2 nsl j Hj) as [y Hy]. pose proof (tb_null _ _ _ _ _ Htb2) as H02.
  assert (hash_slots t' ≠ 0) as Hns0. { intros E. rewrite E in Hnsl2. unfold null_free in H02. congruence. }
  apply wpf_bind_wp. apply (wp_alloc N); [lia|..]; cycle 1.
  { intros st3 Hoom Hm3. apply wpf_bind_wp.
    rewrite (wp_store_hslot new t' nsl _ _ y) by (rewrite ?Hm3, ?Nat2Z.id; done || lia).
    rewrite wpf_bind. apply wpf_fault; [done|]. unfold store_head. cbn.
    rewrite lookup_insert_ne, Hm3 by done. unfold null_free in H02. by rewrite H02. }
  intros hp' st3 Hp' Hf' Hm3 Hg3.
  assert (hp' ≠ hash_slots t') as Hhns by congruence. assert (hp' ≠ new) by congruence.
  apply wpf_bind_wp. rewrite (wp_store_hslot new t' nsl _ _ y).
  2:{ by rewrite Hm3, lookup_insert_ne. } 2:{ by rewrite Hm3, lookup_insert_ne. } 2:{ lia. }
  2:{ by rewrite Nat2Z.id. }
  rewrite Nat2Z.id. apply wpf_bind_wp. erewrite wp_store_head.
  2:{ cbn. by rewrite lookup_insert_ne, Hm3, lookup_insert_eq. }
  set (st' := set_mem _ _). apply (HK st' l' c hp').
  assert (mem st' = <[hp' := OHead c]> (<[hash_slots t' := OSlots (<[j := hp']> nsl)]>
    (<[hp' := OHead 0]> (mem st2)))) as Hm' by (subst st'; cbn; by rewrite Hm3).
  assert (∀ b o, b ≠ hash_slots t' → mem st2 !! b = Some o → mem st' !! b = Some o) as Hfr'.
  { intros b o ? Hb. rewrite Hm', !lookup_insert_ne by congruence. done. }
  destruct (table_frame st2 st' h t sl _ (hash_slots t') Htb2 Hdiff) as [Htb' HE']; [naive_solver| |done|].
  { unfold null_free in *. destruct Hp'. rewrite Hm', !lookup_insert_ne by lia. done. }
  assert (c ≠ hash_slots t') by congruence.
  split.
  - done.
  - done.
  - by rewrite HE'.
  - assert (node_at st' c (HNode w tg' key' 0)) as Hn' by (by apply Hfr').
    by rewrite (the_node_at _ _ _ Hn').
  - destruct (mem st !! hp') as [o|] eqn:E; [|done]. destruct (Hat2 hp' o E) as (? & ? & _). congruence.
  - split; [done|]. exists c. rewrite Hm', lookup_insert_eq. split; [done|]. by apply addr_ptr.
  - by rewrite Hm', lookup_insert_ne, lookup_insert_eq.
  - intros a Ha. eapply sim_at_trans; [apply Hat2|]. intros o Ho. exists o. split; [by apply Hfr'|].
    by destruct o.
  - rewrite Hm'. rewrite map_size_insert_Some by (rewrite lookup_insert_ne, lookup_insert_eq by done; by eexists).
    rewrite map_size_insert_Some by (rewrite lookup_insert_ne, Hnsl2 by done; by eexists).
    rewrite map_size_insert_None by done. lia.
  - unfold globals in Hg3. subst st'. cbn. congruence.
Qed.

(** ** The two milestones of a bucket *)

(** [r] is the number of tags of the new table: the milestones have the
    multiples of [r] for keys, the other keys are none. *)
Definition plain (st : hstate) (r : Z) (l : list Z) : Prop :=
  ∀ a, a ∈ l → key (the_node st a) mod r ≠ 0.

Definition marked (st : hstate) (r : Z) (j : nat) (l : list Z) (hp0 hp1 : Z) : Prop :=
  l ≠ [] ∧ key (the_node st (hd 0 l)) mod r ≠ 0 ∧
  ∃ m0 m1, m0 ∈ l ∧ m1 ∈ l ∧ key (the_node st m0) = 2 * Z.of_nat j * r ∧
    key (the_node st m1) = (2 * Z.of_nat j + 1) * r ∧ head_to st hp0 m0 ∧ head_to st hp1 m1 ∧
    ∀ a, a ∈ l → a = m0 ∨ a = m1 ∨ key (the_node st a) mod r ≠ 0.

(** The bucket [j] with its two slots of the new table, when the loop has
    come to the bucket [i]. *)
Definition mark_state (st : hstate) (r : Z) (i j : nat) (l : list Z) (hp0 hp1 : Z) : Prop :=
  if decide (j < i)%nat then l = [] ∧ hp0 = 0 ∧ hp1 = 0 ∨ marked st r j l hp0 hp1
  else plain st r l ∧ hp0 = 0 ∧ hp1 = 0.

Lemma mark_state_keep st st' r i j l hp0 hp1 :
  (∀ a, a ∈ l → key (the_node st' a) = key (the_node st a)) →
  (∀ hp a, head_to st hp a → head_to st' hp a) →
  mark_state st r i j l hp0 hp1 → mark_state st' r i j l hp0 hp1.
Proof.
  intros Hk Hh. unfold mark_state. case_decide.
  - intros [?|(Hne & Hhd & m0 & m1 & ? & ? & Hk0 & Hk1 & ? & ? & Hall)]; [by left|right].
    split; [done|]. split. { rewrite Hk; [done|]. destruct l; [done|left]. }
    exists m0, m1. rewrite !Hk by done. split_and!; try done; try (by apply Hh).
    intros a Ha. rewrite Hk by done. by apply Hall.
  - intros [Hp ?]. split; [|done]. intros a Ha. rewrite Hk by done. by apply Hp.
Qed.

(** The new table while its heads are made. *)
Record new_table (st : hstate) (new : Z) (t' : hash) (nsl : list Z) : Prop := {
  nt_hash : mem st !! new = Some (OHash t');
  nt_slots : mem st !! hash_slots t' = Some (OSlots nsl);
  nt_heads i j hp : nsl !! i = Some hp → nsl !! j = Some hp → hp ≠ 0 → i = j;
  nt_live hp : hp ∈ nsl → hp = 0 ∨ ∃ w, mem st !! hp = Some (OHead w)
}.

Lemma head_to_keep st st' hp a : sim_at st st' hp → head_to st hp a → head_to st' hp a.
Proof.
  intros Hs (? & w & Hw & Ha). split; [done|]. destruct (Hs _ Hw) as ([|w'| |] & ? & Hw'); try done.
  exists w'. cbn in Hw'. by rewrite Hw'.
Qed.

Lemma plant_new_table st t' nsl new hp' j st' y :
  new_table st new t' nsl → nsl !! j = Some y → mem st !! hp' = None → (∃ w, mem st' !! hp' = Some (OHead w)) →
  mem st' !! hash_slots t' = Some (OSlots (<[j := hp']> nsl)) →
  (∀ a, a ≠ hash_slots t' → sim_at st st' a) → new_table st' new t' (<[j := hp']> nsl).
Proof.
  intros [Hn Hs Hd Hl] Hj Hf Hw' Hs' Hat.
  assert (∀ b hp, nsl !! b = Some hp → hp ≠ 0 → hp ≠ hp') as Hold.
  { intros b hp Hb Hne ->. destruct (Hl hp') as [?|[w Hw]]; [by eapply list_elem_of_lookup_2|done|congruence]. }
  split.
  - destruct (Hat new) with (OHash t') as ([| |t2|] & ? & Heq); [congruence|done|done..| |done].
    cbn in Heq. by subst t2.
  - done.
  - intros a b hp Ha Hb Hne. apply list_lookup_insert_Some in Ha as [(<- & <- & _)|[? Ha]];
      apply list_lookup_insert_Some in Hb as [(<- & Hhp & _)|[? Hb]]; try done.
    + exfalso. by apply (Hold b hp').
    + exfalso. by apply (Hold a hp).
    + by eapply Hd.
  - intros hp [b Hb]%list_elem_of_lookup. apply list_lookup_insert_Some in Hb as [(_ & <- & _)|[_ Hb]].
    + by right.
    + destruct (Hl hp) as [?|[w Hw]]; [by eapply list_elem_of_lookup_2|by left|right].
      destruct (Hat hp) with (OHead w) as ([|w'| |] & ? & ?); [congruence|done|done| |done..]. by exists w'.
Qed.
(** What a planted node leaves as it is. *)
Lemma plant_kept st st' h t sl R t' nsl :
  table st h t sl R → mem st !! hash_slots t' = Some (OSlots nsl) →
  (∀ a, a ≠ hash_slots t' → sim_at st st' a) →
  (∀ a, a ∈ mjoin R → key (the_node st' a) = key (the_node st a)) ∧
  (∀ hp a, head_to st hp a → head_to st' hp a).
Proof.
  intros Htb Hs Hat. split.
  - intros a Ha. eapply kept_data; [done|done|]. apply Hat. intros ->.
    destruct (table_nodes _ _ _ _ _ _ Htb Ha). unfold node_at in *. congruence.
  - intros hp a Hh. apply (head_to_keep st); [|done]. apply Hat. destruct Hh as (_ & w & Hw & _). congruence.
Qed.

(** A planted ring: its members, its first node, and the new key. *)
Lemma plant_ring st st' h t sl R i l l' c t' nsl :
  (∃ p x q, l = p ++ x :: q ∧ l' = p ++ x :: c :: q) →
  table st h t sl R → R !! i = Some l → mem st !! hash_slots t' = Some (OSlots nsl) →
  (∀ a, a ≠ hash_slots t' → sim_at st st' a) →
  l' ≠ [] ∧ c ∈ l' ∧ (∀ a, a ∈ l → a ∈ l') ∧
  (∀ a, a ∈ l' → a = c ∨ a ∈ l ∧ key (the_node st' a) = key (the_node st a)) ∧
  key (the_node st' (hd 0 l')) = key (the_node st (hd 0 l)).
Proof.
  intros (p & x & q & -> & ->) Htb Hl Hs Hat.
  destruct (plant_kept st st' h t sl R t' nsl Htb Hs Hat) as [Hk _].
  assert (∀ a, a ∈ p ++ x :: q → key (the_node st' a) = key (the_node st a)) as Hk'.
  { intros a Ha. apply Hk. by eapply in_ring. }
  split; [by destruct p|]. split; [set_solver|]. split; [set_solver|]. split.
  - intros a Ha. destruct (decide (a = c)); [by left|right]. assert (a ∈ p ++ x :: q) by set_solver. auto.
  - rewrite (hd_app_cons 0 p x (c :: q) q). apply Hk'. destruct p; cbn; set_solver.
Qed.

Lemma mark_state_next st r i j l hp0 hp1 :
  j ≠ i → mark_state st r i j l hp0 hp1 → mark_state st r (S i) j l hp0 hp1.
Proof. unfold mark_state. intros. repeat case_decide; done || lia. Qed.

(** ** The first loop *)

(** The state when the loop has come to the bucket [i]: the old table with
    its milestones, and the new table's heads for them. *)
Record marking (h : Z) (t : hash) (sl : list Z) (new : Z) (t' : hash) (E0 : list (Z * Z)) (s0 : nat)
    (v : Z) (i : nat) (R1 : list (list Z)) (nsl : list Z) (st : hstate) : Prop := {
  mk_table : table st h t sl R1;
  mk_new : new_table st new t' nsl;
  mk_length : length nsl = (2 * length R1)%nat;
  mk_bucket j l hp0 hp1 : R1 !! j = Some l → nsl !! (2 * j)%nat = Some hp0 → nsl !! (2 * j + 1)%nat = Some hp1 →
    mark_state st (tag_range t') i j l hp0 hp1;
  mk_entries : ∃ M, Forall (λ x, x.1 mod tag_range t' = 0) M ∧ entries st R1 ≡ₚ M ++ E0;
  mk_size : (base.size (mem st) ≤ s0 + 4 * i)%nat;
  mk_verbose : test_verbose st = v
}.

Section mark.
Context (N : nat) (h : Z) (t : hash) (sl : list Z) (new : Z) (t' : hash) (E0 : list (Z * Z)) (s0 : nat) (v : Z).
Context (Hr : 0 < tag_range t') (Hrr : tag_range t = 2 * tag_range t') (Hdiff : hash_slots t' ≠ hash_slots t).
Context (HE0 : ∀ x, x ∈ E0 → x.1 < 2 ^ 31).

(** The index of a bucket with a key below 2^31 can be shifted in [int]. *)
Lemma mark_base i j R1 nsl st a l :
  marking h t sl new t' E0 s0 v j R1 nsl st → R1 !! i = Some (a :: l) →
  key (the_node st a) mod tag_range t' ≠ 0 → Z.of_nat i * tag_range t < 2 ^ 31.
Proof.
  intros Hm Hl Hp. pose proof (mk_table _ _ _ _ _ _ _ _ _ _ _ _ Hm) as Htb.
  destruct (mk_entries _ _ _ _ _ _ _ _ _ _ _ _ Hm) as (M & HM & HE).
  destruct (slot_of _ _ _ _ _ _ _ Htb Hl) as [hp Hhp].
  destruct (tb_bucket _ _ _ _ _ Htb i hp _ Hhp Hl) as [[_ ?]|(_ & _ & _ & _ & Hok & _)]; [done|].
  destruct (Hok a) as (Hk0 & Hki & _); [left|].
  assert (entry st a ∈ M ++ E0) as Hin. { rewrite <- HE. eapply entry_in; [done|left]. }
  apply elem_of_app in Hin as [Hin|Hin].
  - exfalso. apply Hp. exact (proj1 (Forall_elem _ _) HM _ Hin).
  - specialize (HE0 _ Hin). cbn in HE0. rewrite <- Hki.
    pose proof (Z.mul_div_le (key (the_node st a)) (tag_range t)). lia.
Qed.

Lemma plant_entries st R1 st' R' k :
  (∃ M, Forall (λ x, x.1 mod tag_range t' = 0) M ∧ entries st R1 ≡ₚ M ++ E0) →
  k mod tag_range t' = 0 → entries st' R' ≡ₚ (k, 0) :: entries st R1 →
  ∃ M, Forall (λ x, x.1 mod tag_range t' = 0) M ∧ entries st' R' ≡ₚ M ++ E0.
Proof.
  intros (M & HM & HE) Hk HE'. exists ((k, 0) :: M). split; [by constructor|]. by rewrite HE', HE.
Qed.

(** An empty bucket keeps the empty slots it has. *)
Lemma mark_skip i R1 nsl st :
  marking h t sl new t' E0 s0 v i R1 nsl st → R1 !! i = Some [] →
  marking h t sl new t' E0 s0 v (S i) R1 nsl st.
Proof.
  intros [Htb Hnt Hlen Hb HE Hsz Hv] Hl. split; try done; [|lia].
  intros j l hp0 hp1 Hj H0 H1. specialize (Hb j l hp0 hp1 Hj H0 H1).
  destruct (decide (j = i)) as [->|]; [|by apply mark_state_next].
  unfold mark_state in *. rewrite decide_False in Hb by lia. rewrite decide_True by lia.
  left. split; [congruence|apply Hb].
Qed.

(** The state after the two plantings. *)
Lemma mark_planted i R1 nsl st st1 st2 l l1 l2 c d hp0 hp1 :
  marking h t sl new t' E0 s0 v i R1 nsl st → R1 !! i = Some l → l ≠ [] → plain st (tag_range t') l →
  planted st h t sl R1 i l ((2 * Z.of_nat i + 1) * tag_range t') t' nsl (2 * i + 1) st1 l1 c hp1 →
  planted st1 h t sl (<[i := l1]> R1) i l1 (2 * Z.of_nat i * tag_range t') t' (<[(2 * i + 1)%nat := hp1]> nsl)
    (2 * i) st2 l2 d hp0 →
  marking h t sl new t' E0 s0 v (S i) (<[i := l2]> R1) (<[(2 * i)%nat := hp0]> (<[(2 * i + 1)%nat := hp1]> nsl)) st2.
Proof.
  intros [Htb Hnt Hlen Hb HE Hsz Hv] Hl Hne Hp P1 P2.
  pose proof (lookup_lt_Some _ _ _ Hl) as Hi. pose proof (nt_slots _ _ _ _ Hnt) as Hs.
  destruct P1 as [Hr1 Htb1 HE1 Hk1 Hf1 Hh1 Hs1 Hat1 Hsz1 Hv1].
  destruct P2 as [Hr2 Htb2 HE2 Hk2 Hf2 Hh2 Hs2 Hat2 Hsz2 Hv2]. set (r := tag_range t') in *.
  assert (<[i := l1]> R1 !! i = Some l1) as Hl1i by (by apply list_lookup_insert_eq).
  destruct (plant_ring st st1 h t sl R1 i l l1 c t' nsl) as (Hne1 & Hc1 & Hin1 & Hm1 & Hhd1); [done..|].
  destruct (plant_ring st1 st2 h t sl _ i l1 l2 d t' _ Hr2 Htb1 Hl1i Hs1 Hat2) as (Hne2 & Hd2 & Hin2 & Hm2 & Hhd2).
  rewrite list_insert_insert_eq in Htb2, HE2.
  destruct (plant_kept st st1 h t sl R1 t' nsl Htb Hs Hat1) as [Hkk1 Hhh1].
  destruct (plant_kept st1 st2 h t sl _ t' _ Htb1 Hs1 Hat2) as [Hkk2 Hhh2].
  assert (is_Some (nsl !! (2 * i + 1)%nat)) as [y1 Hy1] by (apply lookup_lt_is_Some_2; lia).
  assert (is_Some (<[(2 * i + 1)%nat := hp1]> nsl !! (2 * i)%nat)) as [y2 Hy2]
    by (apply lookup_lt_is_Some_2; rewrite length_insert; lia).
  split.
  - done.
  - eapply plant_new_table; [|done|done| |done|done]; [|destruct Hh2 as (_ & w & ? & _); by exists w].
    eapply plant_new_table; [done|done|done| |done|done]. destruct Hh1 as (_ & w & ? & _). by exists w.
  - by rewrite !length_insert.
  - intros j lj hpa hpb Hj Ha Hbb. destruct (decide (j = i)) as [->|Hji].
    + rewrite list_lookup_insert_eq in Hj by done.
      rewrite list_lookup_insert_eq in Ha by (rewrite ?length_insert; lia).
      rewrite list_lookup_insert_ne, list_lookup_insert_eq in Hbb by lia.
      injection Hj as <-. injection Ha as <-. injection Hbb as <-.
      unfold mark_state. rewrite decide_True by lia. right. split; [done|]. split.
      { rewrite Hhd2, Hhd1. apply Hp. destruct l; [done|left]. }
      exists d, c. split_and!; try done; [by apply Hin2| |by apply Hhh2|].
      * rewrite Hkk2; [done|]. by apply (in_ring _ i l1).
      * intros a Ha'. destruct (Hm2 a Ha') as [->|[Ha1 ->]]; [by left|right].
        destruct (Hm1 a Ha1) as [->|[Ha0 ->]]; [by left|right]. by apply Hp.
    + rewrite list_lookup_insert_ne in Hj by done. rewrite !list_lookup_insert_ne in Ha, Hbb by lia.
      apply mark_state_next; [done|]. eapply (mark_state_keep st1 st2); [|by apply Hhh2|].
      { intros a Hal. apply Hkk2. apply (in_ring _ j lj); [by rewrite list_lookup_insert_ne|done]. }
      eapply (mark_state_keep st st1); [|by apply Hhh1|by apply Hb].
      intros a Hal. apply Hkk1. by apply (in_ring _ j lj).
  - eapply plant_entries; [|by apply Z.mod_mul; lia|done]. eapply plant_entries; [done| |done].
    by apply Z.mod_mul; lia.
  - lia.
  - congruence.
Qed.

(** [m;; return]. *)
Lemma wpf_ret_unit (F : Prop) (m m' : H ()) Q st :
  m st = m' st → wpf F m' Q st → wpf F m Q st.
Proof. unfold wpf. by intros ->. Qed.

Lemma mark_body_spec i R1 nsl st l :
  params_ok t → (s0 + 4 * i + 3 < N)%nat →
  marking h t sl new t' E0 s0 v i R1 nsl st → R1 !! i = Some l →
  wpf (out_of_memory N) (mark_body h new (hash_n t - hash_k t) (tag_range t') (Z.of_nat i))
    (λ _ st', ∃ R2 nsl2, marking h t sl new t' E0 s0 v (S i) R2 nsl2 st') st.
Proof.
  intros Hpar HN Hm Hl. pose proof Hm as [Htb Hnt Hlen Hbk HE Hsz Hv].
  destruct (slot_of _ _ _ _ _ _ _ Htb Hl) as [hp Hhp].
  unfold mark_body. apply wpf_bind_wp.
  rewrite (wp_load_slot h t sl _ hp) by (done || apply Htb || lia || by rewrite Nat2Z.id).
  pose proof (tb_bucket _ _ _ _ _ Htb i hp l Hhp Hl) as [[-> ->]|(Hptr & Hne & _)].
  { rewrite truthy_0, wpf_ret. exists R1, nsl. by apply mark_skip. }
  rewrite truthy_nz by (destruct Hptr; lia). pose proof (lookup_lt_Some _ _ _ Hl) as Hi.
  destruct (lookup_lt_is_Some_2 nsl (2 * i)) as [ha Hha]; [lia|].
  destruct (lookup_lt_is_Some_2 nsl (2 * i + 1)) as [hb Hhb]; [lia|].
  assert (plain st (tag_range t') l) as Hp.
  { specialize (Hbk i l ha hb Hl Hha Hhb). unfold mark_state in Hbk. rewrite decide_False in Hbk by lia.
    apply Hbk. }
  assert (Z.of_nat i * tag_range t < 2 ^ 31) as Hbase.
  { destruct l as [|a l]; [done|]. eapply mark_base; [done|done|]. apply Hp. left. }
  set (r := tag_range t') in *.
  assert (∀ x, 0 ≤ x < tag_range t → (Z.of_nat i * tag_range t + x) / tag_range t = Z.of_nat i ∧
    (Z.of_nat i * tag_range t + x) mod tag_range t = x) as Hdm.
  { intros x Hx. split.
    - symmetry. apply (Z.div_unique_pos _ _ _ x); lia.
    - symmetry. apply (Z.mod_unique_pos _ _ (Z.of_nat i)); lia. }
  destruct (Hdm r) as [Hd1 Hmod1]; [lia|]. destruct (Hdm 0) as [Hd0 Hmod0]; [lia|]. rewrite Z.add_0_r in Hd0, Hmod0.
  replace (Z.of_nat i * 2 + 1) with (Z.of_nat (2 * i + 1)) by lia.
  replace (Z.of_nat i * 2) with (Z.of_nat (2 * i)) by lia.
  pose proof (nt_hash _ _ _ _ Hnt) as Hnew. pose proof (nt_slots _ _ _ _ Hnt) as Hs.
  eapply (plant_rule N st h t sl R1 i hp l new t' nsl (2 * i + 1) r (λ b, b + r)
    ((2 * Z.of_nat i + 1) * r)); try done; [lia|lia|lia|..].
  { by replace ((2 * Z.of_nat i + 1) * r) with (Z.of_nat i * tag_range t + r) by lia. }
  { by replace ((2 * Z.of_nat i + 1) * r) with (Z.of_nat i * tag_range t + r) by lia. }
  { lia. }
  intros st1 l1 c hp1 P1. pose proof P1 as [Hr1 Htb1 HE1 Hk1 Hf1 Hh1 Hs1 Hat1 Hsz1 Hv1].
  assert (mem st1 !! new = Some (OHash t')) as Hnew1.
  { destruct (Hat1 new) with (OHash t') as ([| |t2|] & ? & Heq); [congruence|done|done..| |done].
    cbn in Heq. by subst t2. }
  assert (l1 ≠ []) as Hne1 by (destruct Hr1 as (p & x & q & -> & ->); by destruct p).
  eapply wpf_ret_unit; [|eapply (plant_rule N st1 h t sl (<[i := l1]> R1) i hp l1 new t'
    (<[(2 * i + 1)%nat := hp1]> nsl) (2 * i) 0 (λ b, b) (2 * Z.of_nat i * r) (mret ()))]; try done.
  - unfold mbind, M_bind. repeat case_match; simplify_eq; try done. by repeat match goal with u : () |- _ => destruct u end.
  - lia.
  - by apply list_lookup_insert_eq.
  - lia.
  - lia.
  - by replace (2 * Z.of_nat i * r) with (Z.of_nat i * tag_range t) by lia.
  - by replace (2 * Z.of_nat i * r) with (Z.of_nat i * tag_range t) by lia.
  - rewrite length_insert. lia.
  - intros st2 l2 d hp0 P2. rewrite wpf_ret. exists (<[i := l2]> R1), (<[(2 * i)%nat := hp0]> (<[(2 * i + 1)%nat := hp1]> nsl)).
    by eapply (mark_planted i R1 nsl st st1 st2 l l1 l2 c d hp0 hp1).
Qed.
End mark.

(** Without memory for the new table, the first ring faults. *)
Lemma mark_body_null N h t sl R bits halfTag i l st :
  out_of_memory N → (S (base.size (mem st)) < N)%nat → table st h t sl R → R !! i = Some l →
  wpf (out_of_memory N) (mark_body h 0 bits halfTag (Z.of_nat i)) (λ _ st', st' = st ∧ l = []) st.
Proof.
  intros Hoom HN Htb Hl. destruct (slot_of _ _ _ _ _ _ _ Htb Hl) as [hp Hhp]. unfold mark_body.
  apply wpf_bind_wp. rewrite (wp_load_slot h t sl _ hp) by (done || apply Htb || lia || by rewrite Nat2Z.id).
  case_truthy hp Hnz; [|rewrite wpf_ret].
  2:{ split; [done|]. subst hp. by destruct (tb_bucket _ _ _ _ _ Htb i 0 l Hhp Hl) as [[_ ?]|([? ?] & _)]. }
  rewrite wpf_bind. eapply wpf_mono; [by eapply hash_create_spec|]. intros c st1 (Hc & _ & H01 & w & Hnc & _).
  rewrite wpf_bind. unfold int_shl at 1. case_match; [rewrite wpf_ret|by apply wpf_fault].
  apply wpf_bind_wp. eapply wp_mono; [by apply fill_entry_spec|]. intros e st2 (_ & _ & _ & Hfr2).
  assert (null_free st2) as H02. { unfold null_free in *. destruct Hc. rewrite Hfr2; [done|lia]. }
  apply wpf_bind_wp. unfold head_alloc, wp, alloc, wpf, mbind, M_bind, store_slot.
  destruct (calloc _ _) as [a|] eqn:E; cbn; [|by rewrite H02].
  apply calloc_range in E as [? ?]. rewrite lookup_insert_ne by lia. by rewrite H02.
Qed.

(** The hypotheses of a rehash: 32-bit keys of which the upper half is not in
    use, and no key that is a milestone. *)
Record rehashable (t : hash) (E : list (Z * Z)) : Prop := {
  rh_bits : hash_n t = NBITS;
  rh_buckets : hash_k t + 1 ≤ 30;
  rh_keys x : x ∈ E → x.1 < 2 ^ 31 ∧ x.1 mod (tag_range t / 2) ≠ 0
}.

(** The table of twice the size. *)
Record doubled (t t' : hash) : Prop := {
  db_bits : hash_n t' = hash_n t;
  db_buckets : hash_k t' = hash_k t + 1;
  db_params : params_ok t';
  db_range : tag_range t = 2 * tag_range t';
  db_slots : hash_slots t' ≠ hash_slots t
}.

(** Without memory for the new table, the loop ends only if all rings are empty. *)
Lemma mark_loop_null N h t sl R bits halfTag st :
  out_of_memory N → (S (base.size (mem st)) < N)%nat → table st h t sl R →
  wpf (out_of_memory N) (range_loop (Z.of_nat (length R)) () (λ i _, mark_body h 0 bits halfTag i))
    (λ _ st', st' = st ∧ ∀ i l, R !! i = Some l → l = []) st.
Proof.
  intros Hoom HN Htb. eapply wpf_mono.
  { apply (range_loop_rule _ _ _ (λ i _ st', st' = st ∧ ∀ j l, (j < i)%nat → R !! j = Some l → l = []));
      [|split; [done|lia]].
    intros i [] st2 Hi [-> Hempty]. destruct (lookup_lt_is_Some_2 R i Hi) as [l Hl].
    eapply wpf_mono; [by apply (mark_body_null N h t sl R _ _ i l)|].
    intros [] st2 [-> ->]. split; [done|]. intros j l Hj Hlj. destruct (decide (j = i)) as [->|]; [congruence|].
    apply (Hempty j); [lia|done]. }
  intros [] st2 [-> Hempty]. split; [done|]. intros i l Hl. apply (Hempty i); [by eapply lookup_lt_Some|done].
Qed.

(** The new table, and the old one that nothing was done to. *)
Lemma marking_start st st1 h t sl R new t' R0 :
  table st h t sl R → rehashable t (entries st R) → doubled t t' →
  table st1 new t' (replicate (2 * length R) 0) R0 →
  mem st !! hash_slots t' = None → (∀ a o, mem st !! a = Some o → mem st1 !! a = Some o) →
  (base.size (mem st1) ≤ base.size (mem st) + 2)%nat → test_verbose st1 = test_verbose st →
  marking h t sl new t' (entries st R) (base.size (mem st) + 2) (test_verbose st) 0 R (replicate (2 * length R) 0) st1.
Proof.
  intros Htb [_ _ Hkeys] Hdb Htb' Hfree Hkeep Hsz Hv.
  assert (∀ j y, replicate (2 * length R) 0 !! j = Some y → y = 0) as Hzero by (by intros j y [-> _]%lookup_replicate).
  assert (∀ a, a ∈ mjoin R → the_node st1 a = the_node st a) as Hnode.
  { intros a Ha. apply the_node_same. destruct (table_nodes _ _ _ _ _ _ Htb Ha) as [nd Hnd'].
    unfold node_at in Hnd'. rewrite Hnd'. by apply Hkeep. }
  assert (entries st1 R = entries st R) as Hent.
  { apply list_fmap_ext. intros j a Ha%list_elem_of_lookup_2. unfold entry. by rewrite Hnode. }
  split; [|split| | | | |].
  - apply (table_frame st st1 h t sl R (hash_slots t')); try done; [apply Hdb|congruence|apply Htb'|by auto].
  - apply Htb'.
  - apply Htb'.
  - intros i j hp Hi _ Hne. by apply Hzero in Hi.
  - intros hp [j Hj]%list_elem_of_lookup. left. by eapply Hzero.
  - by rewrite length_replicate.
  - intros j l hp0 hp1 Hj H0' H1'. unfold mark_state. rewrite decide_False by lia.
    split; [|split; by eapply Hzero]. intros a Ha. rewrite Hnode by (by eapply in_ring).
    pose proof (entry_in st R j l a Hj Ha) as Hin. apply Hkeys in Hin as [_ Hin]. cbn in Hin.
    replace (tag_range t / 2) with (tag_range t') in Hin; [done|].
    rewrite (db_range _ _ Hdb), Z.mul_comm. symmetry. by apply Z.div_mul.
  - exists []. split; [constructor|]. by rewrite Hent.
  - lia.
  - done.
Qed.

Lemma marking_loop N h t sl new t' E0 s0 v R nsl0 bits st :
  (∀ x, x ∈ E0 → x.1 < 2 ^ 31) → 0 < tag_range t' → doubled t t' → bits = hash_n t - hash_k t →
  (s0 + 4 * length R ≤ N)%nat → marking h t sl new t' E0 s0 v 0 R nsl0 st →
  wpf (out_of_memory N) (range_loop (Z.of_nat (length R)) () (λ i _, mark_body h new bits (tag_range t') i))
    (λ _ st', ∃ R1 nsl, marking h t sl new t' E0 s0 v (length R) R1 nsl st') st.
Proof.
  intros HE0 Hr0 [_ _ _ Hrr Hdiff] -> HN Hm0.
  apply (range_loop_rule _ _ _ (λ i _ st', ∃ R1 nsl, marking h t sl new t' E0 s0 v i R1 nsl st')); [|by exists R, nsl0].
  intros i [] st2 Hi (R1 & nsl & Hm).
  assert (length R1 = length R) as HlenR.
  { rewrite <- (tb_length _ _ _ _ _ (mk_table _ _ _ _ _ _ _ _ _ _ _ _ Hm)).
    apply (tb_length _ _ _ _ _ (mk_table _ _ _ _ _ _ _ _ _ _ _ _ Hm0)). }
  destruct (lookup_lt_is_Some_2 R1 i) as [l Hl]; [lia|].
  pose proof (mk_table _ _ _ _ _ _ _ _ _ _ _ _ Hm) as [_ _ _ Hpar _ _ _ _ _].
  apply (mark_body_spec N h t sl new t' E0 _ _ Hr0 Hrr Hdiff HE0 i R1 nsl st2 l); done || lia.
Qed.

(** The widths of the two tables. *)
Lemma rehashable_range t E :
  params_ok t → rehashable t E → tag_range t = 2 * 2 ^ (hash_n t - (hash_k t + 1)) ∧ 0 < 2 ^ (hash_n t - (hash_k t + 1)).
Proof.
  intros (? & ? & ?) [Hbits ? _]. unfold NBITS in *. split; [|apply pow2_pos; lia].
  unfold tag_range. rewrite <- (Z.pow_add_r 2 1) by lia. f_equal. lia.
Qed.

Lemma rehash_init_spec N st h t sl R :
  table st h t sl R → rehashable t (entries st R) →
  (base.size (mem st) + 2 + 4 * length R ≤ N)%nat →
  wpf (out_of_memory N) (hotring_rehash_init h) (λ new st',
    new = 0 ∧ out_of_memory N ∧ table st' h t sl R ∧ (∀ i l, R !! i = Some l → l = []) ∨
    ∃ t' R1 nsl, doubled t t' ∧ hash_size t' = Z.of_nat (2 * length R) ∧
      marking h t sl new t' (entries st R) (base.size (mem st) + 2) (test_verbose st) (length R) R1 nsl st') st.
Proof.
  intros Htb Hre HN. pose proof Hre as [Hbits Hbuck Hkeys]. pose proof Htb as [H0 Hh Hsl Hpar [Hsz Hsz2] Hlen Hb Hnd Hhd].
  destruct (rehashable_range t _ Hpar Hre) as [Hrange Hpos]. pose proof Hpar as (Hk & Hn & Hd). unfold NBITS in *.
  assert (0 < length R)%nat as Hlen0 by (pose proof (pow2_pos (hash_k t)); lia).
  unfold hotring_rehash_init. apply wpf_bind_wp. rewrite (wp_load_hash h t) by done.
  assert (s32 (hash_n t - hash_k t) = hash_n t - hash_k t) as ->.
  { unfold sint. rewrite wrap_small by lia. destruct (Z.ltb_spec (hash_n t - hash_k t) (2 ^ (32 - 1))); lia. }
  apply wpf_bind_wp. rewrite wp_ulong_bit by lia. apply wpf_bind_wp. rewrite wp_ulong_bit by lia.
  replace (hash_n t - hash_k t - 1) with (hash_n t - (hash_k t + 1)) by lia.
  rewrite wpf_bind. eapply wpf_mono; [apply (hash_alloc_spec N); unfold NBITS; done || lia|].
  intros new st1 [(-> & Hoom & Hm1)|(t' & sl' & R0 & Htb' & HE' & Hn' & Hk' & _ & Hkeep & -> & Hfree & Hsz1 & Hv1)].
  - assert (table st1 h t sl R) as Htb1 by (by apply (table_mem st)).
    rewrite wpf_bind, Hsz. eapply wpf_mono; [apply (mark_loop_null N h t sl R); rewrite ?Hm1; done || lia|].
    intros [] st2 [-> Hempty]. rewrite wpf_ret. by left.
  - unfold NBITS in Hn'. assert (tag_range t' = 2 ^ (hash_n t - (hash_k t + 1))) as Hr' by (unfold tag_range; f_equal; lia).
    assert (doubled t t') as Hdb by (split; [lia|done|unfold params_ok; lia|lia|congruence]).
    assert (2 ^ (hash_k t + 1) = Z.of_nat (2 * length R)) as Hsize' by (rewrite Z.pow_add_r; lia).
    destruct (tb_size _ _ _ _ _ Htb') as [Hszt Hszt2]. rewrite Hk', Hsize' in Hszt2. rewrite Hsize', Nat2Z.id in Htb'.
    rewrite wpf_bind, Hsz, <- Hr'.
    eapply wpf_mono.
    { apply (marking_loop N h t sl new t' (entries st R) (base.size (mem st) + 2) (test_verbose st) R (replicate (2 * length R) 0));
        try done; [intros x Hx; by apply Hkeys|lia|by eapply marking_start]. }
    intros [] st2 (R1 & nsl & Hm). rewrite wpf_ret. right. exists t', R1, nsl. split; [done|]. split; [lia|done].
Qed.
End plant.
