(* ===== verification/HotringSplit.v ===== *)
(** * The hot ring: a rehash splits the rings

    The second loop of a rehash cuts the ring of each old bucket before its two
    milestones and closes the halves, which are the rings of two buckets of the
    new table once their tags are recomputed. *)
From S2P Require Import Prelude Cyclic HotringDefs HotringInv HotringGet HotringInsert HotringDelete HotringShift HotringBlind HotringClient HotringMark.

(** ** A ring closed after another node *)

Lemma path_close st st' u x e nx' :
  path st (u ++ [x]) e → node_at st' x nx' → (∀ a, a ∈ u → mem st' !! a = mem st !! a) →
  path st' (u ++ [x]) (addr (word nx')).
Proof.
  intros Hp Hx Hfr. apply path_app in Hp as [Hu _]. apply path_app. split; [|split; [by exists nx'|done]].
  cbn in *. eapply path_frame; [|done]. intros a nd Ha Hn. exists nd. split; [|done].
  unfold node_at in *. by rewrite Hfr.
Qed.

Section cut.
Context (st st' : hstate) (u w : list Z) (x y : Z) (nx ny : hash_node).
Context (Hr : ring st ((u ++ [x]) ++ (w ++ [y]))).
Context (Hx : node_at st' x nx) (Hax : addr (word nx) = hd 0 (u ++ [x])).
Context (Hy : node_at st' y ny) (Hay : addr (word ny) = hd 0 (w ++ [y])).
Context (Hfr : ∀ a, a ≠ x → a ≠ y → mem st' !! a = mem st !! a).

(** The two halves of a ring, each closed on itself. *)
Lemma cut_rings : ring st' (u ++ [x]) ∧ ring st' (w ++ [y]).
Proof.
  destruct Hr as (Hp & Hnd & Hptr). apply path_app in Hp as [Hp1 Hp2].
  apply List.Forall_app in Hptr as [Ht1 Ht2]. apply list.NoDup_app in Hnd as (Hn1 & Hd & Hn2).
  pose proof Hn1 as (_ & Hux & _)%list.NoDup_app. pose proof Hn2 as (_ & Hwy & _)%list.NoDup_app.
  split; split; try done.
  - rewrite <- Hax. eapply path_close; [done|done|]. intros a Ha. apply Hfr.
    + intros ->. apply (Hux x Ha). left.
    + intros ->. apply (Hd y); set_solver.
  - rewrite <- Hay. eapply path_close; [done|done|]. intros a Ha. apply Hfr.
    + intros ->. apply (Hd x); set_solver.
    + intros ->. apply (Hwy y Ha). left.
Qed.
End cut.

(** ** Where the cuts are *)

(** A ring of the new table: it begins with its milestone, and a lone
    milestone is linked to itself by a plain pointer. *)
Definition first_only (st : hstate) (r : Z) (l : list Z) : Prop :=
  l = [] ∨ ∃ m q, l = m :: q ∧ key (the_node st m) mod r = 0 ∧ plain st r q ∧
    (q = [] → word (the_node st m) = m).

Section halves.
Context (st : hstate) (r j : Z) (l : list Z) (m0 m1 : Z) (p q p1 q1 : list Z) (x0 x1 : Z).
Context (Hr : 0 < r) (Hnd : NoDup l) (Hs : cyc_sorted (keys st l)).
Context (H0 : l = p ++ x0 :: m0 :: q) (H1 : l = p1 ++ x1 :: m1 :: q1).
Context (Hk0 : key (the_node st m0) = 2 * j * r) (Hk1 : key (the_node st m1) = (2 * j + 1) * r).
Context (Hall : ∀ a, a ∈ l → a = m0 ∨ a = m1 ∨ key (the_node st a) mod r ≠ 0).
Context (Hkeys : ∀ a, a ∈ l → 2 * j * r ≤ key (the_node st a) < (2 * j + 2) * r).

(** The ring read from its first milestone. *)
Lemma from_milestone : ascending (keys st ((m0 :: q) ++ (p ++ [x0]))).
Proof.
  assert (l = (p ++ [x0]) ++ m0 :: q) as Hl by (rewrite H0, <- app_assoc; done).
  unfold keys in *. rewrite Hl, fmap_app in Hs. apply cyc_rotate in Hs. rewrite <- fmap_app in Hs.
  cbn [app] in *. rewrite fmap_cons in *. apply cyc_least; [done|].
  intros k (a & -> & Ha)%list_elem_of_fmap.
  assert (a ∈ l) as Hal by (rewrite Hl; set_solver).
  assert (a ≠ m0) as Hne.
  { intros ->. rewrite Hl in Hnd. apply list.NoDup_app in Hnd as (_ & Hd & Hn).
    apply NoDup_cons_1_1 in Hn. apply elem_of_app in Ha as [?|Ha]; [done|]. apply (Hd m0 Ha). left. }
  specialize (Hkeys a Hal). rewrite Hk0. destruct (Hall a Hal) as [?|[->|Hmod]]; [done|lia|].
  destruct (decide (key (the_node st a) = 2 * j * r)) as [E|]; [|lia].
  rewrite E, Z.mod_mul in Hmod by lia. done.
Qed.

Lemma cut_lists : ∃ u w,
  (u ++ [x1]) ++ (w ++ [x0]) = (m0 :: q) ++ (p ++ [x0]) ∧
  hd 0 (u ++ [x1]) = m0 ∧ hd 0 (w ++ [x0]) = m1.
Proof.
  destruct (rotate_adjacent p1 (p ++ [x0]) q q1 x1 m1 m0) as (u & v & Huv).
  { rewrite <- H1, H0, <- app_assoc. done. }
  { intros ->. lia. }
  destruct (List.exists_last (l := m1 :: v)) as (w & z & Hwz); [done|].
  assert ((m0 :: q) ++ p ++ [x0] = (u ++ [x1]) ++ m1 :: v) as Heq by (rewrite Huv, <- app_assoc; done).
  rewrite Hwz in Heq. rewrite !app_assoc in Heq. apply app_inj_tail in Heq as [Heq <-].
  exists u, w. rewrite <- Hwz. split; [|split; [|done]].
  - by rewrite Huv, <- app_assoc.
  - destruct u; cbn in Huv |- *; congruence.
Qed.

Context (u w : list Z) (Hcut : (u ++ [x1]) ++ (w ++ [x0]) = (m0 :: q) ++ (p ++ [x0])).
Context (Hlo : hd 0 (u ++ [x1]) = m0) (Hhi : hd 0 (w ++ [x0]) = m1).

Lemma cut_perm : (u ++ [x1]) ++ (w ++ [x0]) ≡ₚ l.
Proof. rewrite Hcut, H0, Permutation_app_comm, <- app_assoc. reflexivity. Qed.

(** What each half holds. *)
Lemma cut_half (k : list Z) m (b : Z) :
  (k = u ++ [x1] ∧ m = m0 ∧ b = 2 * j ∨ k = w ++ [x0] ∧ m = m1 ∧ b = 2 * j + 1) →
  ascending (keys st k) ∧ (∀ a, a ∈ k → b * r ≤ key (the_node st a) < (b + 1) * r) ∧
  ∃ k', k = m :: k' ∧ plain st r k'.
Proof.
  pose proof from_milestone as Hasc. rewrite <- Hcut in Hasc. unfold keys in Hasc. rewrite fmap_app in Hasc.
  apply ascending_app in Hasc as (Ha1 & Ha2 & Ha12).
  pose proof cut_perm as Hperm. assert (NoDup ((u ++ [x1]) ++ (w ++ [x0]))) as Hnd' by (by rewrite Hperm).
  apply list.NoDup_app in Hnd' as (Hn1 & Hdis & Hn2).
  assert (∀ a, a ∈ (u ++ [x1]) ++ (w ++ [x0]) → a ∈ l) as Hin by (intros a; by rewrite Hperm).
  assert (m0 ∈ u ++ [x1]) as Hm0. { rewrite <- Hlo. destruct u; cbn; set_solver. }
  assert (m1 ∈ w ++ [x0]) as Hm1. { rewrite <- Hhi. destruct w; cbn; set_solver. }
  intros [(-> & -> & ->)|(-> & -> & ->)].
  - split; [done|]. split.
    + intros a Ha. assert (a ∈ l) as Hal by (apply Hin; set_solver). specialize (Hkeys a Hal).
      assert (key (the_node st a) ≤ key (the_node st m1)) as Hle.
      { apply Ha12; apply list_elem_of_fmap; by eexists. }
      destruct (Hall a Hal) as [->|[->|Hmod]]; [lia|by destruct (Hdis m1)|].
      destruct (decide (key (the_node st a) = (2 * j + 1) * r)) as [E|]; [|lia].
      rewrite E, Z.mod_mul in Hmod by lia. done.
    + destruct (u ++ [x1]) as [|m k] eqn:E; [by destruct u|]. cbn in Hlo. subst m. exists k. split; [done|].
      intros a Ha. destruct (Hall a) as [->|[->|?]]; [apply Hin; set_solver| | |done].
      * by apply NoDup_cons_1_1 in Hn1.
      * destruct (Hdis m1); [by right|done].
  - split; [done|]. split.
    + intros a Ha. assert (a ∈ l) as Hal by (apply Hin; set_solver). specialize (Hkeys a Hal).
      destruct (w ++ [x0]) as [|m k] eqn:E; [by destruct w|]. cbn in Hhi. subst m.
      rewrite fmap_cons in Ha2. apply ascending_cons in Ha2 as [_ Hle].
      apply elem_of_cons in Ha as [->|Ha]; [lia|]. specialize (Hle (key (the_node st a))).
      assert (key (the_node st m1) ≤ key (the_node st a)); [|lia]. apply Hle, list_elem_of_fmap. by eexists.
    + destruct (w ++ [x0]) as [|m k] eqn:E; [by destruct w|]. cbn in Hhi. subst m. exists k. split; [done|].
      intros a Ha. destruct (Hall a) as [->|[->|?]]; [apply Hin; set_solver| | |done].
      * destruct (Hdis m0 Hm0). by right.
      * by apply NoDup_cons_1_1 in Hn2.
Qed.
End halves.

(** ** The body of the second loop *)

(** A milestone is found past the head, with the node before it. *)
Lemma got_milestone st r l m k res node prev :
  got st l k (res, node, prev) → m ∈ l → key (the_node st m) = k → k mod r = 0 →
  key (the_node st (hd 0 l)) mod r ≠ 0 →
  (∀ a, a ∈ l → key (the_node st a) = k → a = m) →
  node = Some m ∧ ∃ p q, l = p ++ prev :: m :: q.
Proof.
  intros Hg Hm Hk Hmod Hhd Huniq. destruct res; cbn in Hg.
  - destruct Hg as (_ & _ & Hno). exfalso. apply Hno, list_elem_of_fmap. by exists m.
  - done.
  - destruct Hg as (_ & a & q & -> & _ & Hka). cbn in Hhd. congruence.
  - destruct Hg as (_ & p & y & q & -> & -> & Hky). rewrite (Huniq y); [|set_solver|done].
    split; [done|]. by exists p, q.
Qed.

(** A half as a bucket of the new table. *)
Lemma half_bucket st t' (e : Z) hp l :
  0 < tag_range t' → 0 ≤ e → head_to st hp (hd 0 l) → l ≠ [] → ring st l → ascending (keys st l) →
  (∀ a, a ∈ l → e * tag_range t' ≤ key (the_node st a) < (e + 1) * tag_range t') →
  bucket (retag (tag_range t') st) t' e hp l.
Proof.
  intros Hr He (Hp & w & Hw & Haw) Hne Hring Hasc Hk. set (r := tag_range t') in *. right.
  split; [done|]. split; [done|]. split; [exists w; split; [|done]; by rewrite retag_lookup, Hw|].
  split; [by apply ring_retag|].
  assert (∀ a, a ∈ l → node_at st a (the_node st a)) as Hat.
  { intros a Ha. destruct (path_node _ _ _ _ (proj1 Hring) Ha) as [nd Hn]. by rewrite (the_node_at _ _ _ Hn). }
  assert (∀ a, a ∈ l → key (the_node st a) / r = e ∧ key (the_node st a) mod r = key (the_node st a) - e * r) as Hdm.
  { intros a Ha. specialize (Hk a Ha). split.
    - symmetry. apply (Z.div_unique_pos _ _ _ (key (the_node st a) - e * r)); lia.
    - symmetry. apply (Z.mod_unique_pos _ _ e); lia. }
  split.
  - intros a Ha. destruct (the_node_retag r st a) as (Hka & _ & _). unfold node_ok.
    rewrite Hka, (tag_retag r st a _ (Hat a Ha)). destruct (Hdm a Ha) as [? _]. specialize (Hk a Ha).
    assert (0 ≤ e * r) by (by apply Z.mul_nonneg_nonneg; lia). split; [lia|done].
  - assert (tags (retag r st) l = (λ k, k - e * r) <$> keys st l) as ->.
    { unfold tags, keys. rewrite <- list_fmap_compose. apply list_fmap_ext.
      intros k a Ha%list_elem_of_lookup_2. cbn. rewrite (tag_retag r st a _ (Hat a Ha)). by apply Hdm. }
    apply cyc_sorted_fmap; [intros; lia|]. exists (keys st l), []. by rewrite app_nil_r.
Qed.

Section split.
Context (h : Z) (t t' : hash) (sl : list Z) (i : nat) (hp : Z) (l : list Z) (hp0 hp1 : Z).
Context (Hpar : params_ok t) (Hhp : sl !! i = Some hp).
Context (Hr : 0 < tag_range t') (Hrr : tag_range t = 2 * tag_range t').
Context (Hbase : Z.of_nat i * tag_range t < 2 ^ 31).

(** What a bucket needs of the memory. *)
Definition at_bucket (st : hstate) : Prop :=
  null_free st ∧ mem st !! h = Some (OHash t) ∧ mem st !! hash_slots t = Some (OSlots sl) ∧
  bucket st t (Z.of_nat i) hp l ∧ marked st (tag_range t') i l hp0 hp1.

Lemma sim_at_bucket st st' : sim st st' → at_bucket st → at_bucket st'.
Proof.
  intros Hs (H0 & Hh & Hsl & Hb & Hm). pose proof Hs as [[_ Hn] Hmem]. split; [by apply Hn|].
  destruct (Hmem h _ Hh) as ([| |t2|] & Ht' & E); try done. cbn in E. subst t2.
  destruct (Hmem _ _ Hsl) as ([| | |sl2] & Hsl' & E); try done. cbn in E. subst sl2.
  split; [done|]. split; [done|]. split; [by eapply sim_bucket|].
  assert (mark_state st (tag_range t') (S i) i l hp0 hp1) as Hms.
  { unfold mark_state. rewrite decide_True by lia. by right. }
  apply (mark_state_keep st st') in Hms.
  - unfold mark_state in Hms. rewrite decide_True in Hms by lia. destruct Hms as [(-> & _)|?]; [|done].
    by destruct Hm.
  - intros a Ha. destruct Hb as [[_ ->]|(_ & _ & _ & [Hp _] & _)]; [by apply elem_of_nil in Ha|].
    by apply (sim_fields st st' l (hd 0 l)).
  - intros hpx a. by apply head_to_keep, sim_sim_at.
Qed.

(** The two lookups give each milestone and the node before it. *)
Lemma find_milestone st (b : bool) (old : Z) :
  at_bucket st →
  wp (get_into h (Z.of_nat i * tag_range t + Z.b2z b * tag_range t') old)
    (λ '(m, prev) st', sim st st' ∧ at_bucket st' ∧ (∀ a, a ∉ l → a ≠ hp → mem st' !! a = mem st !! a) ∧
       m ∈ l ∧ key (the_node st m) = (2 * Z.of_nat i + Z.b2z b) * tag_range t' ∧
       ∃ p q, l = p ++ prev :: m :: q) st.
Proof.
  intros Hat. pose proof Hat as (H0 & Hh & Hsl & Hb & Hne & Hhd & m0 & m1 & Hm0 & Hm1 & Hk0 & Hk1 & _ & _ & Hall).
  set (r := tag_range t') in *. set (k := Z.of_nat i * tag_range t + Z.b2z b * r).
  assert (k = (2 * Z.of_nat i + Z.b2z b) * r) as Hk by (unfold k; lia).
  assert (0 ≤ Z.of_nat i * tag_range t) by (apply Z.mul_nonneg_nonneg; lia).
  unfold get_into. rewrite wp_bind. eapply wp_mono.
  { apply (hash_get_bucket st h t sl i hp l k); try done; [destruct b; cbn in *; lia|].
    apply (Z.div_unique_pos _ _ _ (Z.b2z b * r)); destruct b; cbn in *; lia. }
  intros [[res node] prev] st' (Hsim & Hg & Hfr). rewrite wp_ret.
  set (m := if b then m1 else m0).
  assert (k mod r = 0) as Hkr by (rewrite Hk; apply Z.mod_mul; lia).
  destruct (got_milestone st r l m k res node prev Hg) as [-> (p & q & Hpq)]; try done.
  { unfold m. by destruct b. }
  { unfold m. destruct b; cbn in *; lia. }
  { intros a Ha Hka. unfold m. destruct (Hall a Ha) as [->|[->|Hno]]; [| |congruence]; destruct b; cbn in *; done || lia. }
  cbn. split; [done|]. split; [by eapply sim_at_bucket|]. split; [done|].
  split; [rewrite Hpq; set_solver|]. split; [|by exists p, q]. unfold m. destruct b; cbn in *; lia.
Qed.

(** The halves of the ring are two buckets of the new table. *)
Definition split_post (st st' : hstate) : Prop :=
  ∃ k0 k1, k0 ++ k1 ≡ₚ l ∧
    bucket (retag (tag_range t') st') t' (2 * Z.of_nat i) hp0 k0 ∧ first_only st' (tag_range t') k0 ∧
    bucket (retag (tag_range t') st') t' (2 * Z.of_nat i + 1) hp1 k1 ∧ first_only st' (tag_range t') k1 ∧
    (∀ a, sim_at st st' a) ∧ (∀ a, a ∉ l → a ≠ hp → mem st' !! a = mem st !! a) ∧
    globals st' = globals st ∧ null_free st'.

(** The last two stores of the body. *)
(** Two stores of links. *)
Definition relinked (st st' : hstate) (x0 x1 a0 a1 : Z) (nx0 nx1 : hash_node) : Prop :=
  node_at st' x1 (with_word a1 nx1) ∧ node_at st' x0 (with_word a0 nx0) ∧
  (∀ a, a ≠ x1 → a ≠ x0 → mem st' !! a = mem st !! a) ∧ globals st' = globals st.

Lemma relink_spec st x0 x1 a0 a1 nx0 nx1 :
  node_at st x0 nx0 → node_at st x1 nx1 → x1 ≠ x0 →
  wp (store_node x1 (with_word a1);; store_node x0 (with_word a0)) (λ _ st', relinked st st' x0 x1 a0 a1 nx0 nx1) st.
Proof.
  intros Hnx0 Hnx1 Hx. rewrite wp_bind, (wp_store_hnode x1 _ nx1) by done.
  rewrite (wp_store_hnode x0 _ nx0) by (unfold node_at; cbn; by rewrite lookup_insert_ne).
  split; [|split; [|split; [|done]]].
  - unfold node_at. cbn. by rewrite lookup_insert_ne, lookup_insert_eq.
  - unfold node_at. cbn. by rewrite lookup_insert_eq.
  - intros a ??. cbn. by rewrite !lookup_insert_ne.
Qed.

Lemma relinked_same st st' x0 x1 a0 a1 nx0 nx1 :
  node_at st x0 nx0 → node_at st x1 nx1 → relinked st st' x0 x1 a0 a1 nx0 nx1 →
  (∀ a, sim_at st st' a) ∧ (∀ a, key (the_node st' a) = key (the_node st a)).
Proof.
  intros Hnx0 Hnx1 (Hnx1' & Hnx0' & Hfr & _). split.
  - intros a. destruct (decide (a = x1)) as [->|]; [|destruct (decide (a = x0)) as [->|]; [|by apply sim_at_same, Hfr]];
      intros o Ho; unfold node_at in *; eexists; (split; [done|]); by simplify_eq.
  - intros a. destruct (decide (a = x1)) as [->|]; [|destruct (decide (a = x0)) as [->|]].
    + by rewrite (the_node_at _ _ _ Hnx1), (the_node_at _ _ _ Hnx1').
    + by rewrite (the_node_at _ _ _ Hnx0), (the_node_at _ _ _ Hnx0').
    + by rewrite (the_node_same st st' a) by (by apply Hfr).
Qed.

Lemma split_stores st m0 m1 x0 x1 p q p1 q1 :
  at_bucket st → l = p ++ x0 :: m0 :: q → l = p1 ++ x1 :: m1 :: q1 →
  key (the_node st m0) = 2 * Z.of_nat i * tag_range t' →
  key (the_node st m1) = (2 * Z.of_nat i + 1) * tag_range t' →
  wp (store_node x1 (with_word m0);; store_node x0 (with_word m1)) (λ _, split_post st) st.
Proof.
  intros (H0 & Hh & Hsl & Hb & Hne & Hhd & n0 & n1 & Hn0 & Hn1 & Hk0 & Hk1 & Hh0 & Hh1 & Hall) Hl0 Hl1 Hkm0 Hkm1.
  destruct Hb as [[_ ?]|(Hptr & _ & (wh & Hwh & _) & Hring & Hok & Hcs)]; [done|].
  set (r := tag_range t') in *. pose proof Hring as (Hpath & Hnd & Hptrs).
  assert (∀ b k m, m ∈ l → k = (2 * Z.of_nat i + Z.b2z b) * r → key (the_node st m) = k → m = if b then n1 else n0) as Hun.
  { intros b k m Hm Hk E. assert (k mod r = 0) as Hkr by (rewrite Hk; apply Z.mod_mul; lia).
    destruct (Hall m Hm) as [->|[->|?]]; [| |congruence]; destruct b; cbn in *; done || lia. }
  assert (m0 = n0) as -> by (apply (Hun false (2 * Z.of_nat i * r)); [rewrite Hl0; apply elem_of_app; right; right; left|cbn; lia|done]).
  assert (m1 = n1) as -> by (apply (Hun true ((2 * Z.of_nat i + 1) * r)); [rewrite Hl1; apply elem_of_app; right; right; left|cbn; lia|done]).
  assert (∀ a, a ∈ l → 2 * Z.of_nat i * r ≤ key (the_node st a) < (2 * Z.of_nat i + 2) * r) as Hrange.
  { intros a Ha. destruct (Hok a Ha) as (_ & Hd & _). rewrite Hrr in Hd.
    pose proof (Z.mul_div_le (key (the_node st a)) (2 * r)).
    pose proof (Z.mul_succ_div_gt (key (the_node st a)) (2 * r)). rewrite Hd in *. lia. }
  assert (cyc_sorted (keys st l)) as Hks by (by eapply keys_sorted).
  destruct (cut_lists st r (Z.of_nat i) l n0 n1 p q p1 q1 x0 x1) as (u & w & Hcut & Hlo & Hhi); try done.
  pose proof (cut_half st r (Z.of_nat i) l n0 n1 p q p1 q1 x0 x1 Hr Hnd Hks Hl0 Hl1 Hkm0 Hkm1 Hall Hrange
    u w Hcut Hlo Hhi) as Hhalf.
  pose proof (cut_perm l n0 p q x0 x1 Hl0 u w Hcut) as Hperm.
  set (lo := u ++ [x1]) in *. set (hi := w ++ [x0]) in *.
  assert (x1 ∈ lo) as Hx1 by (apply elem_of_app; right; left).
  assert (x0 ∈ hi) as Hx0 by (apply elem_of_app; right; left).
  assert (∀ a, a ∈ lo ∨ a ∈ hi → a ∈ l) as Hin by (intros a; rewrite <- Hperm, elem_of_app; done).
  assert (x1 ≠ x0) as Hx10.
  { intros ->. rewrite <- Hperm in Hnd. apply list.NoDup_app in Hnd as (_ & Hd & _). by apply (Hd x0). }
  assert (∀ a, a ∈ l → ptr a) as Hptra by (intros a; by apply (proj1 (Forall_elem _ _) Hptrs)).
  destruct (path_node _ _ _ x1 Hpath) as [nx1 Hnx1]; [by apply Hin; left|].
  destruct (path_node _ _ _ x0 Hpath) as [nx0 Hnx0]; [by apply Hin; right|].
  eapply wp_mono; [by apply (relink_spec st x0 x1 n1 n0 nx0 nx1)|]. intros [] st' Hrel.
  destruct (relinked_same _ _ _ _ _ _ _ _ Hnx0 Hnx1 Hrel) as [Hat Hkey]. destruct Hrel as (Hnx1' & Hnx0' & Hfr & Hg).
  assert (∀ k, keys st' k = keys st k) as Hkeys'.
  { intros k. apply list_fmap_ext. intros. apply Hkey. }
  destruct (cut_rings st st' u w x1 x0 (with_word n0 nx1) (with_word n1 nx0)) as [Hr1 Hr2]; try done.
  { fold lo hi. rewrite Hcut. apply ring_rotate. rewrite <- app_assoc. cbn. by rewrite <- Hl0. }
  { cbn. rewrite addr_ptr by (by apply Hptra). by fold lo. }
  { cbn. rewrite addr_ptr by (by apply Hptra). by fold hi. }
  fold lo in Hr1. fold hi in Hr2.
  destruct (Hhalf lo n0 (2 * Z.of_nat i)) as (Ha0 & Hb0 & k0 & Hlo0 & Hp0); [by left|].
  destruct (Hhalf hi n1 (2 * Z.of_nat i + 1)) as (Ha1 & Hb1 & k1 & Hhi1 & Hp1); [by right|].
  assert (∀ k, plain st r k → plain st' r k) as Hplain. { intros k Hpk a Ha. rewrite Hkey. by apply Hpk. }
  exists lo, hi. split; [done|]. split; [|split; [|split; [|split; [|split; [done|split; [|split; [done|]]]]]]].
  - apply half_bucket; try done; [lia|rewrite Hlo; by apply (head_to_keep st)|by rewrite Hlo0|by rewrite Hkeys'|].
    intros a Ha. rewrite Hkey. by apply Hb0.
  - right. exists n0, k0. split; [done|]. rewrite Hkey, Hkm0. split; [apply Z.mod_mul; lia|]. split; [by apply Hplain|].
    intros ->. unfold lo in Hlo0. destruct u as [|? [|]]; cbn in Hlo0; try done. injection Hlo0 as <-.
    by rewrite (the_node_at _ _ _ Hnx1').
  - apply half_bucket; try done; [lia|rewrite Hhi; by apply (head_to_keep st)|by rewrite Hhi1|by rewrite Hkeys'|].
    intros a Ha. rewrite Hkey. by apply Hb1.
  - right. exists n1, k1. split; [done|]. rewrite Hkey, Hkm1. split; [apply Z.mod_mul; lia|]. split; [by apply Hplain|].
    intros ->. unfold hi in Hhi1. destruct w as [|? [|]]; cbn in Hhi1; try done. injection Hhi1 as <-.
    by rewrite (the_node_at _ _ _ Hnx0').
  - intros a Ha _. apply Hfr; intros ->; apply Ha, Hin; auto.
  - unfold null_free in *. rewrite Hfr; [done|intros <-; unfold node_at in *; congruence..].
Qed.

Lemma split_body_spec st heads :
  at_bucket st →
  wp (split_body h (hash_n t - hash_k t) (tag_range t') (Z.of_nat i) heads) (λ _ st', split_post st st') st.
Proof.
  intros Hat. pose proof Hat as (_ & Hh & Hsl & Hb & Hne & _). pose proof Hpar as (? & ? & ?).
  destruct heads as [r1 r2]. unfold split_body.
  rewrite wp_bind, (wp_load_slot h t sl _ hp) by (done || lia || by rewrite Nat2Z.id).
  destruct Hb as [[_ ?]|([? ?] & _)]; [done|]. rewrite truthy_nz by lia.
  assert (0 ≤ Z.of_nat i * tag_range t) by (apply Z.mul_nonneg_nonneg; lia).
  rewrite wp_bind. fold (tag_range t). rewrite wp_int_shl by (unfold tag_range in *; lia). fold (tag_range t).
  rewrite wp_bind. replace (Z.of_nat i * tag_range t) with (Z.of_nat i * tag_range t + Z.b2z false * tag_range t') at 1
    by (cbn; lia).
  eapply wp_mono; [by apply find_milestone|].
  intros [m0 x0] st1 (Hs1 & Hat1 & Hfr1 & Hm0 & Hk0 & p & q & Hl0).
  rewrite wp_bind. replace (tag_range t') with (Z.b2z true * tag_range t') by (cbn; lia).
  eapply wp_mono; [by apply find_milestone|].
  intros [m1 x1] st2 (Hs2 & Hat2 & Hfr2 & Hm1 & Hk1 & p1 & q1 & Hl1).
  assert (sim st st2) as Hs by (by transitivity st1).
  assert (∀ a, a ∈ l → key (the_node st2 a) = key (the_node st a) ∧ key (the_node st2 a) = key (the_node st1 a)) as Hkey.
  { intros a Ha. destruct Hat as (_ & _ & _ & [[_ ->]|(_ & _ & _ & [Hp _] & _)] & _); [by apply elem_of_nil in Ha|].
    split; [by apply (sim_fields st st2 l (hd 0 l))|].
    apply (sim_fields st1 st2 l (hd 0 l)); [done| |done]. by eapply sim_path. }
  destruct (Hkey m0 Hm0) as [Hkm0 _]. destruct (Hkey m1 Hm1) as [_ Hkm1].
  assert (wp (store_node x1 (with_word m0);; store_node x0 (with_word m1)) (λ _, split_post st2) st2) as Hst.
  { apply (split_stores st2 m0 m1 x0 x1 p q p1 q1); try done; [rewrite Hkm0, Hk0; cbn; lia|rewrite Hkm1, Hk1; cbn; lia]. }
  rewrite wp_bind in Hst. rewrite wp_bind. eapply wp_mono; [exact Hst|]. intros ? st3 Hst3.
  rewrite wp_bind. eapply wp_mono; [exact Hst3|].
  intros ? st4 (k0 & k1 & Hperm & Hb0 & Hf0 & Hb1 & Hf1 & Hsa & Hfr & Hg & Hnf). rewrite wp_ret.
  exists k0, k1. do 5 (split; [done|]). split; [|split; [|split; [|done]]].
  - intros b. eapply sim_at_trans; [by apply sim_sim_at|done].
  - intros b ??. rewrite Hfr, Hfr2, Hfr1; done.
  - rewrite Hg. apply Hs.
Qed.
End split.

(** ** The loop *)

Lemma sim_at_retag r st st' a : sim_at st st' a → sim_at (retag r st) (retag r st') a.
Proof.
  intros Hs o. rewrite !retag_lookup. destruct (mem st !! a) as [o0|] eqn:E; [|done]. cbn. intros [= <-].
  destruct (Hs o0 E) as (o1 & E1 & Ho). rewrite E1. cbn. eexists. split; [done|].
  destruct o0, o1; cbn in *; intuition congruence.
Qed.

Lemma new_table_keep st st' new t' nsl : (∀ a, sim_at st st' a) → new_table st new t' nsl → new_table st' new t' nsl.
Proof.
  intros Hat [Hn Hs Hd Hl]. split; [| |done|].
  - destruct (Hat _ _ Hn) as ([| |t2|] & ? & E); try done. cbn in E. by subst t2.
  - destruct (Hat _ _ Hs) as ([| | |l2] & ? & E); try done. cbn in E. by subst l2.
  - intros hp Hhp. destruct (Hl hp Hhp) as [?|[w Hw]]; [by left|right].
    destruct (Hat _ _ Hw) as ([|w2| |] & ? & E); try done. by exists w2.
Qed.

Section loop.
Context (h : Z) (t : hash) (sl : list Z) (new : Z) (t' : hash) (R1 : list (list Z)) (nsl : list Z) (st1 : hstate).
Context (Hr : 0 < tag_range t') (Hrr : tag_range t = 2 * tag_range t').
Context (Hlen : length nsl = (2 * length R1)%nat).

(** The state when the loop has come to the bucket [i]: the rings of the
    buckets before it have become the rings [R2] of the new table. *)
Record splitting (i : nat) (R2 : list (list Z)) (st : hstate) : Prop := {
  sp_null : null_free st;
  sp_hash : mem st !! h = Some (OHash t);
  sp_slots : mem st !! hash_slots t = Some (OSlots sl);
  sp_new : new_table st new t' nsl;
  sp_todo j hp l hp0 hp1 : (i ≤ j)%nat → sl !! j = Some hp → R1 !! j = Some l →
    nsl !! (2 * j)%nat = Some hp0 → nsl !! (2 * j + 1)%nat = Some hp1 →
    bucket st t (Z.of_nat j) hp l ∧ mark_state st (tag_range t') (length R1) j l hp0 hp1;
  sp_nodes a : a ∈ mjoin R1 → ∃ nd, node_at st a nd;
  sp_length : length R2 = (2 * i)%nat;
  sp_perm : mjoin R2 ≡ₚ mjoin (take i R1);
  sp_half e hp l : nsl !! e = Some hp → R2 !! e = Some l →
    bucket (retag (tag_range t') st) t' (Z.of_nat e) hp l ∧ first_only st (tag_range t') l;
  sp_entry a : a ∈ mjoin R1 → entry st a = entry st1 a;
  sp_verbose : test_verbose st = test_verbose st1
}.

(** One more bucket; the memory has changed in its ring and its head only. *)
Lemma splitting_next i R2 st st' l hp k0 k1 hp0 hp1 :
  splitting i R2 st → NoDup (mjoin R1) → R1 !! i = Some l → sl !! i = Some hp →
  nsl !! (2 * i)%nat = Some hp0 → nsl !! (2 * i + 1)%nat = Some hp1 →
  k0 ++ k1 ≡ₚ l →
  bucket (retag (tag_range t') st') t' (2 * Z.of_nat i) hp0 k0 → first_only st' (tag_range t') k0 →
  bucket (retag (tag_range t') st') t' (2 * Z.of_nat i + 1) hp1 k1 → first_only st' (tag_range t') k1 →
  (∀ a, sim_at st st' a) → (∀ a, a ∉ l → a ≠ hp → mem st' !! a = mem st !! a) →
  (hp = 0 ∨ ∃ w, mem st !! hp = Some (OHead w)) → test_verbose st' = test_verbose st → null_free st' →
  splitting (S i) (R2 ++ [k0; k1]) st'.
Proof.
  intros [H0 Hh Hs Hnt Htodo Hnode Hlen2 Hperm Hhalf Hent Hv] Hnd Hl Hhp Hn0 Hn1 Hk Hb0 Hf0 Hb1 Hf1 Hat Hfr Hhead Hv' H0'.
  assert (∀ a, a ∈ mjoin R1 → a ≠ hp) as Hnhp.
  { intros a Ha ->. destruct (Hnode _ Ha) as [nd Hnn]. unfold node_at, null_free in *.
    destruct Hhead as [->|[w ?]]; congruence. }
  assert (∀ a, a ∈ mjoin R1 → entry st' a = entry st a) as Hent'.
  { intros a Ha. destruct (Hnode _ Ha) as [nd Hn]. destruct (sim_at_node st st' a nd (Hat a) Hn) as (nd' & Hn' & _ & Hka & Hva).
    unfold entry. by rewrite (the_node_at _ _ _ Hn), (the_node_at _ _ _ Hn'), Hka, Hva. }
  destruct (join_split R1 i l Hl) as (rest & Hrest & _ & Hother).
  assert (∀ a, a ∈ rest → a ∉ l) as Hdis.
  { intros a Ha Hal. rewrite Hrest in Hnd. apply list.NoDup_app in Hnd as (_ & Hd & _). by apply (Hd a). }
  assert (∀ a, a ∈ rest → mem st' !! a = mem st !! a) as Hsame.
  { intros a Ha. apply Hfr; [by apply Hdis|]. apply Hnhp. rewrite Hrest. set_solver. }
  split; try done.
  - destruct (Hat _ _ Hh) as ([| |t2|] & ? & E); try done. cbn in E. by subst t2.
  - destruct (Hat _ _ Hs) as ([| | |l2] & ? & E); try done. cbn in E. by subst l2.
  - by eapply new_table_keep.
  - intros j hpj lj ha hb Hj Hhpj Hlj Ha Hb. destruct (Htodo j hpj lj ha hb) as [Hbj Hmj]; try done; [lia|].
    assert (∀ a, a ∈ lj → a ∈ rest) as Hlr by (intros a; apply (Hother j lj a); [lia|done]).
    split; [eapply bucket_keep; [|done|done]; auto|].
    eapply mark_state_keep; [| |done]; [|intros; by eapply head_to_keep].
    intros a Ha'. by rewrite (the_node_same st st' a) by auto.
  - intros a Ha. destruct (Hnode _ Ha) as [nd Hn]. destruct (sim_at_node st st' a nd (Hat a) Hn) as (nd' & ? & _).
    by exists nd'.
  - rewrite length_app. cbn. lia.
  - rewrite join_app, Hperm. cbn. rewrite app_nil_r.
    rewrite (take_S_r _ _ _ Hl), join_app. cbn. by rewrite app_nil_r, Hk.
  - intros e hpe le He Hle. apply lookup_app_Some in Hle as [Hle|[Hge Hle]].
    + destruct (Hhalf e hpe le He Hle) as [Hbe Hfe].
      assert (∀ a, a ∈ le → mem st' !! a = mem st !! a) as Hle'.
      { intros a Ha. apply Hsame. assert (a ∈ mjoin R2) as Hj by (by eapply in_ring).
        rewrite Hperm in Hj. apply list_elem_of_join in Hj as (lj & Ha' & Hlj).
        apply list_elem_of_lookup in Hlj as [j Hlj]. apply lookup_take_Some in Hlj as [Hlj ?].
        apply (Hother j lj a); [lia|done|done]. }
      split.
      * eapply bucket_keep; [|by apply sim_at_retag|done]. intros a Ha. by rewrite !retag_lookup, Hle'.
      * destruct Hfe as [->|(m & q & -> & Hm & Hp & Hw)]; [by left|right]. exists m, q. split; [done|].
        rewrite (the_node_same st st' m) by (apply Hle'; left). split; [done|]. split; [|done].
        intros a Ha. rewrite (the_node_same st st' a) by (apply Hle'; by right). by apply Hp.
    + rewrite Hlen2 in *. assert (e < length [k0; k1] + 2 * i)%nat as He2.
      { apply lookup_lt_Some in Hle. lia. } cbn in He2.
      destruct (decide (e = 2 * i)%nat) as [->|].
      * rewrite Nat.sub_diag in Hle. injection Hle as <-. assert (hpe = hp0) as -> by congruence.
        by replace (Z.of_nat (2 * i)) with (2 * Z.of_nat i) by lia.
      * assert (e = 2 * i + 1)%nat as -> by lia. replace (2 * i + 1 - 2 * i)%nat with 1%nat in Hle by lia.
        injection Hle as <-. assert (hpe = hp1) as -> by congruence.
        by replace (Z.of_nat (2 * i + 1)) with (2 * Z.of_nat i + 1) by lia.
  - intros a Ha. rewrite Hent' by done. by apply Hent.
  - congruence.
Qed.

Context (Hpar : params_ok t) (Hnd : NoDup (mjoin R1)) (Hsl : length sl = length R1).
Context (Hbase : ∀ i l, R1 !! i = Some l → l ≠ [] → Z.of_nat i * tag_range t < 2 ^ 31).

Lemma splitting_step i R2 st heads :
  splitting i R2 st → (i < length R1)%nat →
  wp (split_body h (hash_n t - hash_k t) (tag_range t') (Z.of_nat i) heads)
    (λ _ st', ∃ R2', splitting (S i) R2' st') st.
Proof.
  intros Hsp Hi. pose proof Hsp as [H0 Hh Hs Hnt Htodo Hnode Hlen2 Hperm Hhalf Hent Hv].
  destruct (lookup_lt_is_Some_2 R1 i Hi) as [l Hl]. destruct (lookup_lt_is_Some_2 sl i) as [hp Hhp]; [lia|].
  destruct (lookup_lt_is_Some_2 nsl (2 * i)) as [hp0 Hn0]; [lia|].
  destruct (lookup_lt_is_Some_2 nsl (2 * i + 1)) as [hp1 Hn1]; [lia|].
  destruct (Htodo i hp l hp0 hp1) as [Hb Hm]; try done.
  unfold mark_state in Hm. rewrite decide_True in Hm by done. destruct Hm as [(-> & -> & ->)|Hm].
  - destruct Hb as [[-> _]|(_ & ? & _)]; [|done]. destruct heads as [r1 r2]. unfold split_body.
    rewrite wp_bind, (wp_load_slot h t sl _ 0) by (done || lia || by rewrite Nat2Z.id).
    rewrite truthy_0, wp_ret. exists (R2 ++ [[]; []]).
    apply (splitting_next i R2 st st [] 0 [] [] 0 0); try done; try (by left).
    intros a. by apply sim_at_same.
  - assert (l ≠ []) as Hne by apply Hm.
    eapply wp_mono; [apply (split_body_spec h t t' sl i hp l hp0 hp1); try done; by eapply Hbase|].
    intros ? st' (k0 & k1 & Hk & Hb0 & Hf0 & Hb1 & Hf1 & Hat & Hfr & Hg & H0').
    exists (R2 ++ [k0; k1]). eapply (splitting_next i R2 st st' l hp k0 k1 hp0 hp1); try done.
    + right. destruct Hb as [[_ ?]|(_ & _ & (w & ? & _) & _)]; [done|by exists w].
    + unfold globals in Hg. congruence.
Qed.

(** The loop begins where the first one ends. *)
Lemma splitting_start E0 s0 v :
  marking h t sl new t' E0 s0 v (length R1) R1 nsl st1 → splitting 0 [] st1.
Proof.
  intros [Htb Hnt Hlen' Hb HE Hsz Hv]. pose proof Htb as [H0 Hh Hs _ _ _ Hbs _ _]. split; try done.
  - intros j hp l hp0 hp1 _ Hhp Hl Hn0 Hn1. split; [by apply Hbs|by apply Hb].
  - intros a. by eapply table_nodes.
Qed.

(** It ends with the new table. *)
Lemma splitting_table R2 st :
  splitting (length R1) R2 st → params_ok t' →
  hash_size t' = Z.of_nat (2 * length R1) → Z.of_nat (2 * length R1) = 2 ^ hash_k t' →
  table (retag (tag_range t') st) new t' nsl R2 ∧ entries st R2 ≡ₚ entries st1 R1.
Proof.
  intros [H0 Hh Hs Hnt Htodo Hnode Hlen2 Hperm Hhalf Hent Hv] Hpar' Hsz Hsz2. rewrite firstn_all in Hperm. split.
  - split; try done.
    + unfold null_free in *. by rewrite retag_lookup, H0.
    + by rewrite retag_lookup, (nt_hash _ _ _ _ Hnt).
    + by rewrite retag_lookup, (nt_slots _ _ _ _ Hnt).
    + by rewrite Hlen2.
    + congruence.
    + intros e hp l He Hl. by apply Hhalf.
    + by rewrite Hperm.
    + apply Hnt.
  - unfold entries. rewrite Hperm. apply Permutation_refl', list_fmap_ext.
    intros k a Ha%list_elem_of_lookup_2. by apply Hent.
Qed.
End loop.
