(* ===== verification/HotringTyping.v ===== *)
(** * The hot ring: a typing of the memory

    Every word of the program that is a pointer points to an object of one
    kind, or is NULL.  Insertions, lookups, shifts and the preparation of a
    rehash keep this in every well-typed memory, whatever its rings look like,
    and never change the kind of an object. *)
From Stdlib Require Import SpecFloat.
From S2P Require Import Prelude Cyclic HotringDefs HotringInv HotringGet HotringInsert.

(** ** Types *)

Inductive kind := KNode | KHead | KHash | KSlots.

Definition kind_of (o : obj) : kind :=
  match o with ONode _ => KNode | OHead _ => KHead | OHash _ => KHash | OSlots _ => KSlots end.

Definition kinds (st : hstate) : gmap Z kind := kind_of <$> mem st.

(** A pointer to an object of the kind [k], or NULL. *)
Definition points (Σ : gmap Z kind) (k : kind) (a : Z) : Prop := a = 0 ∨ Σ !! a = Some k ∧ ptr a.

(** The pointers in an object. *)
Definition has_type (Σ : gmap Z kind) (o : obj) : Prop :=
  match o with
  | ONode nd => points Σ KNode (addr (word nd))
  | OHead w => points Σ KNode (addr w)
  | OHash t => points Σ KSlots (hash_slots t)
  | OSlots l => Forall (points Σ KHead) l
  end.

Definition well_typed (st : hstate) : Prop :=
  ∀ a o, mem st !! a = Some o → ptr a ∧ has_type (kinds st) o.

Lemma points_weaken Σ Σ' k a : Σ ⊆ Σ' → points Σ k a → points Σ' k a.
Proof. intros Hs [?|[? ?]]; [by left|right]. split; [by eapply lookup_weaken|done]. Qed.

Lemma has_type_weaken Σ Σ' o : Σ ⊆ Σ' → has_type Σ o → has_type Σ' o.
Proof.
  intros Hs. destruct o; cbn; try (by apply points_weaken). intros Hl. eapply List.Forall_impl; [|done].
  intros a. by apply points_weaken.
Qed.

Lemma kinds_lookup st a o : mem st !! a = Some o → kinds st !! a = Some (kind_of o).
Proof. intros Ha. unfold kinds. by rewrite lookup_fmap, Ha. Qed.

(** ** Runs *)

(** A run from a memory that has at least the objects [Σ] keeps it well-typed,
    keeps every object with its kind, and has a result of the type [Φ]. *)
Definition sound {A} (Σ : gmap Z kind) (m : H A) (Φ : gmap Z kind → A → Prop) : Prop :=
  ∀ st x st', Σ ⊆ kinds st → well_typed st → m st = Ok (x, st') →
    well_typed st' ∧ kinds st ⊆ kinds st' ∧ Φ (kinds st') x.

Definition any {A} (Σ : gmap Z kind) (x : A) : Prop := True.

Lemma sound_mono {A} Σ (m : H A) Φ Ψ : sound Σ m Φ → (∀ Σ' x, Σ ⊆ Σ' → Φ Σ' x → Ψ Σ' x) → sound Σ m Ψ.
Proof.
  intros Hm HI st x st' Hs Hw Hr. destruct (Hm st x st' Hs Hw Hr) as (? & Hk & ?). split; [done|]. split; [done|].
  apply HI; [by transitivity (kinds st)|done].
Qed.

Lemma sound_ret {A} Σ (x : A) (Φ : gmap Z kind → A → Prop) :
  (∀ Σ', Σ ⊆ Σ' → Φ Σ' x) → sound Σ (mret x) Φ.
Proof. intros Hx st y st' Hs Hw [= <- <-]. split; [done|]. split; [done|]. by apply Hx. Qed.

Lemma sound_bind {A B} Σ (m : H A) (f : A → H B) Φ Ψ :
  sound Σ m Φ → (∀ Σ', Σ ⊆ Σ' → ∀ x, Φ Σ' x → sound Σ' (f x) Ψ) → sound Σ (m ≫= f) Ψ.
Proof.
  intros Hm Hf st y st' Hs Hw. unfold mbind, M_bind. destruct (m st) as [[x st1]| |] eqn:E; [|done..]. intros Hr.
  destruct (Hm st x st1 Hs Hw E) as (Hw1 & Hk1 & Hx).
  destruct (λ Hs, Hf (kinds st1) Hs x Hx st1 y st') as (? & ? & ?); try done; [by transitivity (kinds st)|].
  split; [done|]. split; [by transitivity (kinds st1)|done].
Qed.

(** A run that does not change the memory. *)
Lemma sound_pure {A} Σ (m : H A) : (∀ st x st', m st = Ok (x, st') → mem st' = mem st) → sound Σ m any.
Proof.
  intros Hm st x st' Hs Hw Hr%Hm. unfold well_typed, kinds. rewrite Hr. done.
Qed.

(** A store of an object of the same kind. *)
Lemma well_typed_store st a o o' :
  well_typed st → mem st !! a = Some o → kind_of o' = kind_of o → has_type (kinds st) o' →
  well_typed (set_mem (<[a := o']> (mem st)) st) ∧ kinds (set_mem (<[a := o']> (mem st)) st) = kinds st.
Proof.
  intros Hw Ha Hk Ho. assert (kinds (set_mem (<[a := o']> (mem st)) st) = kinds st) as Heq.
  { unfold kinds. cbn. rewrite fmap_insert, Hk. apply insert_id. by rewrite lookup_fmap, Ha. }
  split; [|done]. intros b ob. rewrite Heq. cbn. intros Hb. destruct (decide (b = a)) as [->|].
  - rewrite lookup_insert_eq in Hb. injection Hb as <-. split; [by eapply Hw|done].
  - rewrite lookup_insert_ne in Hb by done. by apply Hw.
Qed.

(** ** Memory access *)

Lemma sound_load_node Σ a :
  sound Σ (load_node a) (λ Σ' nd, points Σ' KNode a ∧ Σ' !! a = Some KNode ∧ points Σ' KNode (addr (word nd))).
Proof.
  intros st x st' Hs Hw. unfold load_node. destruct (mem st !! a) as [[nd| | |]|] eqn:E; try done. intros [= <- <-].
  destruct (Hw a _ E) as [Hp Ht]. pose proof (kinds_lookup _ _ _ E) as Hk. split; [done|]. split; [done|].
  split; [by right|]. by split.
Qed.

Lemma sound_store_node Σ a f :
  (∀ Σ' nd, Σ ⊆ Σ' → points Σ' KNode (addr (word nd)) → points Σ' KNode (addr (word (f nd)))) →
  sound Σ (store_node a f) any.
Proof.
  intros Hf st x st' Hs Hw. unfold store_node. destruct (mem st !! a) as [[nd| | |]|] eqn:E; try done. intros [= <- <-].
  destruct (Hw a _ E) as [Hp Ht]. destruct (well_typed_store st a (ONode nd) (ONode (f nd)) Hw E eq_refl) as [Hw' ->].
  { cbn. by apply Hf. } done.
Qed.

Lemma sound_load_head Σ a : sound Σ (load_head a) (λ Σ' w, points Σ' KNode (addr w)).
Proof.
  intros st x st' Hs Hw. unfold load_head. destruct (mem st !! a) as [[|w| |]|] eqn:E; try done. intros [= <- <-].
  destruct (Hw a _ E) as [Hp Ht]. done.
Qed.

Lemma sound_store_head Σ a f :
  (∀ Σ' w, Σ ⊆ Σ' → points Σ' KNode (addr w) → points Σ' KNode (addr (f w))) →
  sound Σ (store_head a f) any.
Proof.
  intros Hf st x st' Hs Hw. unfold store_head. destruct (mem st !! a) as [[|w| |]|] eqn:E; try done. intros [= <- <-].
  destruct (Hw a _ E) as [Hp Ht]. destruct (well_typed_store st a (OHead w) (OHead (f w)) Hw E eq_refl) as [Hw' ->].
  { cbn. by apply Hf. } done.
Qed.

Lemma sound_load_slot Σ h i : sound Σ (load_slot h i) (λ Σ' hp, points Σ' KHead hp).
Proof.
  intros st x st' Hs Hw. unfold load_slot. destruct (mem st !! h) as [[| |t|]|] eqn:E; try done.
  destruct (mem st !! hash_slots t) as [[| | |l]|] eqn:El; try done.
  case_match; [|done]. destruct (l !! Z.to_nat i) as [y|] eqn:Ey; [|done]. intros [= <- <-].
  destruct (Hw _ _ El) as [_ Hl]. split; [done|]. split; [done|]. cbn in Hl.
  apply (proj1 (Forall_elem _ _) Hl). by eapply list_elem_of_lookup_2.
Qed.

Lemma sound_store_slot Σ h i hp : points Σ KHead hp → sound Σ (store_slot h i hp) any.
Proof.
  intros Hp st x st' Hs Hw. unfold store_slot. destruct (mem st !! h) as [[| |t|]|] eqn:E; try done.
  destruct (mem st !! hash_slots t) as [[| | |l]|] eqn:El; try done.
  case_match; [|done]. destruct (l !! Z.to_nat i) as [y|] eqn:Ey; [|done]. intros [= <- <-].
  destruct (Hw _ _ El) as [_ Hl]. cbn in Hl.
  assert (has_type (kinds st) (OSlots (<[Z.to_nat i := hp]> l))) as Hl'.
  { cbn. apply Forall_insert; [done|]. by eapply points_weaken. }
  destruct (well_typed_store st (hash_slots t) (OSlots l) (OSlots (list_insert (Z.to_nat i) hp l)) Hw El eq_refl Hl')
    as [Hw' Hk'].
  split; [exact Hw'|]. split; [|done]. change (kinds st ⊆ kinds (set_mem (<[hash_slots t := OSlots (list_insert (Z.to_nat i) hp l)]> (mem st)) st)).
  by rewrite Hk'.
Qed.

Lemma sound_load_hash Σ a : sound Σ (load_hash a) any.
Proof. apply sound_pure. intros st x st'. unfold load_hash. repeat case_match; congruence. Qed.
Lemma sound_int_shl Σ x s : sound Σ (int_shl x s) any.
Proof. apply sound_pure. intros st y st'. unfold int_shl. case_match; [by intros [= _ <-]|done]. Qed.
Lemma sound_ulong_bit Σ s : sound Σ (ulong_bit s) any.
Proof. apply sound_pure. intros st y st'. unfold ulong_bit. case_match; [by intros [= _ <-]|done]. Qed.
Lemma sound_gets {A} Σ (f : hstate → A) : sound Σ (gets f) any.
Proof. apply sound_pure. by intros st y st' [= _ <-]. Qed.

(** ** The loop over a ring *)

(** The types of the states and of what the loop may leave with. *)
Definition leaves {A R} (Ψ : gmap Z kind → A → Prop) (Φ : gmap Z kind → R → Prop) (Σ : gmap Z kind) (r : A + R) : Prop :=
  match r with inl s => Ψ Σ s | inr x => Φ Σ x end.

Definition monotone {A} (Φ : gmap Z kind → A → Prop) : Prop := ∀ Σ Σ' x, Σ ⊆ Σ' → Φ Σ x → Φ Σ' x.

Lemma sound_list_for_each {A R} Σ head (s : A) (body : Z → A → H (A + R)) Ψ Φ :
  (∀ Σ' p s, Σ ⊆ Σ' → points Σ' KNode p → Ψ Σ' s → sound Σ' (body p s) (leaves Ψ Φ)) →
  monotone Ψ → monotone Φ → Ψ Σ s → sound Σ (list_for_each head s body) (leaves Ψ Φ).
Proof.
  intros Hbody HΨ HΦ Hinit.
  assert (∀ fuel Σ' p s, Σ ⊆ Σ' → points Σ' KNode p → Ψ Σ' s →
    sound Σ' (for_each_from fuel p head s body) (leaves Ψ Φ)) as Hfrom.
  { induction fuel as [|fuel IH]; intros Σ' p s' Hs Hp Hst; cbn [for_each_from]; [by intros ? ? ? _ _|].
    case_match; [apply sound_ret; intros Σ1 Hs1; by apply (HΨ Σ')|].
    eapply sound_bind; [by apply Hbody|]. intros Σ1 Hs1 [s1|x] Hx.
    - eapply sound_bind; [apply sound_load_node|]. intros Σ2 Hs2 nd (_ & _ & Hn).
      apply IH; [|done|by apply (HΨ Σ1)]. transitivity Σ'; [done|]. by transitivity Σ1.
    - apply sound_ret. intros Σ2 Hs2. by apply (HΦ Σ1). }
  unfold list_for_each. eapply sound_bind; [apply sound_gets|]. intros Σ1 Hs1 fuel _.
  eapply sound_bind; [apply sound_load_node|]. intros Σ2 Hs2 nd (_ & _ & Hn).
  assert (Σ ⊆ Σ2) by (by transitivity Σ1). apply Hfrom; [done..|]. by apply (HΨ Σ).
Qed.

(** ** Words and pointers *)

Lemma points_mono Σ Σ' k a : points Σ k a → Σ ⊆ Σ' → points Σ' k a.
Proof. intros ? Hs. by eapply points_weaken. Qed.

Lemma points_null Σ k : points Σ k 0.
Proof. by left. Qed.

Lemma points_addr Σ k a : points Σ k a → points Σ k (addr a).
Proof. intros [->|[? Hp]]; [by left|]. rewrite addr_ptr by done. by right. Qed.

Lemma points_set_addr Σ k x a : points Σ k a → points Σ k (addr (set_addr x a)).
Proof.
  intros [->|[? Hp]]; [left|right].
  - unfold addr, set_addr. by rewrite field_set_same by lia.
  - by rewrite addr_set_addr.
Qed.

Create HintDb typing.
#[export] Hint Resolve points_null points_addr points_set_addr points_mono : typing.

Lemma sound_fault {A} Σ (Φ : gmap Z kind → A → Prop) : sound Σ fault Φ.
Proof. by intros ? ? ? _ _ ?. Qed.

(** A change of a global. *)
Lemma sound_modify Σ f : (∀ st, mem (f st) = mem st) → sound Σ (modify f) any.
Proof. intros Hf. apply sound_pure. by intros st x st' [= _ <-]. Qed.

(** A store to a node that keeps where its link points. *)
Lemma sound_store_data Σ a f : (∀ nd, addr (word (f nd)) = addr (word nd)) → sound Σ (store_node a f) any.
Proof. intros Hf. apply sound_store_node. intros Σ' nd _. by rewrite Hf. Qed.

Lemma sound_store_count Σ a f : (∀ w, addr (f w) = addr w) → sound Σ (store_head a f) any.
Proof. intros Hf. apply sound_store_head. intros Σ' w _. by rewrite Hf. Qed.

Lemma sound_link Σ a p : points Σ KNode p → sound Σ (store_node a (with_word p)) any.
Proof. intros Hp. apply sound_store_node. intros Σ' nd Hs _. cbn. eauto with typing. Qed.

Lemma sound_head_link Σ a p : points Σ KNode p → sound Σ (store_head a (λ _, p)) any.
Proof. intros Hp. apply sound_store_head. intros Σ' w Hs _. cbn. eauto with typing. Qed.

(** One step of a run: its rule, with the larger memory in place of the old. *)
Ltac typing_mono :=
  match goal with
  | Hs : ?Σ ⊆ ?Σ' |- _ =>
      repeat match goal with
      | Hp : points Σ ?k ?a |- _ => apply (points_weaken Σ Σ' k a Hs) in Hp
      end; clear Hs
  end.
Tactic Notation "step" open_constr(r) "as" simple_intropattern(x) simple_intropattern(H) :=
  cbv beta; eapply sound_bind;
    [eapply r
    |let Σ' := fresh "Σ" in let Hs := fresh "Hs" in intros Σ' Hs; typing_mono; intros x H; cbv beta in *].

(** A loop whose states and results have the types [Ψ] and [Φ]. *)
Tactic Notation "loop" uconstr(P) uconstr(Q) "as" simple_intropattern(x) simple_intropattern(H) :=
  cbv beta; eapply sound_bind;
    [apply sound_list_for_each with (Ψ := P) (Φ := Q)
    |let Σ' := fresh "Σ" in let Hs := fresh "Hs" in intros Σ' Hs; typing_mono; intros x H; cbv beta in *].

(** ** Lookup *)

Lemma sound_get_head_node Σ hp : sound Σ (get_head_node_by_head_pointer hp) (λ Σ' a, points Σ' KNode a).
Proof.
  unfold get_head_node_by_head_pointer. case_match; [|apply sound_ret; intros; apply points_null].
  step sound_load_head as w Hw. apply sound_ret. intros Σ' Hs. by eapply points_weaken.
Qed.

Lemma sound_hashCode Σ h k : sound Σ (hashCode h k) any.
Proof.
  unfold hashCode. step sound_load_hash as t _. step sound_ulong_bit as m _. step sound_int_shl as d _. by apply sound_ret.
Qed.

Lemma sound_bump_counter Σ a : sound Σ (bump_counter a) any.
Proof. apply sound_store_data. intros nd. apply addr_set_counter. Qed.

(** What a lookup stores through its outputs. *)
Definition get_type (Σ : gmap Z kind) (r : hash_get_t * option Z * Z) : Prop :=
  from_option (points Σ KNode) True (snd (fst r)) ∧ points Σ KNode (snd r).

Definition found_type (Σ : gmap Z kind) (r : option (Z * Z)) : Prop :=
  from_option (λ x, points Σ KNode (fst x) ∧ points Σ KNode (snd x)) True r.

Lemma points_monotone k : monotone (λ Σ a, points Σ k a).
Proof. intros Σ Σ' a. apply points_weaken. Qed.

Lemma found_monotone : monotone found_type.
Proof. intros Σ Σ' [[a p]|] Hs; cbn; [|done]. intros [? ?]. split; by eapply points_weaken. Qed.

Lemma get_monotone : monotone get_type.
Proof.
  intros Σ Σ' [[r [a|]] p] Hs [? ?]; (split; cbn in *; [|by eapply points_weaken]); [by eapply points_weaken|done].
Qed.

Lemma any_monotone {A} : monotone (@any A).
Proof. done. Qed.

Lemma leaves_monotone {A R} (Ψ : gmap Z kind → A → Prop) (Φ : gmap Z kind → R → Prop) :
  monotone Ψ → monotone Φ → monotone (leaves Ψ Φ).
Proof. intros HΨ HΦ Σ Σ' [s|x] Hs; [by apply HΨ|by apply HΦ]. Qed.

#[export] Hint Resolve points_monotone found_monotone get_monotone any_monotone leaves_monotone : typing.

Lemma sound_ret_mono {A} Σ (x : A) Φ : monotone Φ → Φ Σ x → sound Σ (mret x) Φ.
Proof. intros Hm Hx. apply sound_ret. intros Σ' Hs. by apply (Hm Σ). Qed.

(** The result of a run. *)
Ltac result := apply sound_ret_mono; [by auto with typing|first [exact I|done|by eapply points_weaken|idtac]].

Lemma sound___hash_get Σ h k : sound Σ (__hash_get h k) get_type.
Proof.
  unfold __hash_get. step sound_hashCode as [i tg] _. step sound_load_slot as hp _.
  case_match; [|result; by split; [|left]].
  step (sound_store_count _ _ _ (λ w, addr_set_head_counter w _)) as _ _.
  step sound_get_head_node as a Ha. step sound_load_node as nd _.
  case_match.
  { step sound_bump_counter as _ _. result. split; [done|by left]. }
  loop (λ Σ' p, points Σ' KNode p) found_type as r Hr; [|by auto with typing|by auto with typing|done|].
  - intros Σ' p prev Hs Hp Hprev. step sound_load_node as nd' _. case_match.
    + step sound_bump_counter as _ _. result.
    + step sound_load_node as np _. repeat case_match; result.
  - destruct r as [prev|[[tmp prev]|]]; result; by split; [|left].
Qed.

Section alloc.
Context `{!Calloc obj}.

(** ** Allocation *)

(** A fresh object. *)
Lemma well_typed_fresh st st' a o :
  well_typed st → mem st !! a = None → ptr a → (∀ Σ, kinds st ⊆ Σ → has_type Σ o) →
  mem st' = <[a := o]> (mem st) →
  well_typed st' ∧ kinds st ⊆ kinds st' ∧ points (kinds st') (kind_of o) a.
Proof.
  intros Hw Ha Hp Ho Hm.
  assert (kinds st' = <[a := kind_of o]> (kinds st)) as Hk by (by unfold kinds; rewrite Hm, fmap_insert).
  assert (kinds st ⊆ kinds st') as Hs.
  { rewrite Hk. apply insert_subseteq. unfold kinds. by rewrite lookup_fmap, Ha. }
  split; [|split; [done|]].
  - intros b ob. rewrite Hm. intros Hb. destruct (decide (b = a)) as [->|].
    + rewrite lookup_insert_eq in Hb. injection Hb as <-. split; [done|]. by apply Ho.
    + rewrite lookup_insert_ne in Hb by done. destruct (Hw b ob Hb). split; [done|]. by eapply has_type_weaken.
  - right. by rewrite Hk, lookup_insert_eq.
Qed.

Lemma sound_alloc Σ o :
  (∀ Σ', Σ ⊆ Σ' → has_type Σ' o) → sound Σ (alloc o) (λ Σ' a, points Σ' (kind_of o) a).
Proof.
  intros Ho st x st' Hs Hw. unfold alloc. destruct (calloc (hticks st) (mem st)) as [a|] eqn:E; intros [= <- <-].
  - apply well_typed_fresh; [done|by eapply calloc_fresh| |intros Σ' Hs'; apply Ho; by transitivity (kinds st)|done].
    apply calloc_range in E. split; [lia|]. eapply Z.lt_trans; [apply E|done].
  - split; [done|]. split; [done|]. apply points_null.
Qed.

Lemma sound_head_alloc Σ : sound Σ head_alloc (λ Σ' a, points Σ' KHead a).
Proof. apply (sound_alloc Σ (OHead 0)). intros. apply points_null. Qed.

Lemma sound_node_alloc Σ : sound Σ hash_node_alloc (λ Σ' a, points Σ' KNode a).
Proof. apply (sound_alloc Σ (ONode (HNode 0 0 0 0))). intros. apply points_null. Qed.

Lemma sound_hash_alloc Σ nbits kbits : sound Σ (hash_alloc nbits kbits) (λ Σ' a, points Σ' KHash a).
Proof.
  unfold hash_alloc. step (sound_alloc _ (OHash (Hash 0 0 0 0))) as ret Hret; [intros; apply points_null|].
  cbn [kind_of] in Hret. eapply sound_bind with (Φ := any).
  - case_match eqn:Ht; [|result]. step sound_int_shl as sz _.
    step (sound_alloc _ (OSlots (replicate (Z.to_nat sz) 0))) as a Ha.
    { intros Σ' _. cbn. apply Forall_replicate, points_null. }
    cbn [kind_of] in Ha. case_match; [|apply sound_fault]. destruct Hret as [->|[Hret _]]; [done|].
    intros st x st' Hs Hw [= <- <-]. pose proof (lookup_weaken _ _ _ _ Hret Hs) as Hk.
    unfold kinds in Hk. rewrite lookup_fmap in Hk. destruct (mem st !! ret) as [o|] eqn:Eo; [|done].
    injection Hk as Hk. destruct (well_typed_store st ret o (OHash (Hash nbits kbits sz a)) Hw Eo) as [Hw' Hk'].
    { by destruct o. } { cbn. by eapply points_weaken. }
    split; [exact Hw'|]. split; [|done]. by rewrite <- Hk' at 1.
  - intros Σ1 Hs1 _ _. typing_mono. step (sound_modify _ (set_cur_hash ret)) as _ _; [done|].
    result.
Qed.

(** ** Insertion *)

Lemma sound_list_add Σ new head : points Σ KNode new → sound Σ (list_add new head) any.
Proof.
  intros Hn. unfold list_add, __list_add. step sound_load_node as nd (_ & _ & Hnd).
  eapply sound_bind; [apply sound_store_node; intros Σ' n Hs _; by eapply points_weaken|].
  intros Σ1 Hs1 _ _. typing_mono. apply sound_store_node. intros Σ' n Hs _. cbn.
  apply points_set_addr. by eapply points_weaken.
Qed.

Lemma sound_set_count Σ a c : sound Σ (store_node a (λ nd, with_word (set_counter (word nd) c) nd)) any.
Proof. apply sound_store_data. intros nd. apply addr_set_counter. Qed.

Lemma sound___hash_create Σ h index tag' : sound Σ (__hash_create h index tag') (λ Σ' a, points Σ' KNode a).
Proof.
  unfold __hash_create. step sound_load_slot as hp Hhp.
  eapply sound_bind with (Φ := λ Σ' a, points Σ' KNode a).
  - case_match.
    + step sound_get_head_node as a Ha. step sound_node_alloc as node Hn.
      loop (λ Σ' p, points Σ' KNode p) (@any ()) as r Hr; [|by auto with typing|by auto with typing|done|].
      * intros Σ' p prev Hs Hp Hprev. typing_mono. step sound_load_node as nn _. step sound_load_node as np _.
        case_match; [|result].
        step sound_list_add as _ _; [done|]. result.
      * destruct r as [prev|]; [step sound_list_add as _ _; [done|]|];
          result.
    + step sound_head_alloc as hp' Hhp'. step sound_store_slot as _ _; [done|].
      step sound_node_alloc as node Hn. step sound_link as _ _; [done|]. step sound_head_link as _ _; [done|].
      result.
  - intros Σ' Hs node Hn. typing_mono. step sound_set_count as _ _.
    result.
Qed.

Lemma sound_insert_entries Σ node k tg v : sound Σ (insert_entries node k tg v) any.
Proof.
  unfold insert_entries. step sound_load_node as nd _. case_match; [result|].
  do 3 (step sound_store_data as _ _; [done|]). result.
Qed.

Lemma sound_hash_insert Σ h k v : sound Σ (hash_insert h k v) any.
Proof.
  unfold hash_insert. step sound_hashCode as [i tg] _. step sound___hash_create as node _.
  step sound_insert_entries as error _. case_match; result.
Qed.

(** ** The shift of the head *)

Lemma sound_take_counter Σ a : sound Σ (take_counter a) any.
Proof. unfold take_counter. step sound_load_node as nd _. step sound_set_count as _ _. result. Qed.

Lemma sound_do_hotspot_shift Σ hp a : points Σ KNode a → sound Σ (do_hotspot_shift hp a) any.
Proof.
  intros Ha. unfold do_hotspot_shift.
  step (sound_store_count _ _ _ (λ w, addr_set_active w _)) as _ _.
  step sound_load_head as w _. step sound_take_counter as c _.
  loop (@any (list Z)) (@any ()) as r _; [|by auto with typing|by auto with typing|done|].
  { intros Σ' p l _ _ _. case_match; [|apply sound_fault]. step sound_take_counter as c' _. result. }
  assert (∀ Σ', sound Σ' (store_head hp (λ w, set_head_counter w 0);; store_head hp (λ w, set_active w 0);;
    mret SHIFT_SUCCESS) any) as Hstay.
  { intros Σ'. step (sound_store_count _ _ _ (λ w, addr_set_head_counter w _)) as _ _.
    step (sound_store_count _ _ _ (λ w, addr_set_active w _)) as _ _. result. }
  destruct (hottest_of _ _) as [m j]. destruct (SFeqb m _); [apply Hstay|].
  loop (@any Z) (λ Σ' p, points Σ' KNode p) as r' Hr'; [|by auto with typing|by auto with typing|done|].
  { intros Σ' p i Hs Hp _. destruct (i =? j); result. }
  step sound_head_link as _ _; [by destruct r' as [|p]; [apply points_null|]|].
  destruct (SFltb _ m); [result|apply Hstay].
Qed.

(** ** The preparation of a rehash *)

Lemma sound_mark_body Σ h new bits halfTag i : sound Σ (mark_body h new bits halfTag i) any.
Proof.
  unfold mark_body. step sound_load_slot as hp _. case_match; [|result].
  step sound___hash_create as n1 Hn1. step sound_int_shl as b1 _. step sound_insert_entries as e1 _.
  step sound_head_alloc as hp1 Hhp1. step sound_store_slot as _ _; [done|]. step sound_head_link as _ _; [done|].
  step sound___hash_create as n2 Hn2. step sound_int_shl as b2 _. step sound_insert_entries as e2 _.
  step sound_head_alloc as hp2 Hhp2. step sound_store_slot as _ _; [done|]. by apply sound_head_link.
Qed.

Lemma sound_range_loop {A} Σ bound (s : A) body (Ψ : gmap Z kind → A → Prop) :
  monotone Ψ → Ψ Σ s → (∀ Σ' i s, Σ ⊆ Σ' → Ψ Σ' s → sound Σ' (body i s) Ψ) → sound Σ (range_loop bound s body) Ψ.
Proof.
  intros HΨ Hinit Hbody. unfold range_loop. generalize (S (Z.to_nat bound)) as fuel. intros fuel.
  assert (∀ Σ' i s, Σ ⊆ Σ' → Ψ Σ' s → sound Σ' (for_range fuel i bound s body) Ψ) as Hfrom; [|by apply Hfrom].
  induction fuel as [|fuel IH]; intros Σ' i s' Hs Hx; cbn [for_range]; [by intros ? ? ? _ _|].
  case_match; [|by apply sound_ret_mono]. eapply sound_bind; [by apply Hbody|]. intros Σ1 Hs1 s1 Hx1.
  apply IH; [by transitivity Σ'|done].
Qed.

Lemma sound_rehash_init Σ h : sound Σ (hotring_rehash_init h) (λ Σ' a, points Σ' KHash a).
Proof.
  unfold hotring_rehash_init. step sound_load_hash as t _. step sound_ulong_bit as x _. step sound_ulong_bit as halfTag _.
  step sound_hash_alloc as new Hnew. eapply sound_bind; [apply sound_range_loop with (Ψ := any); [done|done|]|].
  - intros Σ' i s _ _. apply sound_mark_body.
  - intros Σ' Hs _ _. typing_mono. result.
Qed.

(** ** Sequences of operations *)

(** The operations that free nothing, with arbitrary arguments. *)
Inductive operation :=
| OpAlloc (nbits kbits : Z)
| OpInsert (h key value : Z)
| OpGet (h key : Z)
| OpShift (head_pointer : Z)
| OpPrepare (h : Z).

Definition run_operation (o : operation) : H () :=
  match o with
  | OpAlloc nbits kbits => _ ← hash_alloc nbits kbits; mret ()
  | OpInsert h key value => _ ← hash_insert h key value; mret ()
  | OpGet h key => _ ← __hash_get h key; mret ()
  | OpShift hp => a ← get_head_node_by_head_pointer hp; _ ← do_hotspot_shift hp a; mret ()
  | OpPrepare h => _ ← hotring_rehash_init h; mret ()
  end.

Fixpoint run_operations (os : list operation) : H () :=
  match os with [] => mret () | o :: os => run_operation o;; run_operations os end.

Lemma sound_run_operation Σ o : sound Σ (run_operation o) any.
Proof.
  destruct o; cbn [run_operation].
  - step sound_hash_alloc as a _. result.
  - step sound_hash_insert as e _. result.
  - step sound___hash_get as r _. result.
  - step sound_get_head_node as a Ha. step sound_do_hotspot_shift as r _; [done|result].
  - step sound_rehash_init as a _. result.
Qed.

Lemma sound_run_operations Σ os : sound Σ (run_operations os) any.
Proof.
  revert Σ. induction os as [|o os IH]; intros Σ; cbn [run_operations]; [result|].
  step sound_run_operation as _ _. apply IH.
Qed.
End alloc.
