(* ===== verification/HotringRehash.v ===== *)
(** * The hot ring: the rehash

    The third loop of a rehash takes the milestones out of the new table, and
    the table is printed.  What is left holds what the old table held. *)
From Stdlib Require Import SpecFloat.
From S2P Require Import Prelude Cyclic HotringDefs HotringInv HotringGet HotringInsert HotringDelete HotringShift HotringBlind HotringClient HotringMark HotringSplit.

(** ** [hotring_delete_head] *)

(** The last node of a ring. *)
Lemma last_walk st a l :
  ring st (a :: l) → l ≠ [] →
  wp (list_for_each a 0 (λ p _, mret (@inl Z () p)))
    (λ r st', st' = st ∧ ∃ u z, r = inl z ∧ l = u ++ [z]) st.
Proof.
  intros Hr Hne. pose proof Hr as (_ & Hnd & _).
  eapply (list_for_each_rule a l _ (λ p s st1, st1 = st ∧ (p = [] ∨ ∃ u, p = u ++ [s]))).
  - done.
  - intros p x q s st1 Hl [-> _]. rewrite wp_ret. split; [|by eapply ring_link].
    split; [done|]. right. by exists p.
  - intros s st1 [-> [?|[u Hu]]]; [done|]. split; [done|]. by exists u, s.
  - by apply ring_head.
  - by apply (ring_fuel_enough st a).
  - split; [done|]. by left.
Qed.

(** What the deletion of the head [a] of the ring [a :: l] leaves. *)
Definition head_deleted (st : hstate) (h : Z) (t : hash) (sl : list Z) (R : list (list Z)) (i : nat)
    (hp a : Z) (l : list Z) (st' : hstate) : Prop :=
  (∃ hp', table st' h t (<[i := hp']> sl) (<[i := l]> R)) ∧
  entries st R ≡ₚ entry st a :: entries st' (<[i := l]> R) ∧ globals st' = globals st ∧
  (∀ b, b ∈ l → sim_at st st' b) ∧
  ∀ b, b ∉ a :: l → b ≠ hp → b ≠ hash_slots t → mem st' !! b = mem st !! b.

Lemma delete_head_spec st h t sl R i hp a l :
  table st h t sl R → sl !! i = Some hp → R !! i = Some (a :: l) → test_verbose st < 3 →
  (l = [] → word (the_node st a) = a) →
  wp (hotring_delete_head h (Z.of_nat i)) (λ b st', b = true ∧ head_deleted st h t sl R i hp a l st') st.
Proof.
  intros Htb Hhp Hl Hv Hword. pose proof Htb as [_ Hh Hs _ _ _ _ _ _].
  pose proof (tb_bucket _ _ _ _ _ Htb i hp _ Hhp Hl) as [[_ ?]|([??] & _ & (w & Hw & Haw) & Hr & _)]; [done|].
  destruct (ring_head st a l Hr) as (na & Hna & Hnext). cbn [hd] in Haw.
  pose proof Hr as (_ & Hnd & Hptrs). apply List.Forall_cons_iff in Hptrs as [Hpa Hpl].
  unfold hotring_delete_head. rewrite wp_bind, (wp_load_slot h t sl _ hp) by (done || lia || by rewrite Nat2Z.id).
  unfold get_head_node_by_head_pointer. rewrite wp_bind, truthy_nz, wp_bind, (wp_load_head hp w), wp_ret by (done || lia).
  unfold __iptr_to_ptr. rewrite Haw, wp_bind, (wp_load_hnode a na) by done.
  destruct l as [|b l].
  - rewrite (the_node_at st a na Hna) in Hword. rewrite Hword, Z.eqb_refl by done.
    pose proof (drop_ring st h t sl R i hp a [] Htb Hhp Hl Hv) as Hwp.
    rewrite wp_bind in Hwp. rewrite wp_bind. eapply wp_mono; [exact Hwp|]. intros ? st2 Hwp2.
    rewrite wp_bind. eapply wp_mono; [exact Hwp2|]. intros ? st' (Htb' & HE & Hg & Hfr & _). rewrite wp_ret.
    split; [done|]. split; [by exists 0|]. split; [done|]. split; [done|].
    split; [by intros ? ?%elem_of_nil|]. intros c Hc. apply Hfr. set_solver.
  - cbn [hd] in Hnext. assert (a ≠ b) as Hab by (apply NoDup_cons_1_1 in Hnd; set_solver).
    destruct (Z.eqb_spec a (word na)) as [E|_].
    { exfalso. apply Hab. rewrite <- Hnext, <- E. by rewrite addr_ptr. }
    rewrite Hnext, wp_bind, (wp_store_head hp _ w) by done. set (st1 := set_mem _ st).
    assert (∀ c, c ≠ hp → mem st1 !! c = mem st !! c) as Hfr1.
    { intros c ?. unfold st1. cbn. by rewrite lookup_insert_ne. }
    assert (mem st1 !! hp = Some (OHead b)) as Hw1 by (unfold st1; cbn; by rewrite lookup_insert_eq).
    assert (globals st1 = globals st) as Hg1 by done. clearbody st1.
    assert (∀ c, c ∈ a :: b :: l → c ≠ hp) as Hnhp.
    { intros c Hc ->. destruct (path_node _ _ _ _ (proj1 Hr) Hc) as [nd Hn]. unfold node_at in Hn. congruence. }
    apply List.Forall_cons_iff in Hpl as [Hpb _].
    destruct (head_moved st st1 h t sl R i hp [a] (b :: l)) as [Htb1 HE1]; try done; [|lia|].
    { exists b. split; [done|]. by apply addr_ptr. }
    assert (ring st1 (a :: b :: l)) as Hr1.
    { destruct Hr as (Hp & ?). split; [|done]. eapply path_frame; [|done]. intros c nd Hc Hn. exists nd.
      unfold node_at in *. by rewrite Hfr1 by auto. }
    rewrite wp_bind. eapply wp_mono; [by apply last_walk|].
    intros r st1' (-> & u & z & -> & Huz).
    pose proof (delete_cold st1 h t sl (<[i := (b :: l) ++ [a]]> R) i hp u z a [] Htb1 Hhp) as Hwp.
    rewrite list_lookup_insert_eq in Hwp by (by eapply lookup_lt_Some).
    specialize (Hwp ltac:(by rewrite Huz, <- app_assoc) ltac:(unfold globals in Hg1; congruence)).
    rewrite wp_bind in Hwp. rewrite wp_bind. eapply wp_mono; [exact Hwp|]. intros ? st2 Hwp2.
    rewrite wp_bind. eapply wp_mono; [exact Hwp2|]. intros ? st' (Htb' & HE & Hg & Hat & Hfr & _). rewrite wp_ret.
    rewrite list_insert_insert_eq, <- Huz in Htb', HE.
    assert (entry st1 a = entry st a) as Hea.
    { unfold entry. by rewrite (the_node_same st st1 a) by (apply Hfr1, Hnhp; left). }
    split; [done|]. split; [exists hp; by rewrite list_insert_id by done|].
    split; [by rewrite <- HE1, HE, Hea|]. split; [congruence|]. split.
    + intros c Hc. eapply sim_at_trans; [apply sim_at_same, Hfr1, Hnhp; by right|]. apply Hat.
      intros ->. apply NoDup_cons_1_1 in Hnd. done.
    + intros c Hc ??. rewrite Hfr; [by apply Hfr1| |]; [|set_solver].
      intros ->. apply Hc. rewrite Huz. set_solver.
Qed.

(** ** The third loop *)

Section prune.
Context (h : Z) (t : hash) (r v : Z) (E : list (Z * Z)).

(** The milestones of the buckets before [i] are gone. *)
Record pruned (i : nat) (sl : list Z) (R : list (list Z)) (st : hstate) : Prop := {
  pr_table : table st h t sl R;
  pr_entries : ∃ D, Forall (λ x, x.1 mod r = 0) D ∧ E ≡ₚ D ++ entries st R;
  pr_ring j l : R !! j = Some l → if decide (j < i)%nat then plain st r l else first_only st r l;
  pr_verbose : test_verbose st = v
}.

Lemma plain_same st st' l : (∀ a, a ∈ l → sim_at st st' a) → (∀ a, a ∈ l → ∃ nd, node_at st a nd) →
  plain st r l → plain st' r l.
Proof.
  intros Hs Hn Hp a Ha. destruct (Hn a Ha) as [nd Hnd].
  destruct (sim_at_node st st' a nd (Hs a Ha) Hnd) as (nd' & Hnd' & _ & Hk & _). specialize (Hp a Ha).
  rewrite (the_node_at _ _ _ Hnd) in Hp. by rewrite (the_node_at _ _ _ Hnd'), Hk.
Qed.

Lemma prune_step i sl R st :
  v < 3 → pruned i sl R st → (i < length R)%nat →
  wp (prune_body h (Z.of_nat i)) (λ _ st', ∃ sl' R', pruned (S i) sl' R' st') st.
Proof.
  intros Hv [Htb (D & HD & HE) Hring Hverb] Hi. pose proof Htb as [_ Hh Hs _ _ _ _ _ _].
  destruct (lookup_lt_is_Some_2 R i Hi) as [l Hl]. destruct (slot_of _ _ _ _ _ _ _ Htb Hl) as [hp Hhp].
  unfold prune_body. rewrite wp_bind, (wp_load_slot h t sl _ hp) by (done || lia || by rewrite Nat2Z.id).
  assert (∀ j lj, R !! j = Some lj → j ≠ i →
    if decide (j < S i)%nat then plain st r lj else first_only st r lj) as Hother.
  { intros j lj Hlj Hji. specialize (Hring j lj Hlj). repeat case_decide; done || lia. }
  pose proof (Hring i l Hl) as Hfirst. rewrite decide_False in Hfirst by lia.
  pose proof (tb_bucket _ _ _ _ _ Htb i hp l Hhp Hl) as [[-> ->]|(Hptr & Hne & _)].
  { rewrite truthy_0, wp_ret. exists sl, R. split; [done|by exists D| |done]. intros j lj Hlj.
    destruct (decide (j = i)) as [->|]; [|by apply Hother]. rewrite decide_True by lia.
    assert (lj = []) as -> by congruence. by intros ? ?%elem_of_nil. }
  destruct Hfirst as [->|(a & q & -> & Hka & Hp & Hw)]; [done|].
  rewrite truthy_nz by (destruct Hptr; lia). rewrite wp_bind. eapply wp_mono.
  { apply (delete_head_spec st h t sl R i hp a q); done || lia. }
  intros ? st' (_ & [hp' Htb'] & HE' & Hg & Hsim & Hfr). rewrite wp_ret. exists (<[i := hp']> sl), (<[i := q]> R).
  assert (∀ j lj c, j ≠ i → R !! j = Some lj → c ∈ lj → mem st' !! c = mem st !! c) as Hsame.
  { intros j lj c Hji Hlj Hc. destruct (slot_of _ _ _ _ _ _ _ Htb Hlj) as [hpj Hhpj].
    apply (update_other st st' h t sl R i hp (a :: q) Htb Hhp Hl (λ b _ H1 H2 H3, Hfr b H1 H2 H3) j hpj lj); done. }
  split; [done| | |unfold globals in Hg; congruence].
  - exists (D ++ [entry st a]). split; [apply List.Forall_app; split; [done|by repeat constructor]|].
    rewrite HE, HE', <- app_assoc. done.
  - intros j lj Hlj. destruct (decide (j = i)) as [->|Hji].
    + rewrite list_lookup_insert_eq in Hlj by done. injection Hlj as <-. rewrite decide_True by lia.
      eapply plain_same; [done| |done]. intros c Hc. eapply table_nodes; [done|]. eapply in_ring; [done|by right].
    + rewrite list_lookup_insert_ne in Hlj by done. specialize (Hother j lj Hlj Hji). case_decide.
      * intros c Hc. rewrite (the_node_same st st' c) by (by apply (Hsame j lj)). by apply Hother.
      * destruct Hother as [->|(m & k & -> & Hm & Hk & Hmw)]; [by left|right]. exists m, k. split; [done|].
        rewrite (the_node_same st st' m) by (apply (Hsame j (m :: k)); [done|done|left]).
        split; [done|]. split; [|done]. intros c Hc.
        rewrite (the_node_same st st' c) by (apply (Hsame j (m :: k)); [done|done|by right]). by apply Hk.
Qed.

Lemma prune_spec sl R st :
  v < 3 → pruned 0 sl R st →
  wp (range_loop (hash_size t) () (λ i _, prune_body h i))
    (λ _ st', ∃ sl' R', pruned (length R) sl' R' st' ∧ length R' = length R) st.
Proof.
  intros Hv Hp0. destruct (tb_size _ _ _ _ _ (pr_table _ _ _ _ Hp0)) as [-> Hsz].
  apply wp_wpf. eapply wpf_mono; [apply (range_loop_rule _ _ _ (λ i _ st', ∃ sl' R', pruned i sl' R' st'))|].
  - intros i [] st1 Hi (sl1 & R1 & Hp1). apply wpf_of_wp, (prune_step i sl1 R1); [done|done|].
    destruct (tb_size _ _ _ _ _ (pr_table _ _ _ _ Hp1)). lia.
  - by exists sl, R.
  - intros _ st1 (sl1 & R1 & Hp1). exists sl1, R1. split; [done|].
    destruct (tb_size _ _ _ _ _ (pr_table _ _ _ _ Hp1)). lia.
Qed.
End prune.

(** ** [display] *)

(** What the printing of a table needs of it: the rings. *)
Record shape (st : hstate) (h : Z) (t : hash) (sl : list Z) (R : list (list Z)) : Prop := {
  sh_hash : mem st !! h = Some (OHash t);
  sh_slots : mem st !! hash_slots t = Some (OSlots sl);
  sh_size : hash_size t = Z.of_nat (length R);
  sh_length : length sl = length R;
  sh_ring i hp l : sl !! i = Some hp → R !! i = Some l →
    hp = 0 ∧ l = [] ∨
    ptr hp ∧ l ≠ [] ∧ (∃ w, mem st !! hp = Some (OHead w) ∧ addr w = hd 0 l) ∧ ring st l
}.

Lemma table_shape st h t sl R : table st h t sl R → shape st h t sl R.
Proof.
  intros [_ Hh Hs _ [Hsz _] Hlen Hb _ _]. split; try done. intros i hp l Hi Hl.
  destruct (Hb i hp l Hi Hl) as [?|(? & ? & ? & ? & _)]; [by left|by right].
Qed.

Lemma shape_retag r st h t sl R : shape (retag r st) h t sl R → shape st h t sl R.
Proof.
  assert (∀ a o, mem (retag r st) !! a = Some o → (∀ nd, o ≠ ONode nd) → mem st !! a = Some o) as Hinv.
  { intros a o. rewrite retag_lookup. destruct (mem st !! a) as [[]|]; cbn; intros [= <-] Hno; [|done..].
    by destruct (Hno _ eq_refl). }
  intros [Hh Hs Hsz Hlen Hr]. split; try done; [by apply Hinv|by apply Hinv|].
  intros i hp l Hi Hl. destruct (Hr i hp l Hi Hl) as [?|(? & ? & (w & Hw & ?) & Hring)]; [by left|right].
  split; [done|]. split; [done|]. split; [|exact (proj1 (ring_retag r st l) Hring)]. exists w. split; [by apply Hinv|done].
Qed.

(** The rows of a ring, nothing for an empty bucket. *)
Definition rows (st : hstate) (l : list Z) : option (list row) :=
  match l with [] => None | _ => Some ((λ a, row_of (the_node st a)) <$> l) end.

(** What is printed at the verbosity of the state. *)
Definition printed {A} (st : hstate) (l : list A) : list A := if 2 <=? test_verbose st then l else [].

Lemma wp_hprintv level (Q : bool → hstate → Prop) st : wp (printv level) Q st ↔ Q (level <=? test_verbose st) st.
Proof. done. Qed.

Definition display_step (p : Z) (out : list row) : H (list row + ()) :=
  b ← printv 2;
  if (b : bool) then tmp ← load_node p; mret (@inl (list row) () (out ++ [row_of tmp])) else mret (inl out).

Lemma ring_rows st a l :
  ring st (a :: l) →
  wp (list_for_each a (printed st [row_of (the_node st a)]) display_step)
    (λ out st', st' = st ∧ out = inl (printed st ((λ a, row_of (the_node st a)) <$> (a :: l)))) st.
Proof.
  intros Hr. pose proof Hr as (_ & Hnd & _).
  eapply (list_for_each_rule a l _ (λ p out st1, st1 = st ∧ out = printed st ((λ a, row_of (the_node st a)) <$> (a :: p)))).
  - done.
  - intros p x q s st1 Hl [-> ->]. destruct (ring_link st a l p x q Hr Hl) as (nd & Hn & Ha).
    unfold display_step, printed. rewrite wp_bind, wp_hprintv. destruct (2 <=? test_verbose st).
    + rewrite wp_bind, (wp_load_hnode x nd), wp_ret by done. split; [|by exists nd].
      split; [done|]. rewrite !fmap_cons, fmap_app. cbn. by rewrite (the_node_at st x nd).
    + rewrite wp_ret. split; [done|by exists nd].
  - intros s st1 [-> ->]. done.
  - by apply ring_head.
  - by apply (ring_fuel_enough st a).
  - done.
Qed.

Lemma printed_snoc {A} st (l : list A) x :
  (if 2 <=? test_verbose st then printed st l ++ [x] else printed st l) = printed st (l ++ [x]).
Proof. unfold printed. by destruct (2 <=? test_verbose st). Qed.

Lemma display_table st h t sl R :
  shape st h t sl R → wp (display h) (λ out st', st' = st ∧ out = printed st (rows st <$> R)) st.
Proof.
  intros [Hh Hs Hsz Hlen Hr]. unfold display. rewrite wp_bind, (wp_load_hash h t), Hsz by done.
  apply wp_wpf. eapply wpf_mono.
  { apply (range_loop_rule _ _ _ (λ i out st', st' = st ∧ out = printed st (rows st <$> take i R))).
    2:{ unfold printed. by destruct (2 <=? test_verbose st). }
    intros i out st1 Hi [-> ->]. destruct (lookup_lt_is_Some_2 R i Hi) as [l Hl].
    destruct (lookup_lt_is_Some_2 sl i) as [hp Hhp]; [lia|]. apply wpf_of_wp.
    rewrite (take_S_r _ _ _ Hl), fmap_app. unfold __hash_get_first.
    rewrite !wp_bind, (wp_load_slot h t sl _ hp) by (done || lia || by rewrite Nat2Z.id).
    destruct (Hr i hp l Hhp Hl) as [[-> ->]|([??] & Hne & (w & Hw & Haw) & Hring)].
    { rewrite truthy_0, wp_ret, wp_bind, wp_hprintv, wp_ret. split; [done|]. apply printed_snoc. }
    destruct l as [|a l]; [done|]. cbn [hd] in Haw. unfold get_head_node_by_head_pointer.
    rewrite truthy_nz, !wp_bind, (wp_load_head hp w), !wp_ret by (done || lia). unfold __iptr_to_ptr. rewrite Haw.
    destruct (ring_head st a l Hring) as (nd & Hn & _). rewrite wp_bind, wp_hprintv. fold display_step.
    assert (wp (if 2 <=? test_verbose st then nd ← load_node a; mret [row_of nd] else mret [])
      (λ rs st', st' = st ∧ rs = printed st [row_of (the_node st a)]) st) as Hfirst.
    { unfold printed. destruct (2 <=? test_verbose st); [|by rewrite wp_ret].
      by rewrite wp_bind, (wp_load_hnode a nd), wp_ret, (the_node_at st a nd). }
    rewrite wp_bind. eapply wp_mono; [exact Hfirst|]. intros ? ? [-> ->].
    rewrite wp_bind. eapply wp_mono; [by apply ring_rows|].
    intros ? st2 [-> ->]. rewrite wp_bind, wp_hprintv, wp_ret. split; [done|].
    change (rows st <$> [a :: l]) with [rows st (a :: l)]. rewrite <- printed_snoc. unfold printed. by destruct (2 <=? test_verbose st). }
  intros out st1 [-> ->]. by rewrite firstn_all.
Qed.

(** ** [hotring_rehash] *)

#[export] Instance blind_prune_body r h i : Blind r (prune_body h i).
Proof. unfold prune_body. apply blind_bind; [apply _|intros]. case_match; apply _. Qed.

Section rehash.
Context `{!Calloc obj}.

(** The table [h] holds the pairs [E], if one looks at its keys only. *)
Definition keyed (st : hstate) (h : Z) (t : hash) (E : list (Z * Z)) : Prop :=
  holds (retag (tag_range t) st) h t E.

(** ... with these hot keys. *)
Definition keyed_mset (st : hstate) (h : Z) (t : hash) (m : mset) : Prop :=
  holds_mset (retag (tag_range t) st) h t m.

Lemma keyed_mset_intro st h t E : keyed st h t E → ∃ hots, keyed_mset st h t (E, hots).
Proof. apply holds_mset_intro. Qed.

(** Without the new table nothing happens to an empty old one, and then its
    size is read from NULL. *)
Lemma split_nothing h t sl R bits half st :
  table st h t sl R → (∀ i l, R !! i = Some l → l = []) →
  wp (range_loop (hash_size t) (0, 0) (split_body h bits half)) (λ _ st', st' = st) st.
Proof.
  intros Htb Hempty. pose proof Htb as [_ Hh Hs _ [-> _] Hlen Hb _ _]. apply wp_wpf.
  apply (range_loop_rule _ _ _ (λ _ _ st', st' = st)); [|done]. intros i heads st1 Hi ->.
  destruct (lookup_lt_is_Some_2 R i Hi) as [l Hl]. destruct (slot_of _ _ _ _ _ _ _ Htb Hl) as [hp Hhp].
  pose proof (Hb i hp l Hhp Hl) as Hbk. rewrite (Hempty i l Hl) in Hbk.
  destruct Hbk as [[-> _]|(_ & ? & _)]; [|done]. apply wpf_of_wp. destruct heads. unfold split_body.
  by rewrite wp_bind, (wp_load_slot h t sl _ 0), truthy_0, wp_ret by (done || lia || by rewrite Nat2Z.id).
Qed.

(** The content without the milestones. *)
Lemma plain_entries r (M D E0 E : list (Z * Z)) :
  M ++ E0 ≡ₚ D ++ E → Forall (λ x, x.1 mod r = 0) M → Forall (λ x, x.1 mod r = 0) D →
  Forall (λ x, x.1 mod r ≠ 0) E0 → Forall (λ x, x.1 mod r ≠ 0) E → E0 ≡ₚ E.
Proof.
  intros HP HM HD HE0 HE.
  assert (∀ l : list (Z * Z), Forall (λ x, x.1 mod r = 0) l → filter (λ x, x.1 mod r ≠ 0) l = []) as Hnone.
  { induction l as [|x l IH]; [done|]. intros [Hx Hl]%List.Forall_cons_iff.
    rewrite filter_cons_False by (intros H; by apply H). by apply IH. }
  assert (∀ l : list (Z * Z), Forall (λ x, x.1 mod r ≠ 0) l → filter (λ x, x.1 mod r ≠ 0) l = l) as Hall.
  { induction l as [|x l IH]; [done|]. intros [Hx Hl]%List.Forall_cons_iff.
    rewrite filter_cons_True by done. by rewrite IH. }
  assert (filter (λ x, x.1 mod r ≠ 0) (M ++ E0) ≡ₚ filter (λ x, x.1 mod r ≠ 0) (D ++ E)) as HF by (by rewrite HP).
  by rewrite !list.filter_app, (Hnone M), (Hnone D), (Hall E0), (Hall E) in HF.
Qed.

Lemma plain_table st r R :
  (∀ j l, R !! j = Some l → plain st r l) → Forall (λ x, x.1 mod r ≠ 0) (entries st R).
Proof.
  intros Hp. apply Forall_elem. intros x (a & -> & (l & Ha & Hl)%list_elem_of_join)%list_elem_of_fmap.
  apply list_elem_of_lookup in Hl as [j Hl]. by apply (Hp j l).
Qed.

(** The second and the third loop, and the printing, with the new table. *)
Lemma rehash_rest N st h t sl new t' R1 nsl E0 s0 v :
  v < 3 → params_ok t → doubled t t' → hash_size t' = Z.of_nat (2 * length R1) →
  (∀ x, x ∈ E0 → x.1 < 2 ^ 31 ∧ x.1 mod (tag_range t') ≠ 0) →
  marking h t sl new t' E0 s0 v (length R1) R1 nsl st →
  wpf (out_of_memory N)
    (_ ← range_loop (hash_size t) (0, 0) (split_body h (hash_n t - hash_k t) (tag_range t'));
     t' ← load_hash new;
     range_loop (hash_size t') () (λ i _, prune_body new i);;
     _ ← display new;
     mret new)
    (λ new' st', new' = new ∧ keyed st' new t' E0 ∧ test_verbose st' = v) st.
Proof.
  intros Hv Hpar [_ Hk' Hpar' Hrr _] Hsize HE0 Hm. pose proof (mk_table _ _ _ _ _ _ _ _ _ _ _ _ Hm) as Htb.
  pose proof (tag_range_pos t' Hpar') as Hr. destruct (mk_entries _ _ _ _ _ _ _ _ _ _ _ _ Hm) as (M & HM & HE).
  pose proof (splitting_start h t sl new t' R1 nsl st _ _ _ Hm) as Hs0.
  destruct (tb_size _ _ _ _ _ Htb) as [Hsz Hsz2].
  assert (∀ i l, R1 !! i = Some l → l ≠ [] → Z.of_nat i * tag_range t < 2 ^ 31) as Hbase.
  { intros i [|a l] Hl Hne; [done|]. pose proof (lookup_lt_Some _ _ _ Hl) as Hi.
    pose proof (mk_length _ _ _ _ _ _ _ _ _ _ _ _ Hm) as Hlen.
    destruct (lookup_lt_is_Some_2 nsl (2 * i)) as [hp0 Hn0]; [lia|].
    destruct (lookup_lt_is_Some_2 nsl (2 * i + 1)) as [hp1 Hn1]; [lia|].
    pose proof (mk_bucket _ _ _ _ _ _ _ _ _ _ _ _ Hm i _ hp0 hp1 Hl Hn0 Hn1) as Hst.
    unfold mark_state in Hst. rewrite decide_True in Hst by done. destruct Hst as [(? & _)|(_ & Hhd & _)]; [done|].
    eapply mark_base; [..|exact Hm|exact Hl|exact Hhd]; [done|]. intros x Hx. by apply HE0. }
  rewrite wpf_bind, Hsz. eapply wpf_mono.
  { apply (range_loop_rule _ _ _ (λ i _ st', ∃ R2, splitting h t sl new t' R1 nsl st i R2 st')); [|by exists []].
    intros i heads st1 Hi (R2 & Hsp). apply wpf_of_wp.
    eapply splitting_step; [done|done|by eapply mk_length|done|apply Htb|apply Htb|done|done|done]. }
  intros _ st2 (R2 & Hsp). pose proof (sp_verbose _ _ _ _ _ _ _ _ _ _ _ Hsp) as Hv2.
  pose proof (mk_verbose _ _ _ _ _ _ _ _ _ _ _ _ Hm) as Hv1.
  destruct (splitting_table h t sl new t' R1 nsl st (mk_length _ _ _ _ _ _ _ _ _ _ _ _ Hm)
    (tb_nodup _ _ _ _ _ Htb) R2 st2) as [Htb2 HE2]; try done.
  { rewrite Hk', Z.pow_add_r by (destruct Hpar; lia). lia. }
  apply wpf_bind_wp. rewrite (wp_load_hash new t') by (by eapply nt_hash, sp_new).
  apply wpf_bind_wp. set (r := tag_range t') in *.
  assert (pruned new t' r v (M ++ E0) 0 nsl R2 (retag r st2)) as Hp0.
  { split; [done| | |cbn; congruence].
    - exists []. split; [constructor|]. by rewrite entries_retag, HE2, HE.
    - intros j l Hl. rewrite decide_False by lia. destruct (lookup_lt_is_Some_2 nsl j) as [hp Hhp].
      { rewrite (mk_length _ _ _ _ _ _ _ _ _ _ _ _ Hm), <- (sp_length _ _ _ _ _ _ _ _ _ _ _ Hsp). by eapply lookup_lt_Some. }
      destruct (sp_half _ _ _ _ _ _ _ _ _ _ _ Hsp j hp l Hhp Hl) as [_ [->|(m & q & -> & Hkm & Hpq & Hw)]]; [by left|right].
      destruct (the_node_retag r st2 m) as (Ek & _ & Ew). exists m, q. rewrite Ek, Ew. split; [done|]. split; [done|].
      split; [|done]. intros a Ha. destruct (the_node_retag r st2 a) as (Eka & _ & _). rewrite Eka. by apply Hpq. }
  pose proof (prune_spec new t' r v (M ++ E0) nsl R2 (retag r st2) Hv Hp0) as Hprune.
  apply wp_retag in Hprune; [|unfold range_loop; apply _].
  eapply wp_mono; [exact Hprune|]. intros _ st3 (sl3 & R3 & [Htb3 (D & HD & HE3) Hring3 Hv3] & Hlen3).
  apply wpf_bind_wp. eapply wp_mono; [eapply display_table, shape_retag, table_shape, Htb3|].
  intros out st4 [-> _]. rewrite wpf_ret. split; [done|]. split; [|exact Hv3].
  exists sl3, R3. split; [done|]. symmetry. eapply plain_entries; [done|done|done| |].
  - apply Forall_elem. intros x Hx. by apply HE0.
  - apply plain_table. intros j l Hl. specialize (Hring3 j l Hl). rewrite decide_True in Hring3; [done|].
    rewrite <- Hlen3. by eapply lookup_lt_Some.
Qed.

Lemma hotring_rehash_spec N st h t sl R :
  table st h t sl R → rehashable t (entries st R) → test_verbose st < 3 →
  (base.size (mem st) + 2 + 4 * length R ≤ N)%nat →
  wpf (out_of_memory N) (hotring_rehash h) (λ new st', ∃ t',
    doubled t t' ∧ keyed st' new t' (entries st R) ∧ test_verbose st' = test_verbose st) st.
Proof.
  intros Htb Hrh Hv HN. pose proof Htb as [_ Hh _ Hpar [Hsz _] _ _ _ _]. pose proof Hpar as (? & ? & ?).
  unfold hotring_rehash. rewrite wpf_bind. eapply wpf_mono; [by eapply (rehash_init_spec N)|].
  intros new st1 Hpost. apply wpf_bind_wp. rewrite (wp_load_hash h t).
  2:{ destruct Hpost as [(_ & _ & [_ ? _ _ _ _ _ _ _] & _)|(t' & R1 & nsl & _ & _ & Hm)]; [done|].
      apply (mk_table _ _ _ _ _ _ _ _ _ _ _ _ Hm). }
  assert (s32 (hash_n t - hash_k t) = hash_n t - hash_k t) as ->.
  { unfold sint. rewrite wrap_small by lia. destruct (Z.ltb_spec (hash_n t - hash_k t) (2 ^ (32 - 1))); lia. }
  destruct Hrh as [Hbits Hbuck Hkeys]. unfold NBITS in Hbits.
  apply wpf_bind_wp. rewrite wp_ulong_bit by lia.
  destruct Hpost as [(-> & Hoom & Htb1 & Hempty)|(t' & R1 & nsl & Hdb & Hsize & Hm)].
  - apply wpf_bind_wp. eapply wp_mono; [by apply (split_nothing h t sl R)|]. intros _ st2 ->.
    apply wpf_fault; [done|]. unfold mbind, M_bind, load_hash.
    pose proof (tb_null _ _ _ _ _ Htb1) as Hnull. unfold null_free in Hnull. by rewrite Hnull.
  - pose proof Hdb as [Hn' Hk' _ Hrr _].
    replace (2 ^ (hash_n t - hash_k t - 1)) with (tag_range t') by (unfold tag_range; f_equal; lia).
    assert (length R1 = length R) as HlenR.
    { destruct (tb_size _ _ _ _ _ (mk_table _ _ _ _ _ _ _ _ _ _ _ _ Hm)). lia. }
    rewrite <- HlenR in Hm, Hsize.
    eapply wpf_mono; [eapply (rehash_rest N st1 h t sl new t' R1 nsl (entries st R)); try done|].
    + intros x Hx. destruct (Hkeys x Hx) as [? Hmod]. split; [done|]. rewrite Hrr in Hmod.
      rewrite (Z.mul_comm 2), Z.div_mul in Hmod by lia. done.
    + intros new' st' (-> & Hk & Hv'). by exists t'.
Qed.

(** ** After a rehash *)

#[local] Instance blind_reading_hop r h o : reading o → Blind r (run_hop h o).
Proof.
  destruct o as [k v|k|k]; [done|..]; intros _; cbn [run_hop].
  - apply blind_bind; [apply _|intros [[? [a|]] ?]]; [|apply _]. apply blind_load_node; [done|intros; apply _].
  - apply _.
Qed.

Lemma blind_reading_hops r h os : Forall reading os → Blind r (run_hops h os).
Proof.
  induction os as [|o os IH]; [intros _; apply _|]. intros [Ho Hos]%List.Forall_cons_iff. cbn [run_hops].
  specialize (IH Hos). pose proof (blind_reading_hop r h o Ho). apply _.
Qed.

(** Lookups and deletions do not see that the tags are out of date. *)
Lemma keyed_ops st h t m os :
  Forall reading os → keyed_mset st h t m → Forall (λ o, 0 ≤ hop_key o < 2 ^ hash_n t) os → test_verbose st < 3 →
  wp (run_hops h os) (λ l st', ∃ m', keyed_mset st' h t m' ∧ mset_steps (tag_range t) m os l m') st.
Proof.
  intros Hr Hk Ho Hv. pose proof (blind_reading_hops (tag_range t) h os Hr).
  apply (wp_retag (tag_range t) (run_hops h os)
    (λ l st', ∃ m', holds_mset st' h t m' ∧ mset_steps (tag_range t) m os l m')).
  by apply reading_hops_spec.
Qed.

(** ** The public lookup *)

(** The incomes of a bucket are in range, and its counters fit the array. *)
Definition shiftable (st : hstate) (sl : list Z) (R : list (list Z)) (i : nat) : Prop :=
  ∀ hp a l w, sl !! i = Some hp → R !! i = Some (a :: l) → mem st !! hp = Some (OHead w) →
    (length (a :: l) ≤ MAX_COUNTERS)%nat ∧
    SFltb (income_of (counters_of st (a :: l)) (dbl (head_counter w)) 0) (dbl 1000000000) = true.

#[local] Instance quiet_take a : Quiet 0 (take_counter a).
Proof. unfold take_counter. apply _. Qed.
#[local] Instance quiet_stay_hot hp : Quiet 0 (store_head hp (λ w, set_head_counter w 0);;
  store_head hp (λ w, set_active w 0);; mret SHIFT_SUCCESS).
Proof. apply _. Qed.
#[local] Instance quiet_shift hp a : Quiet 0 (do_hotspot_shift hp a).
Proof.
  unfold do_hotspot_shift. do 3 (apply within_bind; [apply _|intros]). apply within_bind.
  - apply quiet_list_for_each. intros. case_match; apply _.
  - intros r. destruct (hottest_of _ _) as [m j]. destruct (SFeqb _ _); [apply _|].
    apply within_bind; [apply _|intros]. apply within_bind; [apply _|intros].
    destruct (SFltb _ _); apply _.
Qed.

Lemma holds_perm st h t E E' : E ≡ₚ E' → holds st h t E → holds st h t E'.
Proof. intros HE (sl & R & ? & HR). exists sl, R. split; [done|]. by rewrite HR. Qed.

Lemma rehashable_perm t E E' : E ≡ₚ E' → rehashable t E → rehashable t E'.
Proof. intros HE [? ? Hk]. split; try done. intros x. rewrite <- HE. apply Hk. Qed.

Lemma holds_mem st st' h t E : mem st' = mem st → holds st h t E → holds st' h t E.
Proof.
  intros Hm (sl & R & Htb & HE). exists sl, R. split; [by apply (table_mem st)|].
  rewrite <- HE. unfold entries, entry, the_node. by rewrite Hm.
Qed.

(** The pairs [E] are in the table [h], or in the table [h'] that has taken
    its place and is twice the size. *)
Definition in_table (st : hstate) (h : Z) (t : hash) (E : list (Z * Z)) (h' : Z) : Prop :=
  h' = h ∧ holds st h t E ∨ ∃ t', doubled t t' ∧ keyed st h' t' E.

Lemma in_table_nr_request st x h t E h' : in_table st h t E h' → in_table (set_nr_request x st) h t E h'.
Proof.
  intros [[-> Hh]|(t' & ? & Hk)]; [left|right].
  - split; [done|]. by apply (holds_mem st).
  - exists t'. split; [done|]. by apply (holds_mem (retag (tag_range t') st)).
Qed.

Lemma hotspot_shift_spec N st h t sl R i hp a l :
  table st h t sl R → rehashable t (entries st R) → test_verbose st < 3 → shiftable st sl R i →
  sl !! i = Some hp → R !! i = Some (a :: l) → (base.size (mem st) + 2 + 4 * length R ≤ N)%nat →
  wpf (out_of_memory N) (hotspot_shift h (Z.of_nat i))
    (λ h' st', in_table st' h t (entries st R) h') st.
Proof.
  intros Htb Hrh Hv Hsh Hhp Hl HN. pose proof Htb as [_ Hh Hs _ _ _ _ _ _].
  pose proof (tb_bucket _ _ _ _ _ Htb i hp _ Hhp Hl) as [[_ ?]|([??] & _ & (w & Hw & Haw) & _)]; [done|].
  destruct (Hsh hp a l w Hhp Hl Hw) as [Hmax Hinc].
  unfold hotspot_shift. apply wpf_bind_wp. rewrite (wp_load_slot h t sl _ hp) by (done || lia || by rewrite Nat2Z.id).
  unfold get_head_node_by_head_pointer. apply wpf_bind_wp. rewrite truthy_nz, wp_bind, (wp_load_head hp w), wp_ret by (done || lia).
  unfold __iptr_to_ptr. rewrite Haw. cbn [hd]. apply wpf_bind_wp. eapply wp_mono.
  { apply (wp_within (R := calm) 0); [apply _|]. by apply (do_hotspot_shift_spec st h t sl R i hp a l w). }
  intros ret st1 [(p & q & Hpq & Hq & Htb1 & HE1 & _) [Hv1 Hsz1]].
  destruct ret.
  - eapply wpf_mono; [apply (hotring_rehash_spec N st1 h t sl (<[i := q ++ p]> R)); try done|].
    + by apply (rehashable_perm _ (entries st R)).
    + lia.
    + rewrite length_insert. lia.
    + intros new st2 (t' & Hdb & Hk & _). right. exists t'. split; [done|]. by eapply holds_perm.
  - rewrite wpf_ret. left. split; [done|]. by exists sl, (<[i := q ++ p]> R).
Qed.

(** What a lookup leaves for the shift, with the shifts that it leads to. *)
Lemma hash_get_shift N st h t sl R key' :
  table st h t sl R → 0 ≤ key' < 2 ^ hash_n t → rehashable t (entries st R) → test_verbose st < 3 →
  (∀ st1, sim st st1 → st1 = exec (__hash_get h key') st → shiftable st1 sl R (Z.to_nat (key' / tag_range t))) →
  (base.size (mem st) + 2 + 4 * length R ≤ N)%nat →
  wpf (out_of_memory N)
    ('(ret, node, prev) ← __hash_get h key';
     '(hashIndex, _) ← hashCode h key';
     match ret with
     | GET_SUCCESS | GET_ACCESS_HOT => mret (true, node, prev, h)
     | GET_ACCESS_COLD =>
         r ← gets nr_request;
         if 5 <=? r then
           h' ← hotspot_shift h hashIndex;
           modify (set_nr_request 0);;
           mret (true, node, prev, h')
         else mret (true, node, prev, h)
     | GET_NOT_FOUND => mret (false, node, prev, h)
     end)
    (λ '(found, node, prev, h') st',
      (found = true ↔ ∃ v, (key', v) ∈ entries st R) ∧ in_table st' h t (entries st R) h') st.
Proof.
  intros Htb Hkey Hrh Hv Hsh HN. pose proof Htb as [_ _ _ Hp _ _ _ _ _].
  assert (wp (__hash_get h key') (λ r st', (∃ i l, sim st st' ∧ Z.of_nat i = key' / tag_range t ∧ R !! i = Some l ∧
    got st l key' r) ∧ calm 0 st st' ∧ st' = exec (__hash_get h key') st) st) as Hget.
  { pose proof (hash_get_spec st h t sl R key' Htb Hkey) as Hg. apply (wp_within (R := calm) 0) in Hg; [|apply _].
    unfold wp, exec in *. destruct (__hash_get h key' st) as [[r st']| |]; [|done..].
    destruct Hg as [(? & i & l & ?) ?]. split; [exists i, l; tauto|done]. }
  apply wpf_bind_wp. eapply wp_mono; [exact Hget|].
  intros [[r node] prev] st' ((i & l & Hsim & Hi & Hl & Hg) & [Hv' Hsz] & Hex).
  pose proof (sim_table _ _ _ _ _ _ Hsim Htb) as Htb'. pose proof (sim_entries _ _ _ _ _ _ Hsim Htb) as Hent.
  pose proof (got_lookup st h t sl R i l key' r node prev Htb Hl Hi Hg) as (Hlk & Hnone & _).
  pose proof Htb' as [_ Hh' _ _ _ _ _ _ _]. apply wpf_bind_wp. rewrite (hashCode_spec st' h t) by (done || lia).
  assert (r ≠ GET_NOT_FOUND → true = true ↔ ∃ v, (key', v) ∈ entries st R) as Hfound.
  { intros Hr. split; [intros _|done]. destruct node as [a|]; [eexists; exact Hlk|]. destruct Hr. by apply Hnone. }
  assert (in_table st' h t (entries st R) h) as Hin.
  { left. split; [done|]. exists sl, R. split; [done|]. by rewrite Hent. }
  destruct r.
  - rewrite wpf_ret. split; [|done]. assert (node = None) as -> by (by apply Hnone). cbn in Hlk.
    split; [done|]. intros [v Hv2]. by destruct (Hlk v).
  - rewrite wpf_ret. split; [by apply Hfound|done].
  - rewrite wpf_ret. split; [by apply Hfound|done].
  - apply wpf_bind_wp. rewrite wp_gets. case_match; [|rewrite wpf_ret; split; [by apply Hfound|done]].
    destruct Hg as (_ & p & y & q & -> & _). destruct (slot_of _ _ _ _ _ _ _ Htb Hl) as [hp Hhp].
    rewrite <- Hi, wpf_bind. destruct (p ++ prev :: y :: q) as [|a l] eqn:El; [by destruct p|].
    eapply wpf_mono; [eapply (hotspot_shift_spec N st' h t sl R i hp a l); try done|].
    + by rewrite Hent.
    + lia.
    + specialize (Hsh st' Hsim Hex). by rewrite <- Hi, Nat2Z.id in Hsh.
    + lia.
    + intros h' st2 Hin2. apply wpf_bind_wp. rewrite wp_modify, wpf_ret. split; [by apply Hfound|].
      apply in_table_nr_request. by rewrite <- Hent.
Qed.

Lemma hash_get_full_spec N st h t sl R key' :
  table st h t sl R → 0 ≤ key' < 2 ^ hash_n t → rehashable t (entries st R) → test_verbose st < 3 →
  nr_request st + 1 < 2 ^ 31 →
  shiftable (exec (__hash_get h key') (set_nr_request (nr_request st + 1) st)) sl R
    (Z.to_nat (key' / tag_range t)) →
  (base.size (mem st) + 2 + 4 * length R ≤ N)%nat →
  wpf (out_of_memory N) (hash_get h key') (λ '(found, node, prev, h') st',
      (found = true ↔ ∃ v, (key', v) ∈ entries st R) ∧ in_table st' h t (entries st R) h') st.
Proof.
  intros Htb Hkey Hrh Hv Hnr Hsh HN. unfold hash_get. apply wpf_bind_wp. rewrite wp_count_request by done.
  apply (hash_get_shift N (set_nr_request (nr_request st + 1) st) h t sl R key'); try done.
  - by apply set_nr_request_table.
  - by intros st1 _ ->.
Qed.
End rehash.
