(* ===== verification/HashItems.v ===== *)
(** * The items of hotring/test.c and chaining_hash/test.c

    Both files make items the same way; the table they go into is a state of
    its own, and its insertion a parameter. *)
From S2P Require Import Prelude.

Record hitem := HItem { hi_index : Z; hi_data : Z }.

(** A table's state, the items by address, and the number of calls of [malloc]. *)
Record hrun (S : Type) := HRun {
  hr_table : S;
  hr_items : gmap Z hitem;
  hr_calls : nat
}.
Arguments HRun {_}.
Arguments hr_table {_}.
Arguments hr_items {_}.
Arguments hr_calls {_}.

#[export] Program Instance hrun_verbose {S} `{!Verbose S} : Verbose (hrun S) := {|
  verbose st := verbose (hr_table st);
  set_verbose v st := HRun (set_verbose v (hr_table st)) (hr_items st) (hr_calls st)
|}.
Next Obligation. intros. apply verbose_set. Qed.
Next Obligation. intros. cbn. by rewrite set_verbose_set. Qed.
Next Obligation. intros S ? []. cbn. by rewrite set_verbose_same. Qed.

(** An operation of the table leaves the items alone. *)
Definition on_table {S A} (m : M S A) : M (hrun S) A := λ st,
  match m (hr_table st) with
  | Ok (x, t) => Ok (x, HRun t (hr_items st) (hr_calls st))
  | Fault => Fault
  | NoFuel => NoFuel
  end.

Section ops.
Context {S : Type} `{!Calloc hitem}.

Definition load_hitem (a : Z) : M (hrun S) hitem := λ st,
  match hr_items st !! a with Some it => Ok (it, st) | None => Fault end.

Definition free_hitem (a : Z) : M (hrun S) () := λ st,
  if a =? 0 then Ok ((), st)
  else match hr_items st !! a with
       | Some _ => Ok ((), HRun (hr_table st) (delete a (hr_items st)) (hr_calls st))
       | None => Fault
       end.

(** The fields are [int]s, written through the result of [malloc], NULL or not. *)
Definition item_create (index data : Z) : M (hrun S) Z := λ st,
  match calloc (hr_calls st) (hr_items st) with
  | Some ret =>
      Ok (ret, HRun (hr_table st) (<[ret := HItem (s32 index) (s32 data)]> (hr_items st)) (Datatypes.S (hr_calls st)))
  | None => Fault
  end.

(** The [int] index becomes the table's [unsigned long] key. *)
Definition item_insert (hash_insert : Z → Z → M S Z) (index : Z) : M (hrun S) Z :=
  item ← item_create index 0;
  it ← load_hitem item;
  err ← on_table (hash_insert (u64 (hi_index it)) item);
  if truthy err then free_hitem item;; mret err else mret err.

Definition item_free (item index : Z) : M (hrun S) () := free_hitem item.
End ops.

Lemma wp_on_table {S A} (m : M S A) (Q : A → hrun S → Prop) st :
  wp (on_table m) Q st ↔ wp m (λ x t, Q x (HRun t (hr_items st) (hr_calls st))) (hr_table st).
Proof. unfold wp, on_table. by destruct (m (hr_table st)) as [[x t]| |]. Qed.

(** An index that fits an [int] comes back from the item as it went in. *)
Lemma int_index k : 0 ≤ k < 2 ^ 31 → s32 k = k ∧ u64 k = k.
Proof.
  intros Hk. split; [|apply wrap_small; lia]. unfold sint. rewrite wrap_small by lia.
  rewrite (proj2 (Z.ltb_lt _ _)) by lia. done.
Qed.

Section insert.
Context {S : Type} `{!Calloc hitem} (hash_insert : Z → Z → M S Z).

(** Whatever the table's insertion does with a fresh address, the item is
    there when it succeeds and gone when it does not. *)
Lemma item_insert_table (R : Z → Z → S → Prop) st k :
  0 ≤ k < 2 ^ 31 → calloc (hr_calls st) (hr_items st) ≠ None →
  (∀ a, 0 < a → hr_items st !! a = None → wp (hash_insert k a) (R a) (hr_table st)) →
  wp (item_insert hash_insert k) (λ e st', ∃ a, 0 < a ∧ hr_items st !! a = None ∧ R a e (hr_table st') ∧
    hr_items st' = if truthy e then hr_items st else <[a := HItem k 0]> (hr_items st)) st.
Proof.
  intros Hk Hmem HR. destruct (int_index k Hk) as [Hs Hu]. unfold item_insert. rewrite wp_bind.
  unfold wp at 1, item_create. destruct (calloc (hr_calls st) (hr_items st)) as [a|] eqn:Ha; [|done].
  pose proof (calloc_range _ _ _ Ha) as Hr. pose proof (calloc_fresh _ _ _ Ha) as Hf.
  assert (s32 0 = 0) as H0 by done. rewrite Hs, H0.
  rewrite wp_bind. unfold wp at 1, load_hitem. cbn [hr_items]. rewrite lookup_insert_eq. cbn [hi_index]. rewrite Hu.
  rewrite wp_bind, wp_on_table. cbn [hr_table hr_items hr_calls].
  eapply wp_mono; [apply (HR a); [lia|done]|]. intros e t HRe. destruct (truthy e) eqn:He.
  - rewrite wp_bind. unfold wp at 1, free_hitem. rewrite (proj2 (Z.eqb_neq a 0)) by lia.
    cbn [hr_items]. rewrite lookup_insert_eq, wp_ret. exists a. rewrite He. split; [lia|]. split; [done|]. split; [done|].
    cbn. by rewrite delete_insert_id.
  - rewrite wp_ret. exists a. rewrite He. split; [lia|]. done.
Qed.
End insert.
