(* ===== verification/HotringRuns.v ===== *)
(** * The hot ring: the items and runs of test.c and benchmark.c

    The items are those of [HashItems].  The run of [main] is evaluated; the
    run that is compiled but never called cannot look anything up. *)
From S2P Require Import Prelude Loops Cyclic HotringDefs HotringInv HotringGet HotringInsert HotringClient HashItems.

Section ops.
Context `{!Calloc obj}.

(** ** hotring/test.c *)

Definition ring_item_insert `{!Calloc hitem} (h index : Z) : M (hrun hstate) Z :=
  HashItems.item_insert (hash_insert h) index.

Definition item_check_present {S} (h index : Z) : M S () := mret ().

Definition item_lookup {S} (h index : Z) : M S Z := mret 0.

(** The assertion reads a local variable that nothing has set. *)
Definition item_check_absent {S} (h index : Z) (item : option Z) : M S () :=
  match item with
  | Some item => if item =? 0 then mret () else fault
  | None => fault
  end.

(** ** hotring/benchmark.c *)

Definition benchmark_insert (h sz step : Z) : H () :=
  for_up (S (turns sz step)) 0 sz step (λ index, _ ← hash_insert h index index; mret ()).

(** [hash_get] takes the address of a variable that holds the table; it is
    given the table, whose first word, [n], it reads and writes as one. *)
Definition hash_get_in (h key' : Z) : H () :=
  t ← load_hash h;
  '(_, _, _, h') ← hash_get (hash_n t) key';
  modify (λ st, match mem st !! h with
    | Some (OHash t) => set_mem (<[h := OHash (Hash h' (hash_k t) (hash_size t) (hash_slots t))]> (mem st)) st
    | _ => st
    end).

Definition benchmark_search (h sz step : Z) : H () :=
  for_up (S (turns sz step)) 0 sz step (λ index, hash_get_in h index).

Definition benchmark_size (sz step : Z) : H (list (option (list row))) :=
  h ← hash_alloc NBITS 8;
  benchmark_insert h sz step;;
  benchmark_search h sz step;;
  display h.

Definition indices : list Z := [72; 36; 22; 37; 42; 6; 535822335; 87; 11; 16; 18; 1073741823].

Fixpoint insert_indices (h : Z) (l : list Z) : H () :=
  match l with
  | [] => mret ()
  | k :: l => _ ← hash_insert h k k; insert_indices h l
  end.

(** [n] lookups of a key; each leaves the table in the variable. *)
Fixpoint get_times (n : nat) (h key' : Z) : H Z :=
  match n with
  | O => mret h
  | S n => '(_, _, _, h) ← hash_get h key'; get_times n h key'
  end.

(** The key at position [i] is looked up [i + 1] times. *)
Fixpoint get_indices (i : nat) (l : list Z) (h : Z) : H Z :=
  match l with
  | [] => mret h
  | k :: l => h ← get_times (S i) h k; get_indices (S i) l h
  end.

(** What the first display prints, whether the key 21 is found, what the
    deletion returns, and what the last display prints. *)
Definition my_benchmark : H (list (option (list row)) * bool * bool * list (option (list row))) :=
  h ← hash_alloc NBITS 3;
  insert_indices h indices;;
  before ← display h;
  h ← get_indices 0 indices h;
  '(found, _, _, h) ← hash_get h 21;
  deleted ← hotring_delete h 37;
  after ← display h;
  mret (before, found, deleted, after).

(** The runs of [benchmark_size] are under [#if 0]. *)
Definition benchmark : H (list (option (list row)) * bool * bool * list (option (list row))) := my_benchmark.
End ops.

(** ** The keys of a printed table *)

Definition keys_of (d : list (option (list row))) : list (option (list Z)) :=
  (λ o : option (list row), (λ l : list row, (λ r : row, fst (fst r)) <$> l) <$> o) <$> d.

(** What [main] shows, without the values and tags. *)
Definition shown (r : list (option (list row)) * bool * bool * list (option (list row))) :
    list (option (list Z)) * bool * bool * list (option (list Z)) :=
  let '(before, found, deleted, after) := r in (keys_of before, found, deleted, keys_of after).

(** ** The run that is not called *)

(** A table at which the width is read as a table. *)
Lemma get_in_faults `{!Calloc obj} st h t key' :
  mem st !! h = Some (OHash t) → (∀ t', mem st !! hash_n t ≠ Some (OHash t')) → hash_get_in h key' st = Fault.
Proof.
  intros Hh Hn. unfold hash_get_in, mbind, M_bind, load_hash, hash_get, count_request, __hash_get, hashCode.
  rewrite Hh. cbn. unfold load_hash, mbind, M_bind. cbn. destruct (nr_request st + 1 <? 2 ^ 31); [|done]. cbn.
  destruct (mem st !! hash_n t) as [[nd|w|t'|l]|] eqn:E; try done. by destruct (Hn t').
Qed.

(** ** What the insertions leave *)

(** The multiples of the step, each its own value, the last one first. *)
Fixpoint own_values (step : Z) (n : nat) : list (Z * Z) :=
  match n with
  | O => []
  | S n => (Z.of_nat n * step, Z.of_nat n * step) :: own_values step n
  end.

Section runs.
Context `{!Calloc obj}.

Lemma ring_insert_holds N st h t E key' value' :
  (S (size (mem st)) < N)%nat → holds st h t E → 0 ≤ key' < 2 ^ hash_n t →
  wpf (out_of_memory N) (hash_insert h key' value')
    (λ e st', (e = 0 ∧ holds st' h t ((key', value') :: E)) ∧ calm 2 st st') st.
Proof.
  intros HN (sl & R & Htb & HE) Hk. apply (wpf_within (R := calm) 2); [apply _|].
  eapply wpf_mono; [by apply (hash_insert_spec N st h t sl R)|].
  intros e st' (He & sl' & R' & Htb' & HE'). split; [done|]. exists sl', R'. split; [done|]. by rewrite HE', HE.
Qed.

(** The loop asks for at most two objects a turn. *)
Lemma ring_benchmark_insert_spec st h t E sz step :
  holds st h t E → 0 < step → 0 ≤ sz → sz + step ≤ 2 ^ 64 → sz ≤ 2 ^ hash_n t →
  wpf (out_of_memory (size (mem st) + 2 * S (turns sz step))) (benchmark_insert h sz step)
    (λ _ st', holds st' h t (own_values step (turns sz step) ++ E)) st.
Proof.
  intros HE Hs Hsz Hmax Hn. set (N := (size (mem st) + 2 * S (turns sz step))%nat). unfold benchmark_insert.
  eapply wpf_mono.
  { apply (for_up_rulef _ (λ j st', holds st' h t (own_values step j ++ E) ∧
      (size (mem st') ≤ size (mem st) + 2 * j)%nat)); [done..|split; [done|lia]|].
    intros j st1 Hj [H1 Hm]. apply turns_lt in Hj as Hlt; [|done..].
    assert (0 ≤ Z.of_nat j * step) by (apply Z.mul_nonneg_nonneg; lia). rewrite wpf_bind.
    eapply wpf_mono; [apply (ring_insert_holds N _ h t (own_values step j ++ E)); [unfold N; lia|done|lia]|].
    intros e st2 [[_ H2] [_ Hm2]]. rewrite wpf_ret. split; [done|lia]. }
  by intros [] st1 [? _].
Qed.

(** The first search of a run stops it, when no table lives at the address
    that is the width. *)
Lemma ring_benchmark_search_faults st h t sz step :
  mem st !! h = Some (OHash t) → (∀ t', mem st !! hash_n t ≠ Some (OHash t')) → 0 < sz →
  benchmark_search h sz step st = Fault.
Proof.
  intros Hh Hn Hsz. unfold benchmark_search. cbn [for_up]. rewrite (proj2 (Z.ltb_lt 0 sz)) by done.
  unfold mbind, M_bind. by erewrite get_in_faults.
Qed.

(** An item is inserted under its index, with its address as the value. *)
Lemma ring_item_insert_spec `{!Calloc hitem} (st : hrun hstate) h t E k :
  holds (hr_table st) h t E → 0 ≤ k < 2 ^ 31 → k < 2 ^ hash_n t →
  calloc (hr_calls st) (hr_items st) ≠ None → serves (V := obj) (size (mem (hr_table st)) + 2) →
  wp (ring_item_insert h k) (λ e st', e = 0 ∧ ∃ a, hr_items st' = <[a := HItem k 0]> (hr_items st) ∧
    hr_items st !! a = None ∧ holds (hr_table st') h t ((k, a) :: E)) st.
Proof.
  intros HE Hk Hn Hmem Hserves. eapply wp_mono.
  { apply (item_insert_table (hash_insert h) (λ a e t', e = 0 ∧ holds t' h t ((k, a) :: E))); [done|done|].
    intros a Ha _. apply (wpf_serves (V := obj) _ _ _ _ Hserves).
    eapply wpf_mono; [apply (ring_insert_holds _ _ h t E); [lia|done|lia]|]. by intros e t' [? _]. }
  intros e st' (a & _ & Hfresh & [-> HE'] & Hits). split; [done|]. by exists a.
Qed.
End runs.

(** ** The callback that is not registered *)

(** It frees only a node whose value is the address of an object; in every
    run of the benchmarks it is a number. *)
Lemma rcu_free_faults st a nd :
  mem st !! a = Some (ONode nd) → mem st !! value nd = None → hotring_node_rcu_free a st = Fault.
Proof.
  intros Ha Hv. assert (value nd ≠ a) as Hne by congruence.
  unfold hotring_node_rcu_free, mbind, M_bind, store_node, load_node. rewrite Ha. cbn.
  rewrite lookup_insert_eq. cbn. rewrite lookup_insert_eq. cbn. unfold zero_word. cbn.
  rewrite !lookup_insert_ne by congruence. by rewrite Hv.
Qed.

Lemma rcu_free_frees st a nd w :
  a ≠ 0 → mem st !! a = Some (ONode nd) → value nd ≠ a → mem st !! value nd = Some (OHead w) →
  hotring_node_rcu_free a st = Ok ((), set_mem (<[value nd := OHead 0]> (delete a (mem st))) st).
Proof.
  intros Ha0 Ha Hne Hv. unfold hotring_node_rcu_free, mbind, M_bind, store_node, load_node. rewrite Ha. cbn.
  rewrite lookup_insert_eq. cbn. rewrite lookup_insert_eq. cbn. unfold zero_word. cbn.
  rewrite !lookup_insert_ne, Hv by congruence. cbn. unfold INIT_LIST_HEAD, store_node, free. cbn.
  rewrite lookup_insert_ne, !lookup_insert_eq by congruence. cbn. rewrite (proj2 (Z.eqb_neq a 0)) by done.
  rewrite lookup_insert_eq. unfold set_mem. cbn. do 3 f_equal.
  rewrite delete_insert_eq, delete_insert_ne by congruence. by rewrite !delete_insert_eq.
Qed.
