(* ===== verification/HotringVerbose.v ===== *)
(** * The hot ring: what the verbosity changes

    Tables are printed from the verbosity 2 on, and from 3 on the message of
    [hotring_node_free] reads the node: two runs whose verbosities are on the
    same sides of 2 and 3 are the same. *)
From Stdlib Require Import SpecFloat.
From S2P Require Import Prelude Loops HotringDefs HashItems HotringRuns.

Definition say : Z → hstate → hstate := set_verbose.

(** A run is the same from two states whose verbosities are on the same sides
    of 2 and 3, and leaves the verbosity as it is. *)
Class Quiet {A} (m : H A) : Prop :=
  quiet v st : ((2 <=? v), (3 <=? v)) = ((2 <=? test_verbose st), (3 <=? test_verbose st)) →
    match m st with
    | Ok (x, st') => m (say v st) = Ok (x, say v st') ∧ test_verbose st' = test_verbose st
    | Fault => m (say v st) = Fault
    | NoFuel => m (say v st) = NoFuel
    end.

Section quiet.
Context `{!Calloc obj}.

#[export] Instance quiet_ret {A} (x : A) : Quiet (mret x).
Proof. done. Qed.
#[export] Instance quiet_fault {A} : Quiet (fault (A := A)).
Proof. done. Qed.
#[export] Instance quiet_nofuel {A} : Quiet (nofuel (A := A)).
Proof. done. Qed.

#[export] Instance quiet_bind {A B} (m : H A) (f : A → H B) : Quiet m → (∀ x, Quiet (f x)) → Quiet (m ≫= f).
Proof.
  intros Hm Hf v st Hv. unfold mbind, M_bind. specialize (Hm v st Hv).
  destruct (m st) as [[x st1]| |]; [|by rewrite Hm..]. destruct Hm as [-> Ht].
  specialize (Hf x v st1). rewrite Ht in Hf. by apply Hf.
Qed.

(** An access of the memory. *)
#[local] Ltac access := intros v st _; repeat (case_match || (progress cbn in *)); simplify_eq; try done.

#[export] Instance quiet_load_node a : Quiet (load_node a).
Proof. unfold load_node. access. Qed.
#[export] Instance quiet_store_node a f : Quiet (store_node a f).
Proof. unfold store_node. access. Qed.
#[export] Instance quiet_load_head a : Quiet (load_head a).
Proof. unfold load_head. access. Qed.
#[export] Instance quiet_store_head a f : Quiet (store_head a f).
Proof. unfold store_head. access. Qed.
#[export] Instance quiet_load_hash a : Quiet (load_hash a).
Proof. unfold load_hash. access. Qed.
#[export] Instance quiet_load_slot h i : Quiet (load_slot h i).
Proof. unfold load_slot. access. Qed.
#[export] Instance quiet_store_slot h i x : Quiet (store_slot h i x).
Proof. unfold store_slot. access. Qed.
#[export] Instance quiet_free a : Quiet (free a).
Proof. unfold free. access. Qed.
#[export] Instance quiet_alloc o : Quiet (alloc o).
Proof. unfold alloc. access. Qed.
#[export] Instance quiet_ring_fuel : Quiet (gets ring_fuel).
Proof. done. Qed.
#[export] Instance quiet_nr_request : Quiet (gets nr_request).
Proof. done. Qed.
#[export] Instance quiet_set_nr_request x : Quiet (modify (set_nr_request x)).
Proof. done. Qed.
#[export] Instance quiet_count_request : Quiet count_request.
Proof. intros v st _. unfold count_request. cbn. by destruct (nr_request st + 1 <? 2 ^ 31). Qed.
#[export] Instance quiet_print_tables : Quiet (printv 2).
Proof.
  intros v st Hv. injection Hv as Hv _. unfold printv, say. cbn [verbose set_verbose hstate_verbose test_verbose].
  by rewrite Hv.
Qed.
#[export] Instance quiet_set_cur_hash x : Quiet (modify (set_cur_hash x)).
Proof. done. Qed.
#[export] Instance quiet_set_mem f : Quiet (modify (λ st, set_mem (f (mem st)) st)).
Proof. done. Qed.

#[local] Ltac quiet :=
  repeat (apply _ || case_match || (apply quiet_bind; [|intros])).

#[export] Instance quiet_int_shl x s : Quiet (int_shl x s).
Proof. unfold int_shl. quiet. Qed.
#[export] Instance quiet_ulong_bit s : Quiet (ulong_bit s).
Proof. unfold ulong_bit. quiet. Qed.

#[export] Instance quiet_for_each_from {A R} fuel p head (s : A) (body : Z → A → H (A + R)) :
  (∀ x y, Quiet (body x y)) → Quiet (for_each_from fuel p head s body).
Proof. intros ?. revert p s. induction fuel; intros p s; cbn [for_each_from]; quiet. Qed.
#[export] Instance quiet_list_for_each {A R} head (s : A) (body : Z → A → H (A + R)) :
  (∀ x y, Quiet (body x y)) → Quiet (list_for_each head s body).
Proof. intros ?. unfold list_for_each. quiet. Qed.
#[export] Instance quiet_for_range {A} fuel i bound (s : A) (body : Z → A → H A) :
  (∀ x y, Quiet (body x y)) → Quiet (for_range fuel i bound s body).
Proof. intros ?. revert i s. induction fuel; intros i s; cbn [for_range]; quiet. Qed.

#[local] Ltac quiet ::=
  repeat lazymatch goal with
  | |- Quiet (_ ≫= _) => apply quiet_bind; [|intros]
  | |- Quiet (list_for_each _ _ _) => apply quiet_list_for_each; intros
  | |- Quiet (for_range _ _ _ _ _) => apply quiet_for_range; intros
  | |- Quiet (match _ with _ => _ end) => case_match
  | |- _ => apply _
  end.

(** The message after a node was freed. *)
#[export] Instance quiet_node_free a : Quiet (hotring_node_free a).
Proof.
  unfold hotring_node_free. apply quiet_bind; [apply _|intros _]. intros v st Hv.
  assert (∀ s : hstate, (v ← gets test_verbose; if 3 <=? v then _ ← load_node a; mret () else mret ()) s =
    (if 3 <=? test_verbose s then _ ← load_node a; mret () else mret ()) s) as Heq by done.
  rewrite !Heq. change (test_verbose (say v st)) with v. injection Hv as Hv2 Hv3. rewrite Hv3.
  assert (Quiet (if 3 <=? test_verbose st then _ ← load_node a; mret () else mret ())) as Hq by (case_match; apply _).
  apply (Hq v st). by rewrite Hv2, Hv3.
Qed.

(** ** The operations *)

#[export] Instance quiet_head_node a : Quiet (get_head_node_by_head_pointer a).
Proof. unfold get_head_node_by_head_pointer. quiet. Qed.
#[export] Instance quiet_hashCode h k : Quiet (hashCode h k).
Proof. unfold hashCode. quiet. Qed.
#[export] Instance quiet_hash_alloc n k : Quiet (hash_alloc n k).
Proof.
  unfold hash_alloc. repeat (apply _ || case_match || (apply quiet_bind; [|intros])).
Qed.
#[export] Instance quiet_create h i tg : Quiet (__hash_create h i tg).
Proof. unfold __hash_create, list_add, __list_add, INIT_LIST_HEAD, head_alloc, hash_node_alloc. quiet. Qed.
#[export] Instance quiet_insert_entries a k tg v : Quiet (insert_entries a k tg v).
Proof. unfold insert_entries. quiet. Qed.
#[export] Instance quiet_insert h k v : Quiet (hash_insert h k v).
Proof. unfold hash_insert. quiet. Qed.
#[export] Instance quiet___hash_get h k : Quiet (__hash_get h k).
Proof.
  unfold __hash_get, bump_counter. apply quiet_bind; [apply _|intros [i ?]]. apply quiet_bind; [apply _|intros hp].
  case_match; [|apply _]. apply quiet_bind; [apply _|intros _]. apply quiet_bind; [apply _|intros a].
  apply quiet_bind; [apply _|intros nd]. case_match; [quiet|].
  apply quiet_bind; [|intros [|[[]|]]; apply _]. apply quiet_list_for_each. intros x y. quiet.
Qed.
#[export] Instance quiet_delete h k : Quiet (hotring_delete h k).
Proof. unfold hotring_delete, list_del, __list_del_by_addr, hotring_head_free. quiet. Qed.
#[export] Instance quiet_delete_head h i : Quiet (hotring_delete_head h i).
Proof. unfold hotring_delete_head, list_del, __list_del_by_addr, hotring_head_free_by_index. quiet. Qed.
#[export] Instance quiet_display h : Quiet (display h).
Proof.
  unfold display, range_loop, __hash_get_first. apply quiet_bind; [apply _|intros t]. apply quiet_for_range. intros. quiet.
Qed.
#[export] Instance quiet_rehash_init h : Quiet (hotring_rehash_init h).
Proof.
  unfold hotring_rehash_init, range_loop, mark_body, head_alloc. repeat (apply quiet_bind; [apply _|intros]).
  apply quiet_bind; [|intros; apply _]. apply quiet_for_range. intros. quiet.
Qed.
#[export] Instance quiet_split h b t i s : Quiet (split_body h b t i s).
Proof. unfold split_body, get_into. quiet. Qed.
#[export] Instance quiet_prune h i : Quiet (prune_body h i).
Proof. unfold prune_body. quiet. Qed.
#[export] Instance quiet_rehash h : Quiet (hotring_rehash h).
Proof. unfold hotring_rehash, range_loop. quiet. Qed.
#[export] Instance quiet_do_shift hp a : Quiet (do_hotspot_shift hp a).
Proof.
  unfold do_hotspot_shift, take_counter. repeat (apply quiet_bind; [apply _|intros]).
  apply quiet_bind; [quiet|intros r]. destruct (hottest_of _ _). quiet.
Qed.
#[export] Instance quiet_shift h i : Quiet (hotspot_shift h i).
Proof. unfold hotspot_shift. quiet. Qed.
#[export] Instance quiet_hash_get h k : Quiet (hash_get h k).
Proof. unfold hash_get. apply quiet_bind; [apply _|intros _]. quiet. Qed.

#[export] Instance quiet_insert_indices h l : Quiet (insert_indices h l).
Proof. induction l as [|k l IH]; cbn [insert_indices]; quiet. Qed.
#[export] Instance quiet_get_times n h k : Quiet (get_times n h k).
Proof. revert h. induction n as [|n IH]; intros h; cbn [get_times]; quiet. Qed.
#[export] Instance quiet_get_indices i l h : Quiet (get_indices i l h).
Proof. revert i h. induction l as [|k l IH]; intros i h; cbn [get_indices]; quiet. Qed.
#[export] Instance quiet_benchmark : Quiet benchmark.
Proof. unfold benchmark, my_benchmark. quiet. Qed.
End quiet.
