(* ===== verification/HotringProps.v ===== *)
(** * The hot ring: the properties

    The theorems about hotring/hotring.c, each with a table at which its
    hypotheses hold, and the runs on which the code does not do what it means
    to. *)
From Stdlib Require Import SpecFloat.
From S2P Require Import Prelude Cyclic HotringDefs HotringInv HotringGet HotringInsert HotringDelete HotringShift HotringClient Loops HashItems HotringRuns.

(** ** An example table: the keys 5, 9 and 2, in this order *)

#[local] Existing Instance bump.

Definition hstart : hstate := HState ∅ 0 0 0 0%nat.

Definition three_keys : H Z :=
  h ← hash_alloc 32 3;
  _ ← hash_insert h 5 50;
  _ ← hash_insert h 9 90;
  _ ← hash_insert h 2 20;
  mret h.

Definition ring3 : hstate := Eval vm_compute in exec three_keys hstart.
Definition hash3 : hash := Hash 32 3 8 32.
Definition slots3 : list Z := [48; 0; 0; 0; 0; 0; 0; 0].
Definition rings3 : list (list Z) := [[64; 80; 96]; []; []; []; []; []; []; []].

Lemma three_keys_run : three_keys hstart = Ok (16, ring3).
Proof. by vm_compute. Qed.

Lemma bucket3 : bucket ring3 hash3 0 48 [64; 80; 96].
Proof.
  right. split; [by split|]. split; [done|]. split; [by eexists|]. split; [|split].
  - split; [|split].
    + cbn [path hd]. repeat split; by eexists.
    + apply (bool_decide_unpack _). by vm_compute.
    + repeat constructor.
  - intros a Ha. repeat (apply elem_of_cons in Ha as [->|Ha]; [by vm_compute|]). by apply elem_of_nil in Ha.
  - exists [5; 9], [2]. split; [done|]. repeat constructor; by vm_compute.
Qed.

(** A table with one ring. *)
Lemma one_ring_table st l :
  null_free st → mem st !! 16 = Some (OHash hash3) → mem st !! 32 = Some (OSlots slots3) →
  bucket st hash3 0 48 l → NoDup l → table st 16 hash3 slots3 (l :: replicate 7 []).
Proof.
  intros H0 Hh Hs Hb Hnd. split; try done.
  - intros [|i] hp l' Hi Hl; [injection Hi as <-; injection Hl as <-; exact Hb|].
    left. unfold slots3 in Hi. cbn in Hi, Hl.
    apply (lookup_replicate_1 7 0) in Hi as [-> _]. by apply (lookup_replicate_1 7 []) in Hl as [-> _].
  - cbn. by rewrite app_nil_r.
  - assert (∀ k hp, slots3 !! S k = Some hp → hp = 0) as Hz.
    { intros k hp Hk. by apply (lookup_replicate_1 7 0) in Hk as [-> _]. }
    intros [|i] [|j] hp Hi Hj Hhp; naive_solver.
Qed.

Lemma table3 : table ring3 16 hash3 slots3 rings3.
Proof.
  apply (one_ring_table ring3 [64; 80; 96]); try done; [apply bucket3|].
  apply (bool_decide_unpack _). by vm_compute.
Qed.

(** The pairs, and the hot keys of the buckets. *)
Definition mset3 : mset := (entries ring3 rings3, Some 5 :: replicate 7 None).

Lemma holds3 : holds_mset ring3 16 hash3 mset3.
Proof. exists slots3, rings3. split; [apply table3|]. split; [done|by vm_compute]. Qed.

(** ** What the operations do *)

(** C2: while the messages of verbosity 3 are off, a table that holds a multiset
    of (key, value) pairs, with a hot key for each bucket that has any, answers
    every sequence of insertions, lookups and deletions of in-range keys as
    [mset_step] says and holds its final value, or faults because libc refused
    an object to a heap of fewer objects than two per operation and those there
    are at the start.  Lookups change nothing, an insertion adds its pair and
    makes a bucket's first key its hot one, the deletion of a key that is not
    hot takes out one of its pairs and nothing else, and the deletion of a hot
    key takes out the pairs of its bucket, all of them and no others. *)
Theorem hotring_ops_refine_multiset `{!Calloc obj} (st : hstate) (h : Z) (t : hash)
    (m : mset) (os : list hop) :
  holds_mset st h t m → Forall (λ o, 0 ≤ hop_key o < 2 ^ hash_n t) os → test_verbose st < 3 →
  wpf (out_of_memory (size (mem st) + 2 * length os)) (run_hops h os)
    (λ answers st', ∃ m', holds_mset st' h t m' ∧ mset_steps (tag_range t) m os answers m') st.
Proof. by apply run_hops_spec. Qed.

Definition demo_hops : list hop :=
  [HopGet 9; HopInsert 7 70; HopGet 7; HopDelete 2; HopGet 2; HopInsert (2 ^ 31) 80; HopDelete 5; HopGet 7].

Lemma hotring_ops_refine_multiset_witness :
  ∃ st' m', run_hops 16 demo_hops ring3 =
      Ok ([AnsValue (Some 90); AnsCode 0; AnsValue (Some 70); AnsDeleted true; AnsValue None; AnsCode 0;
           AnsDeleted true; AnsValue None], st') ∧
    holds_mset st' 16 hash3 m' ∧
    wp (run_hops (Calloc0 := first_fit) 16 demo_hops) (λ answers st', ∃ m', holds_mset st' 16 hash3 m' ∧
      mset_steps (tag_range hash3) mset3 demo_hops answers m') ring3.
Proof.
  set (l := [AnsValue (Some 90); AnsCode 0; AnsValue (Some 70); AnsDeleted true; AnsValue None; AnsCode 0;
           AnsDeleted true; AnsValue None]).
  assert (run_hops 16 demo_hops ring3 = Ok (l, exec (run_hops 16 demo_hops) ring3)) as Hrun by (by vm_compute).
  assert (Forall (λ o, 0 ≤ hop_key o < 2 ^ hash_n hash3) demo_hops) as Hk
    by (repeat constructor; by vm_compute).
  pose proof (hotring_ops_refine_multiset ring3 16 hash3 mset3 demo_hops holds3 Hk
    ltac:(done)) as H.
  destruct (wpf_exec _ _ _ ring3 l H Hrun) as (m' & Hh & _).
  exists (exec (run_hops 16 demo_hops) ring3), m'. split; [exact Hrun|]. split; [exact Hh|].
  apply (wpf_first_fit _ _ _ _ (hotring_ops_refine_multiset (Calloc0 := first_fit) ring3 16 hash3
    mset3 demo_hops holds3 Hk ltac:(done))). by vm_compute.
Defined.

(** Inserting an in-range key adds its pair to the table and returns 0,
    even when the key is there already; the rings stay in cyclic order of
    their tags.  The run faults only when libc refuses one of the two objects
    it asks for at most. *)
Theorem hash_insert_correct `{!Calloc obj} (st : hstate) (h : Z) (t : hash) (sl : list Z)
    (R : list (list Z)) (key' value' : Z) :
  table st h t sl R → 0 ≤ key' < 2 ^ hash_n t →
  wpf (out_of_memory (size (mem st) + 2)) (hash_insert h key' value')
    (λ e st', e = 0 ∧ ∃ sl' R', table st' h t sl' R' ∧
       entries st' R' ≡ₚ (key', value') :: entries st R) st.
Proof. apply hash_insert_spec. lia. Qed.

Lemma hash_insert_correct_witness :
  ∃ st' sl' R', hash_insert 16 7 70 ring3 = Ok (0, st') ∧ table st' 16 hash3 sl' R' ∧
    entries st' R' ≡ₚ [(7, 70); (5, 50); (9, 90); (2, 20)].
Proof.
  assert (hash_insert 16 7 70 ring3 = Ok (0, exec (hash_insert 16 7 70) ring3)) as Hrun by (by vm_compute).
  assert (0 ≤ 7 < 2 ^ hash_n hash3) as Hk by (by vm_compute).
  destruct (wpf_exec _ _ _ ring3 0 (hash_insert_correct ring3 16 hash3 slots3 rings3 7 70 table3 Hk) Hrun)
    as (_ & sl' & R' & Htb & HE).
  exists (exec (hash_insert 16 7 70) ring3), sl', R'. split; [exact Hrun|]. split; [exact Htb|exact HE].
Defined.

(** C15: a lookup that does not reach the fifth request since the last shift
    finds an in-range key exactly when the table holds it, through a node that
    holds one of the key's values, counts the request, and changes nothing of
    the table but the access counters. *)
Theorem hash_get_correct `{!Calloc obj} (st : hstate) (h : Z) (t : hash) (sl : list Z)
    (R : list (list Z)) (key' : Z) :
  table st h t sl R → 0 ≤ key' < 2 ^ hash_n t → nr_request st + 1 < 5 →
  wp (hash_get h key') (λ '(found, node, prev, h') st',
    h' = h ∧ nr_request st' = nr_request st + 1 ∧ table st' h t sl R ∧
    entries st' R = entries st R ∧ lookup_post (entries st R) key' (outcome st' node) ∧
    (found = false ↔ node = None)) st.
Proof. apply hash_get_quiet. Qed.

Lemma hash_get_correct_witness :
  ∃ st', hash_get 16 9 ring3 = Ok (true, Some 80, 64, 16, st') ∧ table st' 16 hash3 slots3 rings3 ∧
    lookup_post (entries ring3 rings3) 9 (outcome st' (Some 80)).
Proof.
  assert (hash_get 16 9 ring3 = Ok (true, Some 80, 64, 16, exec (hash_get 16 9) ring3)) as Hrun by (by vm_compute).
  assert (0 ≤ 9 < 2 ^ hash_n hash3) as Hk by (by vm_compute).
  destruct (wp_exec _ _ ring3 (true, Some 80, 64, 16)
    (hash_get_correct ring3 16 hash3 slots3 rings3 9 table3 Hk ltac:(done)) Hrun)
    as (_ & _ & Htb & _ & Hlk & _).
  exists (exec (hash_get 16 9) ring3). split; [exact Hrun|]. split; [exact Htb|exact Hlk].
Defined.

(** Deleting a key that is not the hot one of its ring takes one of its
    pairs out and returns true when the table holds it, and otherwise returns
    false and leaves the table's content as it is. *)
Theorem hotring_delete_cold_correct `{!Calloc obj} (st : hstate) (h : Z) (t : hash) (sl : list Z)
    (R : list (list Z)) (key' : Z) :
  table st h t sl R → 0 ≤ key' < 2 ^ hash_n t → test_verbose st < 3 → ¬ hot_key st R key' →
  wp (hotring_delete h key')
    (λ r st', ∃ sl' R', table st' h t sl' R' ∧
       if r then ∃ v, entries st R ≡ₚ (key', v) :: entries st' R'
       else entries st' R' = entries st R ∧ ∀ v, (key', v) ∉ entries st R) st.
Proof.
  intros Htb Hk Hv Hcold. eapply wp_mono; [by eapply hotring_delete_spec|].
  intros [] st' Hr; cbn in Hr.
  - destruct Hr as [(_ & R' & v & ? & ? & _)|(i & hp & a & l & _ & ? & ? & _)]; [|destruct Hcold; by exists i, a, l].
    exists sl, R'. split; [done|]. by exists v.
  - destruct Hr as (? & ? & ? & _). by exists sl, R.
Qed.

Lemma not_hot3 k : k ≠ 5 → ¬ hot_key ring3 rings3 k.
Proof.
  intros Hne ([|i] & a & l & Hl & Hk).
  - injection Hl as <- _. apply Hne. by rewrite <- Hk.
  - by apply (lookup_replicate_1 7 []) in Hl as [? _].
Qed.

Lemma hotring_delete_cold_correct_witness :
  ∃ st' sl' R' v, hotring_delete 16 9 ring3 = Ok (true, st') ∧ table st' 16 hash3 sl' R' ∧
    entries ring3 rings3 ≡ₚ (9, v) :: entries st' R'.
Proof.
  assert (hotring_delete 16 9 ring3 = Ok (true, exec (hotring_delete 16 9) ring3)) as Hrun by (by vm_compute).
  assert (0 ≤ 9 < 2 ^ hash_n hash3) as Hk by (by vm_compute).
  destruct (wp_exec _ _ ring3 true (hotring_delete_cold_correct ring3 16 hash3 slots3 rings3 9 table3 Hk
    ltac:(done) (not_hot3 9 ltac:(done))) Hrun) as (sl' & R' & Htb & v & HE).
  exists (exec (hotring_delete 16 9) ring3), sl', R', v. split; [exact Hrun|]. split; [exact Htb|exact HE].
Defined.

(** C22: when the income of the present head is in range, a shift of the hot
    point rotates one ring to begin at a node whose income, the expected walk
    for the counters it found, is not above that of any other node of the ring;
    the head moves only to a lower income than its own, and a rehash is asked
    for exactly when it moves and the income is still above the threshold.  The
    order of every ring and the table's content stay, and the counters of the
    ring it looked at are cleared. *)
Theorem do_hotspot_shift_rotates (st : hstate) (h : Z) (t : hash) (sl : list Z) (R : list (list Z))
    (i : nat) (hp a : Z) (l : list Z) (w : Z) :
  table st h t sl R → sl !! i = Some hp → R !! i = Some (a :: l) → mem st !! hp = Some (OHead w) →
  (length (a :: l) ≤ MAX_COUNTERS)%nat →
  SFltb (income_of (counters_of st (a :: l)) (dbl (head_counter w)) 0) (dbl 1000000000) = true →
  wp (do_hotspot_shift hp a) (λ ret st', ∃ p q, a :: l = p ++ q ∧ q ≠ [] ∧
    table st' h t sl (<[i := q ++ p]> R) ∧ entries st' (<[i := q ++ p]> R) ≡ₚ entries st R ∧
    (∀ x, x ∈ a :: l → counter (word (the_node st' x)) = 0) ∧
    least_income (counters_of st (a :: l)) (dbl (head_counter w)) (length p) ∧
    (ret = SHIFT_REHASH ↔ p ≠ [] ∧ SFltb (dbl INCOME_THRESHOLD)
       (income_of (counters_of st (a :: l)) (dbl (head_counter w)) (Z.of_nat (length p))) = true)) st.
Proof. apply do_hotspot_shift_spec. Qed.

#[local] Opaque MAX_COUNTERS dbl income_of do_hotspot_shift.

(** Three more accesses to the key 2. *)
Definition ring3_used : hstate :=
  Eval vm_compute in exec (_ ← __hash_get 16 2; _ ← __hash_get 16 2; __hash_get 16 2) ring3.

Definition head3_used : Z :=
  Eval vm_compute in match mem ring3_used !! 48 with Some (OHead w) => w | _ => 0 end.

Lemma table3_used : table ring3_used 16 hash3 slots3 rings3.
Proof.
  assert (0 ≤ 2 < 2 ^ hash_n hash3) as Hk by (by vm_compute).
  set (m := _ ← __hash_get 16 2; _ ← __hash_get 16 2; __hash_get 16 2).
  assert (wp m (λ _ st', table st' 16 hash3 slots3 rings3) ring3) as Hwp.
  { unfold m. rewrite wp_bind. eapply wp_mono; [by apply hash_get_lookup, Hk; apply table3|].
    intros [[??]?] st1 (_ & Ht1 & _). rewrite wp_bind. eapply wp_mono; [by apply hash_get_lookup, Hk|].
    intros [[??]?] st2 (_ & Ht2 & _). eapply wp_mono; [by apply hash_get_lookup, Hk|].
    by intros [[??]?] st3 (_ & Ht3 & _). }
  assert (m ring3 = Ok ((GET_ACCESS_COLD, Some 96, 80), exec m ring3)) as Hrun by (by vm_compute).
  pose proof (wp_exec _ _ _ _ Hwp Hrun) as Hx. assert (exec m ring3 = ring3_used) as He by (by vm_compute).
  by rewrite He in Hx.
Qed.

Lemma do_hotspot_shift_rotates_witness :
  ∃ p q, [64; 80; 96] = p ++ q ∧ q ≠ [] ∧
    table (exec (do_hotspot_shift 48 64) ring3_used) 16 hash3 slots3 (<[0%nat := q ++ p]> rings3) ∧
    least_income (counters_of ring3_used [64; 80; 96]) (dbl (head_counter head3_used)) (length p).
Proof.
  assert (do_hotspot_shift 48 64 ring3_used = Ok (SHIFT_SUCCESS, exec (do_hotspot_shift 48 64) ring3_used))
    as Hrun by (by vm_compute).
  set (w := head3_used).
  assert (mem ring3_used !! 48 = Some (OHead w)) as Hw by (by vm_compute).
  assert (SFltb (income_of (counters_of ring3_used [64; 80; 96]) (dbl (head_counter w)) 0) (dbl 1000000000) = true)
    as Hinc by (vm_compute; reflexivity).
  assert (length [64; 80; 96] ≤ MAX_COUNTERS)%nat as Hlen by (apply Nat.leb_le; by vm_compute).
  pose proof (do_hotspot_shift_rotates ring3_used 16 hash3 slots3 rings3
    0%nat 48 64 [80; 96] w table3_used eq_refl eq_refl Hw Hlen Hinc) as Hwp.
  pose proof (wp_exec _ _ ring3_used SHIFT_SUCCESS Hwp Hrun) as (p & q & Hpq & Hq & Ht & _ & _ & Hleast & _).
  exists p, q. split; [exact Hpq|]. split; [exact Hq|]. split; [exact Ht|exact Hleast].
Defined.

(** Creating a table of [2^kbits] buckets for keys of [nbits] bits gives an
    empty table, sets [cur_hash] and leaves the rest of the memory alone, or
    returns NULL because libc has no memory. *)
Theorem hash_alloc_correct `{!Calloc obj} (st : hstate) (nbits kbits : Z) :
  null_free st → 0 ≤ kbits ≤ nbits → nbits < 64 → nbits - kbits < 31 → kbits < 31 →
  wpf (out_of_memory (size (mem st) + 2)) (hash_alloc nbits kbits)
    (λ h st', h = 0 ∧ out_of_memory (size (mem st) + 2) ∨
       ∃ t sl R, table st' h t sl R ∧ entries st' R = [] ∧ hash_n t = nbits ∧ hash_k t = kbits ∧
         cur_hash st' = h ∧ ∀ a o, mem st !! a = Some o → mem st' !! a = Some o) st.
Proof.
  intros. eapply wpf_mono; [apply (hash_alloc_spec (size (mem st) + 2)); done || lia|].
  intros h st' [(? & ? & _)|(t & sl & R & ?)]; [by left|right]. exists t, sl, R. tauto.
Qed.

Lemma hash_alloc_correct_witness :
  ∃ st' t sl R, hash_alloc NBITS 3 hstart = Ok (16, st') ∧ table st' 16 t sl R ∧ entries st' R = [].
Proof.
  assert (hash_alloc NBITS 3 hstart = Ok (16, exec (hash_alloc NBITS 3) hstart)) as Hrun by (by vm_compute).
  destruct (wpf_exec _ _ _ hstart 16 (hash_alloc_correct hstart NBITS 3 eq_refl
    ltac:(unfold NBITS; lia) ltac:(unfold NBITS; lia) ltac:(unfold NBITS; lia) ltac:(lia)) Hrun)
    as [[H _]|(t & sl & R & Ht & He & _)]; [discriminate H|].
  exists (exec (hash_alloc NBITS 3) hstart), t, sl, R. split; [exact Hrun|]. split; [exact Ht|exact He].
Defined.

(** The fields packed into a link word do not disturb each other: setting a
    counter or the active bit keeps the address, setting an address keeps the
    counters, a 48-bit address and a counter reduced to its width are read
    back, and so an access wraps the node's counter at [2^14] and the head's at
    [2^15]. *)
Theorem packed_words (x a c : Z) :
  ptr a →
  addr (set_addr x a) = a ∧ addr (set_counter x c) = addr x ∧ addr (set_head_counter x c) = addr x ∧
  addr (set_active x c) = addr x ∧ counter (set_addr x a) = counter x ∧
  head_counter (set_addr x a) = head_counter x ∧ head_counter (set_active x c) = head_counter x ∧
  counter (set_counter x c) = c mod 2 ^ 14 ∧ head_counter (set_head_counter x c) = c mod 2 ^ 15.
Proof.
  intros Ha. split; [by apply addr_set_addr|]. unfold addr, counter, head_counter, set_addr, set_counter,
    set_head_counter, set_active.
  repeat split; try (apply field_set_other; lia); apply field_set_same; lia.
Qed.

Lemma packed_words_witness :
  ptr 96 ∧ counter (set_counter 96 (2 ^ 14)) = 0 ∧ addr (set_addr (set_counter 64 3) 96) = 96 ∧
  head_counter (set_addr (set_counter 64 3) 96) = head_counter (set_counter 64 3).
Proof.
  assert (ptr 96) as Hp by (by split). split; [exact Hp|]. split; [by vm_compute|].
  pose proof (packed_words (set_counter 64 3) 96 0 Hp) as (H1 & _ & _ & _ & _ & H2 & _). split; [exact H1|exact H2].
Defined.

(** ** Where the code does not do what it means to *)

(** The nodes of a ring that is dropped are in no ring. *)
Lemma out_of_rings (R : list (list Z)) i a l b :
  NoDup (mjoin R) → R !! i = Some (a :: l) → b ∈ l → b ∉ mjoin (<[i := []]> R).
Proof.
  intros Hnd Hl Hb. destruct (join_split R i (a :: l) Hl) as (rest & Hp & Hp' & _).
  rewrite Hp in Hnd. rewrite Hp'. cbn [app]. apply list.NoDup_app in Hnd as (_ & Hd & _).
  apply Hd. by right.
Qed.

(** C39: deleting a hot key frees its node and the head of its ring, writes NULL
    into its slot and loses the other keys of the ring: the table is the one
    with that bucket empty, and the other nodes stay allocated but in no ring. *)
Theorem hotring_delete_hot_drops_ring (st : hstate) (h : Z) (t : hash) (sl : list Z)
    (R : list (list Z)) (key' : Z) :
  table st h t sl R → 0 ≤ key' < 2 ^ hash_n t → test_verbose st < 3 → hot_key st R key' →
  wp (hotring_delete h key')
    (λ r st', r = true ∧ ∃ i hp a l, sl !! i = Some hp ∧ R !! i = Some (a :: l) ∧
       key (the_node st a) = key' ∧ table st' h t (<[i := 0]> sl) (<[i := []]> R) ∧
       entries st R ≡ₚ (entry st <$> (a :: l)) ++ entries st' (<[i := []]> R) ∧
       mem st' !! a = None ∧ mem st' !! hp = None ∧
       (∀ b, b ∈ l → is_Some (mem st' !! b) ∧ b ∉ mjoin (<[i := []]> R))) st.
Proof.
  intros Htb Hk Hv Hhot. eapply wp_mono; [by eapply hotring_delete_spec|]. intros [] st' Hr; cbn in Hr.
  - destruct Hr as [(? & _)|(i & hp & a & l & Hhp & Hl & Ha & _ & Ht' & HE & Hna & Hnp & Hlost & _)]; [done|].
    split; [done|]. exists i, hp, a, l. repeat (split; [done|]). intros b Hb. split; [by apply Hlost|].
    by apply (out_of_rings R i a l b (tb_nodup _ _ _ _ _ Htb) Hl).
  - destruct Hr as (Hno & _), Hhot as (i & a & l & Hl & Hka). destruct (Hno (value (the_node st a))).
    rewrite <- Hka. eapply (entry_in st R i _ a Hl). left.
Qed.

Lemma hotring_delete_hot_drops_ring_witness :
  hot_key ring3 rings3 5 ∧
  ∃ st' i hp a l, hotring_delete 16 5 ring3 = Ok (true, st') ∧
    table st' 16 hash3 (<[i := 0]> slots3) (<[i := []]> rings3) ∧ rings3 !! i = Some (a :: l) ∧
    mem st' !! a = None ∧ mem st' !! hp = None.
Proof.
  assert (hotring_delete 16 5 ring3 = Ok (true, exec (hotring_delete 16 5) ring3)) as Hrun by (by vm_compute).
  assert (0 ≤ 5 < 2 ^ hash_n hash3) as Hk by (by vm_compute).
  assert (hot_key ring3 rings3 5) as Hhot by (by exists 0%nat, 64, [80; 96]).
  split; [exact Hhot|].
  destruct (wp_exec _ _ ring3 true (hotring_delete_hot_drops_ring ring3 16 hash3 slots3 rings3 5 table3 Hk
    ltac:(done) Hhot) Hrun) as (_ & i & hp & a & l & _ & Hl & _ & Htb & _ & Ha & Hhp & _).
  exists (exec (hotring_delete 16 5) ring3), i, hp, a, l. split; [exact Hrun|]. split; [exact Htb|].
  split; [exact Hl|]. split; [exact Ha|exact Hhp].
Defined.

Lemma node_free_use_after_free a st :
  3 ≤ test_verbose st → mem st !! 0 = None → hotring_node_free a st = Fault.
Proof.
  intros Hv H0. unfold hotring_node_free, mbind, M_bind, free, gets.
  destruct (Z.eqb_spec a 0) as [->|Ha].
  - cbn. destruct (Z.leb_spec 3 (test_verbose st)); [|lia]. unfold load_node. by rewrite H0.
  - destruct (mem st !! a); [|done]. cbn. destruct (Z.leb_spec 3 (test_verbose st)); [|lia].
    unfold load_node. cbn. by rewrite lookup_delete_eq.
Qed.

(** A run that stops with a fault, whatever came before. *)
Definition faults {A} (m : H A) (st : hstate) : Prop := wpf True m (λ _ _, False) st.

Lemma faults_eq {A} (m : H A) st : faults m st ↔ m st = Fault.
Proof. unfold faults, wpf. by destruct (m st) as [[??]| |]. Qed.

(** With a verbosity of 3 or more, as the makefile's run sets it, deleting a
    key of the table reads the freed node to print it. *)
Theorem hotring_delete_verbose_faults (st : hstate) (h : Z) (t : hash) (sl : list Z)
    (R : list (list Z)) (key' v : Z) :
  table st h t sl R → 0 ≤ key' < 2 ^ hash_n t → 3 ≤ test_verbose st → (key', v) ∈ entries st R →
  hotring_delete h key' st = Fault.
Proof.
  intros Htb Hk Hv Hin. apply faults_eq. unfold faults, hotring_delete. apply wpf_bind_wp.
  eapply wp_mono; [apply (wp_within (R := calm) 0); [apply _|by eapply hash_get_lookup]|].
  intros [[r node] prev] st' [(_ & Htb' & _ & Hlk & _) [Hq _]]. destruct node as [a|]; [|by destruct (Hlk v)].
  rewrite wpf_bind. eapply (wpf_mono _ (λ _ st1, 3 ≤ test_verbose st1 ∧ mem st1 !! 0 = None)).
  - assert (mem st' !! 0 = None) as H0 by apply Htb'.
    destruct (Z.eq_dec prev 0) as [->|Hp]; [rewrite truthy_0, wpf_ret; split; [lia|done]|].
    rewrite truthy_nz by done. unfold list_del, __list_del_by_addr, mbind, M_bind, wpf, load_node, store_node.
    destruct (mem st' !! a) as [[nd| | |]|] eqn:Ha; try done.
    destruct (mem st' !! prev) as [[np| | |]|] eqn:Hpr; try done. cbn.
    destruct (decide (a = prev)) as [->|]; [rewrite lookup_insert_eq|rewrite lookup_insert_ne, Ha by done];
      (split; [cbn; lia|]); cbn; rewrite !lookup_insert_ne; congruence.
  - intros _ st1 [Hv1 H01]. rewrite wpf_bind. unfold wpf at 1. by rewrite node_free_use_after_free.
Qed.

Definition ring3_verbose : hstate := HState (mem ring3) 0 16 3 (hticks ring3).

Lemma hotring_delete_verbose_faults_witness :
  table ring3_verbose 16 hash3 slots3 rings3 ∧ hotring_delete 16 9 ring3_verbose = Fault.
Proof.
  assert (table ring3_verbose 16 hash3 slots3 rings3) as Ht.
  { pose proof table3 as []. split; try done. intros i hp l Hi Hl.
    destruct (tb_bucket i hp l Hi Hl) as [?|(? & ? & ? & (Hp & ? & ?) & ? & ?)]; [by left|right].
    split; [done|]. split; [done|]. split; [done|]. split; [|done]. split; [|done].
    clear - Hp. revert Hp. generalize (hd 0 l). induction l as [|b l IH]; cbn; [done|].
    intros e [? ?]. split; [done|by apply IH]. }
  split; [exact Ht|].
  apply (hotring_delete_verbose_faults ring3_verbose 16 hash3 slots3 rings3 9 90 Ht).
  - by vm_compute.
  - done.
  - apply (bool_decide_unpack _). by vm_compute.
Defined.

(** The answer of a run that returns. *)
Definition answer {A} (m : H A) (st : hstate) : option A :=
  match m st with Ok (x, _) => Some x | _ => None end.

Definition is_fault {A} (m : H A) (st : hstate) : bool :=
  match m st with Fault => true | _ => false end.

Definition found {A B C} (r : bool * A * B * C) : bool := let '(b, _, _, _) := r in b.

(** A rehash keeps the tags the nodes had, but they are the order of the ring
    only for the old tag width: after a rehash of a table with the keys
    [2^28 + 1] and [2^28 + 9], the key [2^28 + 5] is inserted past them, and a
    lookup that stops between them does not find it. *)
Theorem hotring_rehash_loses_key :
  answer (h ← hash_alloc NBITS 3;
          _ ← hash_insert h (2 ^ 28 + 1) 10;
          _ ← hash_insert h (2 ^ 28 + 9) 90;
          h ← hotring_rehash h;
          e ← hash_insert h (2 ^ 28 + 5) 50;
          a ← hash_get h (2 ^ 28 + 1);
          b ← hash_get h (2 ^ 28 + 5);
          mret (e, found a, found b)) hstart = Some (0, true, false).
Proof. by vm_compute. Qed.

(** Inserting the keys into a new table, then rehashing it. *)
Fixpoint insert_keys (h : Z) (l : list Z) : H () :=
  match l with [] => mret () | k :: l => _ ← hash_insert h k 10; insert_keys h l end.

Definition rehash_keys (l : list Z) : H Z :=
  h ← hash_alloc NBITS 3; insert_keys h l;; hotring_rehash h.

(** A table of [2^3] buckets for 32-bit keys cannot be rehashed once a bucket
    of its upper half is in use, because the first key of the bucket, [i << 29],
    is computed in [int]; nor once the hot key of a ring is the first or the
    middle key of its bucket, because the split then finds that key at the
    head and writes through the NULL it is given for the node before it. *)
Theorem hotring_rehash_faults :
  is_fault (rehash_keys [3 * 2 ^ 29 + 1]) hstart = false ∧
  is_fault (rehash_keys [4 * 2 ^ 29 + 1]) hstart = true ∧
  is_fault (rehash_keys [1; 0]) hstart = false ∧
  is_fault (rehash_keys [0; 1]) hstart = true ∧
  is_fault (rehash_keys [2 ^ 28]) hstart = true.
Proof. by vm_compute. Qed.

(** C38: the head's counter has 15 bits and only a shift clears it: any number of
    accesses to the key at the head of a ring, however many requests were
    counted before, finds it, keeps the rings and adds up modulo [2^15] in the
    head; all the requests are counted and none of them starts a shift, which
    would set their count to 0. *)
Theorem hot_accesses_wrap `{!Calloc obj} (n : nat) (st : hstate) (h : Z) (t : hash) (sl : list Z)
    (R : list (list Z)) (i : nat) (hp a : Z) (l : list Z) (w : Z) :
  table st h t sl R → sl !! i = Some hp → R !! i = Some (a :: l) → mem st !! hp = Some (OHead w) →
  nr_request st + Z.of_nat n < 2 ^ 31 →
  wp (many_gets n h (key (the_node st a))) (λ b st', b = true ∧ table st' h t sl R ∧
    nr_request st' = nr_request st + Z.of_nat n ∧
    ∃ w', mem st' !! hp = Some (OHead w') ∧ head_counter w' = (head_counter w + Z.of_nat n) mod 2 ^ 15) st.
Proof. apply many_hot_gets. Qed.

(** The table when the head's counter is at its maximum. *)
Definition ring3_full : hstate :=
  exec (store_head 48 (λ w, set_head_counter w (2 ^ 15 - 1))) (set_nr_request 4 ring3).

Lemma table3_full : table ring3_full 16 hash3 slots3 rings3.
Proof.
  assert (mem (set_nr_request 4 ring3) !! 48 = Some (OHead 64)) as Hw by (by vm_compute).
  apply (sim_table (set_nr_request 4 ring3)); [|apply set_nr_request_table, table3].
  unfold ring3_full, exec, store_head. rewrite Hw. eapply sim_store; [exact Hw|]. cbn. apply addr_set_head_counter.
Qed.

Lemma hot_accesses_wrap_witness :
  wp (many_gets 3 16 5) (λ b st', b = true ∧ table st' 16 hash3 slots3 rings3 ∧ nr_request st' = 7 ∧
    ∃ w', mem st' !! 48 = Some (OHead w') ∧ head_counter w' = 2) ring3_full.
Proof.
  assert (mem ring3_full !! 48 = Some (OHead (set_head_counter 64 (2 ^ 15 - 1)))) as Hw by (by vm_compute).
  pose proof (hot_accesses_wrap 3 ring3_full 16 hash3 slots3 rings3 0 48 64 [80; 96] _
    table3_full eq_refl eq_refl Hw ltac:(done)) as Hwp.
  refine (wp_mono _ _ _ _ Hwp _). intros b st' (Hb & Ht & Hn & w & Hw' & Hc).
  split; [exact Hb|]. split; [exact Ht|]. split; [exact Hn|]. exists w. split; [exact Hw'|]. rewrite Hc. by vm_compute.
Defined.

(** One access to another node then wraps the counter to 0; the shift
    that follows divides by it, finds no hottest node and stores NULL in the
    head, which the rehash it asks for reads through. *)
Theorem head_counter_wrap_faults :
  answer (load_head 48) ring3_full = Some (set_head_counter 64 (2 ^ 15 - 1)) ∧
  answer (_ ← __hash_get 16 9; do_hotspot_shift 48 64;; load_head 48) ring3_full = Some 0 ∧
  is_fault (hash_get 16 9) ring3_full = true.
Proof. by vm_compute. Qed.

(** ** The runs of the benchmark *)

(** The run of [main] loads twelve keys into two rings, moves to a table of
    twice the size while it looks them up, does not find the key 21 and deletes
    37.  At the verbosity 2 it prints the table before and after, below it
    nothing; with the verbosity the makefile gives it, it ends in the deletion,
    on a read of the freed node. *)
Theorem hotring_benchmark_run :
  option_map shown (answer benchmark (HState ∅ 0 0 2 0%nat)) = Some
    ([Some [72; 87; 535822335; 6; 11; 16; 18; 22; 36; 37; 42]; Some [1073741823]; None; None;
      None; None; None; None], false, true,
     [Some [18; 22; 36; 42; 72; 87; 6; 11; 16]; Some [535822335]; None; Some [1073741823]; None; None; None; None;
      None; None; None; None; None; None; None; None]) ∧
  option_map shown (answer benchmark hstart) = Some ([], false, true, []) ∧
  is_fault benchmark (HState ∅ 0 0 3 0%nat) = true.
Proof. split; [|split]; by vm_compute. Qed.
