(* ===== verification/HotringRehashProps.v ===== *)
(** * The hot ring: the properties of the rehash

    A rehash gives a table of twice the size with the same content, that
    lookups and deletions treat as any other; the public lookup with the
    shifts and the rehash it leads to; the printing. *)
From Stdlib Require Import SpecFloat.
From S2P Require Import Prelude Cyclic HotringDefs HotringInv HotringGet HotringInsert HotringDelete HotringShift HotringBlind HotringClient HotringMark HotringSplit HotringTyping HotringRehash Loops HashItems HotringRuns HotringProps.

#[local] Existing Instance bump.

Lemma rehashable3 : rehashable hash3 (entries ring3 rings3).
Proof.
  split; [done|by vm_compute|]. intros x Hx.
  assert (x ∈ [(5, 50); (9, 90); (2, 20)]) as Hx' by exact Hx.
  repeat (apply elem_of_cons in Hx' as [->|Hx']; [split; by vm_compute|]). by apply elem_of_nil in Hx'.
Qed.

(** C8: while the messages of verbosity 3 are off, the rehash of a table of
    32-bit keys with at most 2^29 buckets, whose keys are below 2^31 and none of
    them a milestone, gives a table of twice the size that holds the pairs of
    the old one and nothing else: its rings are in order of their keys and each
    key is where the new hash says, only the tags being out of date.  It faults
    only when libc refuses one of the objects it asks for, two and four per
    bucket. *)
Theorem hotring_rehash_keeps_content `{!Calloc obj} (st : hstate) (h : Z) (t : hash) (sl : list Z)
    (R : list (list Z)) :
  table st h t sl R → rehashable t (entries st R) → test_verbose st < 3 →
  wpf (out_of_memory (base.size (mem st) + 2 + 4 * length R)) (hotring_rehash h) (λ new st', ∃ t',
    doubled t t' ∧ keyed st' new t' (entries st R) ∧ test_verbose st' = test_verbose st) st.
Proof. intros. by eapply hotring_rehash_spec. Qed.

Definition ring3_rehashed : hstate := Eval vm_compute in exec (hotring_rehash 16) ring3.

Lemma rehash3_run : hotring_rehash 16 ring3 = Ok (112, ring3_rehashed).
Proof. by vm_compute. Qed.

Lemma rehash3_exec : hotring_rehash 16 ring3 = Ok (112, exec (hotring_rehash 16) ring3) ∧
  exec (hotring_rehash 16) ring3 = ring3_rehashed.
Proof. unfold exec. by rewrite rehash3_run. Qed.

Lemma keyed3 : ∃ t', doubled hash3 t' ∧ keyed ring3_rehashed 112 t' [(5, 50); (9, 90); (2, 20)].
Proof.
  destruct rehash3_exec as [Hrun Hst].
  assert (base.size (mem ring3) + 2 + 4 * length rings3 ≤ 40)%nat as HN by (vm_compute; lia).
  destruct (wpf_exec _ _ _ ring3 112 (hotring_rehash_spec 40 ring3 16 hash3 slots3 rings3 table3 rehashable3
    ltac:(done) HN) Hrun) as (t' & Hdb & Hk & _).
  exists t'. split; [exact Hdb|]. rewrite <- Hst. exact Hk.
Qed.

Lemma hotring_rehash_keeps_content_witness :
  ∃ t', doubled hash3 t' ∧ keyed ring3_rehashed 112 t' [(5, 50); (9, 90); (2, 20)].
Proof.
  destruct rehash3_exec as [Hrun Hst].
  destruct (wpf_exec _ _ _ ring3 112 (hotring_rehash_keeps_content ring3 16 hash3 slots3 rings3 table3
    rehashable3 ltac:(done)) Hrun) as (t' & Hdb & Hk & _).
  exists t'. split; [exact Hdb|]. rewrite <- Hst. exact Hk.
Defined.

(** C10: in the table that a rehash returns, while the messages of verbosity 3
    are off, every sequence of lookups and deletions of in-range keys returns
    without a fault and answers as [mset_step] says of its pairs and hot keys,
    although its tags are out of date. *)
Theorem rehashed_ops_refine_multiset `{!Calloc obj} (st : hstate) (h : Z) (t : hash)
    (m : mset) (os : list hop) :
  keyed_mset st h t m → Forall reading os → Forall (λ o, 0 ≤ hop_key o < 2 ^ hash_n t) os → test_verbose st < 3 →
  wp (run_hops h os) (λ answers st', ∃ m', keyed_mset st' h t m' ∧ mset_steps (tag_range t) m os answers m') st.
Proof. intros. by apply keyed_ops. Qed.

Definition demo_readers : list hop := [HopGet 9; HopDelete 9; HopGet 9; HopGet 2; HopDelete 7; HopDelete 2; HopGet 5].

Lemma rehashed_ops_refine_multiset_witness :
  ∃ t' st' m', run_hops 112 demo_readers ring3_rehashed =
      Ok ([AnsValue (Some 90); AnsDeleted true; AnsValue None; AnsValue (Some 20); AnsDeleted false; AnsDeleted true;
           AnsValue None], st') ∧
    keyed_mset st' 112 t' m'.
Proof.
  set (l := [AnsValue (Some 90); AnsDeleted true; AnsValue None; AnsValue (Some 20); AnsDeleted false;
    AnsDeleted true; AnsValue None]).
  destruct keyed3 as (t' & Hdb & [hots Hk]%keyed_mset_intro).
  assert (run_hops 112 demo_readers ring3_rehashed = Ok (l, exec (run_hops 112 demo_readers) ring3_rehashed))
    as Hrun by (by vm_compute).
  assert (Forall (λ o, 0 ≤ hop_key o < 2 ^ hash_n t') demo_readers) as Ho.
  { rewrite (db_bits _ _ Hdb). repeat constructor; by vm_compute. }
  assert (Forall reading demo_readers) as Hr by (repeat constructor).
  destruct (wp_exec _ _ ring3_rehashed l (rehashed_ops_refine_multiset ring3_rehashed 112 t' _ demo_readers Hk Hr Ho
    ltac:(done)) Hrun) as (m' & Hk' & _).
  exists t', (exec (run_hops 112 demo_readers) ring3_rehashed), m'. split; [exact Hrun|exact Hk'].
Defined.

(** C9: on a table that can be rehashed (32-bit keys below 2^31, none a
    milestone), while the messages of verbosity 3 are off and the count of the
    requests does not overflow, the public lookup of an in-range key, with the
    shift of the hot node that a cold access may lead to and the rehash that the
    shift may lead to, finds the key exactly when the table holds it, and leaves
    its content as it is, in the table or in the one of twice the size that
    [*hashp] is set to; it faults only when libc refuses the rehash an object.
    The income of the bucket's head is taken to be in range of [double] and the
    ring not to be longer than the array of counters. *)
Theorem hash_get_shifts_and_rehashes `{!Calloc obj} (st : hstate) (h : Z) (t : hash) (sl : list Z)
    (R : list (list Z)) (key' : Z) :
  table st h t sl R → 0 ≤ key' < 2 ^ hash_n t → rehashable t (entries st R) → test_verbose st < 3 →
  nr_request st + 1 < 2 ^ 31 →
  shiftable (exec (__hash_get h key') (set_nr_request (nr_request st + 1) st)) sl R
    (Z.to_nat (key' / tag_range t)) →
  wpf (out_of_memory (base.size (mem st) + 2 + 4 * length R)) (hash_get h key')
    (λ '(found, node, prev, h') st',
      (found = true ↔ ∃ v, (key', v) ∈ entries st R) ∧ in_table st' h t (entries st R) h') st.
Proof. intros. by eapply hash_get_full_spec. Qed.

(** Thirteen keys in one ring, the accesses at its two ends; one more, and the
    head moves by one place and is still far from the other end. *)
Fixpoint accesses (h : Z) (l : list Z) : H () :=
  match l with [] => mret () | k :: l => _ ← __hash_get h k; accesses h l end.

Definition thirteen_keys : H () :=
  h ← hash_alloc NBITS 3;
  insert_keys h (Z.of_nat <$> seq 1 13);;
  accesses h [1; 1; 1; 2; 13; 13];;
  modify (set_nr_request 4).

Definition ring13 : hstate := Eval vm_compute in exec thirteen_keys hstart.
Definition nodes13 : list Z := [64; 80; 96; 112; 128; 144; 160; 176; 192; 208; 224; 240; 256].
Definition rings13 : list (list Z) := nodes13 :: replicate 7 [].

Lemma bucket13 : bucket ring13 hash3 0 48 nodes13.
Proof.
  right. split; [by split|]. split; [done|]. split; [by eexists|]. split; [|split].
  - split; [|split].
    + cbn [path hd nodes13]. repeat split; by eexists.
    + apply (bool_decide_unpack _). by vm_compute.
    + repeat constructor.
  - intros a Ha. unfold nodes13 in Ha.
    repeat (apply elem_of_cons in Ha as [->|Ha]; [by vm_compute|]). by apply elem_of_nil in Ha.
  - exists (Z.of_nat <$> seq 1 13), []. split; [by vm_compute|]. repeat constructor; by vm_compute.
Qed.

Lemma table13 : table ring13 16 hash3 slots3 rings13.
Proof.
  apply one_ring_table; try done; [apply bucket13|]. apply (bool_decide_unpack _). by vm_compute.
Qed.

Lemma rehashable13 : rehashable hash3 (entries ring13 rings13).
Proof.
  split; [done|by vm_compute|].
  assert (Forall (λ x : Z * Z, bool_decide (x.1 < 2 ^ 31 ∧ x.1 mod (tag_range hash3 / 2) ≠ 0)) (entries ring13 rings13)) as HF.
  { apply (bool_decide_unpack _). by vm_compute. }
  intros x Hx. apply (bool_decide_unpack _). exact (proj1 (Forall_elem _ _) HF x Hx).
Qed.

Lemma hash_get_shifts_and_rehashes_witness :
  ∃ st' t', hash_get 16 13 ring13 = Ok (true, Some 256, 240, 272, st') ∧ doubled hash3 t' ∧
    keyed st' 272 t' (entries ring13 rings13).
Proof.
  assert (0 ≤ 13 < 2 ^ hash_n hash3) as Hk by (by vm_compute).
  assert (hash_get 16 13 ring13 = Ok (true, Some 256, 240, 272, exec (hash_get 16 13) ring13)) as Hrun by (by vm_compute).
  set (st1 := exec (__hash_get 16 13) (set_nr_request (nr_request ring13 + 1) ring13)).
  assert (shiftable st1 slots3 rings13 (Z.to_nat (13 / tag_range hash3))) as Hsh.
  { intros hp a l w [= <-] [= <- <-] Hw.
    assert (length nodes13 ≤ MAX_COUNTERS)%nat as Hlen by (apply Nat.leb_le; by vm_compute).
    split; [exact Hlen|]. assert (w = match mem st1 !! 48 with Some (OHead w) => w | _ => 0 end) as -> by (by rewrite Hw).
    by vm_compute. }
  pose proof (wpf_exec _ _ _ ring13 _ (hash_get_shifts_and_rehashes ring13 16 hash3 slots3 rings13 13 table13 Hk
    rehashable13 ltac:(done) ltac:(done) Hsh) Hrun) as [_ [[Hh _]|(t' & Hdb & Hkeyed)]]; [discriminate Hh|].
  exists (exec (hash_get 16 13) ring13), t'. split; [exact Hrun|]. split; [exact Hdb|exact Hkeyed].
Defined.

(** From the verbosity 2 on, printing a table shows each of its rings from the
    head on, bucket by bucket, and below it nothing; it changes nothing. *)
Theorem display_rows (st : hstate) (h : Z) (t : hash) (sl : list Z) (R : list (list Z)) :
  table st h t sl R → wp (display h) (λ out st', st' = st ∧
    out = if 2 <=? test_verbose st then rows st <$> R else []) st.
Proof. intros H. by eapply display_table, table_shape. Qed.

Lemma display_rows_witness :
  display 16 ring3 = Ok ([], ring3) ∧
  wp (display 16) (λ out st', st' = ring3 ∧ out = if 2 <=? test_verbose ring3 then rows ring3 <$> rings3 else []) ring3.
Proof. split; [by vm_compute|]. exact (display_rows ring3 16 hash3 slots3 rings3 table3). Defined.

(** The tags have no part in lookups and deletions: they run on any memory as
    on the one with the tags recomputed. *)
Theorem tags_unread (r : Z) (st : hstate) (h key' index : Z) :
  let same A (m : H A) := m (retag r st) = match m st with
    | Ok (x, st') => Ok (x, retag r st')
    | Fault => Fault
    | NoFuel => NoFuel
    end in
  same _ (__hash_get h key') ∧ same _ (hotring_delete h key') ∧ same _ (hotring_delete_head h index).
Proof. split; [|split]; apply blind; apply _. Qed.

(** The test for the only node of a ring compares the whole link word, counter
    and all, so that it fails for every node that was inserted or accessed: the
    loop for the node before the head then finds none. *)
Theorem delete_head_of_lone_node_faults :
  (h ← hash_alloc NBITS 3; _ ← hash_insert h 5 50; hotring_delete_head h 0) hstart = Fault.
Proof. by vm_compute. Qed.

(** C11: the typing of the memory: every link word of a node or a head, every
    bucket and every table points to an object of its kind or is NULL.  In any
    well-typed memory, whatever its rings look like, every run of insertions,
    lookups, allocations, shifts of a head and preparations of a rehash, with
    arbitrary arguments, that does not fault ends in a well-typed memory where
    every object is still there and of the kind it was. *)
Theorem hotring_well_typed `{!Calloc obj} (st st' : hstate) (os : list operation) :
  well_typed st → run_operations os st = Ok ((), st') → well_typed st' ∧ kinds st ⊆ kinds st'.
Proof.
  intros Hw Hr. by destruct (sound_run_operations (kinds st) os st () st' (reflexivity _) Hw Hr) as (? & ? & _).
Qed.

Definition typing_ops : list operation :=
  [OpAlloc 32 3; OpInsert 16 5 50; OpInsert 16 9 90; OpInsert 16 2 20; OpGet 16 9; OpGet 16 7; OpShift 48; OpPrepare 16].

Lemma hotring_well_typed_witness :
  run_operations typing_ops hstart = Ok ((), exec (run_operations typing_ops) hstart) ∧
  well_typed (exec (run_operations typing_ops) hstart) ∧
  kinds (exec (run_operations typing_ops) hstart) !! 48 = Some KHead.
Proof.
  assert (run_operations typing_ops hstart = Ok ((), exec (run_operations typing_ops) hstart)) as Hrun by (by vm_compute).
  assert (well_typed hstart) as Hw by (intros a o [=]).
  split; [exact Hrun|]. split; [|by vm_compute].
  exact (proj1 (hotring_well_typed hstart _ typing_ops Hw Hrun)).
Defined.
