(* ===== verification/DList.v ===== *)
(** * The doubly linked lists of chaining_hash/list.h

    The operations over any memory in which list heads can be read and
    written; the out-of-line copies of list.c, which differ in what they leave
    in a deleted entry. *)
From S2P Require Import Prelude.

Record list_head := LH { next : Z; prev : Z }.

(** ** The memory the lists live in

    What the operations need of a memory, and what they promise: [others] is
    preserved by every write to a list head. *)
Class ListMem (S : Type) := {
  lh_get : S → Z → option list_head;
  lh_set : S → Z → list_head → S;
  others : S → S → Prop;
  lh_get_set s a x y b :
    lh_get s a = Some x → lh_get (lh_set s a y) b = if decide (b = a) then Some y else lh_get s b;
  lh_set_others s a x y : lh_get s a = Some x → others s (lh_set s a y);
  others_preorder :: PreOrder others
}.

(** ** Operations *)

Definition LIST_POISON1 : Z := 0x00100100.
Definition LIST_POISON2 : Z := 0x00200200.

Section ops.
Context {S : Type} `{!ListMem S}.

Definition load (a : Z) : M S list_head := λ s,
  match lh_get s a with Some x => Ok (x, s) | None => Fault end.

Definition store (a : Z) (f : list_head → list_head) : M S () := λ s,
  match lh_get s a with Some x => Ok ((), lh_set s a (f x)) | None => Fault end.

(** [a->next = x], [a->prev = x] *)
Definition set_next (a x : Z) : M S () := store a (λ n, LH x (prev n)).
Definition set_prev (a x : Z) : M S () := store a (λ n, LH (next n) x).

Definition INIT_LIST_HEAD (a : Z) : M S () := set_next a a;; set_prev a a.

Definition __list_add (new p n : Z) : M S () :=
  set_prev n new;; set_next new n;; set_prev new p;; set_next p new.

Definition list_add (new head : Z) : M S () := h ← load head; __list_add new head (next h).

Definition list_add_tail (new head : Z) : M S () := h ← load head; __list_add new (prev h) head.

Definition __list_del (p n : Z) : M S () := set_prev n p;; set_next p n.

Definition list_del (entry : Z) : M S () :=
  e ← load entry;
  __list_del (prev e) (next e);;
  set_next entry LIST_POISON1;;
  set_prev entry LIST_POISON2.

Definition list_del_init (entry : Z) : M S () :=
  e ← load entry;
  __list_del (prev e) (next e);;
  INIT_LIST_HEAD entry.

Definition list_move (list head : Z) : M S () :=
  e ← load list;
  __list_del (prev e) (next e);;
  list_add list head.

Definition list_move_tail (list head : Z) : M S () :=
  e ← load list;
  __list_del (prev e) (next e);;
  list_add_tail list head.

Definition list_empty (head : Z) : M S bool := h ← load head; mret (next h =? head).

Definition __list_splice (list head : Z) : M S () :=
  l ← load list;
  h ← load head;
  let first := next l in
  let last := prev l in
  let at_ := next h in
  set_prev first head;; set_next head first;; set_next last at_;; set_prev at_ last.

Definition list_splice (list head : Z) : M S () :=
  e ← list_empty list;
  if (e : bool) then mret () else __list_splice list head.

Definition list_splice_init (list head : Z) : M S () :=
  e ← list_empty list;
  if (e : bool) then mret () else __list_splice list head;; INIT_LIST_HEAD list.

(** The loops: [for (pos = head->next; pos != head; pos = pos->next)], the same
    backwards, and the one that reads the next entry before the body runs. *)
Fixpoint for_each {A} (step : list_head → Z) (fuel : nat) (pos head : Z) (x : A)
    (body : Z → A → M S A) : M S A :=
  match fuel with
  | O => nofuel
  | Datatypes.S fuel =>
      if pos =? head then mret x
      else
        x ← body pos x;
        e ← load pos;
        for_each step fuel (step e) head x body
  end.

Definition list_for_each {A} (fuel : nat) (head : Z) (x : A) (body : Z → A → M S A) : M S A :=
  h ← load head; for_each next fuel (next h) head x body.

Definition list_for_each_prev {A} (fuel : nat) (head : Z) (x : A) (body : Z → A → M S A) : M S A :=
  h ← load head; for_each prev fuel (prev h) head x body.

Fixpoint for_each_safe {A} (fuel : nat) (pos n head : Z) (x : A) (body : Z → A → M S A) : M S A :=
  match fuel with
  | O => nofuel
  | Datatypes.S fuel =>
      if pos =? head then mret x
      else
        x ← body pos x;
        e ← load n;
        for_each_safe fuel n (next e) head x body
  end.

Definition list_for_each_safe {A} (fuel : nat) (head : Z) (x : A) (body : Z → A → M S A) : M S A :=
  h ← load head;
  e ← load (next h);
  for_each_safe fuel (next h) (next e) head x body.
End ops.

(** ** The out-of-line copies (radix_tree/list.c, chaining_hash/list.c) *)
Module ListC.
Section ops.
Context {S : Type} `{!ListMem S}.

Definition __list_add (new p n : Z) : M S () :=
  set_prev n new;; set_next new n;; set_prev new p;; set_next p new.
Definition list_add (new head : Z) : M S () := h ← load head; __list_add new head (next h).
Definition list_add_tail (new head : Z) : M S () := h ← load head; __list_add new (prev h) head.
Definition __list_del (p n : Z) : M S () := set_prev n p;; set_next p n.

(** Unlike the header's, this one clears the entry. *)
Definition list_del (entry : Z) : M S () :=
  e ← load entry;
  __list_del (prev e) (next e);;
  set_next entry 0;;
  set_prev entry 0.

Definition list_del_init (entry : Z) : M S () :=
  e ← load entry;
  __list_del (prev e) (next e);;
  INIT_LIST_HEAD entry.
Definition list_move (list head : Z) : M S () :=
  e ← load list;
  __list_del (prev e) (next e);;
  list_add list head.
Definition list_move_tail (list head : Z) : M S () :=
  e ← load list;
  __list_del (prev e) (next e);;
  list_add_tail list head.
Definition list_empty (head : Z) : M S bool := h ← load head; mret (next h =? head).
Definition __list_splice (list head : Z) : M S () :=
  l ← load list;
  h ← load head;
  let first := next l in
  let last := prev l in
  let at_ := next h in
  set_prev first head;; set_next head first;; set_next last at_;; set_prev at_ last.
Definition list_splice (list head : Z) : M S () :=
  e ← list_empty list;
  if (e : bool) then mret () else __list_splice list head.
Definition list_splice_init (list head : Z) : M S () :=
  e ← list_empty list;
  if (e : bool) then mret () else __list_splice list head;; INIT_LIST_HEAD list.
End ops.
End ListC.

(** A memory of list heads alone. *)
#[export] Program Instance heap_listmem : ListMem (gmap Z list_head) := {|
  lh_get s a := s !! a;
  lh_set s a x := <[a := x]> s;
  others _ _ := True
|}.
Next Obligation. intros s a x y b _. cbn. case_decide; simplify_map_eq; done. Qed.
Next Obligation. done. Qed.
Next Obligation. by split. Qed.
