(* ===== verification/DListInv.v ===== *)
(** * Doubly linked lists: rings of entries, and the effect of each operation *)
From S2P Require Import Prelude DList.

Section inv.
Context {S : Type} `{!ListMem S}.
Implicit Types s : S.

(** ** Links *)

Definition nx s (a : Z) : option Z := next <$> lh_get s a.
Definition pv s (a : Z) : option Z := prev <$> lh_get s a.

Definition links s (a b : Z) : Prop := nx s a = Some b ∧ pv s b = Some a.

Fixpoint chain s (l : list Z) : Prop :=
  match l with
  | a :: (b :: _) as l' => links s a b ∧ chain s l'
  | _ => True
  end.

(** A ring of entries, from any of them. *)
Definition dring s (l : list Z) : Prop := l ≠ [] ∧ NoDup l ∧ chain s (l ++ [hd 0 l]).

(** The list [l] hangs off the head [h]. *)
Definition dlist s (h : Z) (l : list Z) : Prop := dring s (h :: l).

Lemma chain_app s l1 a l2 : chain s (l1 ++ a :: l2) ↔ chain s (l1 ++ [a]) ∧ chain s (a :: l2).
Proof.
  induction l1 as [|x l1 IH]; [cbn; tauto|].
  destruct l1 as [|y l1]; [cbn in *; destruct l2; tauto|]. cbn [app chain] in *. tauto.
Qed.

Lemma chain_cons2 s a b l : chain s (a :: b :: l) ↔ links s a b ∧ chain s (b :: l).
Proof. done. Qed.

(** The links inside a chain do not look at the next field of its last entry
    nor at the previous field of its first. *)
Lemma chain_frame s s' a l :
  (∀ x, x ∈ removelast (a :: l) → nx s' x = nx s x) → (∀ x, x ∈ l → pv s' x = pv s x) →
  chain s (a :: l) → chain s' (a :: l).
Proof.
  revert a. induction l as [|b l IH]; intros a Hn Hp; [done|]. rewrite !chain_cons2.
  intros [[Hab Hba] Hc]. split; [split|].
  - rewrite Hn; [done|]. left.
  - rewrite Hp; [done|]. left.
  - apply IH; [|intros x Hx; apply Hp; by right|done]. intros x Hx. apply Hn. cbn [removelast]. by right.
Qed.

Lemma dring_rotate s p q : dring s (p ++ q) → dring s (q ++ p).
Proof.
  destruct p as [|a p]; [by rewrite app_nil_r|]. destruct q as [|b q]; [by rewrite app_nil_r|].
  intros (_ & Hnd & Hc). split; [done|]. split; [by rewrite Permutation_app_comm|].
  cbn [hd app] in *. rewrite <- app_assoc in Hc. cbn [app] in Hc.
  apply (chain_app s (a :: p) b (q ++ [a])) in Hc as [H1 H2].
  rewrite <- app_assoc. apply (chain_app s (b :: q) a (p ++ [b])). split; done.
Qed.

Lemma dring_node s l a : dring s l → a ∈ l → is_Some (lh_get s a).
Proof.
  intros Hr Ha. apply list_elem_of_split in Ha as (p & q & ->). apply dring_rotate in Hr as (_ & _ & Hc).
  cbn in Hc. destruct (q ++ p) as [|b l]; cbn in Hc; destruct Hc as [[Hn _] _]; unfold nx in Hn;
    destruct (lh_get s a); [by eexists|done|by eexists|done].
Qed.

(** Where the first entry's links lead. *)
Lemma dring_first s a l :
  dring s (a :: l) → lh_get s a = Some (LH (hd a l) (List.last l a)).
Proof.
  intros Hr. destruct (dring_node s (a :: l) a Hr) as [[n p] Hg]; [left|].
  destruct Hr as (_ & _ & Hc). rewrite Hg. f_equal. cbn [hd] in Hc. f_equal.
  - destruct l as [|b l]; cbn in Hc; destruct Hc as [[Hn _] _]; unfold nx in Hn; rewrite Hg in Hn; by injection Hn.
  - destruct (List.exists_last (l := a :: l)) as (l' & z & Heq); [done|].
    assert (List.last l a = z) as Hz.
    { rewrite <- (List.last_last l' z a), <- Heq. by destruct l. }
    rewrite Hz. rewrite Heq, <- app_assoc in Hc. cbn in Hc. apply chain_app in Hc as [_ [[_ Hp] _]].
    unfold pv in Hp. rewrite Hg in Hp. by injection Hp.
Qed.

(** ** The effect of the writes *)

Lemma wp_load a x (Q : list_head → S → Prop) s : lh_get s a = Some x → wp (load a) Q s ↔ Q x s.
Proof. unfold wp, load. by intros ->. Qed.

(** [s'] is [s] with the next fields [N] and the previous fields [P] written,
    the last first. *)
Fixpoint upd (U : list (Z * Z)) (f : Z → option Z) (a : Z) : option Z :=
  match U with
  | [] => f a
  | (b, x) :: U => if decide (a = b) then Some x else upd U f a
  end.

Definition wrote (N P : list (Z * Z)) s s' : Prop :=
  others s s' ∧ (∀ a, nx s' a = upd N (nx s) a) ∧ (∀ a, pv s' a = upd P (pv s) a) ∧
  ∀ a, is_Some (lh_get s' a) ↔ is_Some (lh_get s a).

Lemma wrote_refl s : wrote [] [] s s.
Proof. done. Qed.

Lemma set_next_spec a x N P s0 s :
  wrote N P s0 s → is_Some (lh_get s0 a) →
  wp (set_next a x) (λ _ s', wrote ((a, x) :: N) P s0 s') s.
Proof.
  intros (Ho & Hn & Hp & Hs) [n Ha]%Hs. unfold set_next, wp, store. rewrite Ha.
  split; [etransitivity; [done|by eapply lh_set_others]|]. split; [|split].
  - intros b. unfold nx. cbn [upd]. rewrite (lh_get_set s a n) by done. case_decide; [done|]. apply Hn.
  - intros b. rewrite <- Hp. unfold pv. rewrite (lh_get_set s a n) by done. case_decide; [|done]. subst. by rewrite Ha.
  - intros b. rewrite <- Hs, (lh_get_set s a n) by done. case_decide; [subst; by rewrite Ha|done].
Qed.

Lemma set_prev_spec a x N P s0 s :
  wrote N P s0 s → is_Some (lh_get s0 a) →
  wp (set_prev a x) (λ _ s', wrote N ((a, x) :: P) s0 s') s.
Proof.
  intros (Ho & Hn & Hp & Hs) [n Ha]%Hs. unfold set_prev, wp, store. rewrite Ha.
  split; [etransitivity; [done|by eapply lh_set_others]|]. split; [|split].
  - intros b. rewrite <- Hn. unfold nx. rewrite (lh_get_set s a n) by done. case_decide; [|done]. subst. by rewrite Ha.
  - intros b. unfold pv. cbn [upd]. rewrite (lh_get_set s a n) by done. case_decide; [done|]. apply Hp.
  - intros b. rewrite <- Hs, (lh_get_set s a n) by done. case_decide; [subst; by rewrite Ha|done].
Qed.
End inv.

(** Run the writes of a straight-line operation. *)
Ltac writes :=
  repeat first
    [ rewrite wp_bind
    | eapply wp_mono; [first [eapply set_next_spec|eapply set_prev_spec]; [eassumption|try done]|intros [] ? ?; cbv beta in *] ].

Section effects.
Context {S : Type} `{!ListMem S}.
Implicit Types s : S.

Lemma INIT_LIST_HEAD_spec a N P s0 s :
  wrote N P s0 s → is_Some (lh_get s0 a) →
  wp (INIT_LIST_HEAD a) (λ _ s', wrote ((a, a) :: N) ((a, a) :: P) s0 s') s.
Proof. intros. unfold INIT_LIST_HEAD. writes. done. Qed.

Lemma __list_add_spec new p n N P s0 s :
  wrote N P s0 s → is_Some (lh_get s0 new) → is_Some (lh_get s0 p) → is_Some (lh_get s0 n) →
  wp (__list_add new p n)
    (λ _ s', wrote ((p, new) :: (new, n) :: N) ((new, p) :: (n, new) :: P) s0 s') s.
Proof. intros. unfold __list_add. writes. done. Qed.

Lemma __list_del_spec p n N P s0 s :
  wrote N P s0 s → is_Some (lh_get s0 p) → is_Some (lh_get s0 n) →
  wp (__list_del p n) (λ _ s', wrote ((p, n) :: N) ((n, p) :: P) s0 s') s.
Proof. intros. unfold __list_del. writes. done. Qed.

(** What an operation leaves alone: the rest of the memory, and the list heads
    it does not name. *)
Definition frame (D : list Z) s s' : Prop :=
  others s s' ∧ (∀ a, is_Some (lh_get s' a) ↔ is_Some (lh_get s a)) ∧
  ∀ a, a ∉ D → lh_get s' a = lh_get s a.

Lemma upd_ne U f a : a ∉ U.*1 → upd U f a = f a.
Proof.
  induction U as [|[b x] U IH]; cbn; [done|]. intros Ha. apply not_elem_of_cons in Ha as [Hne Ha].
  rewrite decide_False by done. by apply IH.
Qed.

Lemma wrote_frame N P D s s' :
  wrote N P s s' → (∀ a, a ∈ N.*1 ++ P.*1 → a ∈ D) → frame D s s'.
Proof.
  intros (Ho & Hn & Hp & Hs) HD. split; [done|]. split; [done|]. intros a Ha.
  specialize (Hn a). specialize (Hp a). specialize (Hs a).
  rewrite upd_ne in Hn, Hp by (intros Hin; apply Ha, HD, elem_of_app; tauto).
  unfold nx, pv in *. destruct (lh_get s' a) as [[n p]|], (lh_get s a) as [[n' p']|]; cbn in *;
    try naive_solver.
Qed.

(** ** Rings *)

Lemma dring_frame D s s' l : frame D s s' → (∀ a, a ∈ l → a ∉ D) → dring s l → dring s' l.
Proof.
  intros (_ & _ & Hf) HD (Hne & Hnd & Hc). split; [done|]. split; [done|].
  destruct l as [|a l]; [done|]. cbn [app hd] in *.
  assert (∀ x, x ∈ a :: l → nx s' x = nx s x ∧ pv s' x = pv s x) as Hsame.
  { intros x Hx. unfold nx, pv. by rewrite Hf by (by apply HD). }
  eapply chain_frame; [| |done]; intros x Hx; apply Hsame.
  - change (a :: l ++ [a]) with ((a :: l) ++ [a]) in Hx. by rewrite removelast_last in Hx.
  - set_solver.
Qed.

Lemma ring_insert s s' a new l :
  dring s (a :: l) → new ∉ a :: l →
  wrote [(a, new); (new, hd a l)] [(new, a); (hd a l, new)] s s' → dring s' (a :: new :: l).
Proof.
  intros (_ & Hnd & Hc) Hnew (_ & Hn & Hp & _). cbn [upd] in Hn, Hp.
  apply not_elem_of_cons in Hnew as [Hne Hnew]. apply NoDup_cons_1_1 in Hnd as Ha.
  apply NoDup_cons_1_2 in Hnd as Hl. split; [done|]. split.
  { constructor; [set_solver|]. by constructor. }
  cbn [hd app] in *. rewrite chain_cons2. split.
  { split; [by rewrite Hn, decide_True|by rewrite Hp, decide_True]. }
  destruct l as [|b q]; cbn [hd app] in *.
  - rewrite chain_cons2. split; [|done].
    split; [by rewrite Hn, decide_False, decide_True|by rewrite Hp, decide_False, decide_True].
  - rewrite chain_cons2. assert (b ≠ new) by set_solver. split.
    { split; [by rewrite Hn, decide_False, decide_True|by rewrite Hp, decide_False, decide_True]. }
    apply (chain_frame s); [| |apply Hc].
    + change (b :: q ++ [a]) with ((b :: q) ++ [a]). rewrite removelast_last. intros x Hx.
      rewrite Hn, !decide_False by set_solver. done.
    + intros x Hx. assert (b ∉ q) by (by apply NoDup_cons_1_1).
      rewrite Hp, !decide_False by set_solver. done.
Qed.

Lemma ring_delete s s' x l' z :
  let l := l' ++ [z] in
  dring s (x :: l) → nx s' z = Some (hd z l) → pv s' (hd z l) = Some z →
  (∀ a, a ∈ l' → nx s' a = nx s a) → (∀ a, a ∈ tl l → pv s' a = pv s a) → dring s' l.
Proof.
  intros l (_ & Hnd & Hc) Hz Hh Hn Hp. apply NoDup_cons_1_2 in Hnd. cbn [hd app] in Hc.
  split; [by destruct l'|]. split; [done|].
  assert (chain s l) as Hcl.
  { destruct l as [|a q] eqn:Hl; [by destruct l'|].
    apply (chain_cons2 s x a (q ++ [x])) in Hc as [_ Hc]. destruct (List.exists_last (l := a :: q)) as (p & y & Hy); [done|].
    change (chain s ((a :: q) ++ [x])) in Hc. rewrite Hy, <- app_assoc in Hc. apply chain_app in Hc as [Hc _]. by rewrite Hy. }
  assert (hd 0 l = hd z l) as -> by (by subst l; destruct l').
  assert (l ++ [hd z l] = l' ++ z :: [hd z l]) as -> by (subst l; by rewrite <- app_assoc).
  apply chain_app. split; [|done].
  change (chain s' l). destruct l as [|a q] eqn:Hl; [by destruct l'|].
  apply (chain_frame s); [|exact Hp|done].
  intros y Hy. apply Hn. rewrite <- Hl in Hy. unfold l in Hy. by rewrite removelast_last in Hy.
Qed.

Lemma last_snoc_default {A} (l : list A) z d : List.last (l ++ [z]) d = z.
Proof. by rewrite List.last_last. Qed.

(** The neighbours of an entry of a list. *)
Lemma dlist_around s h p x q :
  dlist s h (p ++ x :: q) →
  ∃ l' z, q ++ h :: p = l' ++ [z] ∧ dring s (x :: l' ++ [z]) ∧
    lh_get s x = Some (LH (hd z (l' ++ [z])) z).
Proof.
  intros Hr. destruct (List.exists_last (l := q ++ h :: p)) as (l' & z & Heq); [by destruct q|].
  assert (dring s (x :: l' ++ [z])) as Hr'.
  { rewrite <- Heq. change (x :: q ++ h :: p) with ((x :: q) ++ h :: p). by apply (dring_rotate s (h :: p)). }
  exists l', z. split; [done|]. split; [done|]. rewrite (dring_first s x (l' ++ [z])) by done.
  rewrite last_snoc_default. do 2 f_equal. by destruct l'.
Qed.

(** Taking an entry out of its ring, whatever is written to it afterwards. *)
Lemma unlinked s s' h p x q l' z N P :
  dlist s h (p ++ x :: q) → q ++ h :: p = l' ++ [z] →
  wrote (N ++ [(z, hd z (l' ++ [z]))]) (P ++ [(hd z (l' ++ [z]), z)]) s s' →
  (∀ a, a ∈ N.*1 ++ P.*1 → a = x) → dlist s' h (p ++ q).
Proof.
  intros Hr Heq (_ & Hn & Hp & _) HNP.
  destruct (dlist_around s h p x q Hr) as (l1 & z1 & Heq1 & Hr' & _).
  assert (l1 = l' ∧ z1 = z) as [-> ->] by (rewrite Heq in Heq1; apply app_inj_tail in Heq1; naive_solver).
  assert (x ∉ l' ++ [z]) as Hx by (destruct Hr' as (_ & Hnd & _); by apply NoDup_cons_1_1).
  assert (NoDup (l' ++ [z])) as Hnd by (destruct Hr' as (_ & Hnd & _); by apply NoDup_cons_1_2 in Hnd).
  assert (∀ U V f a, (∀ b, b ∈ U.*1 → b = x) → a ≠ x → upd (U ++ V) f a = upd V f a) as Hupd.
  { induction U as [|[b y] U IH]; intros V f a HU Ha; [done|]. cbn [app upd]. rewrite decide_False.
    - apply IH; [|done]. intros c Hc. apply HU. by right.
    - intros ->. apply Ha, HU. left. }
  assert (dring s' (q ++ h :: p)) as Hr2; [|by apply (dring_rotate s' q (h :: p))].
  rewrite Heq. apply (ring_delete s _ x l' z); [done| | | |].
  - rewrite Hn, Hupd by set_solver. cbn [upd]. by rewrite decide_True.
  - rewrite Hp, Hupd; [cbn [upd]; by rewrite decide_True|set_solver|]. destruct l'; set_solver.
  - intros a Ha. rewrite Hn, Hupd by set_solver. cbn [upd]. rewrite decide_False; [done|].
    intros ->. apply list.NoDup_app in Hnd as (_ & Hd & _). apply (Hd z Ha). left.
  - intros a Ha. destruct l' as [|b l'].
    + by apply elem_of_nil in Ha.
    + cbn [tl app hd] in *. apply NoDup_cons_1_1 in Hnd. rewrite Hp, Hupd by set_solver. cbn [upd].
      rewrite decide_False by (intros ->; done). done.
Qed.
End effects.
