(* ===== verification/DListOps.v ===== *)
(** * Doubly linked lists: the operations, the loops, and sequences of operations *)
From S2P Require Import Prelude DList DListInv.

Section ops.
Context {S : Type} `{!ListMem S}.
Implicit Types s : S.

(** The list hanging off [h] is [l'] afterwards, and only the list heads [D] changed. *)
Definition becomes (h : Z) (l' D : list Z) s s' : Prop := dlist s' h l' ∧ frame D s s'.

Lemma dlist_node s h l a : dlist s h l → a ∈ h :: l → is_Some (lh_get s a).
Proof. apply dring_node. Qed.

Lemma dlist_add_spec s h l new :
  dlist s h l → new ∉ h :: l → is_Some (lh_get s new) →
  wp (list_add new h) (λ _ s', becomes h (new :: l) (new :: h :: l) s s') s.
Proof.
  intros Hr Hnew Hs. unfold list_add. rewrite wp_bind, (wp_load h (LH (hd h l) (List.last l h))).
  2:{ by apply dring_first. }
  cbn [next]. eapply wp_mono.
  { eapply __list_add_spec; [apply wrote_refl|done|..]; apply (dlist_node s h l); try done; [left|].
    destruct l; cbn; set_solver. }
  intros [] s' Hw. split; [by eapply ring_insert|]. eapply wrote_frame; [done|].
  intros a. destruct l; cbn; set_solver.
Qed.

Lemma list_add_tail_spec s h l new :
  dlist s h l → new ∉ h :: l → is_Some (lh_get s new) →
  wp (list_add_tail new h) (λ _ s', becomes h (l ++ [new]) (new :: h :: l) s s') s.
Proof.
  intros Hr Hnew Hs. unfold list_add_tail. rewrite wp_bind, (wp_load h (LH (hd h l) (List.last l h))).
  2:{ by apply dring_first. }
  cbn [prev]. destruct (List.exists_last (l := h :: l)) as (l' & z & Heq); [done|].
  assert (List.last l h = z) as ->. { rewrite <- (List.last_last l' z h), <- Heq. by destruct l. }
  assert (z ∈ h :: l) as Hz by (rewrite Heq; set_solver).
  assert (dring s (z :: l')) as Hr'. { apply (dring_rotate s l' [z]). by rewrite <- Heq. }
  assert (hd z l' = h) as Hhd by (by destruct l'; injection Heq).
  assert (dlist s h l) as Hr0 by done.
  eapply wp_mono.
  { eapply __list_add_spec; [apply wrote_refl|done|..]; apply (dlist_node s h l); done || left. }
  intros [] s' Hw. split.
  - assert (dring s' (z :: new :: l')) as Hi.
    { eapply ring_insert; [done| |by rewrite Hhd]. rewrite Heq in Hnew. set_solver. }
    unfold dlist. destruct l' as [|b l']; injection Heq as -> ->.
    + apply (dring_rotate s' [] [z; new]) in Hi. done.
    + cbn [app]. rewrite <- app_assoc. cbn [app].
      apply (dring_rotate s' [z; new] (b :: l')) in Hi. done.
  - eapply wrote_frame; [done|]. intros a. cbn. set_solver.
Qed.

Lemma nodup_out (h x : Z) p q : NoDup (h :: p ++ x :: q) → x ∉ h :: p ++ q.
Proof.
  assert ((h :: p ++ x :: q) ≡ₚ x :: h :: p ++ q) as -> by solve_Permutation. apply NoDup_cons_1_1.
Qed.

(** The common part of the operations that take an entry out. *)
Lemma take_out s h p x q (body : list_head → M S ()) (Q : () → S → Prop) :
  dlist s h (p ++ x :: q) →
  (∀ l' z s1, q ++ h :: p = l' ++ [z] →
    wrote [(z, hd z (l' ++ [z]))] [(hd z (l' ++ [z]), z)] s s1 →
    wp (body (LH (hd z (l' ++ [z])) z)) Q s1) →
  wp (e ← load x; __list_del (prev e) (next e);; body e) Q s.
Proof.
  intros Hr Hbody. destruct (dlist_around s h p x q Hr) as (l' & z & Heq & Hr' & Hg).
  rewrite wp_bind, (wp_load x _ _ s Hg), wp_bind. cbn [next prev].
  assert (∀ a, a ∈ l' ++ [z] → is_Some (lh_get s a)) as Hsome.
  { intros a Ha. apply (dring_node s (x :: l' ++ [z])); [done|by right]. }
  eapply wp_mono.
  { eapply __list_del_spec; [apply wrote_refl|..]; apply Hsome; [set_solver|]. destruct l'; set_solver. }
  intros [] s1 Hw. by eapply Hbody.
Qed.

Lemma around_in {h x z : Z} {p q l' : list Z} :
  q ++ h :: p = l' ++ [z] → z ∈ h :: p ++ x :: q ∧ hd z (l' ++ [z]) ∈ h :: p ++ x :: q.
Proof.
  intros Heq. assert (∀ a, a ∈ l' ++ [z] → a ∈ h :: p ++ x :: q) as Hin.
  { intros a. rewrite <- Heq. set_solver. }
  split; apply Hin; [set_solver|]. destruct l'; set_solver.
Qed.

Lemma out_frame s s' h p x q l' z N P :
  q ++ h :: p = l' ++ [z] →
  wrote (N ++ [(z, hd z (l' ++ [z]))]) (P ++ [(hd z (l' ++ [z]), z)]) s s' →
  (∀ a, a ∈ N.*1 ++ P.*1 → a = x) → frame (h :: p ++ x :: q) s s'.
Proof.
  intros Heq Hw HNP. destruct (around_in (x := x) Heq) as [Hz Hh]. eapply wrote_frame; [done|].
  intros a. rewrite !fmap_app, !elem_of_app. cbn. rewrite !list_elem_of_singleton.
  intros [[Ha| ->]|[Ha| ->]]; [|done| |done].
  - rewrite (HNP a) by set_solver. set_solver.
  - rewrite (HNP a) by set_solver. set_solver.
Qed.

Lemma list_del_spec s h p x q :
  dlist s h (p ++ x :: q) →
  wp (list_del x) (λ _ s', becomes h (p ++ q) (h :: p ++ x :: q) s s' ∧
    lh_get s' x = Some (LH LIST_POISON1 LIST_POISON2)) s.
Proof.
  intros Hr. assert (is_Some (lh_get s x)) as Hx by (apply (dlist_node s h (p ++ x :: q)); [done|set_solver]).
  unfold list_del. eapply take_out; [done|]. intros l' z s1 Heq Hw. writes.
  match goal with H : wrote _ _ s ?s' |- _ => rename H into Hw2; set (s2 := s') in * end.
  split; [split|].
  - eapply (unlinked s s2 h p x q l' z [(x, LIST_POISON1)] [(x, LIST_POISON2)]); [done..|]. cbn. set_solver.
  - eapply (out_frame s s2 h p x q l' z [(x, LIST_POISON1)] [(x, LIST_POISON2)]); [done..|]. cbn. set_solver.
  - destruct Hw2 as (_ & Hn & Hp & _). specialize (Hn x). specialize (Hp x). cbn in Hn, Hp.
    rewrite decide_True in Hn, Hp by done. unfold nx, pv in *. destruct (lh_get s2 x) as [[??]|]; naive_solver.
Qed.

Lemma list_del_init_spec s h p x q :
  dlist s h (p ++ x :: q) →
  wp (list_del_init x) (λ _ s', becomes h (p ++ q) (h :: p ++ x :: q) s s' ∧ dlist s' x []) s.
Proof.
  intros Hr. assert (is_Some (lh_get s x)) as Hx by (apply (dlist_node s h (p ++ x :: q)); [done|set_solver]).
  unfold list_del_init. eapply take_out; [done|]. intros l' z s1 Heq Hw.
  eapply wp_mono; [by eapply INIT_LIST_HEAD_spec|]. intros [] s2 Hw2. split; [split|].
  - eapply (unlinked s s2 h p x q l' z [(x, x)] [(x, x)]); [done..|]. cbn. set_solver.
  - eapply (out_frame s s2 h p x q l' z [(x, x)] [(x, x)]); [done..|]. cbn. set_solver.
  - destruct Hw2 as (_ & Hn & Hp & _). split; [done|]. split; [apply NoDup_singleton|].
    cbn. split; [|done]. split; [rewrite Hn|rewrite Hp]; cbn; by rewrite decide_True.
Qed.

Lemma becomes_trans h l2 D D' s s1 s2 :
  frame D s s1 → becomes h l2 D' s1 s2 → (∀ a, a ∈ D' → a ∈ D) → becomes h l2 D s s2.
Proof.
  intros (Ho & Hs & Hf) (Hd & Ho' & Hs' & Hf') HD. split; [done|]. split; [by etransitivity|].
  split; [intros a; by rewrite Hs', Hs|]. intros a Ha. rewrite Hf', Hf; [done|done|]. intros ?. by apply Ha, HD.
Qed.

(** A moved entry is taken out and put back, at either end. *)
Lemma list_move_spec s h p x q :
  dlist s h (p ++ x :: q) →
  wp (list_move x h) (λ _ s', becomes h (x :: p ++ q) (h :: p ++ x :: q) s s') s.
Proof.
  intros Hr. pose proof Hr as (_ & Hnd & _). unfold list_move. eapply take_out; [done|]. intros l' z s1 Heq Hw.
  assert (frame (h :: p ++ x :: q) s s1) as Hf 
    by (eapply (out_frame s s1 h p x q l' z [] []); [exact Heq|exact Hw|by intros a ?%elem_of_nil]).
  eapply wp_mono.
  { apply (dlist_add_spec s1 h (p ++ q)).
    - eapply (unlinked s s1 h p x q l' z [] []); [exact Hr|exact Heq|exact Hw|by intros a ?%elem_of_nil].
    - by apply nodup_out.
    - destruct Hf as (_ & Hs & _). apply Hs, (dlist_node s h (p ++ x :: q)); [done|set_solver]. }
  intros [] s' Hb. eapply becomes_trans; [exact Hf|exact Hb|]. set_solver.
Qed.

Lemma list_move_tail_spec s h p x q :
  dlist s h (p ++ x :: q) →
  wp (list_move_tail x h) (λ _ s', becomes h (p ++ q ++ [x]) (h :: p ++ x :: q) s s') s.
Proof.
  intros Hr. pose proof Hr as (_ & Hnd & _). unfold list_move_tail. eapply take_out; [done|]. intros l' z s1 Heq Hw.
  assert (frame (h :: p ++ x :: q) s s1) as Hf 
    by (eapply (out_frame s s1 h p x q l' z [] []); [exact Heq|exact Hw|by intros a ?%elem_of_nil]).
  eapply wp_mono.
  { apply (list_add_tail_spec s1 h (p ++ q)).
    - eapply (unlinked s s1 h p x q l' z [] []); [exact Hr|exact Heq|exact Hw|by intros a ?%elem_of_nil].
    - by apply nodup_out.
    - destruct Hf as (_ & Hs & _). apply Hs, (dlist_node s h (p ++ x :: q)); [done|set_solver]. }
  intros [] s' Hb. rewrite app_assoc. eapply becomes_trans; [exact Hf|exact Hb|]. set_solver.
Qed.

Lemma list_empty_spec s h l (Q : bool → S → Prop) :
  dlist s h l → wp (list_empty h) Q s ↔ Q (bool_decide (l = [])) s.
Proof.
  intros Hr. unfold list_empty. rewrite wp_bind, (wp_load h _ _ s (dring_first s h l Hr)), wp_ret. cbn [next].
  replace (hd h l =? h) with (bool_decide (l = [])); [done|]. destruct l as [|a l]; cbn; [by rewrite Z.eqb_refl|].
  destruct Hr as (_ & Hnd & _). apply NoDup_cons_1_1 in Hnd. symmetry. apply Z.eqb_neq. set_solver.
Qed.

(** ** Splicing *)

Lemma splice_chain s s' g h l l' z m :
  l = l' ++ [z] →
  dlist s g l → dlist s h m → (∀ x, x ∈ g :: l → x ∉ h :: m) →
  wrote [(z, hd h m); (h, hd z l)] [(hd h m, z); (hd z l, h)] s s' → dlist s' h (l ++ m).
Proof.
  intros Hlz Hg Hh Hdis (_ & Hn & Hp & _). cbn [upd] in Hn, Hp.
  assert (NoDup l) as Hl by (destruct Hg as (_ & Hnd & _); by apply NoDup_cons_1_2 in Hnd).
  assert (NoDup (h :: m)) as Hm by apply Hh.
  assert (chain s l) as Hcl.
  { destruct Hg as (_ & _ & Hc). cbn [hd app] in Hc. destruct l as [|a q]; [by destruct l'|]. apply (chain_cons2 s g a (q ++ [g])) in Hc as [_ Hc].
    change (chain s ((a :: q) ++ [g])) in Hc. rewrite Hlz, <- app_assoc in Hc.
    apply chain_app in Hc as [Hc _]. by rewrite Hlz. }
  assert (chain s (h :: m ++ [h])) as Hcm by apply Hh.
  assert (z ∈ l) as Hz by (rewrite Hlz; set_solver).
  assert (hd h m ∈ h :: m) as Hat by (destruct m; cbn; set_solver).
  split; [done|]. split.
  { change (NoDup (h :: l ++ m)). apply NoDup_cons_1_1 in Hm as Hhm. apply NoDup_cons_1_2 in Hm.
    constructor; [|apply list.NoDup_app; split; [done|split; [set_solver|done]]].
    intros [Hx|?]%elem_of_app; [|done]. apply (Hdis h); [by right|left]. }
  cbn [hd app]. destruct l as [|a q]; [by destruct l'|]. cbn [hd] in *.
  assert (chain s' (h :: (a :: q))) as H1.
  { apply chain_cons2. split.
    - assert (h ≠ z) by (intros ->; apply (Hdis z); [by right|left]).
      assert (a ≠ hd h m) by (intros ->; apply (Hdis (hd h m)); [right; left|done]).
      split; [by rewrite Hn, decide_False, decide_True|by rewrite Hp, decide_False, decide_True].
    - apply (chain_frame s); [| |done]; intros x Hx.
      + rewrite Hlz in Hx. rewrite removelast_last in Hx.
        assert (x ∈ a :: q) as Hxl by (rewrite Hlz; set_solver).
        rewrite Hn, !decide_False; [done| |].
        * intros ->. apply (Hdis h); [by right|left].
        * intros ->. rewrite Hlz in Hl. apply list.NoDup_app in Hl as (_ & Hd & _).
          apply (Hd z Hx). left.
      + apply NoDup_cons_1_1 in Hl. rewrite Hp, !decide_False; [done|congruence|].
        intros ->. apply (Hdis (hd h m)); [by right; right|done]. }
  assert (chain s' (z :: m ++ [h])) as H2.
  { destruct m as [|b m]; cbn [hd app] in *.
    - rewrite chain_cons2. split; [|done]. split; [by rewrite Hn, decide_True|by rewrite Hp, decide_True].
    - rewrite chain_cons2. split; [split; [by rewrite Hn, decide_True|by rewrite Hp, decide_True]|].
      apply chain_cons2 in Hcm as [_ Hcm]. apply NoDup_cons_1_1 in Hm as Hhb. apply NoDup_cons_1_2 in Hm.
      apply NoDup_cons_1_1 in Hm as Hbm. apply (chain_frame s); [| |done]; intros x Hx.
      + change (b :: m ++ [h]) with ((b :: m) ++ [h]) in Hx. rewrite removelast_last in Hx.
        assert (x ≠ h) by (intros ->; done).
        assert (x ≠ z) by (intros ->; apply (Hdis z); [by right|by right]).
        by rewrite Hn, !decide_False.
      + assert (x ≠ b) by (intros ->; set_solver).
        assert (x ≠ a) by (intros ->; apply (Hdis a); [right; left|set_solver]).
        by rewrite Hp, !decide_False. }
  change (chain s' (h :: ((a :: q) ++ m) ++ [h])). rewrite Hlz in *. rewrite <- !app_assoc.
  apply (chain_app s' (h :: l') z (m ++ [h])). split; [exact H1|exact H2].
Qed.

Lemma __list_splice_spec s g h l m :
  dlist s g l → l ≠ [] → dlist s h m → (∀ x, x ∈ g :: l → x ∉ h :: m) →
  wp (__list_splice g h) (λ _ s', becomes h (l ++ m) (h :: l ++ m) s s') s.
Proof.
  intros Hg Hl Hh Hdis. destruct (List.exists_last Hl) as (l' & z & Hl').
  unfold __list_splice. rewrite wp_bind, (wp_load g _ _ s (dring_first s g l Hg)).
  rewrite wp_bind, (wp_load h _ _ s (dring_first s h m Hh)). cbn [next prev]. cbv zeta.
  rewrite Hl', last_snoc_default, <- Hl'.
  assert (hd g l = hd z l) as -> by (by destruct l).
  assert (z ∈ l) as Hz by (rewrite Hl'; set_solver).
  assert (hd z l ∈ l) as Hz' by (destruct l; [done|left]).
  assert (hd h m ∈ h :: m) as Hat by (destruct m; cbn; set_solver).
  assert (is_Some (lh_get s z)) by (apply (dlist_node s g l); [done|by right]).
  assert (is_Some (lh_get s (hd z l))) by (apply (dlist_node s g l); [done|by right]).
  assert (is_Some (lh_get s h)) by (apply (dlist_node s h m); [done|left]).
  assert (is_Some (lh_get s (hd h m))) by (by apply (dlist_node s h m)).
  pose proof (wrote_refl s) as Hw0. writes.
  match goal with H : wrote (_ :: _) _ s _ |- _ => rename H into Hw end. split.
  - rewrite Hl'. rewrite <- Hl'. by apply (splice_chain s _ g h l l' z m).
  - eapply wrote_frame; [done|]. intros a. cbn. set_solver.
Qed.

Lemma list_splice_spec s g h l m :
  dlist s g l → dlist s h m → (∀ x, x ∈ g :: l → x ∉ h :: m) →
  wp (list_splice g h) (λ _ s', becomes h (l ++ m) (h :: l ++ m) s s') s.
Proof.
  intros Hg Hh Hdis. unfold list_splice. rewrite wp_bind, (list_empty_spec s g l) by done. case_bool_decide.
  - subst. rewrite wp_ret. split; [done|]. split; [reflexivity|]. done.
  - by apply __list_splice_spec.
Qed.

Lemma list_splice_init_spec s g h l m :
  dlist s g l → dlist s h m → (∀ x, x ∈ g :: l → x ∉ h :: m) →
  wp (list_splice_init g h) (λ _ s', becomes h (l ++ m) (g :: h :: l ++ m) s s' ∧ dlist s' g []) s.
Proof.
  intros Hg Hh Hdis. unfold list_splice_init. rewrite wp_bind, (list_empty_spec s g l) by done. case_bool_decide.
  { subst. rewrite wp_ret. split; [|done]. split; [done|]. split; [reflexivity|]. done. }
  rewrite wp_bind. eapply wp_mono; [by apply __list_splice_spec|]. intros [] s1 [Hd Hf]. pose proof Hf as (Ho & Hs & Hfr).
  eapply wp_mono; [eapply INIT_LIST_HEAD_spec; [apply wrote_refl|]|].
  { apply Hs, (dlist_node s g l); [done|left]. }
  intros [] s2 Hw. assert (frame [g] s1 s2) as Hf2. { eapply wrote_frame; [done|]. intros a. cbn. set_solver. }
  split; [split|].
  - eapply dring_frame; [done| |done]. intros a Ha [->|?%elem_of_nil]%elem_of_cons; [|done].
    destruct Hg as (_ & Hnd & _). apply NoDup_cons_1_1 in Hnd.
    assert (g ∉ h :: m) by (apply Hdis; left). set_solver.
  - destruct Hf2 as (Ho2 & Hs2 & Hfr2). split; [by etransitivity|]. split; [intros a; by rewrite Hs2, Hs|].
    intros a Ha. rewrite Hfr2, Hfr; [done|set_solver|set_solver].
  - destruct Hw as (_ & Hn & Hp & _). split; [done|]. split; [apply NoDup_singleton|].
    cbn. split; [|done]. split; [rewrite Hn|rewrite Hp]; cbn; by rewrite decide_True.
Qed.

(** ** Loops *)

Section loops.
Context {A : Type} (h : Z).

(** A loop whose body keeps the link it is followed by. *)
Lemma for_each_rule (step : list_head → Z) (body : Z → A → M S A) (I : list Z → A → S → Prop) l fuel x s :
  h ∉ l → (length l < fuel)%nat →
  (∀ a q x s, I (a :: q) x s →
     wp (body a x) (λ x' s', I q x' s' ∧ ∃ e, lh_get s' a = Some e ∧ step e = hd h q) s) →
  I l x s → wp (for_each step fuel (hd h l) h x body) (λ x' s', I [] x' s') s.
Proof.
  intros Hh Hf Hbody. revert fuel Hf x s. induction l as [|a l IH]; intros fuel Hf x s HI.
  - destruct fuel as [|fuel]; [lia|]. cbn [for_each hd]. by rewrite Z.eqb_refl, wp_ret.
  - destruct fuel as [|fuel]; [lia|]. cbn [for_each hd length] in *. apply not_elem_of_cons in Hh as [Hne Hh].
    destruct (Z.eqb_spec a h); [congruence|]. rewrite wp_bind. eapply wp_mono; [by apply Hbody|].
    intros x' s' [HI' (e & He & Hs)]. rewrite wp_bind, (wp_load a e _ s' He), Hs. apply IH; [done|lia|done].
Qed.

(** The body may take its entry out: the next one is read before it runs. *)
Lemma for_each_safe_rule (body : Z → A → M S A) (I : list Z → A → S → Prop) l fuel x s :
  h ∉ l → (length l < fuel)%nat →
  (∀ a q x s, I (a :: q) x s → wp (body a x) (λ x' s', I q x' s') s) →
  (∀ q x s, I q x s → ∃ e, lh_get s (hd h q) = Some e ∧ (q ≠ [] → next e = hd h (tl q))) →
  I l x s →
  ∀ n, (l ≠ [] → n = hd h (tl l)) →
  wp (for_each_safe fuel (hd h l) n h x body) (λ x' s', I [] x' s') s.
Proof.
  intros Hh Hf Hbody Hread. revert fuel Hf x s. induction l as [|a l IH]; intros fuel Hf x s HI n Hn.
  - destruct fuel as [|fuel]; [lia|]. cbn [for_each_safe hd]. by rewrite Z.eqb_refl, wp_ret.
  - destruct fuel as [|fuel]; [lia|]. cbn [for_each_safe hd length tl] in *. apply not_elem_of_cons in Hh as [Hne Hh].
    rewrite (Hn ltac:(done)). destruct (Z.eqb_spec a h); [congruence|].
    rewrite wp_bind. eapply wp_mono; [by apply Hbody|]. intros x' s' HI'.
    destruct (Hread l x' s' HI') as (e & He & Hs). rewrite wp_bind, (wp_load _ e _ s' He).
    apply IH; [done|lia|done|done].
Qed.
End loops.

(** Where an entry's links lead, in the middle of a list. *)
Lemma dlist_next s h p a q : dlist s h (p ++ a :: q) → ∃ e, lh_get s a = Some e ∧ next e = hd h q.
Proof.
  intros (_ & _ & Hc). cbn [hd] in Hc.
  assert (h :: (p ++ a :: q) ++ [h] = (h :: p) ++ a :: q ++ [h]) as Heq by (cbn; by rewrite <- app_assoc).
  rewrite <- app_comm_cons, Heq in Hc. apply chain_app in Hc as [_ Hc].
  assert (nx s a = Some (hd h q)) as Hn by (destruct q as [|b q]; cbn in Hc; apply Hc).
  unfold nx in Hn. destruct (lh_get s a) as [e|]; [|done]. exists e. by injection Hn.
Qed.

Lemma dlist_prev s h p a q : dlist s h (p ++ a :: q) → ∃ e, lh_get s a = Some e ∧ prev e = List.last p h.
Proof.
  intros Hr. destruct (dlist_around s h p a q Hr) as (l' & z & Heq & _ & Hg). eexists. split; [exact Hg|]. cbn.
  transitivity (List.last (q ++ h :: p) h); [by rewrite Heq, last_snoc_default|].
  destruct (List.exists_last (l := h :: p)) as (r & y & Hy); [done|].
  rewrite Hy, app_assoc, last_snoc_default. rewrite <- (last_snoc_default r y h), <- Hy. by destruct p.
Qed.

Definition visit (a : Z) (l : list Z) : M S (list Z) := mret (l ++ [a]).

Lemma visit_forward s h l fuel :
  dlist s h l → (length l < fuel)%nat →
  wp (list_for_each fuel h [] visit) (λ r s', r = l ∧ s' = s) s.
Proof.
  intros Hr Hf. unfold list_for_each. rewrite wp_bind, (wp_load h _ _ s (dring_first s h l Hr)). cbn [next].
  eapply wp_mono.
  { apply (for_each_rule h next visit (λ q x s', s' = s ∧ x ++ q = l) l); [|done| |done].
    - destruct Hr as (_ & Hnd & _). by apply NoDup_cons_1_1.
    - intros a q x s' [-> Hx]. unfold visit. rewrite wp_ret. split; [split; [done|by rewrite <- app_assoc]|].
      apply (dlist_next s h x a q). by rewrite Hx. }
  intros r s' [-> Hx]. by rewrite app_nil_r in Hx.
Qed.

Lemma visit_backward s h l fuel :
  dlist s h l → (length l < fuel)%nat →
  wp (list_for_each_prev fuel h [] visit) (λ r s', r = reverse l ∧ s' = s) s.
Proof.
  intros Hr Hf. unfold list_for_each_prev. rewrite wp_bind, (wp_load h _ _ s (dring_first s h l Hr)). cbn [prev].
  assert (∀ q, List.last (reverse q) h = hd h q) as Hlast.
  { intros [|a q]; [done|]. by rewrite reverse_cons, last_snoc_default. }
  rewrite <- (reverse_involutive l), Hlast at 1. eapply wp_mono.
  { apply (for_each_rule h prev visit (λ q x s', s' = s ∧ x ++ q = reverse l) (reverse l)); [| | |done].
    - destruct Hr as (_ & Hnd & _). apply NoDup_cons_1_1 in Hnd. by rewrite elem_of_reverse.
    - by rewrite length_reverse.
    - intros a q x s' [-> Hx]. unfold visit. rewrite wp_ret. split; [split; [done|by rewrite <- app_assoc]|].
      rewrite <- Hlast. apply (dlist_prev s h (reverse q) a (reverse x)).
      assert (reverse q ++ a :: reverse x = l) as ->; [|done].
      rewrite <- (reverse_involutive l), <- Hx, reverse_app, reverse_cons, <- app_assoc. done. }
  intros r s' [-> Hx]. by rewrite app_nil_r in Hx.
Qed.

(** Taking every entry out of a list, one by one. *)
Definition clear_step (a : Z) (l : list Z) : M S (list Z) := list_del_init a;; mret (l ++ [a]).

Lemma clear_spec s h l fuel :
  dlist s h l → (length l < fuel)%nat →
  wp (list_for_each_safe fuel h [] clear_step)
    (λ r s', r = l ∧ dlist s' h [] ∧ (∀ a, a ∈ l → dlist s' a []) ∧ frame (h :: l) s s') s.
Proof.
  intros Hr Hf. pose proof Hr as (_ & Hnd & _). unfold list_for_each_safe.
  rewrite wp_bind, (wp_load h _ _ s (dring_first s h l Hr)). cbn [next].
  assert (∀ q s, dlist s h q → ∃ e, lh_get s (hd h q) = Some e ∧ (q ≠ [] → next e = hd h (tl q))) as Hread.
  { intros [|a q] s1 Hq; cbn [hd tl].
    - eexists. split; [by apply (dring_first s1 h [])|done].
    - destruct (dlist_next s1 h [] a q Hq) as (e & He & Hn). by exists e. }
  destruct (Hread l s Hr) as (e & He & Hn). rewrite wp_bind, (wp_load _ e _ s He).
  eapply wp_mono.
  { apply (for_each_safe_rule h clear_step (λ q x s', x ++ q = l ∧ dlist s' h q ∧
      (∀ a, a ∈ x → dlist s' a []) ∧ frame (h :: l) s s') l); [|done| | |split; [done|]|done].
    - by apply NoDup_cons_1_1.
    - intros a q x s1 (Hx & Hq & Hout & Hfr). unfold clear_step. rewrite wp_bind.
      eapply wp_mono; [by apply (list_del_init_spec s1 h [] a q)|]. intros [] s2 [[Hq2 Hf2] Ha2]. rewrite wp_ret.
      split; [by rewrite <- app_assoc|]. split; [done|]. split.
      + intros b [Hb| ->%list_elem_of_singleton]%elem_of_app; [|done].
        eapply dring_frame; [done| |by apply Hout]. intros c ->%list_elem_of_singleton. rewrite <- Hx in Hnd.
        apply NoDup_cons_1_1 in Hnd as Hh. apply NoDup_cons_1_2, list.NoDup_app in Hnd as (_ & Hd & _).
        specialize (Hd b Hb). set_solver.
      + destruct Hfr as (? & Hs & Hfr), Hf2 as (? & Hs2 & Hf2). split; [by etransitivity|].
        split; [intros b; by rewrite Hs2, Hs|]. intros b Hb. rewrite Hf2, Hfr; [done|done|]. set_solver.
    - intros q x s1 (_ & Hq & _). by apply Hread.
    - split; [done|]. split; [by intros a ?%elem_of_nil|]. split; [reflexivity|done]. }
  intros r s' (Hx & Hq & Hout & Hfr). rewrite app_nil_r in Hx. by subst.
Qed.

(** ** Sequences of operations on one list *)

Inductive dop := Add (x : Z) | AddTail (x : Z) | Del (x : Z) | DelInit (x : Z) | Move (x : Z) | MoveTail (x : Z).

Definition run_dop (h : Z) (o : dop) : M S () :=
  match o with
  | Add x => list_add x h
  | AddTail x => list_add_tail x h
  | Del x => list_del x
  | DelInit x => list_del_init x
  | Move x => list_move x h
  | MoveTail x => list_move_tail x h
  end.

Fixpoint run_dops (h : Z) (os : list dop) : M S () :=
  match os with [] => mret () | o :: os => run_dop h o;; run_dops h os end.

(** The list an operation makes of a list. *)
Definition without (x : Z) (l : list Z) : list Z := filter (λ y, y ≠ x) l.

Definition dop_list (o : dop) (l : list Z) : list Z :=
  match o with
  | Add x => x :: l
  | AddTail x => l ++ [x]
  | Del x | DelInit x => without x l
  | Move x => x :: without x l
  | MoveTail x => without x l ++ [x]
  end.

(** Entries are added when they are not on the list, and otherwise are on it. *)
Definition dop_legal (s : S) (h : Z) (l : list Z) (o : dop) : Prop :=
  match o with
  | Add x | AddTail x => x ∉ h :: l ∧ is_Some (lh_get s x)
  | Del x | DelInit x | Move x | MoveTail x => x ∈ l
  end.

Fixpoint dops_legal (s : S) (h : Z) (l : list Z) (os : list dop) : Prop :=
  match os with [] => True | o :: os => dop_legal s h l o ∧ dops_legal s h (dop_list o l) os end.

Lemma without_split x p q : NoDup (p ++ x :: q) → without x (p ++ x :: q) = p ++ q.
Proof.
  intros Hnd. apply list.NoDup_app in Hnd as (_ & Hd & Hq). apply NoDup_cons_1_1 in Hq.
  assert (∀ l : list Z, x ∉ l → without x l = l) as Hid.
  { intros l. induction l as [|y l IH]; [done|]. intros [? ?]%not_elem_of_cons. unfold without in *.
    rewrite filter_cons, decide_True by done. f_equal. by apply IH. }
  unfold without. rewrite list.filter_app, filter_cons, decide_False by (intros ?; done). fold (without x p) (without x q).
  rewrite !Hid; [done|done|]. intros Hp. apply (Hd x Hp). left.
Qed.

(** The entry an operation names. *)
Definition dop_entry (o : dop) : Z :=
  match o with Add x | AddTail x | Del x | DelInit x | Move x | MoveTail x => x end.

(** What the entries that were taken out hold: the two poison values, or links
    to themselves. *)
Definition dop_left (o : dop) (left : gmap Z list_head) : gmap Z list_head :=
  match o with
  | Add x | AddTail x => delete x left
  | Del x => <[x := LH LIST_POISON1 LIST_POISON2]> left
  | DelInit x => <[x := LH x x]> left
  | Move _ | MoveTail _ => left
  end.

Definition holds_left (h : Z) (l : list Z) (left : gmap Z list_head) (s : S) : Prop :=
  ∀ x e, left !! x = Some e → x ∉ h :: l ∧ lh_get s x = Some e.

Lemma frame_mono D D' s s' : frame D s s' → (∀ a, a ∈ D → a ∈ D') → frame D' s s'.
Proof. intros (Ho & Hs & Hf) HD. split; [done|]. split; [done|]. intros a Ha. apply Hf. auto. Qed.

Lemma frame_trans D s s1 s2 : frame D s s1 → frame D s1 s2 → frame D s s2.
Proof.
  intros (Ho & Hs & Hf) (Ho' & Hs' & Hf'). split; [by etransitivity|]. split; [intros a; by rewrite Hs', Hs|].
  intros a Ha. by rewrite Hf', Hf.
Qed.

Lemma run_dop_spec s h l o :
  dlist s h l → dop_legal s h l o →
  wp (run_dop h o) (λ _ s', becomes h (dop_list o l) (dop_entry o :: h :: l) s s' ∧
    match o with
    | Del x => lh_get s' x = Some (LH LIST_POISON1 LIST_POISON2)
    | DelInit x => lh_get s' x = Some (LH x x)
    | _ => True
    end) s.
Proof.
  intros Hr Hl.
  assert (∀ x l' D s', becomes h l' D s s' → (∀ a, a ∈ D → a ∈ x :: h :: l) → becomes h l' (x :: h :: l) s s') as Hb.
  { intros x l' D s' [? ?] ?. split; [done|]. by eapply frame_mono. }
  assert (∀ x, x ∈ l → ∃ p q, l = p ++ x :: q ∧ without x l = p ++ q) as Hsplit.
  { intros x (p & q & ->)%list_elem_of_split. exists p, q. split; [done|]. apply without_split.
    destruct Hr as (_ & Hnd & _). by apply NoDup_cons_1_2 in Hnd. }
  destruct o as [x|x|x|x|x|x]; cbn [run_dop dop_legal dop_list dop_entry] in *;
    try (destruct (Hsplit x Hl) as (p & q & -> & ->); clear Hsplit).
  - eapply wp_mono; [apply dlist_add_spec; [done|apply Hl..]|]. intros [] s' ?. done.
  - eapply wp_mono; [apply list_add_tail_spec; [done|apply Hl..]|]. intros [] s' ?. done.
  - eapply wp_mono; [by apply list_del_spec|]. intros [] s' [H ?]. split; [eapply Hb; [exact H|set_solver]|done].
  - eapply wp_mono; [by apply list_del_init_spec|]. intros [] s' [H He].
    split; [eapply Hb; [exact H|set_solver]|]. exact (dring_first s' x [] He).
  - eapply wp_mono; [by apply list_move_spec|]. intros [] s' H. split; [eapply Hb; [exact H|set_solver]|done].
  - eapply wp_mono; [by apply list_move_tail_spec|]. intros [] s' H. rewrite app_assoc in H.
    split; [eapply Hb; [exact H|set_solver]|done].
Qed.

Lemma dop_list_elem o l a : a ∈ dop_list o l → a ∈ dop_entry o :: l.
Proof.
  assert (∀ x, a ∈ without x l → a ∈ l) as Hw by (intros x; unfold without; rewrite list_elem_of_filter; tauto).
  destruct o as [x|x|x|x|x|x]; cbn; rewrite ?elem_of_app, ?elem_of_cons, ?elem_of_nil; try specialize (Hw x); tauto.
Qed.

(** What was taken out before is not touched. *)
Lemma dop_holds_left s s' h l o left :
  dlist s h l → dlist s' h (dop_list o l) → holds_left h l left s → dop_legal s h l o → frame (dop_entry o :: h :: l) s s' →
  match o with
  | Del x => lh_get s' x = Some (LH LIST_POISON1 LIST_POISON2)
  | DelInit x => lh_get s' x = Some (LH x x)
  | _ => True
  end → holds_left h (dop_list o l) (dop_left o left) s'.
Proof.
  intros Hr (_ & Hnd & _) Hleft Hl (_ & _ & Hf) Ho x e Hx. apply NoDup_cons_1_1 in Hnd.
  destruct (decide (x = dop_entry o)) as [->|Hne].
  - assert (dop_entry o ≠ h ∧ match o with Del _ | DelInit _ => True | _ => left !! dop_entry o = None end) as [Hh Hno].
    { destruct Hr as (_ & Hr & _). apply NoDup_cons_1_1 in Hr.
      assert (∀ y, y ∈ l → left !! y = None) as Hin.
      { intros y Hy. destruct (left !! y) as [e'|] eqn:E; [|done]. destruct (Hleft y e' E) as [Hn _]. set_solver. }
      destruct o; cbn in *; try (split; [set_solver|auto]). all: rewrite lookup_delete_eq in Hx; done. }
    destruct o as [y|y|y|y|y|y]; cbn in *; rewrite ?lookup_delete_eq, ?lookup_insert_eq in Hx; try congruence;
      (split; [|congruence]); rewrite not_elem_of_cons; (split; [done|]); unfold without; rewrite list_elem_of_filter; naive_solver.
  - assert (left !! x = Some e) as Hx'.
    { destruct o; cbn in *; rewrite ?lookup_delete_ne, ?lookup_insert_ne in Hx by done; done. }
    destruct (Hleft x e Hx') as [Hn He]. split.
    + apply not_elem_of_cons in Hn as [Hxh Hxl]. apply not_elem_of_cons. split; [done|]. intros Hin%dop_list_elem. set_solver.
    + rewrite Hf; [done|]. set_solver.
Qed.

Lemma dops_legal_mono s s' h l os :
  (∀ a, is_Some (lh_get s' a) ↔ is_Some (lh_get s a)) → dops_legal s h l os → dops_legal s' h l os.
Proof.
  intros Hs. revert l. induction os as [|o os IH]; intros l; [done|]. intros [Ho Hos]. split; [|by apply IH].
  destruct o; cbn in *; try done; by rewrite Hs.
Qed.

Lemma run_dops_spec s h l os left :
  dlist s h l → dops_legal s h l os → holds_left h l left s →
  wp (run_dops h os) (λ _ s', let l' := foldl (λ l o, dop_list o l) l os in
    dlist s' h l' ∧ frame (h :: l ++ (dop_entry <$> os)) s s' ∧
    holds_left h l' (foldl (λ left o, dop_left o left) left os) s') s.
Proof.
  revert s l left. induction os as [|o os IH]; intros s l left Hr Hl Hleft; cbn [run_dops foldl].
  { rewrite wp_ret. split; [done|]. split; [|done]. split; [reflexivity|done]. }
  destruct Hl as [Ho Hos]. rewrite wp_bind. eapply wp_mono; [by apply (run_dop_spec s h l)|].
  intros [] s1 ((Hr1 & Hf1) & He). pose proof Hf1 as (_ & Hs & _).
  eapply wp_mono; [apply (IH s1 (dop_list o l) (dop_left o left)); [done|by eapply dops_legal_mono|by apply (dop_holds_left s s1 h l o left)]|].
  intros [] s2 (Hr2 & Hf2 & Hl2). split; [done|]. split; [|done].
  eapply frame_trans; [eapply frame_mono; [exact Hf1|set_solver]|eapply frame_mono; [exact Hf2|]].
  intros a [->|[Ha|Ha]%elem_of_app]%elem_of_cons; [left|apply dop_list_elem in Ha; set_solver|set_solver].
Qed.
End ops.
