(* ===== verification/HList.v ===== *)
(** * The singly headed lists of chaining_hash/list.h (hlist)

    An entry's [pprev] is the address of the pointer that leads to it: the
    [first] field of the head or the [next] field of the entry before, both at
    offset 0 of their objects. *)
From S2P Require Import Prelude.

Inductive hobj :=
| HHead (first : Z)
| HNode (next pprev : Z).

Abbreviation hmem := (gmap Z hobj).
Abbreviation HM := (M hmem).

Definition LIST_POISON1 : Z := 0x00100100.
Definition LIST_POISON2 : Z := 0x00200200.

Definition load_first (h : Z) : HM Z := λ st,
  match st !! h with Some (HHead f) => Ok (f, st) | _ => Fault end.

Definition store_first (h x : Z) : HM () := λ st,
  match st !! h with Some (HHead _) => Ok ((), <[h := HHead x]> st) | _ => Fault end.

Definition load_hnode (a : Z) : HM (Z * Z) := λ st,
  match st !! a with Some (HNode n p) => Ok (n, p, st) | _ => Fault end.

Definition set_hnext (a x : Z) : HM () := λ st,
  match st !! a with Some (HNode _ p) => Ok ((), <[a := HNode x p]> st) | _ => Fault end.

Definition set_pprev (a x : Z) : HM () := λ st,
  match st !! a with Some (HNode n _) => Ok ((), <[a := HNode n x]> st) | _ => Fault end.

(** [*pprev = x] *)
Definition store_cell (p x : Z) : HM () := λ st,
  match st !! p with
  | Some (HHead _) => store_first p x st
  | Some (HNode _ _) => set_hnext p x st
  | None => Fault
  end.

(** ** Operations *)

Definition INIT_HLIST_HEAD (h : Z) : HM () := store_first h 0.
Definition INIT_HLIST_NODE (a : Z) : HM () := set_hnext a 0;; set_pprev a 0.

Definition hlist_unhashed (a : Z) : HM bool := '(_, p) ← load_hnode a; mret (negb (truthy p)).
Definition hlist_empty (h : Z) : HM bool := f ← load_first h; mret (negb (truthy f)).

Definition __hlist_del (n : Z) : HM () :=
  '(next, pprev) ← load_hnode n;
  store_cell pprev next;;
  if truthy next then set_pprev next pprev else mret ().

Definition hlist_del (n : Z) : HM () :=
  __hlist_del n;;
  set_hnext n LIST_POISON1;;
  set_pprev n LIST_POISON2.

Definition hlist_del_init (n : Z) : HM () :=
  '(_, pprev) ← load_hnode n;
  if truthy pprev then __hlist_del n;; INIT_HLIST_NODE n else mret ().

Definition hlist_add_head (n h : Z) : HM () :=
  first ← load_first h;
  set_hnext n first;;
  (if truthy first then set_pprev first n else mret ());;
  store_first h n;;
  set_pprev n h.

Definition hlist_add_before (n next : Z) : HM () :=
  '(_, p) ← load_hnode next;
  set_pprev n p;;
  set_hnext n next;;
  set_pprev next n;;
  '(_, p) ← load_hnode n;
  store_cell p n.

(** [next] goes after [n]. *)
Definition hlist_add_after (n next : Z) : HM () :=
  '(nn, _) ← load_hnode n;
  set_hnext next nn;;
  set_hnext n next;;
  set_pprev next n;;
  '(nn, _) ← load_hnode next;
  if truthy nn then set_pprev nn next else mret ().

(** [for (pos = head->first; pos; pos = pos->next)] *)
Fixpoint hlist_for_each_from {A} (fuel : nat) (pos : Z) (x : A) (body : Z → A → HM A) : HM A :=
  match fuel with
  | O => nofuel
  | S fuel =>
      if truthy pos then
        x ← body pos x;
        '(n, _) ← load_hnode pos;
        hlist_for_each_from fuel n x body
      else mret x
  end.

Definition hlist_for_each {A} (fuel : nat) (h : Z) (x : A) (body : Z → A → HM A) : HM A :=
  f ← load_first h; hlist_for_each_from fuel f x body.

(** ** What is a list *)

(** Entries from one reached through the pointer at [p] to one that leads to [e]. *)
Fixpoint hseg (st : hmem) (p : Z) (l : list Z) (e : Z) : Prop :=
  match l with
  | [] => True
  | a :: l => st !! a = Some (HNode (hd e l) p) ∧ hseg st a l e
  end.

(** The head and the first entries, up to a pointer to [e]. *)
Definition hpre (st : hmem) (h : Z) (l : list Z) (e : Z) : Prop :=
  st !! h = Some (HHead (hd e l)) ∧ hseg st h l e.

Definition hlist (st : hmem) (h : Z) (l : list Z) : Prop :=
  hpre st h l 0 ∧ NoDup (h :: l) ∧ 0 ∉ l.

Lemma hseg_app st p l1 l2 e :
  hseg st p (l1 ++ l2) e ↔ hseg st p l1 (hd e l2) ∧ hseg st (List.last l1 p) l2 e.
Proof.
  revert p. induction l1 as [|a l1 IH]; intros p; cbn [app hseg]; [cbn; tauto|]. rewrite IH.
  replace (hd e (l1 ++ l2)) with (hd (hd e l2) l1) by (by destruct l1).
  replace (List.last (a :: l1) p) with (List.last l1 a); [tauto|]. destruct l1 as [|b l1]; [done|].
  destruct (List.exists_last (l := b :: l1)) as (l' & z & Hz); [done|].
  change (List.last (a :: b :: l1) p) with (List.last (b :: l1) p). by rewrite Hz, !List.last_last.
Qed.

Lemma hseg_frame st st' p l e : (∀ a, a ∈ l → st' !! a = st !! a) → hseg st p l e → hseg st' p l e.
Proof.
  revert p. induction l as [|a l IH]; intros p Hf; [done|]. intros [Ha Hl]. split.
  - rewrite Hf; [done|]. left.
  - apply IH; [|done]. intros b Hb. apply Hf. by right.
Qed.

Lemma hpre_app st h l1 l2 e :
  hpre st h (l1 ++ l2) e ↔ hpre st h l1 (hd e l2) ∧ hseg st (List.last l1 h) l2 e.
Proof.
  unfold hpre. rewrite hseg_app. replace (hd e (l1 ++ l2)) with (hd (hd e l2) l1) by (by destruct l1). tauto.
Qed.

Lemma hpre_frame st st' h l e : (∀ a, a ∈ h :: l → st' !! a = st !! a) → hpre st h l e → hpre st' h l e.
Proof.
  intros Hf [Hh Hl]. split; [rewrite Hf; [done|left]|]. eapply hseg_frame; [|done].
  intros a Ha. apply Hf. by right.
Qed.

(** ** Memory access *)

Lemma wp_load_first h f (Q : Z → hmem → Prop) st : st !! h = Some (HHead f) → wp (load_first h) Q st ↔ Q f st.
Proof. unfold wp, load_first. by intros ->. Qed.
Lemma wp_store_first h f x (Q : () → hmem → Prop) st :
  st !! h = Some (HHead f) → wp (store_first h x) Q st ↔ Q () (<[h := HHead x]> st).
Proof. unfold wp, store_first. by intros ->. Qed.
Lemma wp_hnode a n p (Q : Z * Z → hmem → Prop) st :
  st !! a = Some (HNode n p) → wp (load_hnode a) Q st ↔ Q (n, p) st.
Proof. unfold wp, load_hnode. by intros ->. Qed.
Lemma wp_set_hnext a n p x (Q : () → hmem → Prop) st :
  st !! a = Some (HNode n p) → wp (set_hnext a x) Q st ↔ Q () (<[a := HNode x p]> st).
Proof. unfold wp, set_hnext. by intros ->. Qed.
Lemma wp_set_pprev a n p x (Q : () → hmem → Prop) st :
  st !! a = Some (HNode n p) → wp (set_pprev a x) Q st ↔ Q () (<[a := HNode n x]> st).
Proof. unfold wp, set_pprev. by intros ->. Qed.

(** Only the objects [D] differ, and none comes or goes. *)
Definition hframe (D : list Z) (st st' : hmem) : Prop :=
  (∀ a, is_Some (st' !! a) ↔ is_Some (st !! a)) ∧ ∀ a, a ∉ D → st' !! a = st !! a.

Lemma hframe_insert D st a o x : st !! a = Some o → a ∈ D → hframe D st (<[a := x]> st).
Proof.
  intros Ha HD. split; intros b.
  - destruct (decide (a = b)) as [->|]; [rewrite lookup_insert_eq, Ha; naive_solver|by rewrite lookup_insert_ne].
  - intros Hb. rewrite lookup_insert_ne; [done|]. by intros ->.
Qed.

#[export] Instance hframe_preorder D : PreOrder (hframe D).
Proof.
  split; [done|]. intros st1 st2 st3 [H1 F1] [H2 F2]. split; intros a; [by rewrite H2, H1|]. intros Ha. by rewrite F2, F1.
Qed.

Lemma hframe_mono D D' st st' : (∀ a, a ∈ D → a ∈ D') → hframe D st st' → hframe D' st st'.
Proof. intros HD [H F]. split; [done|]. intros a Ha. apply F. auto. Qed.

(** The pointer that leads out of the first entries can be redirected. *)
Lemma store_cell_spec st h l e x :
  hpre st h l e → NoDup (h :: l) →
  wp (store_cell (List.last l h) x) (λ _ st', hpre st' h l x ∧ hframe [List.last l h] st st') st.
Proof.
  intros Hp Hnd. destruct (decide (l = [])) as [->|Hl].
  - destruct Hp as [Hh _]. cbn in *. unfold wp, store_cell. rewrite Hh. unfold store_first. rewrite Hh. split.
    + split; [|done]. by rewrite lookup_insert_eq.
    + eapply hframe_insert; [done|left].
  - destruct (List.exists_last Hl) as (l' & z & ->). rewrite List.last_last.
    apply hpre_app in Hp as [Hp [Hz _]]. cbn [hd] in Hz. unfold wp, store_cell. rewrite Hz. unfold set_hnext. rewrite Hz. split.
    + assert (z ∉ h :: l') as Hnz.
      { assert ((h :: l' ++ [z]) ≡ₚ z :: h :: l') as Hp' by solve_Permutation. rewrite Hp' in Hnd.
        by apply NoDup_cons_1_1. }
      apply hpre_app. split; [|split; [by rewrite lookup_insert_eq|done]].
      eapply hpre_frame; [|done]. intros a Ha. rewrite lookup_insert_ne; [done|]. by intros ->.
    + eapply hframe_insert; [done|left].
Qed.

(** So can the way back of the entry after. *)
Lemma repoint_spec st p l p' :
  hseg st p l 0 → 0 ∉ l → NoDup l →
  wp (if truthy (hd 0 l) then set_pprev (hd 0 l) p' else mret ())
    (λ _ st', hseg st' p' l 0 ∧ hframe l st st') st.
Proof.
  intros Hs H0 Hnd. destruct l as [|a l]; cbn [hd].
  - rewrite truthy_0, wp_ret. done.
  - destruct Hs as [Ha Hl]. rewrite truthy_nz by set_solver. rewrite (wp_set_pprev a _ _ _ _ _ Ha). split.
    + split; [by rewrite lookup_insert_eq|]. eapply hseg_frame; [|done]. intros b Hb.
      rewrite lookup_insert_ne; [done|]. intros ->. by apply NoDup_cons_1_1 in Hnd.
    + eapply hframe_insert; [done|left].
Qed.

(** ** The operations *)

Definition is_node (st : hmem) (a : Z) : Prop := ∃ n p, st !! a = Some (HNode n p).

(** [n] can be put on the list. *)
Definition fresh (st : hmem) (h : Z) (l : list Z) (n : Z) : Prop := is_node st n ∧ n ∉ h :: l ∧ n ≠ 0.

Definition hbecomes (h : Z) (l' D : list Z) (st st' : hmem) : Prop := hlist st' h l' ∧ hframe D st st'.

Lemma hlist_split st h p x q :
  hlist st h (p ++ x :: q) →
  hpre st h p x ∧ st !! x = Some (HNode (hd 0 q) (List.last p h)) ∧ hseg st x q 0 ∧
  NoDup (h :: p) ∧ x ∉ h :: p ++ q ∧ NoDup (h :: p ++ q) ∧ 0 ∉ p ++ q ∧ x ≠ 0 ∧ NoDup q ∧ (∀ a, a ∈ q → a ∉ h :: p).
Proof.
  intros (Hp & Hnd & H0). apply hpre_app in Hp as [Hp [Hx Hq]].
  assert ((h :: p ++ x :: q) ≡ₚ x :: h :: p ++ q) as Hperm by solve_Permutation. rewrite Hperm in Hnd.
  apply NoDup_cons_1_1 in Hnd as Hnx. apply NoDup_cons_1_2 in Hnd.
  assert (NoDup ((h :: p) ++ q)) as Hnd' by done. apply list.NoDup_app in Hnd' as (Hndp & Hdis & Hndq).
  repeat (split; [done|]). split; [set_solver|]. split; [set_solver|]. split; [done|].
  intros a Ha Hap. by apply (Hdis a).
Qed.

Lemma last_in (p : list Z) h : List.last p h ∈ h :: p.
Proof.
  destruct (decide (p = [])) as [->|Hp]; [left|]. destruct (List.exists_last Hp) as (p' & z & ->).
  rewrite List.last_last. set_solver.
Qed.

(** What is left of a list when an entry is taken out. *)
Lemma __hlist_del_spec st h p x q :
  hlist st h (p ++ x :: q) →
  wp (__hlist_del x) (λ _ st', hbecomes h (p ++ q) (h :: p ++ q) st st') st.
Proof.
  intros Hl. destruct (hlist_split st h p x q Hl) as (Hp & Hx & Hq & Hndp & Hnx & Hnd & H0 & _ & Hndq & Hdis).
  unfold __hlist_del. rewrite wp_bind, (wp_hnode x _ _ _ _ Hx), wp_bind.
  eapply wp_mono; [by apply (store_cell_spec st h p x)|]. intros [] st1 [Hp1 Hf1].
  pose proof (last_in p h) as Hlast. pose proof Hf1 as [_ Hs1].
  assert (hseg st1 x q 0) as Hq1.
  { eapply hseg_frame; [|done]. intros a Ha. apply Hs1. intros ->%list_elem_of_singleton. by apply (Hdis _ Ha). }
  eapply wp_mono; [apply (repoint_spec st1 x q); [done|set_solver|done]|]. intros [] st2 [Hq2 Hf2].
  pose proof Hf2 as [_ Hs2]. split; [split; [|done]|].
  - apply hpre_app. split; [|done]. eapply hpre_frame; [|done]. intros a Ha. apply Hs2. intros Haq. by apply (Hdis a).
  - transitivity st1; [eapply hframe_mono; [|done]|eapply hframe_mono; [|done]]; set_solver.
Qed.

(** Writes to an object that is not on the list. *)
Lemma hlist_off st st' h l x o :
  hlist st h l → x ∉ h :: l → st' = <[x := o]> st → hlist st' h l.
Proof.
  intros (Hp & Hnd & H0) Hx ->. split; [|done]. eapply hpre_frame; [|done].
  intros a Ha. rewrite lookup_insert_ne; [done|]. by intros ->.
Qed.

Lemma hlist_del_spec st h p x q :
  hlist st h (p ++ x :: q) →
  wp (hlist_del x) (λ _ st', hbecomes h (p ++ q) (h :: p ++ x :: q) st st' ∧
    st' !! x = Some (HNode LIST_POISON1 LIST_POISON2)) st.
Proof.
  intros Hl. destruct (hlist_split st h p x q Hl) as (_ & Hx & _ & _ & Hnx & _).
  unfold hlist_del. rewrite wp_bind. eapply wp_mono; [by apply (__hlist_del_spec st h p x q)|].
  intros [] st1 [Hl1 Hf1]. assert (st1 !! x = st !! x) as Hx1 by (by apply Hf1). rewrite Hx in Hx1.
  rewrite wp_bind, (wp_set_hnext x _ _ _ _ _ Hx1). erewrite wp_set_pprev by (by rewrite lookup_insert_eq).
  split; [split|by rewrite lookup_insert_eq].
  - eapply hlist_off; [by eapply hlist_off|done|done].
  - transitivity st1; [eapply hframe_mono; [|done]; set_solver|]. rewrite insert_insert_eq.
    eapply hframe_insert; [done|set_solver].
Qed.

Lemma hlist_del_init_spec st h p x q :
  hlist st h (p ++ x :: q) → h ≠ 0 →
  wp (hlist_del_init x) (λ _ st', hbecomes h (p ++ q) (h :: p ++ x :: q) st st' ∧
    st' !! x = Some (HNode 0 0)) st.
Proof.
  intros Hl Hh. destruct (hlist_split st h p x q Hl) as (_ & Hx & _ & _ & Hnx & _ & H0 & _).
  unfold hlist_del_init. rewrite wp_bind, (wp_hnode x _ _ _ _ Hx).
  rewrite truthy_nz. 2:{ pose proof (last_in p h) as Hlast. intros He. rewrite He in Hlast. set_solver. }
  rewrite wp_bind. eapply wp_mono; [by apply (__hlist_del_spec st h p x q)|].
  intros [] st1 [Hl1 Hf1]. assert (st1 !! x = st !! x) as Hx1 by (by apply Hf1). rewrite Hx in Hx1.
  unfold INIT_HLIST_NODE.
  rewrite wp_bind, (wp_set_hnext x _ _ _ _ _ Hx1). erewrite wp_set_pprev by (by rewrite lookup_insert_eq).
  split; [split|by rewrite lookup_insert_eq].
  - eapply hlist_off; [by eapply hlist_off|done|done].
  - transitivity st1; [eapply hframe_mono; [|done]; set_solver|]. rewrite insert_insert_eq.
    eapply hframe_insert; [done|set_solver].
Qed.

Lemma hlist_add_head_spec st h l n :
  hlist st h l → fresh st h l n →
  wp (hlist_add_head n h) (λ _ st', hbecomes h (n :: l) (n :: h :: l) st st') st.
Proof.
  intros ([Hh Hl] & Hnd & H0) ((nn & np & Hn) & Hfr & Hn0). apply not_elem_of_cons in Hfr as [Hnh Hnl].
  apply NoDup_cons_1_1 in Hnd as Hhl. apply NoDup_cons_1_2 in Hnd as Hndl.
  unfold hlist_add_head. rewrite wp_bind, (wp_load_first h _ _ _ Hh), wp_bind, (wp_set_hnext n _ _ _ _ _ Hn).
  set (st1 := <[n := _]> st).
  assert (hseg st1 h l 0) as Hl1.
  { eapply hseg_frame; [|done]. intros a Ha. subst st1. rewrite lookup_insert_ne; [done|]. by intros ->. }
  rewrite wp_bind. eapply wp_mono; [by apply (repoint_spec st1 h l)|]. intros [] st2 [Hl2 [Hd2 Hf2]].
  assert (st2 !! h = Some (HHead (hd 0 l))) as Hh2.
  { rewrite Hf2 by done. subst st1. by rewrite lookup_insert_ne. }
  assert (st2 !! n = Some (HNode (hd 0 l) np)) as Hn2.
  { rewrite Hf2 by done. subst st1. by rewrite lookup_insert_eq. }
  rewrite wp_bind, (wp_store_first h _ _ _ _ Hh2).
  erewrite wp_set_pprev by (rewrite lookup_insert_ne by congruence; exact Hn2).
  split; [split; [split|split]|].
  - by rewrite lookup_insert_ne, lookup_insert_eq.
  - split; [by rewrite lookup_insert_eq|]. eapply hseg_frame; [|done]. intros a Ha.
    rewrite !lookup_insert_ne; [done|congruence|congruence].
  - assert ((h :: n :: l) ≡ₚ n :: h :: l) as -> by solve_Permutation. constructor; [set_solver|done].
  - set_solver.
  - transitivity st1; [eapply hframe_insert; [done|left]|].
    transitivity st2; [eapply hframe_mono; [|by split]; set_solver|].
    transitivity (<[h := HHead n]> st2); [eapply hframe_insert; [done|set_solver]|].
    eapply hframe_insert; [by rewrite lookup_insert_ne|set_solver].
Qed.

Lemma hlist_add_before_spec st h p y q n :
  hlist st h (p ++ y :: q) → fresh st h (p ++ y :: q) n →
  wp (hlist_add_before n y) (λ _ st', hbecomes h (p ++ n :: y :: q) (n :: h :: p ++ y :: q) st st') st.
Proof.
  intros Hl ((nn & np & Hn) & Hfr & Hn0).
  destruct (hlist_split st h p y q Hl) as (Hp & Hy & Hq & Hndp & Hny & Hnd & H0 & Hy0 & Hndq & Hdis).
  assert (n ≠ y ∧ n ∉ h :: p ∧ n ∉ q) as (Hne & Hnp & Hnq) by set_solver.
  pose proof (last_in p h) as Hlast.
  unfold hlist_add_before. rewrite wp_bind, (wp_hnode y _ _ _ _ Hy), wp_bind, (wp_set_pprev n _ _ _ _ _ Hn).
  rewrite wp_bind. erewrite wp_set_hnext by (by rewrite lookup_insert_eq). rewrite insert_insert_eq.
  rewrite wp_bind. erewrite wp_set_pprev by (rewrite lookup_insert_ne by done; exact Hy).
  rewrite wp_bind. erewrite wp_hnode by (rewrite lookup_insert_ne by congruence; by rewrite lookup_insert_eq).
  set (st1 := <[y := _]> _).
  assert (∀ a, a ≠ n → a ≠ y → st1 !! a = st !! a) as Hs1. { intros a ??. subst st1. by rewrite !lookup_insert_ne. }
  assert (hpre st1 h p y) as Hp1.
  { eapply hpre_frame; [|done]. intros a Ha. apply Hs1; [congruence|]. intros ->. set_solver. }
  eapply wp_mono; [by apply (store_cell_spec st1 h p y)|]. intros [] st2 [Hp2 [Hd2 Hf2]].
  assert (∀ a, a ∉ h :: p → st2 !! a = st1 !! a) as Hs2.
  { intros a Ha. apply Hf2. intros ->%list_elem_of_singleton. done. }
  split; [split; [|split]|].
  - apply hpre_app. split; [done|]. split; [|split].
    + rewrite Hs2 by done. subst st1. by rewrite lookup_insert_ne, lookup_insert_eq.
    + rewrite Hs2 by set_solver. subst st1. by rewrite lookup_insert_eq.
    + eapply hseg_frame; [|done]. intros a Ha. rewrite Hs2 by (by apply Hdis). apply Hs1; [congruence|set_solver].
  - assert ((h :: p ++ n :: y :: q) ≡ₚ n :: y :: h :: p ++ q) as -> by solve_Permutation.
    constructor; [set_solver|]. by constructor.
  - set_solver.
  - transitivity (<[n := HNode y (List.last p h)]> st); [eapply hframe_insert; [done|left]|].
    transitivity st1; [eapply hframe_insert; [by rewrite lookup_insert_ne|set_solver]|].
    eapply hframe_mono; [|by split]. set_solver.
Qed.

Lemma hlist_add_after_spec st h p y q n :
  hlist st h (p ++ y :: q) → fresh st h (p ++ y :: q) n →
  wp (hlist_add_after y n) (λ _ st', hbecomes h (p ++ y :: n :: q) (n :: h :: p ++ y :: q) st st') st.
Proof.
  intros Hl ((nn & np & Hn) & Hfr & Hn0).
  destruct (hlist_split st h p y q Hl) as (Hp & Hy & Hq & Hndp & Hny & Hnd & H0 & Hy0 & Hndq & Hdis).
  assert (n ≠ y ∧ n ∉ h :: p ∧ n ∉ q) as (Hne & Hnp & Hnq) by set_solver.
  assert (y ∉ q ∧ y ∉ h :: p) as [Hyq Hyp] by set_solver.
  unfold hlist_add_after. rewrite wp_bind, (wp_hnode y _ _ _ _ Hy), wp_bind, (wp_set_hnext n _ _ _ _ _ Hn).
  rewrite wp_bind. erewrite wp_set_hnext by (rewrite lookup_insert_ne by done; exact Hy).
  rewrite wp_bind. erewrite wp_set_pprev by (rewrite lookup_insert_ne by congruence; by rewrite lookup_insert_eq).
  rewrite wp_bind. erewrite wp_hnode by (by rewrite lookup_insert_eq).
  set (st1 := <[n := HNode _ y]> _).
  assert (∀ a, a ≠ n → a ≠ y → st1 !! a = st !! a) as Hs1. { intros a ??. subst st1. by rewrite !lookup_insert_ne. }
  assert (st1 !! n = Some (HNode (hd 0 q) y)) as Hn1 by (subst st1; by rewrite lookup_insert_eq).
  assert (st1 !! y = Some (HNode n (List.last p h))) as Hy1.
  { subst st1. by rewrite lookup_insert_ne, lookup_insert_eq. }
  assert (hseg st1 y q 0) as Hq1.
  { eapply hseg_frame; [|done]. intros a Ha. apply Hs1; congruence. }
  eapply wp_mono; [apply (repoint_spec st1 y q n); [done|set_solver|done]|]. intros [] st2 [Hq2 [Hd2 Hf2]].
  split; [split; [|split]|].
  - apply hpre_app. split; [|split; [|split]].
    + eapply hpre_frame; [|done]. intros a Ha.
      rewrite Hf2; [apply Hs1; congruence|]. intros Haq. by apply (Hdis a).
    + by rewrite Hf2.
    + by rewrite Hf2.
    + done.
  - assert ((h :: p ++ y :: n :: q) ≡ₚ n :: y :: h :: p ++ q) as -> by solve_Permutation.
    constructor; [set_solver|]. by constructor.
  - set_solver.
  - assert (hframe (n :: h :: p ++ y :: q) st st1) as Hf1.
    { transitivity (<[n := HNode (hd 0 q) np]> st); [eapply hframe_insert; [done|left]|].
      transitivity (<[y := HNode n (List.last p h)]> (<[n := HNode (hd 0 q) np]> st)).
      - eapply hframe_insert; [by rewrite lookup_insert_ne|set_solver].
      - eapply hframe_insert; [rewrite lookup_insert_ne by congruence; by rewrite lookup_insert_eq|left]. }
    transitivity st1; [exact Hf1|]. eapply hframe_mono; [|by split]. set_solver.
Qed.

(** ** The loop *)

Lemma hlist_visit st h l fuel :
  hlist st h l → (length l < fuel)%nat →
  wp (hlist_for_each fuel h [] (λ a r, mret (r ++ [a]))) (λ r st', r = l ∧ st' = st) st.
Proof.
  intros ([Hh Hl] & _ & H0) Hf. unfold hlist_for_each. rewrite wp_bind, (wp_load_first h _ _ _ Hh).
  assert (∀ p r, hseg st p l 0 →
    wp (hlist_for_each_from fuel (hd 0 l) r (λ a r, mret (r ++ [a]))) (λ r' st', r' = r ++ l ∧ st' = st) st) as Hw.
  2:{ eapply wp_mono; [by eapply Hw|]. done. }
  clear Hh Hl. revert fuel Hf. induction l as [|a l IH]; intros fuel Hf p r Hl;
    (destruct fuel as [|fuel]; [cbn in Hf; lia|]); cbn [hlist_for_each_from hd length] in *.
  - rewrite truthy_0, wp_ret. by rewrite app_nil_r.
  - destruct Hl as [Ha Hl]. rewrite truthy_nz by set_solver. rewrite wp_bind, wp_ret, wp_bind, (wp_hnode a _ _ _ _ Ha).
    eapply wp_mono; [eapply (IH ltac:(set_solver) fuel ltac:(lia) a); done|].
    intros r' st' [-> ->]. by rewrite <- app_assoc.
Qed.

(** ** Sequences of operations *)

Inductive lop := PushHead (n : Z) | Before (n y : Z) | After (y n : Z) | Drop_ (x : Z) | DropInit (x : Z).

Definition run_lop (h : Z) (o : lop) : HM () :=
  match o with
  | PushHead n => hlist_add_head n h
  | Before n y => hlist_add_before n y
  | After y n => hlist_add_after y n
  | Drop_ x => hlist_del x
  | DropInit x => hlist_del_init x
  end.

Fixpoint run_lops (h : Z) (os : list lop) : HM () :=
  match os with [] => mret () | o :: os => run_lop h o;; run_lops h os end.

(** The effect on the list: it is cut at the entry the operation names. *)
Inductive lop_step : list Z → lop → list Z → Prop :=
| step_push l n : lop_step l (PushHead n) (n :: l)
| step_before p y q n : lop_step (p ++ y :: q) (Before n y) (p ++ n :: y :: q)
| step_after p y q n : lop_step (p ++ y :: q) (After y n) (p ++ y :: n :: q)
| step_drop p x q : lop_step (p ++ x :: q) (Drop_ x) (p ++ q)
| step_drop_init p x q : lop_step (p ++ x :: q) (DropInit x) (p ++ q).

(** New entries are unlinked nodes not on the list. *)
Definition lop_new (o : lop) : list Z :=
  match o with PushHead n | Before n _ | After _ n => [n] | _ => [] end.

Inductive lops_steps (st : hmem) (h : Z) : list Z → list lop → list Z → Prop :=
| lss_nil l : lops_steps st h l [] l
| lss_cons l o l1 os l2 :
    lop_step l o l1 → (∀ n, n ∈ lop_new o → fresh st h l n) → lops_steps st h l1 os l2 →
    lops_steps st h l (o :: os) l2.

Definition kinds (st st' : hmem) : Prop := ∀ a, is_node st a → is_node st' a.

Lemma run_lop_spec st h l o l' :
  hlist st h l → h ≠ 0 → lop_step l o l' → (∀ n, n ∈ lop_new o → fresh st h l n) →
  wp (run_lop h o) (λ _ st', ∃ D, hbecomes h l' D st st') st.
Proof.
  intros Hl Hh Hs Hn. destruct Hs; cbn [run_lop lop_new] in *.
  - eapply wp_mono; [apply hlist_add_head_spec; [done|apply Hn; left]|]. intros [] st' Hb. by eexists.
  - eapply wp_mono; [apply hlist_add_before_spec; [done|apply Hn; left]|]. intros [] st' Hb. by eexists.
  - eapply wp_mono; [apply hlist_add_after_spec; [done|apply Hn; left]|]. intros [] st' Hb. by eexists.
  - eapply wp_mono; [by apply hlist_del_spec|]. intros [] st' [Hb _]. by eexists.
  - eapply wp_mono; [by apply hlist_del_init_spec|]. intros [] st' [Hb _]. by eexists.
Qed.

(** No operation turns a node into a head. *)
Class Kind {A} (m : HM A) : Prop := kind st x st' : m st = Ok (x, st') → kinds st st'.

Lemma kinds_insert st b n p x y :
  st !! b = Some (HNode n p) → kinds st (<[b := HNode x y]> st).
Proof.
  intros Hb a (n' & p' & Ha). unfold is_node. destruct (decide (a = b)) as [->|].
  - rewrite lookup_insert_eq. eauto.
  - rewrite lookup_insert_ne by done. eauto.
Qed.

#[export] Instance kind_ret {A} (x : A) : Kind (mret x).
Proof. by intros st y st' [= _ ->] a. Qed.
#[export] Instance kind_bind {A B} (m : HM A) (k : A → HM B) : Kind m → (∀ x, Kind (k x)) → Kind (m ≫= k).
Proof.
  intros Hm Hk st y st'. unfold mbind, M_bind. destruct (m st) as [[x st1]| |] eqn:E; [|done..].
  intros Hr a Ha. eapply Hk; [exact Hr|]. by eapply Hm.
Qed.
#[export] Instance kind_load_first h : Kind (load_first h).
Proof. intros st x st'. unfold load_first. repeat case_match; by intros [= _ ->] a. Qed.
#[export] Instance kind_load_hnode h : Kind (load_hnode h).
Proof. intros st x st'. unfold load_hnode. repeat case_match; by intros [= _ ->] a. Qed.
#[export] Instance kind_set_hnext a x : Kind (set_hnext a x).
Proof. intros st y st'. unfold set_hnext. repeat case_match; try done. intros [= _ <-]. by eapply kinds_insert. Qed.
#[export] Instance kind_set_pprev a x : Kind (set_pprev a x).
Proof. intros st y st'. unfold set_pprev. repeat case_match; try done. intros [= _ <-]. by eapply kinds_insert. Qed.
#[export] Instance kind_store_first a x : Kind (store_first a x).
Proof.
  intros st y st'. unfold store_first. repeat case_match; try done. intros [= _ <-] b (n & p & Hb).
  exists n, p. rewrite lookup_insert_ne; [done|congruence].
Qed.
#[export] Instance kind_store_cell a x : Kind (store_cell a x).
Proof.
  intros st y st'. unfold store_cell. repeat case_match; try done; [apply kind_store_first|apply kind_set_hnext].
Qed.

#[local] Ltac kinds := repeat (case_match || apply _ || (apply kind_bind; [|intros])).

#[export] Instance kind_lop h o : Kind (run_lop h o).
Proof.
  destruct o; cbn [run_lop]; unfold hlist_add_head, hlist_add_before, hlist_add_after, hlist_del, hlist_del_init,
    __hlist_del, INIT_HLIST_NODE; kinds.
Qed.

Lemma wp_kind {A} (m : HM A) `{!Kind m} Q st : wp m Q st → wp m (λ x st', Q x st' ∧ kinds st st') st.
Proof. unfold wp. destruct (m st) as [[x st']| |] eqn:E; [|done..]. intros. split; [done|by eapply kind]. Qed.

Lemma lops_steps_mono st st' h l os l' : kinds st st' → lops_steps st h l os l' → lops_steps st' h l os l'.
Proof.
  intros Hk. induction 1 as [|l o l1 os l2 Hs Hn _ IH]; [constructor|]. econstructor; [done| |done].
  intros n [? ?]%Hn. split; [by apply Hk|done].
Qed.

Lemma run_lops_spec st h l os l' :
  hlist st h l → h ≠ 0 → lops_steps st h l os l' →
  wp (run_lops h os) (λ _ st', hlist st' h l') st.
Proof.
  intros Hl Hh Hs. revert st Hl Hs. revert l. induction os as [|o os IH]; intros l st Hl Hs; inversion Hs; subst;
    cbn [run_lops]; [by rewrite wp_ret|].
  rewrite wp_bind. eapply wp_mono; [apply wp_kind; [apply _|by eapply run_lop_spec]|].
  intros [] st1 [(D & Hl1 & _) Hk]. eapply IH; [done|]. by eapply lops_steps_mono.
Qed.
