(* ===== verification/ChainDefs.v ===== *)
(** * The chaining hash table of chaining_hash/hash.c: data and operations

    A bucket points to a head object, which points to the first node of a ring
    of nodes linked by the list heads at offset 8. *)
From S2P Require Import Prelude DList.

Record cnode := CN { item : Z; link : list_head }.

Record chash := CH { size : Z; slots : Z }.

Inductive cobj :=
| CNode (n : cnode)
| CHead (node : Z)
| CHash (h : chash)
| CSlots (l : list Z).

Record cstate := CState { cmem : gmap Z cobj; cticks : nat; cverbose : Z }.

#[export] Program Instance cstate_verbose : Verbose cstate := {|
  verbose := cverbose;
  set_verbose v st := CState (cmem st) (cticks st) v
|}.
Solve Obligations with done.
Next Obligation. by destruct s. Qed.

Abbreviation CM := (M cstate).

Definition set_cmem (m : gmap Z cobj) (st : cstate) : cstate := CState m (cticks st) (cverbose st).

(** [&node->list] and [list_entry(p, struct hash_node, list)] *)
Definition list_of (a : Z) : Z := a + 8.
Definition list_entry (p : Z) : Z := p - 8.

(** The same object but for the links of a node. *)
Definition cobj_match (o o' : cobj) : Prop :=
  match o, o' with
  | CNode n, CNode n' => item n' = item n
  | CHead a, CHead a' => a' = a
  | CHash h, CHash h' => h' = h
  | CSlots l, CSlots l' => l' = l
  | _, _ => False
  end.

Definition links_only (s s' : cstate) : Prop :=
  cticks s' = cticks s ∧ cverbose s' = cverbose s ∧
  ∀ a, match (cmem s !! a : option cobj), (cmem s' !! a : option cobj) with
       | Some o, Some o' => cobj_match o o'
       | None, None => True
       | _, _ => False
       end.

Definition get_link (s : cstate) (p : Z) : option list_head :=
  match cmem s !! list_entry p with Some (CNode n) => Some (link n) | _ => None end.

Definition set_link (s : cstate) (p : Z) (x : list_head) : cstate :=
  match cmem s !! list_entry p with
  | Some (CNode n) => set_cmem (<[list_entry p := CNode (CN (item n) x)]> (cmem s)) s
  | _ => s
  end.

(** The list heads of the nodes, for the operations of list.h. *)
#[export] Program Instance chash_listmem : ListMem cstate := {|
  lh_get := get_link; lh_set := set_link; others := links_only
|}.
Next Obligation.
  intros s a x y b. unfold get_link, set_link. destruct (cmem s !! list_entry a) as [[n| | |]|] eqn:Ha; try done. intros _. cbn.
  case_decide as Hb; [subst; by rewrite lookup_insert_eq|].
  rewrite lookup_insert_ne; [done|]. unfold list_entry. lia.
Qed.
Next Obligation.
  intros s a x y. unfold get_link, set_link. destruct (cmem s !! list_entry a) as [[n| | |]|] eqn:Ha; try done. intros _.
  split; [done|]. split; [done|]. intros b. cbn. destruct (decide (list_entry a = b)) as [<-|].
  - by rewrite lookup_insert_eq, Ha.
  - rewrite lookup_insert_ne by done. by destruct (cmem s !! b) as [[]|].
Qed.
Next Obligation.
  split.
  - intros s. split; [done|]. split; [done|]. intros a. by destruct (cmem s !! a) as [[]|].
  - intros s1 s2 s3 (T1 & V1 & H1) (T2 & V2 & H2). split; [congruence|]. split; [congruence|]. intros a. specialize (H1 a). specialize (H2 a).
    destruct (cmem s1 !! a) as [[]|], (cmem s2 !! a) as [[]|], (cmem s3 !! a) as [[]|]; cbn in *; congruence || done.
Qed.

(** ** Memory access *)

Definition load_node (a : Z) : CM cnode := λ st,
  match cmem st !! a with Some (CNode n) => Ok (n, st) | _ => Fault end.

Definition set_item (a x : Z) : CM () := λ st,
  match cmem st !! a with
  | Some (CNode n) => Ok ((), set_cmem (<[a := CNode (CN x (link n))]> (cmem st)) st)
  | _ => Fault
  end.

(** [head->node] *)
Definition load_head (a : Z) : CM Z := λ st,
  match cmem st !! a with Some (CHead n) => Ok (n, st) | _ => Fault end.

Definition store_head (a x : Z) : CM () := λ st,
  match cmem st !! a with
  | Some (CHead _) => Ok ((), set_cmem (<[a := CHead x]> (cmem st)) st)
  | _ => Fault
  end.

Definition load_hash (a : Z) : CM chash := λ st,
  match cmem st !! a with Some (CHash h) => Ok (h, st) | _ => Fault end.

(** [h->slots[i]] *)
Definition load_slot (h i : Z) : CM Z := λ st,
  match cmem st !! h with
  | Some (CHash t) =>
      match cmem st !! slots t with
      | Some (CSlots l) =>
          if 0 <=? i then match l !! Z.to_nat i with Some x => Ok (x, st) | None => Fault end
          else Fault
      | _ => Fault
      end
  | _ => Fault
  end.

Definition store_slot (h i x : Z) : CM () := λ st,
  match cmem st !! h with
  | Some (CHash t) =>
      match cmem st !! slots t with
      | Some (CSlots l) =>
          if 0 <=? i then
            match l !! Z.to_nat i with
            | Some _ => Ok ((), set_cmem (<[slots t := CSlots (<[Z.to_nat i := x]> l)]> (cmem st)) st)
            | None => Fault
            end
          else Fault
      | _ => Fault
      end
  | _ => Fault
  end.

(** ** Operations *)

Section ops.
Context `{!Calloc cobj}.

Definition alloc (o : cobj) : CM Z := λ st,
  match calloc (cticks st) (cmem st) with
  | Some a => Ok (a, CState (<[a := o]> (cmem st)) (S (cticks st)) (cverbose st))
  | None => Ok (0, CState (cmem st) (S (cticks st)) (cverbose st))
  end.

Definition head_alloc : CM Z := alloc (CHead 0).

Definition hash_node_alloc : CM Z := alloc (CNode (CN 0 (LH 0 0))).

(** The slots may be NULL: the result of the second allocation is not tested. *)
Definition hash_alloc (size : Z) : CM Z :=
  ret ← alloc (CHash (CH 0 0));
  if truthy ret then
    a ← alloc (CSlots (replicate (Z.to_nat size) 0));
    modify (λ st, set_cmem (<[ret := CHash (CH size a)]> (cmem st)) st);;
    mret ret
  else mret ret.

Definition hash_extend (h : Z) : CM Z := mret 0.

(** The key is an [int] here, its remainder is taken in [unsigned long]. *)
Definition hashCode (h key : Z) : CM Z :=
  t ← load_hash h;
  if size t =? 0 then fault else mret (s32 (u64 (s32 key) mod size t)).

Definition hash_get (h key : Z) : CM (Z * option Z) :=
  hashIndex ← hashCode h key;
  head_node ← load_slot h hashIndex;
  if truthy head_node then
    node ← load_head head_node;
    mret (1, Some node)
  else mret (0, None).

(** The head object is taken for a node: its address is that of its first field. *)
Definition hash_lookup (h key : Z) : CM Z :=
  hashIndex ← hashCode h key;
  node ← load_slot h hashIndex;
  if truthy node then mret node else mret 0.

Definition __hash_create (h index : Z) : CM Z :=
  head ← load_slot h index;
  if truthy head then
    head_node ← load_head head;
    node ← hash_node_alloc;
    list_add_tail (list_of node) (list_of head_node);;
    mret node
  else
    head ← head_alloc;
    store_slot h index head;;
    node ← hash_node_alloc;
    INIT_LIST_HEAD (list_of node);;
    store_head head node;;
    mret node.

Definition insert_entries (node it : Z) : CM Z :=
  n ← load_node node;
  if truthy (item n) then mret (- EEXIST) else set_item node it;; mret 1.

Definition hash_insert (h key it : Z) : CM Z :=
  hashIndex ← hashCode h key;
  node ← __hash_create h (u64 hashIndex);
  error ← insert_entries node it;
  if error <? 0 then mret error else mret 0.

(** What [display] prints: the items of each bucket, from the verbosity 3 on.
    The rings are walked at any verbosity, the items read only to be printed.
    The index is an [int]. *)
Definition display_bucket (fuel : nat) (h i : Z) : CM (list (option (list Z))) :=
  '(found, node) ← hash_get h i;
  match node with
  | None => b ← printv 3; mret (if (b : bool) then [None] else [])
  | Some node =>
      b ← printv 3;
      l ← (if (b : bool) then n ← load_node node; mret [item n] else mret []);
      l ← list_for_each fuel (list_of node) l (λ p l,
            b ← printv 3;
            if (b : bool) then tmp ← load_node (list_entry p); mret (l ++ [item tmp]) else mret l);
      b ← printv 3;
      mret (if (b : bool) then [Some l] else [])
  end.

Fixpoint display_from (fuel k : nat) (h i : Z) : CM (list (option (list Z))) :=
  match k with
  | O => mret []
  | S k =>
      if i <? 2 ^ 31 then b ← display_bucket fuel h i; l ← display_from fuel k h (i + 1); mret (b ++ l)
      else fault
  end.

Definition display (fuel : nat) (h : Z) : CM (list (option (list Z))) :=
  t ← load_hash h; display_from fuel (Z.to_nat (size t)) h 0.
End ops.
