(* ===== verification/ChainInv.v ===== *)
(** * The chaining hash table: its invariant, and the effect of an insertion *)
From S2P Require Import Prelude DList DListInv DListOps ChainDefs.

(** ** Memory access *)

Lemma wp_load_cnode a n (Q : cnode → cstate → Prop) st :
  cmem st !! a = Some (CNode n) → wp (load_node a) Q st ↔ Q n st.
Proof. unfold wp, load_node. by intros ->. Qed.
Lemma wp_set_item a n x (Q : () → cstate → Prop) st :
  cmem st !! a = Some (CNode n) →
  wp (set_item a x) Q st ↔ Q () (set_cmem (<[a := CNode (CN x (link n))]> (cmem st)) st).
Proof. unfold wp, set_item. by intros ->. Qed.
Lemma wp_load_chead a x (Q : Z → cstate → Prop) st :
  cmem st !! a = Some (CHead x) → wp (load_head a) Q st ↔ Q x st.
Proof. unfold wp, load_head. by intros ->. Qed.
Lemma wp_store_chead a x y (Q : () → cstate → Prop) st :
  cmem st !! a = Some (CHead x) →
  wp (store_head a y) Q st ↔ Q () (set_cmem (<[a := CHead y]> (cmem st)) st).
Proof. unfold wp, store_head. by intros ->. Qed.
Lemma wp_load_chash a h (Q : chash → cstate → Prop) st :
  cmem st !! a = Some (CHash h) → wp (load_hash a) Q st ↔ Q h st.
Proof. unfold wp, load_hash. by intros ->. Qed.
Lemma wp_load_cslot h t l i x (Q : Z → cstate → Prop) st :
  cmem st !! h = Some (CHash t) → cmem st !! slots t = Some (CSlots l) → 0 ≤ i → l !! Z.to_nat i = Some x →
  wp (load_slot h i) Q st ↔ Q x st.
Proof.
  unfold wp, load_slot. intros -> -> Hi ->. by rewrite (proj2 (Z.leb_le 0 i) Hi).
Qed.
Lemma wp_store_cslot h t l i x y (Q : () → cstate → Prop) st :
  cmem st !! h = Some (CHash t) → cmem st !! slots t = Some (CSlots l) → 0 ≤ i → l !! Z.to_nat i = Some x →
  wp (store_slot h i y) Q st ↔
  Q () (set_cmem (<[slots t := CSlots (<[Z.to_nat i := y]> l)]> (cmem st)) st).
Proof.
  unfold wp, store_slot. intros -> -> Hi ->. by rewrite (proj2 (Z.leb_le 0 i) Hi).
Qed.

(** ** The invariant *)

Definition the_cnode (st : cstate) (a : Z) : cnode :=
  match cmem st !! a with Some (CNode n) => n | _ => CN 0 (LH 0 0) end.

Definition items (st : cstate) (l : list Z) : list Z := (λ a, item (the_cnode st a)) <$> l.

(** The list heads of the nodes [a :: l] form a ring. *)
Definition cring (st : cstate) (a : Z) (l : list Z) : Prop := dlist st (list_of a) (list_of <$> l).

Definition cbucket (st : cstate) (hp : Z) (l : list Z) : Prop :=
  hp = 0 ∧ l = [] ∨
  hp ≠ 0 ∧ ∃ a l', l = a :: l' ∧ cmem st !! hp = Some (CHead a) ∧ cring st a l'.

Record ctable (st : cstate) (h : Z) (t : chash) (sl : list Z) (L : list (list Z)) : Prop := {
  ct_null : cmem st !! 0 = None;
  ct_hash : cmem st !! h = Some (CHash t);
  ct_slots : cmem st !! slots t = Some (CSlots sl);
  ct_size : size t = Z.of_nat (length L) ∧ 0 < size t < 2 ^ 31;
  ct_length : length sl = length L;
  ct_bucket i hp l : sl !! i = Some hp → L !! i = Some l → cbucket st hp l;
  ct_nodup : NoDup (mjoin L);
  ct_heads i j hp : sl !! i = Some hp → sl !! j = Some hp → hp ≠ 0 → i = j
}.

(** The items of the table, bucket by bucket, in the order they came. *)
Definition holds_items (st : cstate) (h : Z) (B : list (list Z)) : Prop :=
  ∃ t sl L, ctable st h t sl L ∧ B = items st <$> L.

Lemma cring_node st a l x : cring st a l → x ∈ a :: l → ∃ n, cmem st !! x = Some (CNode n).
Proof.
  intros Hr Hx. destruct (dring_node st (list_of a :: (list_of <$> l)) (list_of x) Hr) as [n Hn].
  { apply elem_of_cons in Hx as [->|Hx]; [left|right]. by apply list_elem_of_fmap_2. }
  cbn in Hn. unfold get_link, list_entry, list_of in Hn. replace (x + 8 - 8) with x in Hn by lia.
  destruct (cmem st !! x) as [[]|]; eauto; done.
Qed.

Lemma cbucket_node st hp l x : cbucket st hp l → x ∈ l → ∃ n, cmem st !! x = Some (CNode n).
Proof.
  intros [[-> ->]|(_ & a & l' & -> & _ & Hr)] Hx; [by apply elem_of_nil in Hx|]. by eapply cring_node.
Qed.

Lemma cring_ext st st' a l :
  (∀ x, x ∈ a :: l → cmem st' !! x = cmem st !! x) → cring st a l → cring st' a l.
Proof.
  intros Hf (Hne & Hnd & Hc). split; [done|]. split; [done|]. cbn [app hd] in *.
  assert (∀ p, p ∈ list_of a :: (list_of <$> l) → nx st' p = nx st p ∧ pv st' p = pv st p) as Hsame.
  { intros p Hp. change (list_of a :: (list_of <$> l)) with (list_of <$> a :: l) in Hp.
    apply list_elem_of_fmap in Hp as (x & -> & Hx). unfold nx, pv. cbn. unfold get_link, list_entry, list_of.
    replace (x + 8 - 8) with x by lia. by rewrite Hf. }
  eapply chain_frame; [| |done]; intros p Hp; apply Hsame.
  - rewrite app_comm_cons, removelast_last in Hp. done.
  - set_solver.
Qed.

Lemma cbucket_ext st st' hp l :
  (∀ x, x ∈ l → cmem st' !! x = cmem st !! x) → (l ≠ [] → cmem st' !! hp = cmem st !! hp) →
  cbucket st hp l → cbucket st' hp l.
Proof.
  intros Hl Hh [?|(? & a & l' & -> & Ha & Hr)]; [by left|right]. split; [done|]. exists a, l'.
  split; [done|]. split; [by rewrite Hh|]. by eapply cring_ext.
Qed.

(** ** Changing one bucket *)

Section update.
Context (st st' : cstate) (h : Z) (t : chash) (sl : list Z) (L : list (list Z)).
Context (i : nat) (hp hp' : Z) (l l' : list Z).
Context (Htb : ctable st h t sl L) (Hhp : sl !! i = Some hp) (Hl : L !! i = Some l).
Context (Hfr : ∀ a, is_Some (cmem st !! a) → a ∉ l → a ≠ hp → a ≠ slots t → cmem st' !! a = cmem st !! a).

Lemma update_others j hpj lj :
  j ≠ i → sl !! j = Some hpj → L !! j = Some lj →
  (∀ a, a ∈ lj → cmem st' !! a = cmem st !! a) ∧ (lj ≠ [] → cmem st' !! hpj = cmem st !! hpj).
Proof.
  intros Hji Hj Hlj. pose proof Htb as [H0 Hh Hs _ _ Hbs Hnd Hhd].
  pose proof (Hbs i hp l Hhp Hl) as Hbi. pose proof (Hbs j hpj lj Hj Hlj) as Hbj.
  assert (∀ a n, cmem st !! a = Some (CNode n) → a ≠ hp ∧ a ≠ slots t) as Hkind.
  { intros a n Ha. split; intros ->; [|congruence].
    destruct Hbi as [[-> _]|(_ & b & l0 & _ & Hb & _)]; congruence. }
  split.
  - intros a Ha. destruct (cbucket_node _ _ _ _ Hbj Ha) as [n Hn]. destruct (Hkind a n Hn) as [??].
    apply Hfr; [by eexists| |done|done]. intros Hal.
    destruct (join_split L i l Hl) as (rest & Hperm & _ & Hrest). rewrite Hperm in Hnd.
    apply list.NoDup_app in Hnd as (_ & Hd & _). apply (Hd a Hal). by eapply Hrest.
  - intros Hne. destruct Hbj as [[_ ?]|(Hnz & b & l0 & _ & Hb & _)]; [done|].
    apply Hfr; [by eexists| | |congruence].
    + intros Hal. destruct (cbucket_node _ _ _ _ Hbi Hal) as [n Hn]. congruence.
    + intros ->. apply Hji. by eapply Hhd.
Qed.

Lemma update_items j lj : j ≠ i → L !! j = Some lj → items st' lj = items st lj.
Proof.
  intros Hji Hlj. destruct (lookup_lt_is_Some_2 sl j) as [hpj Hj].
  { rewrite (ct_length _ _ _ _ _ Htb). by eapply lookup_lt_Some. }
  apply list_fmap_ext. intros k a Ha%list_elem_of_lookup_2. unfold the_cnode.
  destruct (update_others j hpj lj Hji Hj Hlj) as [Hsame _]. by rewrite Hsame.
Qed.

Lemma update_contents B :
  B = items st <$> L → items st' <$> <[i := l']> L = <[i := items st' l']> B.
Proof.
  intros ->. rewrite list_fmap_insert. apply list_eq. intros j. destruct (decide (i = j)) as [<-|Hij].
  - rewrite !list_lookup_insert_eq; [done|rewrite length_fmap; by eapply lookup_lt_Some..].
  - rewrite !list_lookup_insert_ne, !list_lookup_fmap by done. destruct (L !! j) as [lj|] eqn:Hj; [|done].
    cbn. f_equal. by apply (update_items j lj).
Qed.

Context (H0 : cmem st' !! 0 = None) (Hh : cmem st' !! h = Some (CHash t)).
Context (Hs : cmem st' !! slots t = Some (CSlots (<[i := hp']> sl))).
Context (Hb : cbucket st' hp' l') (Hnd : NoDup l').
Context (Hin : ∀ a, a ∈ l' → a ∈ l ∨ cmem st !! a = None).
Context (Hhd : hp' = hp ∨ cmem st !! hp' = None).

Lemma update_ctable : ctable st' h t (<[i := hp']> sl) (<[i := l']> L).
Proof.
  pose proof Htb as [_ _ _ Hsz Hlen Hbs Hndl Hheads]. pose proof (lookup_lt_Some _ _ _ Hhp) as Hilt.
  assert (∀ j hpj, j ≠ i → sl !! j = Some hpj → hpj ≠ 0 → hp' ≠ hpj) as Hdist.
  { intros j hpj Hji Hj Hnz ->. destruct Hhd as [->|Hno]; [apply Hji; by eapply Hheads|].
    destruct (lookup_lt_is_Some_2 L j) as [lj Hlj]; [rewrite <- Hlen; by eapply lookup_lt_Some|].
    destruct (Hbs j hpj lj Hj Hlj) as [[? _]|(_ & b & l0 & _ & Hx & _)]; congruence. }
  split; try done.
  - by rewrite length_insert.
  - by rewrite !length_insert.
  - intros j hpj lj Hj Hlj. destruct (decide (i = j)) as [<-|Hij].
    + rewrite list_lookup_insert_eq in Hj by done.
      rewrite list_lookup_insert_eq in Hlj by (by eapply lookup_lt_Some). by simplify_eq.
    + rewrite list_lookup_insert_ne in Hj by done. rewrite list_lookup_insert_ne in Hlj by done.
      destruct (update_others j hpj lj) as [? ?]; [done..|]. eapply cbucket_ext; [done|done|]. by eapply Hbs.
  - destruct (join_split L i l Hl) as (rest & Hperm & Hperm' & Hrest). rewrite Hperm'.
    pose proof Hndl as Hndl'. rewrite Hperm in Hndl. apply list.NoDup_app in Hndl as (_ & Hd & Hr).
    apply list.NoDup_app. split; [done|]. split; [|done]. intros a Ha Har.
    destruct (Hin a Ha) as [?|Hno]; [by eapply Hd|].
    assert (a ∈ mjoin L) as Hj by (rewrite Hperm; apply elem_of_app; by right).
    apply list_elem_of_join in Hj as (lj & Ha' & Hlj). apply list_elem_of_lookup in Hlj as [j Hlj].
    destruct (lookup_lt_is_Some_2 sl j) as [hpj Hj]; [rewrite Hlen; by eapply lookup_lt_Some|].
    destruct (cbucket_node st hpj lj a (Hbs j hpj lj Hj Hlj) Ha') as [n Hn]. congruence.
  - intros j k hpj Hj Hk Hne. destruct (decide (i = j)) as [<-|Hij], (decide (i = k)) as [<-|Hik]; [done| | |].
    + rewrite list_lookup_insert_eq in Hj by done. rewrite list_lookup_insert_ne in Hk by done.
      injection Hj as ->. by destruct (Hdist k hpj (not_eq_sym Hik) Hk Hne).
    + rewrite list_lookup_insert_eq in Hk by done. rewrite list_lookup_insert_ne in Hj by done.
      injection Hk as ->. by destruct (Hdist j hpj (not_eq_sym Hij) Hj Hne).
    + rewrite list_lookup_insert_ne in Hj by done. rewrite list_lookup_insert_ne in Hk by done. by eapply Hheads.
Qed.
End update.

(** ** Hashing *)

(** The bucket of a key, as the code computes it for a table of [n] buckets. *)
Definition bucket_of (n key : Z) : Z := u64 (s32 key) mod n.

Lemma hashCode_chain st h t key (Q : Z → cstate → Prop) :
  cmem st !! h = Some (CHash t) → 0 < size t < 2 ^ 31 →
  wp (hashCode h key) Q st ↔ Q (bucket_of (size t) key) st.
Proof.
  intros Hh Hsz. unfold hashCode. rewrite wp_bind, (wp_load_chash h t) by done.
  destruct (Z.eqb_spec (size t) 0); [lia|]. rewrite wp_ret. fold (bucket_of (size t) key).
  assert (0 ≤ bucket_of (size t) key < size t) by (apply Z.mod_pos_bound; lia).
  replace (s32 (bucket_of (size t) key)) with (bucket_of (size t) key); [done|].
  unfold sint. rewrite wrap_small by lia. destruct (Z.ltb_spec (bucket_of (size t) key) (2 ^ (32 - 1))); lia.
Qed.

Lemma chain_bucket st h t sl L key :
  ctable st h t sl L →
  ∃ i hp l, Z.of_nat i = bucket_of (size t) key ∧ sl !! i = Some hp ∧ L !! i = Some l ∧ cbucket st hp l.
Proof.
  intros [H0 Hh Hs [Hsz Hpos] Hlen Hb _ _].
  assert (0 ≤ bucket_of (size t) key < size t) as Hi by (apply Z.mod_pos_bound; lia).
  destruct (lookup_lt_is_Some_2 L (Z.to_nat (bucket_of (size t) key))) as [l Hl]; [lia|].
  destruct (lookup_lt_is_Some_2 sl (Z.to_nat (bucket_of (size t) key))) as [hp Hhp]; [lia|].
  exists (Z.to_nat (bucket_of (size t) key)), hp, l. split; [lia|]. split; [done|]. split; [done|]. by eapply Hb.
Qed.
