(* ===== verification/ChainOps.v ===== *)
(** * The chaining hash table: creation, insertion, lookup, printing *)
From S2P Require Import Prelude DList DListInv DListOps ChainDefs ChainInv.

(** ** What the list operations leave alone *)

Lemma links_other s s' a o :
  links_only s s' → cmem s !! a = Some o → (∀ n, o ≠ CNode n) → cmem s' !! a = Some o.
Proof.
  intros (_ & _ & Hl) Ha Hno. specialize (Hl a). rewrite Ha in Hl. destruct (cmem s' !! a) as [o'|]; [|done].
  destruct o as [n|x|t|l], o'; cbn in Hl; try done; congruence.
Qed.

Lemma links_none s s' a : links_only s s' → cmem s !! a = None → cmem s' !! a = None.
Proof. intros (_ & _ & Hl) Ha. specialize (Hl a). rewrite Ha in Hl. by destruct (cmem s' !! a). Qed.

Lemma links_node s s' a n :
  links_only s s' → cmem s !! a = Some (CNode n) → ∃ n', cmem s' !! a = Some (CNode n') ∧ item n' = item n.
Proof.
  intros (_ & _ & Hl) Ha. specialize (Hl a). rewrite Ha in Hl. destruct (cmem s' !! a) as [[]|]; try done. eauto.
Qed.

Lemma get_link_at s a : get_link s (list_of a) = match cmem s !! a with Some (CNode n) => Some (link n) | _ => None end.
Proof. unfold get_link, list_entry, list_of. by replace (a + 8 - 8) with a by lia. Qed.

Lemma links_frame D s s' a o :
  frame D s s' → cmem s !! a = Some o → list_of a ∉ D → cmem s' !! a = Some o.
Proof.
  intros (Ho & _ & Hf) Ha HD. destruct o as [n|x|t|l]; [|by eapply links_other..].
  destruct (links_node s s' a n Ho Ha) as (n' & Ha' & Hi). specialize (Hf (list_of a) HD). cbn in Hf.
  rewrite !get_link_at, Ha, Ha' in Hf. rewrite Ha'. do 2 f_equal. destruct n, n'. cbn in *. congruence.
Qed.

Lemma frame_items s s' l : links_only s s' → (∀ a, a ∈ l → ∃ n, cmem s !! a = Some (CNode n)) → items s' l = items s l.
Proof.
  intros Ho Hn. apply list_fmap_ext. intros i a Ha%list_elem_of_lookup_2. destruct (Hn a Ha) as [n Hna].
  unfold the_cnode. rewrite Hna. by destruct (links_node s s' a n Ho Hna) as (n' & -> & ->).
Qed.

Lemma set_item_others s a n x b : cmem s !! a = Some (CNode n) →
  get_link (set_cmem (<[a := CNode (CN x (link n))]> (cmem s)) s) b = get_link s b.
Proof.
  intros Ha. unfold get_link. cbn. destruct (decide (a = list_entry b)) as [<-|].
  - by rewrite lookup_insert_eq, Ha.
  - by rewrite lookup_insert_ne.
Qed.

(** A ring only depends on its links. *)
Lemma dlist_links (s s' : cstate) h l : (∀ p, get_link s' p = get_link s p) → dlist s h l → dlist s' h l.
Proof.
  intros Hf (Hne & Hnd & Hc). split; [done|]. split; [done|]. cbn [app hd] in *.
  eapply chain_frame; [| |done]; intros p _; unfold nx, pv; cbn; by rewrite Hf.
Qed.

Section ops.
Context `{!Calloc cobj}.

Definition objects (st : cstate) : nat := base.size (cmem st).

(** The allocator has refused an object to a heap of less than [N]. *)
Definition no_memory (N : nat) : Prop :=
  ∃ t (m : gmap Z cobj), (base.size m < N)%nat ∧ calloc t m = None.

Lemma wp_calloc N o (Q : Z → cstate → Prop) st :
  (objects st < N)%nat →
  (∀ a st', a ≠ 0 → cmem st !! a = None → cmem st' = <[a := o]> (cmem st) → Q a st') →
  (∀ st', no_memory N → cmem st' = cmem st → Q 0 st') →
  wp (alloc o) Q st.
Proof.
  intros HN Hok Hfail. unfold wp, alloc. destruct (calloc (cticks st) (cmem st)) as [a|] eqn:Ha.
  - apply Hok; [|by eapply calloc_fresh|done]. pose proof (calloc_range _ _ _ Ha). lia.
  - apply Hfail; [|done]. by exists (cticks st), (cmem st).
Qed.

(** ** NULL in place of a node *)

Lemma null_link st : cmem st !! 0 = None → lh_get st (list_of 0) = None.
Proof. intros H0. cbn. by rewrite get_link_at, H0. Qed.

Lemma null_add_tail F st h (Q : () → cstate → Prop) :
  F → cmem st !! 0 = None → wpf F (list_add_tail (list_of 0) h) Q st.
Proof.
  intros HF H0. apply null_link in H0. unfold list_add_tail. rewrite wpf_bind. unfold wpf at 1, load.
  destruct (lh_get st h) as [e|] eqn:He; [|done]. unfold __list_add. rewrite wpf_bind.
  unfold wpf at 1, set_prev at 1, store. rewrite He, wpf_bind. unfold wpf at 1, set_next at 1, store.
  rewrite (lh_get_set st h e) by done. case_decide; [congruence|]. by rewrite H0.
Qed.

Lemma null_init F st (Q : () → cstate → Prop) :
  F → cmem st !! 0 = None → wpf F (INIT_LIST_HEAD (list_of 0)) Q st.
Proof.
  intros HF H0. apply null_link in H0. unfold INIT_LIST_HEAD. rewrite wpf_bind.
  unfold wpf at 1, set_next, store. by rewrite H0.
Qed.

(** ** Creation *)

Lemma chain_alloc_spec N st n :
  (S (objects st) < N)%nat →   cmem st !! 0 = None → 0 < n < 2 ^ 31 →
  wp (hash_alloc n) (λ h st',
    no_memory N ∨ h ≠ 0 ∧ holds_items st' h (replicate (Z.to_nat n) [])) st.
Proof.
  intros HN H0 Hn. unfold hash_alloc. rewrite wp_bind. apply (wp_calloc N); [lia|..].
  2:{ intros st1 Hoom _. rewrite truthy_0, wp_ret. by left. }
  intros h st1 Hh Hfree Hm1. rewrite truthy_nz, wp_bind by done. apply (wp_calloc N).
  { unfold objects. by rewrite Hm1, map_size_insert_None. }
  2:{ intros st2 Hoom _. rewrite wp_bind, wp_modify, wp_ret. by left. }
  intros a st2 Ha Hfree2 Hm2. rewrite wp_bind, wp_modify, wp_ret. right. split; [done|].
  assert (a ≠ h) as Hah. { intros ->. by rewrite Hm1, lookup_insert_eq in Hfree2. }
  exists (CH n a), (replicate (Z.to_nat n) 0), (replicate (Z.to_nat n) []). split.
  - split; cbn.
    + by rewrite Hm2, lookup_insert_ne, lookup_insert_ne, Hm1, lookup_insert_ne.
    + by rewrite lookup_insert_eq.
    + by rewrite lookup_insert_ne, Hm2, lookup_insert_eq.
    + rewrite length_replicate. lia.
    + by rewrite !length_replicate.
    + intros i hp l [-> _]%lookup_replicate [-> _]%lookup_replicate. by left.
    + rewrite join_replicate. constructor.
    + by intros i j hp [-> _]%lookup_replicate.
  - by rewrite fmap_replicate.
Qed.

(** ** Insertion *)

(** The new node [c] stands at the end of the bucket, without an item. *)
Definition created (st : cstate) (t : chash) (sl : list Z) (i : nat) (hp : Z) (l : list Z) (c : Z)
    (st' : cstate) : Prop :=
  ∃ hp' n, hp' ≠ 0 ∧ cmem st !! c = None ∧ cmem st' !! c = Some (CNode n) ∧ item n = 0 ∧
    cbucket st' hp' (l ++ [c]) ∧ (hp' = hp ∨ cmem st !! hp' = None) ∧ cmem st' !! 0 = None ∧
    cmem st' !! slots t = Some (CSlots (<[i := hp']> sl)) ∧ items st' l = items st l ∧
    ∀ a, is_Some (cmem st !! a) → a ∉ l → a ≠ slots t → cmem st' !! a = cmem st !! a.

Lemma create_append N st h t sl L i a l hp :
  (objects st < N)%nat → ctable st h t sl L → sl !! i = Some hp → L !! i = Some (a :: l) → hp ≠ 0 →
  cmem st !! hp = Some (CHead a) → cring st a l →
  wpf (no_memory N) (node ← hash_node_alloc; list_add_tail (list_of node) (list_of a);; mret node)
    (λ c st', created st t sl i hp (a :: l) c st') st.
Proof.
  intros HN Htb Hhp Hl Hhp0 Hh Hr. pose proof Htb as [H0 _ Hs _ _ _ _ _].
  apply wpf_bind_wp. apply (wp_calloc N); [done|..].
  2:{ intros st1 Hoom Hm. rewrite wpf_bind. apply null_add_tail; [done|]. by rewrite Hm. }
  intros c st1 Hc Hfree Hm1. apply wpf_bind_wp.
  assert (∀ x n, x ≠ c → cmem st !! x = n → cmem st1 !! x = n) as Hold.
  { intros x n Hne Hx. by rewrite Hm1, lookup_insert_ne. }
  assert (∀ x, x ∈ a :: l → x ≠ c) as Hnc.
  { intros x Hx ->. destruct (cring_node st a l c Hr Hx). congruence. }
  assert (cring st1 a l) as Hr1. { eapply cring_ext; [|done]. intros x Hx. symmetry. eapply eq_sym, Hold; [by apply Hnc|done]. }
  assert (cmem st1 !! c = Some (CNode (CN 0 (LH 0 0)))) as Hc1 by (by rewrite Hm1, lookup_insert_eq).
  eapply wp_mono.
  { apply (list_add_tail_spec st1 (list_of a) (list_of <$> l) (list_of c) Hr1).
    - intros Hin. change (list_of a :: (list_of <$> l)) with (list_of <$> a :: l) in Hin.
      apply list_elem_of_fmap in Hin as (x & Hx & Hin). apply (Hnc x Hin). unfold list_of in Hx. lia.
    - cbn. rewrite get_link_at, Hc1. by eexists. }
  intros [] st2 [Hd Hf]. rewrite wpf_ret. pose proof Hf as (Ho & _).
  assert (hp ≠ c) as Hhpc by congruence.
  destruct (links_node st1 st2 c _ Ho Hc1) as (n & Hn & Hi). exists hp, n.
  split; [done|]. split; [done|]. split; [done|]. split; [done|].
  split. { right. split; [done|]. exists a, (l ++ [c]). split; [done|].
    split; [eapply links_other; [done|by apply Hold|done]|]. unfold cring. by rewrite fmap_app. }
  split; [by left|].
  split. { eapply links_none; [done|]. by apply Hold. }
  split. { rewrite list_insert_id by done. eapply links_other; [done| |done]. apply Hold; [congruence|done]. }
  split.
  { transitivity (items st1 (a :: l)).
    - apply frame_items; [done|]. intros x Hx. by eapply cring_node.
    - apply list_fmap_ext. intros k x Hx%list_elem_of_lookup_2. unfold the_cnode. by rewrite (Hold x _ (Hnc x Hx) eq_refl). }
  intros x [o Hx] Hxl _. rewrite Hx. eapply links_frame; [done|apply Hold; [congruence|done]|].
  assert (x ≠ c) by congruence. intros Hin.
  change (list_of c :: list_of a :: (list_of <$> l)) with (list_of <$> c :: a :: l) in Hin.
  apply list_elem_of_fmap in Hin as (y & Hy & Hin). assert (x = y) as -> by (unfold list_of in Hy; lia).
  set_solver.
Qed.

(** Without memory for the head, NULL is written through. *)
Lemma create_first_null N st h t sl L i st1 Q :
  (S (objects st) < N)%nat → no_memory N → ctable st h t sl L → sl !! i = Some 0 → cmem st1 = cmem st →
  wpf (no_memory N)
    (store_slot h (Z.of_nat i) 0;; node ← hash_node_alloc; INIT_LIST_HEAD (list_of node);; store_head 0 node;; mret node)
    Q st1.
Proof.
  intros HN Hoom Htb Hhp Hm. pose proof Htb as [H0 Hh Hs _ _ _ _ _]. apply wpf_bind_wp. rewrite (wp_store_cslot h t sl _ 0); rewrite ?Hm; try done; [|lia|by rewrite Nat2Z.id].
  apply wpf_bind_wp. apply (wp_calloc N).
  + unfold objects in *. cbn. rewrite map_size_insert_Some by (rewrite ?Hm, Hs; done). rewrite ?Hm. lia.
  + intros c st2 Hc Hfree Hm2. rewrite wpf_bind.
    assert (cmem st2 !! 0 = None) as H02.
    { rewrite Hm2, lookup_insert_ne by done. cbn. rewrite lookup_insert_ne by congruence. by rewrite ?Hm. }
    apply wpf_of_wp. eapply wp_mono; [eapply INIT_LIST_HEAD_spec; [apply wrote_refl|]|].
    { cbn. rewrite get_link_at, Hm2, lookup_insert_eq. by eexists. }
    intros [] st3 (Ho & _). rewrite wpf_bind. unfold wpf at 1, store_head.
    by rewrite (links_none st2 st3 0 Ho H02).
  + intros st2 _ Hm2. rewrite wpf_bind. apply null_init; [done|]. rewrite Hm2. cbn.
    rewrite lookup_insert_ne by congruence. by rewrite ?Hm.
Qed.

Lemma create_first N st h t sl L i :
  (S (objects st) < N)%nat → ctable st h t sl L → sl !! i = Some 0 → L !! i = Some [] →
  wpf (no_memory N)
    (head ← head_alloc; store_slot h (Z.of_nat i) head;; node ← hash_node_alloc;
     INIT_LIST_HEAD (list_of node);; store_head head node;; mret node)
    (λ c st', created st t sl i 0 [] c st') st.
Proof.
  intros HN Htb Hhp Hl. pose proof Htb as [H0 Hh Hs _ _ _ _ _].
  assert (h ≠ slots t) as Hhs by congruence.
  apply wpf_bind_wp. apply (wp_calloc N); [lia|..].
  - intros hd st1 Hhd Hfree Hm1. assert (hd ≠ h ∧ hd ≠ slots t) as [Hhdh Hhds] by (split; congruence).
    apply wpf_bind_wp. rewrite (wp_store_cslot h t sl _ 0).
    2:{ by rewrite Hm1, lookup_insert_ne. } 2:{ by rewrite Hm1, lookup_insert_ne. } 2: lia. 2:{ by rewrite Nat2Z.id. }
    rewrite Nat2Z.id. set (st2 := set_cmem _ st1). apply wpf_bind_wp. apply (wp_calloc N).
    { unfold objects. cbn. rewrite map_size_insert_Some by (rewrite Hm1, lookup_insert_ne, Hs; done).
      by rewrite Hm1, map_size_insert_None. }
    2:{ intros st3 Hoom Hm. rewrite wpf_bind. apply null_init; [done|]. rewrite Hm. cbn.
        rewrite lookup_insert_ne, Hm1, lookup_insert_ne; [done..|congruence]. }
    intros c st3 Hc Hfree3 Hm3.
    assert (cmem st3 !! c = Some (CNode (CN 0 (LH 0 0)))) as Hc3 by (by rewrite Hm3, lookup_insert_eq).
    assert (cmem st1 !! c = None ∧ c ≠ slots t) as [Hfree1 Hcs].
    { cbn in Hfree3. destruct (decide (slots t = c)) as [<-|]; [by rewrite lookup_insert_eq in Hfree3|].
      by rewrite lookup_insert_ne in Hfree3. }
    assert (c ≠ hd ∧ cmem st !! c = None) as [Hchd Hfree0].
    { rewrite Hm1 in Hfree1. destruct (decide (hd = c)) as [<-|]; [by rewrite lookup_insert_eq in Hfree1|].
      by rewrite lookup_insert_ne in Hfree1. }
    apply wpf_bind_wp. eapply wp_mono; [eapply INIT_LIST_HEAD_spec; [apply wrote_refl|]|].
    { cbn. rewrite get_link_at, Hc3. by eexists. }
    intros [] st4 Hw. assert (frame [list_of c] st3 st4) as Hf4. { eapply wrote_frame; [done|]. intros p. cbn. set_solver. }
    pose proof Hf4 as (Ho & _). destruct (links_node st3 st4 c _ Ho Hc3) as (n & Hn & Hi).
    assert (∀ x, x ≠ c → x ≠ slots t → x ≠ hd → cmem st3 !! x = cmem st !! x) as H3.
    { intros x ???. rewrite Hm3, lookup_insert_ne by done. cbn. rewrite lookup_insert_ne by done.
      by rewrite Hm1, lookup_insert_ne. }
    assert (cmem st3 !! hd = Some (CHead 0)) as Hhd3.
    { rewrite Hm3, lookup_insert_ne by done. cbn. by rewrite lookup_insert_ne, Hm1, lookup_insert_eq. }
    assert (cmem st4 !! hd = Some (CHead 0)) as Hhd4 by (by eapply links_other).
    apply wpf_bind_wp. rewrite (wp_store_chead hd 0 c), wpf_ret by done. set (st5 := set_cmem _ st4).
    assert (∀ x, x ≠ hd → cmem st5 !! x = cmem st4 !! x) as H5. { intros x ?. subst st5. cbn. by rewrite lookup_insert_ne. }
    exists hd, n. split; [done|]. split; [done|]. split; [by rewrite H5|]. split; [done|].
    split.
    { right. split; [done|]. exists c, []. split; [done|]. split; [subst st5; cbn; by rewrite lookup_insert_eq|].
      unfold cring. cbn. assert (dlist st4 (list_of c) []) as Hd4.
      { destruct Hw as (_ & Hnx & Hpv & _). split; [done|]. split; [apply NoDup_singleton|]. cbn. split; [|done].
        split; [rewrite Hnx|rewrite Hpv]; cbn; by rewrite decide_True. }
      apply (dlist_links st4); [|exact Hd4]. intros p. unfold get_link.
      destruct (decide (list_entry p = hd)) as [->|]; [|by rewrite H5].
      subst st5. cbn. by rewrite lookup_insert_eq, Hhd4. }
    split; [right; congruence|].
    split. { rewrite H5 by done. eapply links_none; [done|]. by rewrite H3; [|congruence..]. }
    split. { rewrite H5 by done. eapply links_other; [done| |done]. rewrite Hm3, lookup_insert_ne by done. cbn.
      by rewrite lookup_insert_eq. }
    split; [done|]. intros x [o Hx] _ Hxs. assert (x ≠ c ∧ x ≠ hd) as [??] by (split; congruence).
    rewrite H5, Hx by done. eapply links_frame; [done|by rewrite H3|]. 
    intros Hin. apply list_elem_of_singleton in Hin. unfold list_of in Hin. lia.
  - intros st1 Hoom Hm. by eapply (create_first_null N st h t sl L).
Qed.

Lemma wpf_of_eq {A} F (m m' : CM A) Q st : m st = m' st → wpf F m' Q st → wpf F m Q st.
Proof. unfold wpf. by intros ->. Qed.

Lemma chain_create_spec N st h t sl L i hp l :
  (S (objects st) < N)%nat → ctable st h t sl L → sl !! i = Some hp → L !! i = Some l →
  wpf (no_memory N) (__hash_create h (Z.of_nat i)) (λ c st', created st t sl i hp l c st') st.
Proof.
  intros HN Htb Hhp Hl. pose proof Htb as [_ Hh Hs _ _ Hb _ _].
  unfold __hash_create. apply wpf_bind_wp.
  rewrite (wp_load_cslot h t sl _ hp) by (done || lia || by rewrite Nat2Z.id).
  destruct (Hb i hp l Hhp Hl) as [[-> ->]|(Hne & a & l' & -> & Ha & Hr)].
  - rewrite truthy_0. by eapply create_first.
  - rewrite truthy_nz by done. apply wpf_bind_wp. rewrite (wp_load_chead hp a) by done.
    eapply create_append; [lia|done..].
Qed.

(** The table when an item is added at the end of a key's bucket. *)
Definition add_item (B : list (list Z)) (key it : Z) : list (list Z) :=
  let i := Z.to_nat (bucket_of (Z.of_nat (length B)) key) in
  <[i := default [] (B !! i) ++ [it]]> B.

(** The item goes into the new node. *)
Lemma filled st h t sl L i hp l c st1 it :
  ctable st h t sl L → sl !! i = Some hp → L !! i = Some l → created st t sl i hp l c st1 →
  wp (insert_entries c it) (λ e st2, e = 1 ∧ holds_items st2 h (<[i := items st l ++ [it]]> (items st <$> L))) st1.
Proof.
  intros Htb Hhp Hl (hp' & n & Hhp' & Hfree & Hc & Hn & Hb & Hor & H01 & Hs1 & Hitems & Hfr).
  pose proof Htb as [H0 Hh Hs _ _ Hbs Hnd _].
  unfold insert_entries. rewrite wp_bind, (wp_load_cnode c n), Hn, truthy_0, wp_bind, (wp_set_item c n), wp_ret by done.
  split; [done|]. set (st2 := set_cmem _ st1).
  assert (∀ x, x ≠ c → cmem st2 !! x = cmem st1 !! x) as H2. { intros x ?. subst st2. cbn. by rewrite lookup_insert_ne. }
  assert (cmem st2 !! c = Some (CNode (CN it (link n)))) as Hc2 by (subst st2; cbn; by rewrite lookup_insert_eq).
  assert (∀ x, x ∈ l → ∃ nx, cmem st !! x = Some (CNode nx)) as Hnodes.
  { intros x Hx. eapply cbucket_node; [by eapply Hbs|done]. }
  assert (c ∉ l) as Hcl. { intros Hin. destruct (Hnodes c Hin). congruence. }
  assert (c ≠ 0) as Hc0 by (intros ->; congruence).
  assert (NoDup (l ++ [c])) as Hndl.
  { destruct (join_split L i l Hl) as (rest & Hperm & _). rewrite Hperm in Hnd.
    apply list.NoDup_app in Hnd as (Hndl & _ & _). apply list.NoDup_app. split; [done|]. split; [|apply NoDup_singleton].
    intros x Hx ->%list_elem_of_singleton. done. }
  assert (cbucket st2 hp' (l ++ [c])) as Hb2.
  { destruct Hb as [[? _]|(_ & a & l0 & Heq & Ha & Hr)]; [done|]. right. split; [done|]. exists a, l0. split; [done|].
    split; [rewrite H2; [done|congruence]|]. apply (dlist_links st1); [|done]. intros p. by apply set_item_others. }
  assert (∀ a, is_Some (cmem st !! a) → a ∉ l → a ≠ hp → a ≠ slots t → cmem st2 !! a = cmem st !! a) as Hfr2.
  { intros a [o Ha] Hal _ Hsl. rewrite H2 by congruence. by apply Hfr; [eexists|..]. }
  exists t, (<[i := hp']> sl), (<[i := l ++ [c]]> L). split.
  - eapply (update_ctable st st2 h t sl L i hp hp' l (l ++ [c])); try done.
    + by rewrite H2.
    + rewrite Hfr2; [done|by eexists| | |congruence].
      * intros Hin. destruct (Hnodes h Hin). congruence.
      * intros ->. destruct (Hbs i hp l Hhp Hl) as [[-> _]|(_ & a & l0 & _ & Ha & _)]; congruence.
    + rewrite H2; [done|congruence].
    + intros a [?| ->%list_elem_of_singleton]%elem_of_app; [by left|by right].
  - rewrite (update_contents st st2 h t sl L i hp l (l ++ [c]) Htb Hhp Hl Hfr2 (items st <$> L)) by done.
    f_equal. unfold items. rewrite fmap_app. cbn. f_equal; [|by unfold the_cnode; rewrite Hc2].
    fold (items st l) (items st1 l) in *. rewrite <- Hitems. apply list_fmap_ext. intros k x Hx%list_elem_of_lookup_2.
    unfold the_cnode. rewrite H2; [done|]. by intros ->.
Qed.

Lemma chain_insert_spec N st h B key it :
  (S (objects st) < N)%nat → holds_items st h B →
  wpf (no_memory N) (hash_insert h key it) (λ e st', e = 0 ∧ holds_items st' h (add_item B key it)) st.
Proof.
  intros HN (t & sl & L & Htb & ->). pose proof Htb as [_ Hh _ [Hsz Hpos] _ _ _ _].
  destruct (chain_bucket st h t sl L key Htb) as (i & hp & l & Hi & Hhp & Hl & _).
  unfold hash_insert. apply wpf_bind_wp. rewrite (hashCode_chain st h t) by done. rewrite <- Hi.
  rewrite wrap_small.
  2:{ pose proof (lookup_lt_Some _ _ _ Hl). assert (2 ^ 31 < 2 ^ 64) by (by vm_compute). lia. }
  rewrite wpf_bind. eapply wpf_mono; [by eapply chain_create_spec|]. intros c st1 Hcr. cbv beta in Hcr.
  apply wpf_bind_wp. eapply wp_mono; [by eapply filled|]. intros e st2 [-> Hholds].
  cbn [Z.ltb Z.compare]. rewrite wpf_ret. split; [done|].
  unfold add_item. rewrite length_fmap, <- Hsz, <- Hi, Nat2Z.id, list_lookup_fmap, Hl. exact Hholds.
Qed.

(** ** Lookup and printing *)

Lemma chain_get_spec st h t sl L key i hp l :
  ctable st h t sl L → Z.of_nat i = bucket_of (size t) key → sl !! i = Some hp → L !! i = Some l →
  hash_get h key st = Ok (match l with [] => (0, None) | a :: _ => (1, Some a) end, st) ∧
  hash_lookup h key st = Ok (hp, st).
Proof.
  intros Htb Hi Hhp Hl. pose proof Htb as [_ Hh Hs [Hsz Hpos] _ Hb _ _].
  assert (wp (hash_get h key) (λ r st', r = (match l with [] => (0, None) | a :: _ => (1, Some a) end) ∧ st' = st) st ∧
          wp (hash_lookup h key) (λ r st', r = hp ∧ st' = st) st) as [H1 H2].
  { unfold hash_get, hash_lookup. split; rewrite wp_bind, (hashCode_chain st h t), <- Hi by done;
      rewrite wp_bind, (wp_load_cslot h t sl _ hp) by (done || lia || by rewrite Nat2Z.id);
      destruct (Hb i hp l Hhp Hl) as [[-> ->]|(Hne & a & l' & -> & Ha & Hr)];
      rewrite ?truthy_0, ?truthy_nz, ?wp_ret by done; try done.
    by rewrite wp_bind, (wp_load_chead hp a), wp_ret. }
  apply wp_returns in H1 as (? & ? & -> & -> & ->). by apply wp_returns in H2 as (? & ? & -> & -> & ->).
Qed.

(** What is printed at the verbosity of the state. *)
Definition printed {A} (st : cstate) (l : list A) : list A := if 3 <=? verbose st then l else [].

(** What is printed of a bucket: nothing for an empty one, otherwise its items. *)
Definition shown (b : list Z) : option (list Z) := match b with [] => None | _ => Some b end.

Lemma display_bucket_spec st h t sl L i hp l fuel :
  ctable st h t sl L → sl !! i = Some hp → L !! i = Some l → (length l < fuel)%nat →
  wp (display_bucket fuel h (Z.of_nat i))
    (λ r st', st' = st ∧ r = printed st [shown (items st l)]) st.
Proof.
  intros Htb Hhp Hl Hf. pose proof Htb as [_ Hh Hs [Hsz Hpos] _ Hb _ _].
  pose proof (lookup_lt_Some _ _ _ Hl) as Hlt.
  assert (Z.of_nat i = bucket_of (size t) (Z.of_nat i)) as Hi.
  { unfold bucket_of, sint. rewrite (wrap_small 32) by lia. rewrite (proj2 (Z.ltb_lt _ _)) by lia.
    rewrite wrap_small by lia. rewrite Z.mod_small; lia. }
  destruct (chain_get_spec st h t sl L (Z.of_nat i) i hp l Htb Hi Hhp Hl) as [Hget _].
  unfold display_bucket. rewrite wp_bind. unfold wp at 1. rewrite Hget.
  destruct (Hb i hp l Hhp Hl) as [[-> ->]|(Hne & a & l' & -> & Ha & Hr)]; [by rewrite wp_bind, wp_printv, wp_ret|].
  destruct (cring_node st a l' a Hr) as [n Hn]; [left|]. rewrite wp_bind, wp_printv, wp_bind.
  eapply (wp_mono _ (λ r st', st' = st ∧ r = printed st (items st [a]))).
  { unfold printed, items. destruct (3 <=? verbose st); [|done].
    rewrite wp_bind, (wp_load_cnode a n), wp_ret by done. split; [done|]. cbn. unfold the_cnode. by rewrite Hn. }
  intros ? ? [-> ->].
  rewrite wp_bind. unfold list_for_each. rewrite wp_bind, (wp_load (list_of a) _ _ st (dring_first st _ _ Hr)). cbn [next].
  eapply wp_mono.
  { apply (for_each_rule (list_of a) next _ (λ q x s', s' = st ∧ ∃ p, l' = p ++ (list_entry <$> q) ∧
      list_of <$> l' = (list_of <$> p) ++ q ∧ x = printed st (items st (a :: p))) (list_of <$> l')).
    - destruct Hr as (_ & Hnd & _). by apply NoDup_cons_1_1.
    - rewrite length_fmap. cbn in Hf. lia.
    - intros p q x s [-> (p0 & Hp0 & Hq & ->)].
      assert (∃ np, cmem st !! list_entry p = Some (CNode np)) as [np Hnp].
      { eapply (cring_node st a l'); [done|]. right. rewrite Hp0, fmap_cons. set_solver. }
      assert (the_cnode st (list_entry p) = np) as Hthe by (unfold the_cnode; by rewrite Hnp).
      assert (printed st (items st (a :: p0 ++ [list_entry p])) =
        if 3 <=? verbose st then printed st (items st (a :: p0)) ++ [item np] else printed st (items st (a :: p0))) as Hnew.
      { unfold printed, items. rewrite (app_comm_cons p0 [list_entry p] a), fmap_app. cbn. rewrite Hthe. by case_match. }
      rewrite wp_bind, wp_printv. apply (wp_mono _ (λ x' st', st' = st ∧ x' = printed st (items st (a :: p0 ++ [list_entry p])))).
      { rewrite Hnew. destruct (3 <=? verbose st); [by rewrite wp_bind, (wp_load_cnode _ np), wp_ret|by rewrite wp_ret]. }
      intros ? ? [-> ->]. split.
      + split; [done|]. exists (p0 ++ [list_entry p]). split; [by rewrite <- app_assoc|]. split; [|done].
        rewrite fmap_app, <- app_assoc; cbn; rewrite Hq; f_equal; unfold list_of, list_entry; f_equal; lia.
      + apply (dlist_next st (list_of a) (list_of <$> p0) p q). rewrite <- Hq. exact Hr.
    - split; [done|]. exists []. split; [|split; [done|done]].
      cbn. rewrite <- list_fmap_compose. symmetry. etransitivity; [|apply list_fmap_id]. apply list_fmap_ext.
      intros ? x _. unfold list_of, list_entry. cbn. lia. }
  intros r s' [-> (p & Hp & _ & ->)]. cbn in Hp. rewrite app_nil_r in Hp. subst p.
  rewrite wp_bind, wp_printv, wp_ret. split; [done|]. unfold printed. by destruct (3 <=? verbose st).
Qed.

Lemma printed_app {A} st (k l : list A) : printed st k ++ printed st l = printed st (k ++ l).
Proof. unfold printed. by destruct (3 <=? verbose st). Qed.

Lemma display_spec st h B fuel :
  holds_items st h B → Forall (λ b, length b < fuel)%nat B →
  display fuel h st = Ok (printed st (shown <$> B), st).
Proof.
  intros (t & sl & L & Htb & ->) Hf. pose proof Htb as [_ Hh _ [Hsz Hpos] Hlen Hb _ _].
  assert (∀ k i, (k + i = length L)%nat →
    wp (display_from fuel k h (Z.of_nat i))
      (λ r st', st' = st ∧ r = printed st (shown <$> (items st <$> drop i L))) st) as Hk.
  { induction k as [|k IH]; intros i Hi; cbn [display_from].
    - rewrite wp_ret. split; [done|]. rewrite drop_ge by lia. unfold printed. by destruct (3 <=? verbose st).
    - rewrite (proj2 (Z.ltb_lt _ _)) by lia.
      destruct (lookup_lt_is_Some_2 L i) as [l Hl]; [lia|]. destruct (lookup_lt_is_Some_2 sl i) as [hp Hhp]; [lia|].
      assert (length l < fuel)%nat as Hlf.
      { rewrite Forall_elem in Hf. specialize (Hf (items st l)). unfold items in Hf. rewrite length_fmap in Hf. apply Hf.
        apply list_elem_of_fmap_2. by eapply list_elem_of_lookup_2. }
      rewrite wp_bind. eapply wp_mono; [by eapply display_bucket_spec|]. intros r st' [-> ->].
      rewrite wp_bind. replace (Z.of_nat i + 1) with (Z.of_nat (S i)) by lia.
      eapply wp_mono; [apply IH; lia|]. intros rs st' [-> ->]. rewrite wp_ret. split; [done|].
      by rewrite printed_app, (drop_S L l i Hl). }
  assert (wp (display fuel h) (λ r st', st' = st ∧ r = printed st (shown <$> (items st <$> L))) st) as Hwp.
  { unfold display. rewrite wp_bind, (wp_load_chash h t), Hsz, Nat2Z.id by done. apply (Hk (length L) 0%nat). lia. }
  by apply wp_returns in Hwp as (? & ? & -> & -> & ->).
Qed.

(** ** Sequences of insertions

    An insertion allocates two objects at most, and leaves the verbosity. *)

Definition more_objects (k : nat) (st st' : cstate) : Prop :=
  (objects st' ≤ objects st + k)%nat ∧ verbose st' = verbose st.

#[export] Instance more_objects_graded : Graded more_objects.
Proof.
  unfold more_objects. split; [intros; split; [lia|done]|]. intros i j st1 st2 st3 [? ?] [? ?]. split; [lia|congruence].
Qed.

#[local] Ltac access :=
  intros ? ? ?; repeat case_match; intros [= _ <-]; (split; [|done]); unfold objects; cbn;
  rewrite ?map_size_insert_Some by (by eexists); try lia.

#[export] Instance within_cload k a : Within more_objects k (load_node a).
Proof. unfold load_node. access. Qed.
#[export] Instance within_set_item k a x : Within more_objects k (set_item a x).
Proof. unfold set_item. access. Qed.
#[export] Instance within_cload_head k a : Within more_objects k (load_head a).
Proof. unfold load_head. access. Qed.
#[export] Instance within_cstore_head k a x : Within more_objects k (store_head a x).
Proof. unfold store_head. access. Qed.
#[export] Instance within_cload_slot k h i : Within more_objects k (load_slot h i).
Proof. unfold load_slot. access. Qed.
#[export] Instance within_cstore_slot k h i x : Within more_objects k (store_slot h i x).
Proof. unfold store_slot. access. Qed.
#[export] Instance within_chashCode k h x : Within more_objects k (hashCode h x).
Proof. unfold hashCode, load_hash. apply within_bind; [access|]. intros. case_match; apply _. Qed.
#[export] Instance within_lload k a : Within more_objects k (load (S := cstate) a).
Proof. unfold load. access. Qed.
#[export] Instance within_lstore k a f : Within more_objects k (store (S := cstate) a f).
Proof. unfold store. cbn. unfold get_link, set_link. access. Qed.

Lemma within_calloc o : Within more_objects 1 (alloc o).
Proof.
  unfold alloc. intros st x st'. case_match eqn:E; intros [= _ <-]; (split; [|done]); unfold objects; cbn; [|lia].
  rewrite map_size_insert_None by (by eapply calloc_fresh). lia.
Qed.

#[export] Instance within_chain_alloc n : Within more_objects 3 (hash_alloc n).
Proof.
  unfold hash_alloc. apply (within_plus 1 2); [apply within_calloc|]. intros h. case_match; [|apply _].
  apply (within_plus 1 1); [apply within_calloc|]. intros a. apply (within_plus 1 0); [|intros; apply _].
  intros st x st'. unfold modify. intros [= _ <-]. split; [|done]. unfold objects.
  cbn [cmem set_cmem]. rewrite map_size_insert. destruct (cmem st !! h); unfold id; lia.
Qed.

#[export] Instance within_chain_insert h key it : Within more_objects 2 (hash_insert h key it).
Proof.
  unfold hash_insert, insert_entries. apply within_bind; [apply _|intros i]. apply within_last.
  - unfold __hash_create, head_alloc, hash_node_alloc, INIT_LIST_HEAD, list_add_tail, __list_add, set_next, set_prev.
    apply within_bind; [apply _|]. intros hd. case_match.
    + apply within_bind; [apply _|]. intros. apply (within_plus 1 1); [apply within_calloc|apply _].
    + apply (within_plus 1 1); [apply within_calloc|]. intros. apply within_bind; [apply _|].
      intros _. apply (within_plus 1 0); [apply within_calloc|apply _].
  - intros nd. repeat (case_match || apply _ || (apply within_bind; [|intros])).
Qed.

Fixpoint insert_all (h : Z) (l : list (Z * Z)) : CM (list Z) :=
  match l with
  | [] => mret []
  | (key, it) :: l => e ← hash_insert h key it; es ← insert_all h l; mret (e :: es)
  end.

Lemma insert_all_spec N st h B l :
  (objects st + 2 * length l ≤ N)%nat → holds_items st h B →
  wpf (no_memory N) (insert_all h l) (λ es st', Forall (λ e, e = 0) es ∧
    holds_items st' h (foldl (λ B '(key, it), add_item B key it) B l) ∧ verbose st' = verbose st) st.
Proof.
  revert st B. induction l as [|[key it] l IH]; intros st B HN Hh; cbn [insert_all foldl length] in *.
  { rewrite wpf_ret. split; [constructor|done]. }
  rewrite wpf_bind. eapply wpf_mono; [apply (wpf_within (R := more_objects) 2); [apply _|apply chain_insert_spec; [lia|done]]|].
  intros e st1 [[-> Hh1] [Hsz Hv1]].
  rewrite wpf_bind. eapply wpf_mono; [apply IH; [lia|done]|]. intros es st2 (Hes & Hh2 & Hv2). rewrite wpf_ret.
  split; [by constructor|]. split; [done|congruence].
Qed.
End ops.
