(* ===== verification/ChainRuns.v ===== *)
(** * The chaining hash table: the items and runs of test.c and benchmark.c *)
From S2P Require Import Prelude Loops DList ChainDefs ChainInv ChainOps HashItems.

Abbreviation C := (M (hrun cstate)).

Section ops.
Context `{!Calloc cobj, !Calloc hitem}.

Definition chain_item_insert (h index : Z) : C Z := item_insert (hash_insert h) index.

(** The assertions are about the address [hash_lookup] returns. *)
Definition item_check_present (h index : Z) : C () :=
  item ← on_table (hash_lookup h index);
  if truthy item then mret () else fault.

Definition item_lookup (h index : Z) : C Z := on_table (hash_lookup h index).

Definition item_check_absent (h index : Z) : C () :=
  item ← on_table (hash_lookup h index);
  if item =? 0 then mret () else fault.

Definition benchmark_insert (h sz step : Z) : C () :=
  for_up (S (turns sz step)) 0 sz step (λ index, _ ← chain_item_insert h index; mret ()).

Definition benchmark_search (h sz step : Z) : C () :=
  for_up (S (turns sz step)) 0 sz step (λ index, item_check_present h index).

(** One bucket per index of the range. *)
Definition benchmark_size (sz step : Z) : C Z :=
  h ← on_table (hash_alloc sz);
  benchmark_insert h sz step;;
  benchmark_search h sz step;;
  mret h.

Definition my_benchmark (fuel : nat) : C (list (option (list Z))) :=
  h ← on_table (hash_alloc 20);
  on_table (_ ← hash_insert h 2 2;
            _ ← hash_insert h 6 6;
            _ ← hash_insert h 22 22;
            _ ← hash_insert h 37 37;
            _ ← hash_insert h 65 65;
            display fuel h).

Definition benchmark_sizes : list Z := [Z.shiftl 1 10; Z.shiftl 1 20; 0].
Definition benchmark_steps : list Z := [1; 2; 7; 15; 63; 64; 65; 128; 256; 512; 12345; 0].

Definition benchmark (fuel : nat) : C (list (option (list Z))) :=
  for_nonzero benchmark_sizes (λ sz,
    for_nonzero benchmark_steps (λ step, _ ← benchmark_size sz step; mret ()));;
  my_benchmark fuel.
End ops.

(** ** Every item alone in its bucket *)

(** The multiples of the step below [bound] are in the table, each item alone
    in the bucket of its index; the other buckets are empty. *)
Definition loaded (st : hrun cstate) (h sz step bound : Z) (B : list (list Z)) : Prop :=
  holds_items (hr_table st) h B ∧ Z.of_nat (length B) = sz ∧
  ∀ i b, B !! i = Some b →
    if decide (Z.of_nat i < bound ∧ Z.of_nat i mod step = 0)
    then ∃ a, b = [a] ∧ hr_items st !! a = Some (HItem (Z.of_nat i) 0)
    else b = [].

Lemma bucket_of_small n k : 0 ≤ k < n → n < 2 ^ 31 → bucket_of n k = k.
Proof.
  intros Hk Hn. unfold bucket_of. destruct (int_index k) as [-> ->]; [lia|]. by apply Z.mod_small.
Qed.

Section runs.
Context `{!Calloc cobj, !Calloc hitem}.
Context (N : nat) (Hobjs : serves (V := cobj) N) (Hitems : serves (V := hitem) N).
Context (sz step : Z) (Hstep : 0 < step) (Hsz : 0 < sz < 2 ^ 31) (Hmax : sz + step ≤ 2 ^ 64).

(** After [j] turns of the insertion at the verbosity [v]; there were [n]
    objects and [k] items. *)
Definition after_turns (v h : Z) (n k j : nat) (st : hrun cstate) : Prop :=
  (∃ B, loaded st h sz step (Z.of_nat j * step) B) ∧ base.size (hr_items st) = (k + j)%nat ∧
  (objects (hr_table st) ≤ n + 2 * j)%nat ∧ verbose st = v.

Lemma next_multiple j k :
  (k < Z.of_nat (S j) * step ∧ k mod step = 0) ↔ k = Z.of_nat j * step ∨ (k < Z.of_nat j * step ∧ k mod step = 0).
Proof.
  split.
  - intros [Hk Hd]. apply Z.mod_divide in Hd as [q ->]; [|lia].
    destruct (decide (q = Z.of_nat j)); [by left; subst|right]. split; [nia|]. apply Z.mod_mul. lia.
  - intros [->|[Hk Hd]]; (split; [nia|]); [apply Z.mod_mul; lia|done].
Qed.

Lemma loaded_add st st' h j B a :
  loaded st h sz step (Z.of_nat j * step) B → Z.of_nat j * step < sz →
  hr_items st !! a = None → hr_items st' = <[a := HItem (Z.of_nat j * step) 0]> (hr_items st) →
  holds_items (hr_table st') h (add_item B (Z.of_nat j * step) a) →
  loaded st' h sz step (Z.of_nat (S j) * step) (add_item B (Z.of_nat j * step) a).
Proof.
  intros (_ & Hlen & HB) Hj Hfresh Hits Hh. set (k := Z.of_nat j * step) in *.
  assert (0 ≤ k) by (unfold k; lia).
  assert (add_item B k a = <[Z.to_nat k := [a]]> B) as Hadd.
  { unfold add_item. rewrite Hlen, bucket_of_small by lia. f_equal.
    destruct (lookup_lt_is_Some_2 B (Z.to_nat k)) as [b Hb]; [lia|]. rewrite Hb. cbn.
    specialize (HB _ _ Hb). rewrite decide_False in HB by lia. by subst b. }
  rewrite Hadd in *. split; [done|]. split; [by rewrite length_insert|].
  intros i b Hib. rewrite Hits.
  assert (∀ x it, hr_items st !! x = Some it → <[a := HItem k 0]> (hr_items st) !! x = Some it) as Hold.
  { intros x it Hx. rewrite lookup_insert_ne; [done|]. intros ->. congruence. }
  destruct (decide (i = Z.to_nat k)) as [->|Hi].
  - rewrite list_lookup_insert_eq in Hib by lia. injection Hib as <-.
    rewrite decide_True by (apply next_multiple; left; lia).
    exists a. rewrite lookup_insert_eq. split; [done|]. by rewrite Z2Nat.id.
  - rewrite list_lookup_insert_ne in Hib by done. specialize (HB i b Hib).
    destruct (decide (Z.of_nat i < k ∧ Z.of_nat i mod step = 0)) as [Hd|Hd].
    + rewrite decide_True by (apply next_multiple; by right). destruct HB as (x & -> & Hx). exists x. auto.
    + rewrite decide_False; [done|]. rewrite next_multiple. fold k. intros [?|?]; [lia|done].
Qed.

Lemma insert_turn v h n k j st :
  (n + 2 * S (turns sz step) ≤ N)%nat → (k + turns sz step ≤ N)%nat → (j < turns sz step)%nat →
  after_turns v h n k j st → wp (chain_item_insert h (Z.of_nat j * step)) (λ _ st', after_turns v h n k (S j) st') st.
Proof.
  intros HN Hk Hj ((B & HB) & Hit & Hob & Hv). assert (Z.of_nat j * step < sz) by (apply turns_lt; lia).
  assert (0 ≤ Z.of_nat j * step) by lia. pose proof HB as (Hh & _).
  eapply wp_mono.
  { apply (item_insert_table (hash_insert h) (λ a e t, (e = 0 ∧ holds_items t h (add_item B (Z.of_nat j * step) a)) ∧
      more_objects 2 (hr_table st) t)); [lia|apply Hitems; lia|].
    intros a Ha _. apply (wpf_serves (V := cobj) N); [done|].
    apply (wpf_within (R := more_objects) 2); [apply _|]. apply chain_insert_spec; [lia|done]. }
  intros e st' (a & _ & Hfresh & [[-> Hh'] [Hmore Hv']] & Hits). cbn in Hits.
  split; [|split; [|split; [lia|cbn in *; congruence]]].
  - exists (add_item B (Z.of_nat j * step) a). by eapply (loaded_add st st').
  - rewrite Hits, map_size_insert_None by done. lia.
Qed.

(** A multiple's bucket is not empty. *)
Lemma check_turn h j st :
  (j < turns sz step)%nat → (∃ B, loaded st h sz step (Z.of_nat (turns sz step) * step) B) →
  item_check_present h (Z.of_nat j * step) st = Ok ((), st).
Proof.
  intros Hj (B & (t & sl & L & Htb & HBL) & Hlen & HB). assert (Z.of_nat j * step < sz) as Hjs by (apply turns_lt; lia).
  destruct (chain_bucket (hr_table st) h t sl L (Z.of_nat j * step) Htb) as (i & hp & l & Hi & Hhp & Hl & Hb).
  pose proof (ct_size _ _ _ _ _ Htb) as [Hts _].
  assert (ChainDefs.size t = sz) as Htsz. { rewrite Hts, <- Hlen, HBL. by rewrite length_fmap. }
  rewrite Htsz, bucket_of_small in Hi by lia.
  destruct (chain_get_spec (hr_table st) h t sl L (Z.of_nat j * step) i hp l) as [_ Hlook]; try done.
  { by rewrite Htsz, bucket_of_small by lia. }
  unfold item_check_present, mbind, M_bind, on_table. rewrite Hlook.
  assert (B !! i = Some (items (hr_table st) l)) as HBi by (by rewrite HBL, list_lookup_fmap, Hl).
  specialize (HB i _ HBi). rewrite decide_True in HB.
  2:{ rewrite Hi. split; [nia|apply Z.mod_mul; lia]. }
  destruct HB as (a & Ha & _). destruct Hb as [[_ ->]|[Hnz _]]; [done|]. rewrite truthy_nz by done. by destruct st.
Qed.

Lemma chain_benchmark_size_spec st :
  cmem (hr_table st) !! 0 = None → (base.size (hr_items st) + turns sz step ≤ N)%nat →
  (objects (hr_table st) + 2 * (3 + turns sz step) ≤ N)%nat →
  wp (benchmark_size sz step) (λ h st', (∃ B, loaded st' h sz step (Z.of_nat (turns sz step) * step) B) ∧
    base.size (hr_items st') = (base.size (hr_items st) + turns sz step)%nat ∧
    (objects (hr_table st') ≤ objects (hr_table st) + 2 * (3 + turns sz step))%nat ∧ verbose st' = verbose st) st.
Proof.
  intros H0 Hno HN. unfold benchmark_size. rewrite wp_bind, wp_on_table. eapply wp_mono.
  { apply (wp_within (R := more_objects) 3); [apply _|]. apply (chain_alloc_spec N _ sz); [lia|done|lia]. }
  intros h t [[(tt' & m & Hlt & Hf)|[Hh0 Hh]] [Hmore Hv]]; [by destruct (Hobjs tt' m)|].
  set (st1 := HRun t _ _). set (n := (objects (hr_table st) + 3)%nat). set (v := verbose st). set (k := base.size (hr_items st)) in *.
  assert (after_turns v h n k 0 st1) as Hst1.
  { split; [|split; [cbn; lia|split; [unfold n; cbn; lia|exact Hv]]].
    exists (replicate (Z.to_nat sz) []). split; [done|]. split; [rewrite length_replicate; lia|].
    intros i b [-> _]%lookup_replicate. rewrite decide_False; [done|]. intros [Hi _]. change (Z.of_nat 0) with 0 in Hi. lia. }
  rewrite wp_bind. unfold benchmark_insert. eapply wp_mono.
  { apply (for_up_rule (after_turns v h n k)); [done|lia|done|done|]. intros j st2 Hj Hst2. rewrite wp_bind.
    eapply wp_mono; [apply (insert_turn v h n k j st2); [unfold n; lia|done..]|]. intros e st3 ?. by rewrite wp_ret. }
  intros [] st2 Hst2. rewrite wp_bind. unfold benchmark_search. eapply wp_mono.
  { apply (for_up_rule (λ _, after_turns v h n k (turns sz step))); [done|lia|done|done|].
    intros j st3 Hj Hst3. unfold wp. rewrite check_turn; [done|done|apply Hst3]. }
  intros [] st3 (HB & Hit & Hob & Hv3). rewrite wp_ret. split; [done|]. split; [done|].
  split; [unfold n in Hob; lia|exact Hv3].
Qed.
End runs.

(** ** All the runs *)

(** The items of the runs with the sizes [szs], that nothing frees. *)
Definition run_items (szs steps : list Z) : nat :=
  sum_list_with (λ sz, sum_list_with (turns sz) steps) szs.

Definition all_items : nat := run_items (nonzeros benchmark_sizes) (nonzeros benchmark_steps).

#[local] Opaque turns.

Section all.
Context `{!Calloc cobj, !Calloc hitem}.
Context (N : nat) (Hobjs : serves (V := cobj) N) (Hitems : serves (V := hitem) N).

(** The state after [i] runs that took [j] items, at the verbosity [v]. *)
Definition after_runs (v : Z) (n k i j : nat) (st : hrun cstate) : Prop :=
  cmem (hr_table st) !! 0 = None ∧ base.size (hr_items st) = (k + j)%nat ∧
  (objects (hr_table st) ≤ n + 6 * i + 2 * j)%nat ∧ verbose st = v.

Lemma one_run v n k i j sz step st :
  0 < step → 0 < sz < 2 ^ 31 → sz + step ≤ 2 ^ 64 →
  (k + j + turns sz step ≤ N)%nat → (n + 6 * S i + 2 * (j + turns sz step) ≤ N)%nat → after_runs v n k i j st →
  wp (benchmark_size sz step) (λ _ st', after_runs v n k (S i) (j + turns sz step) st') st.
Proof.
  intros Hs Hsz Hmax Hk Hn (H0 & Hit & Hob & Hv). eapply wp_mono.
  { apply (chain_benchmark_size_spec N Hobjs Hitems sz step Hs Hsz Hmax st); [done|lia|lia]. }
  intros h st' ((B & Hl & _) & Hit' & Hob' & Hv'). destruct Hl as (t & sl & L & Htb & _).
  split; [apply (ct_null _ _ _ _ _ Htb)|]. split; [lia|]. split; [lia|congruence].
Qed.
Lemma all_runs_spec st :
  cmem (hr_table st) !! 0 = None → (base.size (hr_items st) + all_items ≤ N)%nat →
  (objects (hr_table st) + 6 * 22 + 2 * all_items ≤ N)%nat →
  wp (for_nonzero benchmark_sizes (λ sz,
        for_nonzero benchmark_steps (λ step, _ ← benchmark_size sz step; mret ())))
    (λ _ st', after_runs (verbose st) (objects (hr_table st)) (base.size (hr_items st))
      (11 * length (nonzeros benchmark_sizes)) all_items st') st.
Proof.
  intros H0 Hk Hn. set (n := objects (hr_table st)) in *. set (v := verbose st) in *. set (k := base.size (hr_items st)) in *.
  assert (all_items = run_items (nonzeros benchmark_sizes) (nonzeros benchmark_steps)) as Hall0 by reflexivity.
  rewrite Hall0. set (steps := nonzeros benchmark_steps) in *.
  apply (for_nonzero_rule (λ pre st', after_runs v n k (11 * length pre) (run_items pre steps) st'));
    [apply (bool_decide_unpack _); by vm_compute| |].
  2:{ split; [done|]. split; [symmetry; apply Nat.add_0_r|]. split; [unfold n; cbn; lia|done]. }
  intros pre sz post st1 Hpre Hst1.
  assert (all_items = (run_items pre steps + (sum_list_with (turns sz) steps + run_items post steps))%nat) as Hall.
  { rewrite Hall0, Hpre. unfold run_items. by rewrite sum_list_with_app. }
  assert (length pre < 2)%nat as Hlen.
  { assert (length (nonzeros benchmark_sizes) = 2)%nat as Hl2 by done. rewrite Hpre, length_app in Hl2. cbn in Hl2. lia. }
  assert (0 < sz < 2 ^ 31) as Hsz.
  { assert (sz ∈ nonzeros benchmark_sizes) as Hin by (rewrite Hpre; apply elem_of_app; right; left).
    assert (Forall (λ x, 0 < x < 2 ^ 31) (nonzeros benchmark_sizes)) as Hf by (repeat constructor; by vm_compute).
    by apply (proj1 (list.Forall_forall _ _) Hf). }
  assert (run_items (pre ++ [sz]) steps = (run_items pre steps + sum_list_with (turns sz) steps)%nat) as Hnew.
  { unfold run_items. rewrite sum_list_with_app. cbn. lia. }
  rewrite length_app, Hnew. cbn [length]. replace (11 * (length pre + 1))%nat with (11 * length pre + length steps)%nat
    by (change (length steps) with 11%nat; lia).
  apply (for_nonzero_rule (λ done st', after_runs v n k (11 * length pre + length done)
    (run_items pre steps + sum_list_with (turns sz) done) st')); [apply (bool_decide_unpack _); by vm_compute| |].
  2:{ cbn [length sum_list_with foldr]. by rewrite !Nat.add_0_r. }
  intros dn step rest st2 Hdn Hst2. fold steps in Hdn.
  assert (0 < step ≤ 2 ^ 31) as Hstep.
  { assert (step ∈ steps) as Hin by (rewrite Hdn; apply elem_of_app; right; left).
    assert (Forall (λ x, 0 < x ≤ 2 ^ 31) steps) as Hf by (repeat constructor; by vm_compute).
    by apply (proj1 (list.Forall_forall _ _) Hf). }
  assert (sum_list_with (turns sz) steps =
    (sum_list_with (turns sz) dn + (turns sz step + sum_list_with (turns sz) rest))%nat) as Hsum.
  { rewrite Hdn, sum_list_with_app. done. }
  assert (length dn < 11)%nat as Hd.
  { assert (length steps = 11)%nat as Hl by done. rewrite Hdn, length_app in Hl. cbn in Hl. lia. }
  rewrite wp_bind. eapply wp_mono.
  { apply (one_run v n k (11 * length pre + length dn) (run_items pre steps + sum_list_with (turns sz) dn) sz step st2);
      [lia|done|lia|lia|lia|done]. }
  intros h st3 Hst3. rewrite wp_ret, length_app, sum_list_with_app. cbn [length sum_list_with foldr].
  replace (11 * length pre + (length dn + 1))%nat with (S (11 * length pre + length dn)) by lia.
  by rewrite Nat.add_0_r, Nat.add_assoc.
Qed.

(** What [display] prints at the end: the keys 2 and 22 share a bucket. *)
Definition last_display : list (option (list Z)) :=
  shown <$> foldl (λ B k, add_item B k k) (replicate 20 []) [2; 6; 22; 37; 65].

Lemma chain_my_benchmark_spec fuel st :
  (2 < fuel)%nat → cmem (hr_table st) !! 0 = None → (objects (hr_table st) + 13 ≤ N)%nat →
  wp (my_benchmark fuel) (λ out st', out = printed (hr_table st) last_display ∧ hr_items st' = hr_items st) st.
Proof.
  intros Hf H0 HN. unfold my_benchmark. rewrite wp_bind, wp_on_table. eapply wp_mono.
  { apply (wp_within (R := more_objects) 3); [apply _|]. apply (chain_alloc_spec N _ 20); [lia|done|lia]. }
  intros h t [[(tt' & m & Hlt & Hno)|[_ Hh]] [Hmore Hv]]; [by destruct (Hobjs tt' m)|].
  rewrite wp_on_table. cbn [hr_table hr_items]. apply (wpf_serves (V := cobj) N); [done|].
  do 5 (rewrite wpf_bind; eapply wpf_mono;
    [apply (wpf_within (R := more_objects) 2); [apply _|apply chain_insert_spec; [lia|exact Hh]]|];
    clear Hh; intros ? ? [[_ Hh] [? ?]]).
  unfold wpf. rewrite (display_spec _ h _ fuel Hh).
  { split; [|done]. unfold printed. replace (verbose (hr_table st)) with (verbose s'3) by congruence. done. }
  apply (List.Forall_impl (P := λ b, length b < 3)%nat); [intros b ?; lia|].
  apply (bool_decide_unpack _). by vm_compute.
Qed.

Lemma chain_benchmark_spec fuel st :
  (2 < fuel)%nat → cmem (hr_table st) !! 0 = None → (base.size (hr_items st) + all_items ≤ N)%nat →
  (objects (hr_table st) + 150 + 2 * all_items ≤ N)%nat →
  wp (benchmark fuel) (λ out st', out = printed (hr_table st) last_display ∧
    base.size (hr_items st') = (base.size (hr_items st) + all_items)%nat) st.
Proof.
  intros Hf H0 Hk Hn. pose proof (all_runs_spec st H0 Hk) as Hruns. clear Hk. revert Hruns Hn.
  generalize all_items as n. intros n Hruns Hn.
  unfold benchmark. rewrite wp_bind. eapply wp_mono; [apply Hruns; lia|].
  intros [] st1 (H01 & Hit & Hob & Hv1). change (length (nonzeros benchmark_sizes)) with 2%nat in Hob.
  eapply wp_mono; [apply chain_my_benchmark_spec; [done|done|lia]|]. intros out st2 [-> ->]. split; [|done].
  unfold printed. by replace (verbose (hr_table st1)) with (verbose (hr_table st)) by done.
Qed.
End all.

#[local] Transparent turns.

(** As many items as a program that calls [benchmark] leaves. *)
Lemma all_items_count : Z.of_nat all_items = 1857965.
Proof.
  assert (∀ sz l, 0 < sz → Forall (λ x, 0 < x) l →
    Z.of_nat (sum_list_with (turns sz) l) = foldr Z.add 0 ((λ x, (sz + x - 1) / x) <$> l)) as Hsum.
  { intros sz l Hsz. induction 1 as [|x l Hx _ IH]; [done|]. cbn [sum_list_with foldr fmap list_fmap].
    rewrite Nat2Z.inj_add, IH. unfold turns. rewrite Z2Nat.id; [done|]. apply Z.div_pos; lia. }
  unfold all_items, run_items. change (nonzeros benchmark_sizes) with [Z.shiftl 1 10; Z.shiftl 1 20].
  cbn [sum_list_with foldr]. rewrite Nat.add_0_r, Nat2Z.inj_add, !Hsum; [by vm_compute|done| |done|];
    (repeat constructor; by vm_compute).
Qed.
