(* ===== verification/Mains.v ===== *)
(** * The programs: main.c of the tree, the hot ring and the chaining table

    The three files are the same: the options are read with [getopt], the seed
    is printed, the benchmark runs, and the program exits with 0. *)
From Stdlib Require Import Ascii String.
From S2P Require Import Prelude Loops HotringDefs HashItems ChainDefs RadixDefs ItemDefs.
From S2P Require HotringRuns ChainRuns.

#[local] Open Scope string_scope.
#[local] Open Scope Z_scope.

(** ** getopt of the C library

    What it returns, an option with its argument or a question mark, in turn.
    Words that are not options are passed over, and [--] ends the options. *)

Inductive opt := Opt (c : ascii) (optarg : option string).

(** Whether a character is an option, and whether it takes an argument. *)
Fixpoint opt_kind (optstring : string) (c : ascii) : option bool :=
  match optstring with
  | EmptyString => None
  | String d rest =>
      if Ascii.eqb c d && negb (Ascii.eqb c ":")
      then Some (match rest with String e _ => Ascii.eqb e ":" | EmptyString => false end)
      else opt_kind rest c
  end.

(** The options of one word, and whether the last took the next word. *)
Fixpoint cluster (optstring word : string) (next : option string) : list opt * bool :=
  match word with
  | EmptyString => ([], false)
  | String c rest =>
      match opt_kind optstring c with
      | Some true =>
          match rest, next with
          | String _ _, _ => ([Opt c (Some rest)], false)
          | EmptyString, Some arg => ([Opt c (Some arg)], true)
          | EmptyString, None => ([Opt "?" None], false)
          end
      | Some false => let '(os, used) := cluster optstring rest next in (Opt c None :: os, used)
      | None => let '(os, used) := cluster optstring rest next in (Opt "?" None :: os, used)
      end
  end.

Fixpoint getopt (optstring : string) (argv : list string) : list opt :=
  match argv with
  | [] => []
  | word :: argv =>
      if String.eqb word "--" then []
      else
        match word with
        | String "-" (String _ _ as word) =>
            let '(os, used) := cluster optstring word (head argv) in
            os ++ match used, argv with
                  | true, _ :: argv => getopt optstring argv
                  | _, _ => getopt optstring argv
                  end
        | _ => getopt optstring argv
        end
  end.

(** ** strtoul of the C library, with base 0 *)

Definition is_space (c : ascii) : bool := let n := Z.of_N (N_of_ascii c) in (n =? 32) || ((9 <=? n) && (n <=? 13)).

Definition digit (c : ascii) : Z :=
  let n := Z.of_N (N_of_ascii c) in
  if (48 <=? n) && (n <=? 57) then n - 48
  else if (97 <=? n) && (n <=? 122) then n - 87
  else if (65 <=? n) && (n <=? 90) then n - 55
  else 36.

Fixpoint digits_value (base : Z) (s : string) (acc : Z) : Z :=
  match s with
  | String c s => if digit c <? base then digits_value base s (acc * base + digit c) else acc
  | EmptyString => acc
  end.

Definition magnitude (s : string) : Z :=
  match s with
  | String "0" (String "x" (String c _ as s)) | String "0" (String "X" (String c _ as s)) =>
      if digit c <? 16 then digits_value 16 s 0 else 0
  | String "0" s => digits_value 8 s 0
  | s => digits_value 10 s 0
  end.

Fixpoint strtoul (s : string) : Z :=
  match s with
  | EmptyString => 0
  | String c rest =>
      if is_space c then strtoul rest
      else
        let signed := Ascii.eqb c "-" || Ascii.eqb c "+" in
        let v := magnitude (if signed then rest else s) in
        if 2 ^ 64 <=? v then 2 ^ 64 - 1 else if Ascii.eqb c "-" then u64 (- v) else v
  end.

(** ** main *)

Section main.
Context {S A : Type} `{!Verbose S} (benchmark : M S A).

(** [long_run], which nothing reads, and the seed. *)
Record settings := Settings { long_run : bool; seed : Z }.

Fixpoint options_loop (os : list opt) (s : settings) : M S settings :=
  match os with
  | [] => mret s
  | Opt c optarg :: os =>
      if Ascii.eqb c "l" then options_loop os (Settings true (seed s))
      else if Ascii.eqb c "s" then
        match optarg with
        | Some arg => options_loop os (Settings (long_run s) (u32 (strtoul arg)))
        | None => fault
        end
      else if Ascii.eqb c "v" then inc_verbose;; options_loop os s
      else options_loop os s
  end.

(** The seed it prints, what the benchmark prints and the exit status; [now]
    is what [time] returns, and [srand] has no effect on what follows. *)
Definition main (now : Z) (argv : list string) : M S (Z * A * Z) :=
  s ← options_loop (getopt "ls:v" argv) (Settings false (u32 now));
  out ← benchmark;
  mret (seed s, out, 0).
End main.

Definition radix_main `{!Calloc radix_tree_node, !Calloc item} (slot_addr : slotref → Z) (ret : bool) :=
  main (ItemDefs.benchmark slot_addr ret).
Definition hotring_main `{!Calloc obj} := main HotringRuns.benchmark.
Definition chain_main `{!Calloc cobj, !Calloc hitem} (fuel : nat) := main (ChainRuns.benchmark fuel).

(** ** What the options say *)

Definition seed_option (o : opt) : option Z :=
  let 'Opt c optarg := o in if Ascii.eqb c "s" then (λ arg, u32 (strtoul arg)) <$> optarg else None.

(** The last seed given, or the time. *)
Definition chosen_seed (now : Z) (argv : list string) : Z :=
  default (u32 now) (list.last (omap seed_option (getopt "ls:v" argv))).

Definition is_verbose (o : opt) : Prop := let 'Opt c _ := o in c = "v"%char.

#[export] Instance is_verbose_dec o : Decision (is_verbose o).
Proof. destruct o. apply _. Defined.

(** How often the option v is given. *)
Definition verbosity (argv : list string) : nat := length (filter is_verbose (getopt "ls:v" argv)).
