(* ===== verification/ListProps.v ===== *)
(** * Linked lists and the chaining hash table: the properties *)
From S2P Require Import Prelude Loops DList DListInv DListOps HList ChainDefs ChainInv ChainOps HashItems ChainRuns.

(** ** Example lists *)

(** Two heads, 1 and 2, and the entries 10 to 14; 10, 11 and 12 hang off 1. *)
Definition lists0 : gmap Z list_head :=
  list_to_map [(1, LH 10 12); (10, LH 11 1); (11, LH 12 10); (12, LH 1 11); (2, LH 13 13); (13, LH 2 2); (14, LH 0 0)].

Definition chainb (s : gmap Z list_head) (l : list Z) : bool :=
  forallb (λ '(a, b), bool_decide (nx s a = Some b ∧ pv s b = Some a)) (zip l (tl l)).

Lemma chainb_ok (s : gmap Z list_head) l : chainb s l = true → chain s l.
Proof.
  induction l as [|a [|b l] IH]; [done..|]. unfold chainb. cbn [tl zip zip_with forallb]. rewrite andb_true_iff.
  intros [H1%bool_decide_eq_true H2]. split; [done|]. by apply IH.
Qed.

Lemma lists0_1 : dlist lists0 1 [10; 11; 12].
Proof. split; [done|]. split; [apply (bool_decide_unpack _); by vm_compute|]. apply chainb_ok. by vm_compute. Qed.

Lemma lists0_2 : dlist lists0 2 [13].
Proof. split; [done|]. split; [apply (bool_decide_unpack _); by vm_compute|]. apply chainb_ok. by vm_compute. Qed.

(** ** Doubly linked lists *)

(** C6: any sequence of additions at either end, deletions and moves on a list, over
    any memory that holds list heads, leaves the list these operations make of
    it, linked both ways.  Nothing else changes: no list head but that of the
    list, its entries and those the operations name, and nothing beside list
    heads; an entry that was deleted, and not added again, holds the two poison
    values, or links to itself where it was reinitialised. *)
Theorem dlist_ops_refine_list {S : Type} `{!ListMem S} (s : S) (h : Z) (l : list Z) (os : list dop) :
  dlist s h l → dops_legal s h l os →
  wp (run_dops h os) (λ _ s', let l' := foldl (λ l o, dop_list o l) l os in
    dlist s' h l' ∧ frame (h :: l ++ (dop_entry <$> os)) s s' ∧
    holds_left h l' (foldl (λ left o, dop_left o left) ∅ os) s') s.
Proof. intros. apply run_dops_spec; [done..|]. intros x e Hx. by rewrite lookup_empty in Hx. Qed.

Lemma dlist_ops_refine_list_witness :
  let s' := exec (run_dops 1 [AddTail 14; Del 11; Move 12; MoveTail 10]) lists0 in
  dlist s' 1 [12; 14; 10] ∧ lh_get s' 13 = lh_get lists0 13 ∧ lh_get s' 11 = Some (LH LIST_POISON1 LIST_POISON2).
Proof.
  assert (dops_legal lists0 1 [10; 11; 12] [AddTail 14; Del 11; Move 12; MoveTail 10]) as Hl.
  { cbn. repeat split; try (apply (bool_decide_unpack _); by vm_compute). }
  destruct (wp_exec _ _ lists0 () (dlist_ops_refine_list lists0 1 [10; 11; 12] _ lists0_1 Hl) eq_refl)
    as (Hd & (_ & _ & Hf) & Hleft).
  split; [exact Hd|]. split.
  - apply Hf. apply (bool_decide_unpack _). by vm_compute.
  - apply (Hleft 11). by vm_compute.
Defined.

(** Joining a list to another puts its entries, in order, before the other's,
    reinitialises its head, and touches nothing else. *)
Theorem list_splice_init_joins {S : Type} `{!ListMem S} (s : S) (g h : Z) (l m : list Z) :
  dlist s g l → dlist s h m → (∀ x, x ∈ g :: l → x ∉ h :: m) →
  wp (list_splice_init g h) (λ _ s',
    dlist s' h (l ++ m) ∧ dlist s' g [] ∧ frame (g :: h :: l ++ m) s s') s.
Proof.
  intros. eapply wp_mono; [by apply list_splice_init_spec|]. intros [] s' [[? ?] ?]. done.
Qed.

Lemma list_splice_init_joins_witness :
  dlist (exec (list_splice_init 1 2) lists0) 2 [10; 11; 12; 13] ∧ dlist (exec (list_splice_init 1 2) lists0) 1 [].
Proof.
  assert (∀ x : Z, x ∈ [1; 10; 11; 12] → x ∉ [2; 13]) as Hdis by (intros x; set_solver).
  destruct (wp_exec _ _ lists0 () (list_splice_init_joins lists0 1 2 [10; 11; 12] [13] lists0_1 lists0_2 Hdis) eq_refl)
    as (H1 & H2 & _). split; [exact H1|exact H2].
Defined.

(** C28: the loops visit every entry once, in order or in reverse, and end; the
    safe loop may take each entry out as it visits it, and leaves every one
    of them and the head an empty list. *)
Theorem list_loops {S : Type} `{!ListMem S} (s : S) (h : Z) (l : list Z) (fuel : nat) :
  dlist s h l → (length l < fuel)%nat →
  list_for_each fuel h [] visit s = Ok (l, s) ∧
  list_for_each_prev fuel h [] visit s = Ok (reverse l, s) ∧
  wp (list_for_each_safe fuel h [] clear_step)
    (λ r s', r = l ∧ dlist s' h [] ∧ (∀ a, a ∈ l → dlist s' a []) ∧ frame (h :: l) s s') s.
Proof.
  intros Hr Hf. split; [|split; [|by apply clear_spec]].
  - destruct (proj1 (wp_returns _ _ _) (visit_forward s h l fuel Hr Hf)) as (? & ? & -> & -> & ->). done.
  - destruct (proj1 (wp_returns _ _ _) (visit_backward s h l fuel Hr Hf)) as (? & ? & -> & -> & ->). done.
Qed.

Lemma list_loops_witness :
  list_for_each_prev 4 1 [] visit lists0 = Ok ([12; 11; 10], lists0) ∧
  dlist (exec (list_for_each_safe 4 1 [] clear_step) lists0) 1 [].
Proof.
  assert (length [10; 11; 12] < 4)%nat as Hf by (cbn; lia).
  destruct (list_loops lists0 1 [10; 11; 12] 4 lists0_1 Hf) as (_ & H2 & H3). split; [exact H2|].
  exact (proj1 (proj2 (wp_exec _ _ lists0 [10; 11; 12] H3 eq_refl))).
Defined.

(** A deletion takes the entry out of its list and marks it: with the two poison
    values in the header's version, with NULL in the one of list.c. *)
Theorem list_del_marks {S : Type} `{!ListMem S} (s : S) (h : Z) (p : list Z) (x : Z) (q : list Z) :
  dlist s h (p ++ x :: q) →
  wp (list_del x) (λ _ s', dlist s' h (p ++ q) ∧ frame (h :: p ++ x :: q) s s' ∧
    lh_get s' x = Some (LH LIST_POISON1 LIST_POISON2)) s ∧
  wp (ListC.list_del x) (λ _ s', dlist s' h (p ++ q) ∧ frame (h :: p ++ x :: q) s s' ∧
    lh_get s' x = Some (LH 0 0)) s.
Proof.
  intros Hr. split; [eapply wp_mono; [by apply list_del_spec|]; intros [] s' [[? ?] ?]; done|].
  assert (is_Some (lh_get s x)) as Hx by (apply (dlist_node s h (p ++ x :: q)); [done|set_solver]).
  unfold ListC.list_del. eapply (take_out s h p x q (λ _, set_next x 0;; set_prev x 0)); [done|].
  intros l' z s1 Heq Hw. writes.
  match goal with H : wrote _ _ s ?s' |- _ => rename H into Hw2; set (s2 := s') in * end.
  split; [|split].
  - eapply (unlinked s s2 h p x q l' z [(x, 0)] [(x, 0)]); [done..|]. cbn. set_solver.
  - eapply (out_frame s s2 h p x q l' z [(x, 0)] [(x, 0)]); [done..|]. cbn. set_solver.
  - destruct Hw2 as (_ & Hn & Hp & _). specialize (Hn x). specialize (Hp x). cbn in Hn, Hp.
    rewrite decide_True in Hn, Hp by done. unfold nx, pv in *. destruct (lh_get s2 x) as [[??]|]; naive_solver.
Qed.

Lemma list_del_marks_witness :
  dlist (exec (ListC.list_del 11) lists0) 1 [10; 12] ∧ lh_get (exec (ListC.list_del 11) lists0) 11 = Some (LH 0 0).
Proof.
  destruct (list_del_marks lists0 1 [10] 11 [12] lists0_1) as [_ H].
  destruct (wp_exec _ _ lists0 () H eq_refl) as (H1 & _ & H2). split; [exact H1|exact H2].
Defined.

(** ** Singly headed lists *)

(** C16: any sequence of insertions at the head, before and after an entry, and of
    deletions leaves a hlist whose entries are the ones a plain list would
    have, each pointing back to the pointer that leads to it. *)
Theorem hlist_ops_refine_list (st : hmem) (h : Z) (l : list Z) (os : list lop) (l' : list Z) :
  hlist st h l → h ≠ 0 → lops_steps st h l os l' → wp (run_lops h os) (λ _ st', hlist st' h l') st.
Proof. apply run_lops_spec. Qed.

Definition hlist0 : hmem := list_to_map [(8, HHead 0); (16, HNode 0 0); (32, HNode 0 0); (48, HNode 0 0)].

Lemma hlist_ops_refine_list_witness :
  hlist (exec (run_lops 8 [PushHead 16; After 16 32; Before 48 16; DropInit 16]) hlist0) 8 [48; 32].
Proof.
  assert (hlist hlist0 8 []) as Hl.
  { split; [split; [by vm_compute|done]|]. split; [apply NoDup_singleton|]. apply not_elem_of_nil. }
  assert (lops_steps hlist0 8 [] [PushHead 16; After 16 32; Before 48 16; DropInit 16] [48; 32]) as Hs.
  { eapply lss_cons; [apply step_push| |].
    { intros n ->%list_elem_of_singleton. split; [by do 2 eexists|]. split; [set_solver|lia]. }
    eapply lss_cons; [apply (step_after [] 16 [])| |].
    { intros n ->%list_elem_of_singleton. split; [by do 2 eexists|]. split; [set_solver|lia]. }
    eapply lss_cons; [apply (step_before [] 16 [32])| |].
    { intros n ->%list_elem_of_singleton. split; [by do 2 eexists|]. split; [set_solver|lia]. }
    eapply lss_cons; [apply (step_drop_init [48] 16 [32])| |apply lss_nil]. by intros n ?%elem_of_nil. }
  exact (wp_exec _ _ hlist0 () (hlist_ops_refine_list hlist0 8 [] _ _ Hl ltac:(lia) Hs) eq_refl).
Defined.

(** ** The chaining hash table *)

#[local] Existing Instance bump.

(** C7: any sequence of insertions into a chaining table succeeds, unless libc
    refuses an object to a heap of fewer objects than two per insertion and
    those there are, and the table then holds every item in the bucket of its
    key, in the order of insertion; at a verbosity of 3 or more printing the
    table shows the buckets, and below it nothing. *)
Theorem chain_insertions_refine_buckets `{!Calloc cobj} (st : cstate) (h : Z) (B : list (list Z))
    (l : list (Z * Z)) (fuel : nat) :
  holds_items st h B → Forall (λ b, length b < fuel)%nat (foldl (λ B '(key, it), add_item B key it) B l) →
  wpf (no_memory (objects st + 2 * length l)) (es ← insert_all h l; d ← display fuel h; mret (es, d)) (λ '(es, d) st',
    Forall (λ e, e = 0) es ∧ holds_items st' h (foldl (λ B '(key, it), add_item B key it) B l) ∧
    d = if 3 <=? verbose st then shown <$> foldl (λ B '(key, it), add_item B key it) B l else []) st.
Proof.
  intros Hh Hf. rewrite wpf_bind. eapply wpf_mono; [by apply insert_all_spec; [lia|done]|]. intros es st' (Hes & Hh' & Hv).
  rewrite wpf_bind. unfold wpf at 1. rewrite (display_spec st' h _ fuel Hh' Hf), wpf_ret. unfold printed. by rewrite Hv.
Qed.

Definition cstart : cstate := CState ∅ 0 0.
Definition table4 : cstate := exec (hash_alloc 4) (set_verbose 3 cstart).

Lemma table4_holds : holds_items table4 16 [[]; []; []; []].
Proof.
  assert (hash_alloc 4 (set_verbose 3 cstart) = Ok (16, table4)) as Hrun by (by vm_compute).
  destruct (wp_exec _ _ (set_verbose 3 cstart) 16 (chain_alloc_spec 3 (set_verbose 3 cstart) 4 ltac:(apply Nat.leb_le; done) eq_refl ltac:(lia)) Hrun) as [(t & m & H)|[_ H]]; [|exact H].
  (* an allocation that fails elsewhere says nothing: look at the table itself *)
  exists (CH 4 32), [0; 0; 0; 0], [[]; []; []; []]. split; [|done]. split; try done.
  - intros i hp l Hi Hl. apply (lookup_replicate_1 4 0) in Hi as [-> _].
    apply (lookup_replicate_1 4 []) in Hl as [-> _]. by left.
  - constructor.
  - intros i j hp Hi _ Hne. by apply (lookup_replicate_1 4 0) in Hi as [-> _].
Qed.

Definition four_items : list (Z * Z) := [(5, 50); (9, 90); (2, 20); (-1, 10)].

Lemma chain_insertions_refine_buckets_witness :
  (λ r, match r with Ok (x, _) => Some x | _ => None end)
    ((es ← insert_all 16 four_items; d ← display 5 16; mret (es, d)) table4) =
    Some ([0; 0; 0; 0], [None; Some [50; 90]; Some [20]; Some [10]]) ∧
  wp (es ← insert_all (Calloc0 := first_fit) 16 four_items; d ← display 5 16; mret (es, d)) (λ '(es, d) st',
    Forall (λ e, e = 0) es ∧ holds_items st' 16 [[]; [50; 90]; [20]; [10]] ∧
    d = [None; Some [50; 90]; Some [20]; Some [10]]) table4.
Proof.
  split; [by vm_compute|]. eapply wpf_first_fit; [|].
  { apply (chain_insertions_refine_buckets (Calloc0 := first_fit) table4 16 [[]; []; []; []] four_items 5 table4_holds).
    apply (bool_decide_unpack _). by vm_compute. }
  by vm_compute.
Defined.

(** Neither lookup looks for the key: [hash_get] answers with the first node of
    the key's bucket, whatever key it was inserted for, and [hash_lookup]
    with the address of the bucket's head, which is not an item's. *)
Theorem chain_lookup_ignores_key (st : cstate) (h : Z) (t : chash) (sl : list Z) (L : list (list Z))
    (key : Z) (i : nat) (hp : Z) (l : list Z) :
  ctable st h t sl L → Z.of_nat i = bucket_of (size t) key → sl !! i = Some hp → L !! i = Some l →
  hash_get h key st = Ok (match l with [] => (0, None) | a :: _ => (1, Some a) end, st) ∧
  hash_lookup h key st = Ok (hp, st) ∧ (hp = 0 ↔ l = []) ∧ ∀ n, cmem st !! hp ≠ Some (CNode n).
Proof.
  intros Htb Hi Hhp Hl. destruct (chain_get_spec st h t sl L key i hp l Htb Hi Hhp Hl) as [H1 H2].
  split; [done|]. split; [done|].
  destruct (ct_bucket _ _ _ _ _ Htb i hp l Hhp Hl) as [[-> ->]|(Hne & a & l' & -> & Ha & _)].
  - split; [done|]. intros n. by rewrite (ct_null _ _ _ _ _ Htb).
  - split; [done|]. congruence.
Qed.

Definition table4_full : cstate := exec (insert_all 16 four_items) table4.

Lemma chain_lookup_ignores_key_witness :
  ∃ t sl L i hp l, ctable table4_full 16 t sl L ∧ L !! i = Some l ∧ sl !! i = Some hp ∧
    hash_lookup 16 13 table4_full = Ok (hp, table4_full) ∧ (hp = 0 ↔ l = []).
Proof.
  assert (∃ es, insert_all 16 four_items table4 = Ok (es, table4_full)) as [es Hrun] by (eexists; by vm_compute).
  destruct (wpf_exec _ _ _ table4 es (insert_all_spec 10 table4 16 _ four_items ltac:(done) table4_holds) Hrun)
    as (_ & (t & sl & L & Htb & _) & _).
  destruct (chain_bucket table4_full 16 t sl L 13 Htb) as (i & hp & l & Hi & Hhp & Hl & _).
  exists t, sl, L, i, hp, l. split; [exact Htb|]. split; [exact Hl|]. split; [exact Hhp|].
  destruct (chain_lookup_ignores_key table4_full 16 t sl L 13 i hp l Htb Hi Hhp Hl) as (_ & H1 & H2 & _).
  split; [exact H1|exact H2].
Defined.

(** ** The runs of the benchmark *)

(** A run of the benchmark with memory for its objects and items puts every
    multiple of its step below the size, an item each, alone into the bucket of
    its index, leaves the other buckets empty, and passes its checks; nothing it
    took is given back. *)
Theorem chain_benchmark_size_loads `{!Calloc cobj, !Calloc hitem} (N : nat) (sz step : Z) (st : hrun cstate) :
  serves (V := cobj) N → serves (V := hitem) N → 0 < step → 0 < sz < 2 ^ 31 → sz + step ≤ 2 ^ 64 →
  cmem (hr_table st) !! 0 = None → (base.size (hr_items st) + turns sz step ≤ N)%nat →
  (objects (hr_table st) + 2 * (3 + turns sz step) ≤ N)%nat →
  wp (benchmark_size sz step) (λ h st', ∃ B, holds_items (hr_table st') h B ∧ Z.of_nat (length B) = sz ∧
    (∀ i b, B !! i = Some b →
       if decide (Z.of_nat i mod step = 0)
       then ∃ a, b = [a] ∧ hr_items st' !! a = Some (HItem (Z.of_nat i) 0)
       else b = []) ∧
    base.size (hr_items st') = (base.size (hr_items st) + turns sz step)%nat) st.
Proof.
  intros Hobjs Hitems Hs Hsz Hmax H0 Hno HN. eapply wp_mono; [by eapply chain_benchmark_size_spec|].
  intros h st' [(B & Hh & Hlen & HB) [Hcount _]]. exists B. split; [done|]. split; [done|]. split; [|done].
  intros i b Hb. specialize (HB i b Hb). apply lookup_lt_Some in Hb.
  case_decide as Hd; case_decide as Hd'; try done; [by destruct Hd|].
  destruct Hd. split; [|done]. apply Z.mod_divide in Hd' as [q Hq]; [|lia].
  destruct (decide (q < Z.of_nat (turns sz step))); [nia|].
  assert (¬ turns sz step < turns sz step)%nat as Hlast by lia. rewrite turns_lt in Hlast by lia. nia.
Qed.

Definition run0 : hrun cstate := HRun cstart ∅ 0.

Lemma chain_benchmark_size_loads_witness :
  ∃ h st' B, benchmark_size (Calloc0 := first_fit) (Calloc1 := first_fit) 5 2 run0 = Ok (h, st') ∧
    holds_items (hr_table st') h B ∧ B !! 1%nat = Some [] ∧
    ∃ a, B !! 4%nat = Some [a] ∧ hr_items st' !! a = Some (HItem 4 0).
Proof.
  assert (serves (V := cobj) (Calloc0 := first_fit) 12) as Hc by (apply first_fit_memory; lia).
  assert (serves (V := hitem) (Calloc0 := first_fit) 12) as Hi by (apply first_fit_memory; lia).
  destruct (proj1 (wp_returns _ _ _) (chain_benchmark_size_loads (Calloc0 := first_fit) (Calloc1 := first_fit)
    12 5 2 run0 Hc Hi ltac:(lia) ltac:(lia) ltac:(lia) eq_refl ltac:(apply Nat.leb_le; by vm_compute)
    ltac:(apply Nat.leb_le; by vm_compute)))
    as (h & st' & Hrun & B & Hh & Hlen & HB & _).
  exists h, st', B. split; [exact Hrun|]. split; [exact Hh|].
  destruct (lookup_lt_is_Some_2 B 1) as [b1 Hb1]; [lia|]. destruct (lookup_lt_is_Some_2 B 4) as [b4 Hb4]; [lia|].
  pose proof (HB 1%nat b1 Hb1) as H1. pose proof (HB 4%nat b4 Hb4) as H4.
  rewrite decide_False in H1 by done. rewrite decide_True in H4 by done.
  split; [rewrite <- H1; exact Hb1|]. destruct H4 as (a & -> & Ha). exists a. split; [exact Hb4|exact Ha].
Defined.

(** What [main] prints at the verbosity 3: the keys 2 and 22 share a bucket. *)
Lemma chain_my_benchmark_prints :
  (λ r, match r with Ok (x, _) => Some (omap id (filter (λ b, b ≠ None) x)) | _ => None end) (my_benchmark 3 (set_verbose 3 run0)) =
    Some [[2; 22]; [65]; [6]; [37]].
Proof. by vm_compute. Qed.

(** The items of a present and an absent key: the first check passes, the
    second fails, and the other way round. *)
Lemma chain_checks_run :
  (λ r, match r with Ok (x, _) => Some x | _ => None end)
    ((h ← on_table (hash_alloc 4); _ ← chain_item_insert h 5; item_check_present h 1;;
      item_check_absent h 2;; item_lookup h 1) run0) = Some 48 ∧
  (λ r, match r with Fault => true | _ => false end)
    ((h ← on_table (hash_alloc 4); _ ← chain_item_insert h 5; item_check_absent h 1) run0) = true.
Proof. split; by vm_compute. Qed.
