(* ===== verification/MainProps.v ===== *)
(** * The programs: the properties

    The options are read without a fault, unless there are so many v that the
    counter overflows; then each program runs its benchmark, the tree's and the
    hot ring's to the end only when the option v is given less than three
    times. *)
From Stdlib Require Import Ascii String.
From S2P Require Import Prelude Loops HotringDefs HashItems ChainDefs ChainInv ChainOps RadixDefs ItemDefs ItemRuns HotringVerbose Mains.
From S2P Require HotringRuns ChainRuns HotringProps ItemProps ListProps.

#[local] Open Scope string_scope.
#[local] Open Scope Z_scope.

(** ** The options *)

(** The option s comes with its argument. *)
Definition has_seed (o : opt) : Prop := let 'Opt c optarg := o in c = "s"%char → is_Some optarg.

Lemma cluster_seed word next : Forall has_seed (fst (cluster "ls:v" word next)).
Proof.
  induction word as [|c word IH]; cbn [cluster]; [constructor|].
  destruct (opt_kind "ls:v" c) as [[]|] eqn:Hk.
  - destruct word, next; (constructor; [|constructor]); cbn; intros; by first [done|eexists].
  - destruct (cluster _ _ _) as [os used]. constructor; [|done]. cbn. by intros ->.
  - destruct (cluster _ _ _) as [os used]. by constructor.
Qed.

Lemma getopt_seed argv : Forall has_seed (getopt "ls:v" argv).
Proof.
  assert (∀ n argv, (length argv ≤ n)%nat → Forall has_seed (getopt "ls:v" argv)) as Hn; [|by eapply Hn].
  clear argv. induction n as [|n IH]; intros [|word argv] Hl; cbn [length] in Hl; [constructor|lia|constructor|].
  cbn [getopt]. case_match; [constructor|]. pose proof (IH argv ltac:(lia)) as Hargv.
  destruct word as [|c word]; [done|]. destruct (decide (c = "-"%char)) as [->|Hc].
  - destruct word as [|d word]; [done|]. pose proof (cluster_seed (String d word) (head argv)) as Hw.
    destruct (cluster _ _ _) as [os used]. apply List.Forall_app. split; [done|].
    destruct used, argv; try done. apply IH. cbn in Hl. lia.
  - destruct c as [[] [] [] [] [] [] [] []]; done.
Qed.

Section options.
Context {S : Type} `{!Verbose S}.

Lemma options_loop_spec os s st :
  Forall has_seed os → verbose st + Z.of_nat (length (filter is_verbose os)) < 2 ^ 31 →
  ∃ b, options_loop os s st =
    Ok (Settings b (default (seed s) (list.last (omap seed_option os))),
        set_verbose (verbose st + Z.of_nat (length (filter is_verbose os))) st).
Proof.
  intros Hos. revert s st. induction Hos as [|[c optarg] os Ho _ IH]; intros s st Hn.
  { exists (long_run s). cbn. rewrite Z.add_0_r, set_verbose_same. by destruct s. }
  cbn [options_loop has_seed] in *. rewrite filter_cons in Hn |- *. cbn [is_verbose] in Hn |- *.
  destruct (decide (c = "s"%char)) as [->|Hs].
  - destruct Ho as [arg ->]; [done|]. rewrite decide_False in Hn |- * by done.
    cbn [Ascii.eqb Bool.eqb]. cbn -[strtoul].
    destruct (IH (Settings (long_run s) (u32 (strtoul arg))) st Hn) as [b ->]. exists b. do 3 f_equal.
    rewrite last_cons. by destruct (list.last _).
  - assert (seed_option (Opt c optarg) = None) as Hno by (cbn; by rewrite (proj2 (Ascii.eqb_neq c "s"))).
    cbn [omap list_omap]. rewrite Hno. rewrite (proj2 (Ascii.eqb_neq c "s")) by done.
    destruct (Ascii.eqb_spec c "l") as [->|Hl].
    { rewrite decide_False in Hn |- * by done. by apply (IH (Settings true (seed s))). }
    destruct (Ascii.eqb_spec c "v") as [->|Hv]; [|rewrite decide_False in Hn |- * by done; by apply IH].
    rewrite decide_True in Hn |- * by done. cbn [length] in Hn |- *.
    unfold mbind, M_bind, inc_verbose. rewrite (proj2 (Z.ltb_lt _ _)) by lia.
    destruct (IH s (set_verbose (verbose st + 1) st)) as [b ->]; [rewrite verbose_set; lia|]. exists b.
    rewrite verbose_set, set_verbose_set. do 3 f_equal. lia.
Qed.

(** The options never stop a program. *)
Lemma main_run {A} (benchmark : M S A) now argv st :
  verbose st + Z.of_nat (verbosity argv) < 2 ^ 31 →
  main benchmark now argv st =
    match benchmark (set_verbose (verbose st + Z.of_nat (verbosity argv)) st) with
    | Ok (out, st') => Ok ((chosen_seed now argv, out, 0), st')
    | Fault => Fault
    | NoFuel => NoFuel
    end.
Proof.
  intros Hn.
  destruct (options_loop_spec (getopt "ls:v" argv) (Settings false (u32 now)) st (getopt_seed argv) Hn) as [b Hb].
  unfold main, mbind at 1, M_bind at 1. rewrite Hb. unfold mbind, M_bind. by destruct (benchmark _) as [[]| |].
Qed.

Lemma wp_main {A} (benchmark : M S A) now argv (Q : Z * A * Z → S → Prop) st :
  verbose st + Z.of_nat (verbosity argv) < 2 ^ 31 →
  wp benchmark (λ out, Q (chosen_seed now argv, out, 0)) (set_verbose (verbose st + Z.of_nat (verbosity argv)) st) →
  wp (main benchmark now argv) Q st.
Proof. intros Hn. unfold wp. rewrite main_run by done. by destruct (benchmark _) as [[]| |]. Qed.
End options.

(** ** The tree's program *)

(** C24: with the option v given less than three times, whatever else is on the
    command line, the tree's program with memory for 2^25 nodes and items reads
    its options, runs every benchmark with no failed assertion, gives back every
    item and node, and exits with 0. *)
Theorem radix_main_gives_back `{!Calloc radix_tree_node, !Calloc item} (slot_addr : slotref → Z) (N : nat)
    (now : Z) (argv : list string) (st : istate) :
  serves (V := radix_tree_node) N → serves (V := item) N → 2 ^ 25 ≤ Z.of_nat N → cleared st →
  verbose st = 0 → (verbosity argv < 3)%nat →
  ∃ st', radix_main slot_addr true now argv st = Ok ((chosen_seed now argv, (), 0), st') ∧ cleared st'.
Proof.
  intros Hn Hi HN Hst Hv Hargv.
  assert (wp (radix_main slot_addr true now argv) (λ r st', r = (chosen_seed now argv, (), 0) ∧ cleared st') st) as Hwp.
  { apply wp_main; [lia|]. eapply wp_mono; [apply (benchmark_spec slot_addr N _ Hn Hi HN)|by intros [] st' [? _]].
    - exact Hst.
    - rewrite verbose_set. lia. }
  apply wp_returns in Hwp as (r & st' & Hrun & -> & ?). eauto.
Qed.

Definition command_line : list string := ["tests"; "-vs0x2A"; "-l"; "file"; "--"; "-s7"].

Lemma radix_main_gives_back_witness :
  ∃ st', radix_main (Calloc0 := first_fit) (Calloc1 := first_fit) ItemProps.slot_layout true 1000 command_line ItemProps.istart =
    Ok ((42, (), 0), st') ∧ cleared st'.
Proof.
  apply (radix_main_gives_back (Calloc0 := first_fit) (Calloc1 := first_fit) ItemProps.slot_layout (Z.to_nat (2 ^ 25)) 1000 command_line
    ItemProps.istart).
  - apply first_fit_memory. rewrite Z2Nat.id; lia.
  - apply first_fit_memory. rewrite Z2Nat.id; lia.
  - rewrite Z2Nat.id; lia.
  - exact ItemProps.istart_cleared.
  - reflexivity.
  - apply Nat.ltb_lt. reflexivity.
Defined.

(** ** The hot ring's program *)

#[local] Existing Instance bump.

(** What is printed first, and what after the deletion of 37. *)
Definition main_shows : list (option (list Z)) * bool * bool * list (option (list Z)) :=
  ([Some [72; 87; 535822335; 6; 11; 16; 18; 22; 36; 37; 42]; Some [1073741823]; None; None;
    None; None; None; None], false, true,
   [Some [18; 22; 36; 42; 72; 87; 6; 11; 16]; Some [535822335]; None; Some [1073741823]; None; None; None; None;
    None; None; None; None; None; None; None; None]).

(** The hot ring's program, from one start with one allocator: with the option v
    given less than three times it loads twelve keys into two rings, moves to a
    table of twice the size while it looks them up, does not find the key 21,
    deletes 37 and exits with 0; it prints the tables only when the option is
    given twice.  Given three times, as the makefile does, or more, the program
    ends on a read of the node it has freed. *)
Theorem hotring_main_needs_quiet (now : Z) (argv : list string) :
  Z.of_nat (verbosity argv) < 2 ^ 31 →
  if decide (verbosity argv < 3)%nat
  then ∃ out st', hotring_main now argv HotringProps.hstart = Ok ((chosen_seed now argv, out, 0), st') ∧
    HotringRuns.shown out = if decide (verbosity argv < 2)%nat then ([], false, true, []) else main_shows
  else hotring_main now argv HotringProps.hstart = Fault.
Proof.
  intros Hn. destruct HotringProps.hotring_benchmark_run as (Hrun2 & Hrun0 & Hfault).
  unfold hotring_main. rewrite main_run by (cbn; lia).
  change (verbose HotringProps.hstart + Z.of_nat (verbosity argv)) with (Z.of_nat (verbosity argv)).
  set (v := Z.of_nat (verbosity argv)).
  change (set_verbose v HotringProps.hstart) with (say v (HState ∅ 0 0 0 0%nat)).
  assert (∀ w, ((2 <=? v), (3 <=? v)) = ((2 <=? w), (3 <=? w)) →
    match HotringRuns.benchmark (HState ∅ 0 0 w 0%nat) with
    | Ok (x, st') => ∃ st2, HotringRuns.benchmark (say v (HState ∅ 0 0 0 0%nat)) = Ok (x, st2)
    | Fault => HotringRuns.benchmark (say v (HState ∅ 0 0 0 0%nat)) = Fault
    | NoFuel => True
    end) as Hq.
  { intros w Hw. pose proof (quiet (m := HotringRuns.benchmark) v (HState ∅ 0 0 w 0%nat) Hw) as Hq.
    change (say v (HState ∅ 0 0 w 0%nat)) with (say v (HState ∅ 0 0 0 0%nat)) in Hq.
    destruct (HotringRuns.benchmark (HState ∅ 0 0 w 0%nat)) as [[x st']| |]; [|done|done].
    destruct Hq as [-> _]. by eexists. }
  unfold HotringProps.answer, HotringProps.is_fault in *. case_decide as Hv3; [case_decide as Hv2|].
  - specialize (Hq 0). rewrite !(proj2 (Z.leb_gt _ _)) in Hq by lia. specialize (Hq eq_refl). clear Hrun2 Hfault.
    change HotringProps.hstart with (HState ∅ 0 0 0 0%nat) in Hrun0.
    destruct (HotringRuns.benchmark (HState ∅ 0 0 0 0%nat)) as [[out st']| |]; [|discriminate Hrun0..].
    destruct Hq as [st2 ->]. injection Hrun0 as Hout. by exists out, st2.
  - specialize (Hq 2). rewrite (proj2 (Z.leb_le _ _)), (proj2 (Z.leb_gt _ _)) in Hq by lia.
    specialize (Hq eq_refl). clear Hrun0 Hfault.
    destruct (HotringRuns.benchmark (HState ∅ 0 0 2 0%nat)) as [[out st']| |]; [|discriminate Hrun2..].
    destruct Hq as [st2 ->]. injection Hrun2 as Hout. by exists out, st2.
  - specialize (Hq 3). rewrite !(proj2 (Z.leb_le _ _)) in Hq by lia. specialize (Hq eq_refl). clear Hrun0 Hrun2.
    destruct (HotringRuns.benchmark (HState ∅ 0 0 3 0%nat)) as [[out st']| |]; [discriminate Hfault| |discriminate Hfault].
    by rewrite Hq.
Qed.

(** ** The chaining table's program *)

(** What is printed of the last table at the verbosity 3. *)
Definition last_buckets : list (option (list Z)) :=
  [None; None; Some [2; 22]; None; None; Some [65]; Some [6]; None; None; None; None; None; None; None;
   None; None; None; Some [37]; None; None].

(** C25: unless there are so many options v that their count overflows, the
    chaining table's program with memory for its 1857965 items and their objects
    passes every check and exits with 0; with the option given three times or
    more it prints the buckets of its last table, where 2 and 22 share one, and
    otherwise none.  Nothing frees the items, which are all there at its end. *)
Theorem chain_main_keeps_items `{!Calloc cobj, !Calloc hitem} (N fuel : nat) (now : Z) (argv : list string)
    (st : hrun cstate) :
  serves (V := cobj) N → serves (V := hitem) N → (2 < fuel)%nat → cmem (hr_table st) !! 0 = None → hr_items st = ∅ →
  Z.of_nat (objects (hr_table st)) + 2 ^ 22 ≤ Z.of_nat N →
  verbose st = 0 → Z.of_nat (verbosity argv) < 2 ^ 31 →
  ∃ st', chain_main fuel now argv st =
      Ok ((chosen_seed now argv, if decide (3 ≤ verbosity argv)%nat then last_buckets else [], 0), st') ∧
    Z.of_nat (base.size (hr_items st')) = 1857965.
Proof.
  intros Hc Hi Hf H0 Hno HN Hv Hargv. pose proof ChainRuns.all_items_count as Hall.
  set (st0 := set_verbose (verbose st + Z.of_nat (verbosity argv)) st).
  pose proof (ChainRuns.chain_benchmark_spec N Hc Hi fuel st0 Hf H0) as Hspec.
  change (hr_items st0) with (hr_items st) in Hspec. rewrite Hno, map_size_empty in Hspec.
  change (objects (hr_table st0)) with (objects (hr_table st)) in Hspec.
  revert Hall Hspec. generalize ChainRuns.all_items as n. intros n Hall Hspec.
  assert (wp (chain_main fuel now argv) (λ r st', r = (chosen_seed now argv, printed (hr_table st0) ChainRuns.last_display, 0) ∧
    base.size (hr_items st') = n) st) as Hwp.
  { apply wp_main; [lia|]. fold st0. eapply wp_mono; [apply Hspec; lia|]. by intros out st' [-> ?]. }
  apply wp_returns in Hwp as (r & st' & Hrun & -> & Hsz). exists st'. split; [|lia]. rewrite Hrun. do 4 f_equal.
  unfold printed. change (verbose (hr_table st0)) with (verbose st + Z.of_nat (verbosity argv)). rewrite Hv.
  destruct (Z.leb_spec 3 (0 + Z.of_nat (verbosity argv))); [by rewrite decide_True by lia|by rewrite decide_False by lia].
Qed.

Lemma chain_main_keeps_items_witness :
  ∃ st', chain_main (Calloc0 := first_fit) (Calloc1 := first_fit) 3 1000 ["tests"; "-vvv"; "-s9"] ListProps.run0 =
    Ok ((9, last_buckets, 0), st') ∧
    Z.of_nat (base.size (hr_items st')) = 1857965.
Proof.
  apply (chain_main_keeps_items (Calloc0 := first_fit) (Calloc1 := first_fit) (Z.to_nat (2 ^ 23)) 3 1000
    ["tests"; "-vvv"; "-s9"] ListProps.run0).
  - apply first_fit_memory. rewrite Z2Nat.id; lia.
  - apply first_fit_memory. rewrite Z2Nat.id; lia.
  - lia.
  - reflexivity.
  - reflexivity.
  - rewrite Z2Nat.id; [vm_compute; discriminate|lia].
  - reflexivity.
  - reflexivity.
Defined.
