(* ===== verification/CounterFile.v ===== *)
(** * The counter files of JIFS/file.c and JIFS/lwnfs/lwnfs.c

    A file shows an [atomic_t] as a decimal number.  A read from the start
    gives the counter's value and adds one to it; a write sets it. *)
From S2P Require Import Prelude.

(** Bytes, as numbers below 256. *)
Abbreviation bytes := (list Z).

Definition EFAULT : Z := 14.

(** ** [snprintf] of ["%d\n"] *)

(** The decimal digits of a number of at most [fuel] digits, without leading zeros. *)
Fixpoint digits (fuel : nat) (n : Z) : bytes :=
  match fuel with
  | O => []
  | S fuel => if n <? 10 then [48 + n] else digits fuel (n / 10) ++ [48 + n mod 10]
  end.

Definition decimal (v : Z) : bytes :=
  if v <? 0 then 45 :: digits 10 (- v) else digits 10 v.

Definition text (v : Z) : bytes := decimal v ++ [10].

(** The buffer [char tmp[20]]. *)
Definition TMPSIZE : Z := 20.

(** ** User memory and the kernel's parser

    [copy_to_user] and [copy_from_user] return how many bytes they could not
    copy, none where the memory is [mapped]; [uread] is what a process sees at
    an address.  [simple_strtol] reads
    a decimal number up to the first byte that is not part of it. *)
Class Kernel (U : Type) := {
  uread : U → Z → nat → option bytes;
  copy_to_user : U → Z → bytes → Z * U;
  copy_from_user : U → Z → nat → Z * bytes;
  simple_strtol : bytes → Z;
  mapped : U → Z → nat → Prop;
  copy_to_user_mapped u a n bs :
    mapped u a n → (length bs ≤ n)%nat → ∃ u', copy_to_user u a bs = (0, u') ∧ mapped u' a n;
  copy_to_user_ok u a bs u' : copy_to_user u a bs = (0, u') → uread u' a (length bs) = Some bs;
  copy_from_user_ok u a n bs : uread u a n = Some bs → copy_from_user u a n = (0, bs);
  simple_strtol_decimal v rest :
    - 2 ^ 31 ≤ v < 2 ^ 31 → (∀ c, head rest = Some c → ¬ (48 ≤ c ≤ 57)) →
    simple_strtol (decimal v ++ rest) = v
}.

(** ** State: the counters, by address, and user memory *)

Section file.
Context {U : Type} `{!Kernel U}.

Record fstate := FState { counters : gmap Z Z; user : U }.

Definition FM : Type → Type := M fstate.

Definition atomic_read (c : Z) : FM Z := λ st,
  match counters st !! c with Some v => Ok (v, st) | None => Fault end.

Definition atomic_set (c v : Z) : FM () := λ st,
  match counters st !! c with
  | Some _ => Ok ((), FState (<[c := s32 v]> (counters st)) (user st))
  | None => Fault
  end.

Definition atomic_inc (c : Z) : FM () := λ st,
  match counters st !! c with
  | Some v => Ok ((), FState (<[c := s32 (v + 1)]> (counters st)) (user st))
  | None => Fault
  end.

Definition to_user (buf : Z) (bs : bytes) : FM Z := λ st,
  let '(n, u) := copy_to_user (user st) buf bs in Ok (n, FState (counters st) u).

Definition from_user (buf : Z) (n : nat) : FM (Z * bytes) := λ st,
  Ok (copy_from_user (user st) buf n, st).

(** ** File operations *)

(** [filp->private_data = inode->i_private] *)
Definition jifs_open (i_private : Z) : FM (Z * Z) := mret (0, i_private).

(** The result, and the offset afterwards.  The kernel's [int] wraps around. *)
Definition jifs_read_file (counter buf count offset : Z) : FM (Z * Z) :=
  v ← atomic_read counter;
  v ← (if 0 <? offset then mret (s32 (v - 1)) else atomic_inc counter;; mret v);
  let tmp := text v in
  let len := Z.of_nat (length tmp) in
  if len <? offset then mret (0, offset)
  else if offset <? 0 then fault
  else
    let count := if len - offset <? count then len - offset else count in
    r ← to_user buf (take (Z.to_nat count) (drop (Z.to_nat offset) tmp));
    if truthy r then mret (- EFAULT, offset) else mret (count, offset + count).

Definition jifs_write_file (counter buf count offset : Z) : FM (Z * Z) :=
  if negb (offset =? 0) then mret (- EINVAL, offset)
  else if TMPSIZE <=? count then mret (- EINVAL, offset)
  else
    '(r, bs) ← from_user buf (Z.to_nat count);
    if truthy r then mret (- EFAULT, offset)
    else
      let tmp := bs ++ replicate (Z.to_nat TMPSIZE - length bs) 0 in
      atomic_set counter (simple_strtol tmp);;
      mret (count, offset).

(** The same operations of lwnfs.c. *)
Definition lfs_open (i_private : Z) : FM (Z * Z) := mret (0, i_private).

Definition lfs_read_file (counter buf count offset : Z) : FM (Z * Z) :=
  v ← atomic_read counter;
  v ← (if 0 <? offset then mret (s32 (v - 1)) else atomic_inc counter;; mret v);
  let tmp := text v in
  let len := Z.of_nat (length tmp) in
  if len <? offset then mret (0, offset)
  else if offset <? 0 then fault
  else
    let count := if len - offset <? count then len - offset else count in
    r ← to_user buf (take (Z.to_nat count) (drop (Z.to_nat offset) tmp));
    if truthy r then mret (- EFAULT, offset) else mret (count, offset + count).

Definition lfs_write_file (counter buf count offset : Z) : FM (Z * Z) :=
  if negb (offset =? 0) then mret (- EINVAL, offset)
  else if TMPSIZE <=? count then mret (- EINVAL, offset)
  else
    '(r, bs) ← from_user buf (Z.to_nat count);
    if truthy r then mret (- EFAULT, offset)
    else
      let tmp := bs ++ replicate (Z.to_nat TMPSIZE - length bs) 0 in
      atomic_set counter (simple_strtol tmp);;
      mret (count, offset).
End file.
Arguments fstate U : clear implicits.

(** ** Digits *)

Lemma digits_length fuel n : (length (digits fuel n) ≤ fuel)%nat.
Proof.
  revert n. induction fuel as [|fuel IH]; intros n; cbn [digits]; [done|].
  destruct (n <? 10); [cbn; lia|]. rewrite length_app. cbn. specialize (IH (n / 10)). lia.
Qed.

Lemma digits_nonempty fuel n : digits (S fuel) n ≠ [].
Proof. cbn [digits]. destruct (n <? 10); [done|]. by destruct (digits fuel (n / 10)). Qed.

Lemma digits_range fuel n c : 0 ≤ n → c ∈ digits fuel n → 48 ≤ c ≤ 57.
Proof.
  revert n. induction fuel as [|fuel IH]; intros n Hn; cbn [digits]; [by intros ?%elem_of_nil|].
  destruct (Z.ltb_spec n 10).
  - intros ->%list_elem_of_singleton. lia.
  - intros [Hc| ->%list_elem_of_singleton]%elem_of_app.
    + eapply IH; [|exact Hc]. by apply Z.div_pos.
    + pose proof (Z.mod_pos_bound n 10). lia.
Qed.

(** The text of a counter fits the buffer, with the NUL. *)
Lemma text_length v : (2 ≤ length (text v) ≤ 12)%nat.
Proof.
  unfold text, decimal. rewrite length_app. cbn [length].
  pose proof (digits_length 10 v). pose proof (digits_length 10 (- v)).
  assert (∀ n, 1 ≤ length (digits 10 n))%nat as H1.
  { intros n. pose proof (digits_nonempty 9 n). destruct (digits 10 n); [done|cbn; lia]. }
  pose proof (H1 v). pose proof (H1 (- v)). destruct (v <? 0); cbn [length]; lia.
Qed.

(** A decimal parser, which gives numbers back. *)
Fixpoint parse_digits (acc : Z) (l : bytes) : Z :=
  match l with
  | c :: l => if (48 <=? c) && (c <=? 57) then parse_digits (acc * 10 + (c - 48)) l else acc
  | [] => acc
  end.

Definition parse_decimal (l : bytes) : Z :=
  match l with
  | 45 :: l => - parse_digits 0 l
  | l => parse_digits 0 l
  end.

Lemma parse_digits_app acc l1 l2 :
  (∀ c, c ∈ l1 → 48 ≤ c ≤ 57) → parse_digits acc (l1 ++ l2) = parse_digits (parse_digits acc l1) l2.
Proof.
  revert acc. induction l1 as [|c l1 IH]; intros acc Hl; [done|]. cbn [app parse_digits].
  assert (48 ≤ c ≤ 57) by (apply Hl; left). rewrite (proj2 (Z.leb_le 48 c)), (proj2 (Z.leb_le c 57)) by lia.
  apply IH. intros d Hd. apply Hl. by right.
Qed.

Lemma parse_digits_spec fuel n acc :
  0 ≤ n < 10 ^ Z.of_nat fuel →
  parse_digits acc (digits fuel n) = acc * 10 ^ Z.of_nat (length (digits fuel n)) + n.
Proof.
  revert n acc. induction fuel as [|fuel IH]; intros n acc Hn; [cbn in *; lia|]. cbn [digits].
  destruct (Z.ltb_spec n 10).
  - cbn [parse_digits length]. rewrite (proj2 (Z.leb_le 48 (48 + n))), (proj2 (Z.leb_le (48 + n) 57)) by lia.
    cbn. lia.
  - assert (0 ≤ n / 10 < 10 ^ Z.of_nat fuel) as Hd.
    { split; [apply Z.div_pos; lia|]. apply Z.div_lt_upper_bound; [lia|].
      rewrite Nat2Z.inj_succ, Z.pow_succ_r in Hn by lia. lia. }
    rewrite parse_digits_app by (intros c; apply digits_range; lia). rewrite IH by done.
    pose proof (Z.mod_pos_bound n 10 ltac:(lia)). pose proof (Z.div_mod n 10 ltac:(lia)).
    cbn [parse_digits]. rewrite (proj2 (Z.leb_le 48 _)), (proj2 (Z.leb_le _ 57)) by lia. cbn [andb].
    rewrite length_app, Nat2Z.inj_add, Z.pow_add_r by lia. cbn. lia.
Qed.

Lemma parse_stop acc rest :
  (∀ c, head rest = Some c → ¬ (48 ≤ c ≤ 57)) → parse_digits acc rest = acc.
Proof.
  destruct rest as [|c rest]; [done|]. intros Hc. specialize (Hc c eq_refl). cbn.
  destruct (Z.leb_spec 48 c), (Z.leb_spec c 57); cbn; done || lia.
Qed.

Lemma parse_decimal_spec v rest :
  - 2 ^ 31 ≤ v < 2 ^ 31 → (∀ c, head rest = Some c → ¬ (48 ≤ c ≤ 57)) →
  parse_decimal (decimal v ++ rest) = v.
Proof.
  intros Hv Hr. assert (∀ n, 0 ≤ n ≤ 2 ^ 31 → parse_digits 0 (digits 10 n ++ rest) = n) as Hp.
  { intros n Hn. rewrite parse_digits_app by (intros c; apply digits_range; lia).
    rewrite parse_digits_spec, parse_stop; [lia|done|]. cbn. lia. }
  unfold decimal. destruct (Z.ltb_spec v 0).
  - cbn [app parse_decimal]. rewrite Hp; lia.
  - assert (∃ c l, digits 10 v = c :: l ∧ 48 ≤ c ≤ 57) as (c & l & Hc & Hrange).
    { pose proof (digits_nonempty 9 v). destruct (digits 10 v) as [|c l] eqn:Hd; [done|]. exists c, l.
      split; [done|]. apply (digits_range 10 v); [done|]. rewrite Hd. left. }
    rewrite <- (Hp v) at 2 by lia. rewrite Hc. unfold parse_decimal. cbn [app].
    destruct c as [|p|p]; [done| |lia]. do 6 (destruct p as [p|p|]; try done; try lia).
Qed.
