(* ===== verification/CounterProps.v ===== *)
(** * The counter files: the properties *)
From S2P Require Import Prelude CounterFile.

Section file.
Context {U : Type} `{!Kernel U}.
Implicit Types st : fstate U.

Definition int_range (v : Z) : Prop := - 2 ^ 31 ≤ v < 2 ^ 31.

Lemma s32_id v : int_range v → s32 v = v.
Proof.
  intros [? ?]. unfold sint, wrap. destruct (Z.leb_spec 0 v).
  - rewrite Z.mod_small by lia. destruct (Z.ltb_spec v (2 ^ (32 - 1))); lia.
  - assert (v mod 2 ^ 32 = v + 2 ^ 32) as ->.
    { symmetry. apply (Z.mod_unique_pos v (2 ^ 32) (-1)); lia. }
    destruct (Z.ltb_spec (v + 2 ^ 32) (2 ^ (32 - 1))); lia.
Qed.

Lemma s32_mod v w : v mod 2 ^ 32 = w mod 2 ^ 32 → s32 v = s32 w.
Proof. unfold sint, wrap. by intros ->. Qed.

Lemma s32_congr v : s32 v mod 2 ^ 32 = v mod 2 ^ 32.
Proof.
  unfold sint, wrap. destruct (v mod 2 ^ 32 <? 2 ^ (32 - 1)); [by rewrite Z.mod_mod by lia|].
  rewrite <- (Z.mod_add _ 1 (2 ^ 32)) by lia. rewrite Z.mul_1_l, Z.sub_add. by rewrite Z.mod_mod by lia.
Qed.

Lemma s32_add v w : s32 (s32 v + w) = s32 (v + w).
Proof. apply s32_mod. by rewrite Z.add_mod, s32_congr, <- Z.add_mod by lia. Qed.

(** ** One read *)

(** What a read from [offset] gives of the text of [v]. *)
Definition piece (v count offset : Z) : bytes :=
  take (Z.to_nat count) (drop (Z.to_nat offset) (text v)).

Lemma read_text c buf count offset v v0 st :
  counters st !! c = Some v0 → v = (if 0 <? offset then s32 (v0 - 1) else v0) →
  0 ≤ count → 0 ≤ offset ≤ Z.of_nat (length (text v)) → mapped (user st) buf (Z.to_nat count) →
  wp (jifs_read_file c buf count offset) (λ '(r, off) st',
    r = Z.of_nat (length (piece v count offset)) ∧ off = offset + r ∧
    counters st' = (if 0 <? offset then counters st else <[c := s32 (v0 + 1)]> (counters st)) ∧
    uread (user st') buf (Z.to_nat r) = Some (piece v count offset) ∧
    mapped (user st') buf (Z.to_nat count)) st.
Proof.
  intros Hc Hv Hcount Hoff Hw. unfold jifs_read_file. rewrite wp_bind. unfold wp at 1, atomic_read. rewrite Hc, wp_bind.
  set (n := Z.of_nat (length (text v))) in *.
  assert (∀ st1, counters st1 = (if 0 <? offset then counters st else <[c := s32 (v0 + 1)]> (counters st)) →
    user st1 = user st →
    wp (if n <? offset then mret (0, offset) else if offset <? 0 then fault else
        r ← to_user buf (take (Z.to_nat (if n - offset <? count then n - offset else count)) (drop (Z.to_nat offset) (text v)));
        if truthy r then mret (- EFAULT, offset)
        else mret (if n - offset <? count then n - offset else count,
                   offset + (if n - offset <? count then n - offset else count))) (λ '(r, off) st',
      r = Z.of_nat (length (piece v count offset)) ∧ off = offset + r ∧
      counters st' = (if 0 <? offset then counters st else <[c := s32 (v0 + 1)]> (counters st)) ∧
      uread (user st') buf (Z.to_nat r) = Some (piece v count offset) ∧
      mapped (user st') buf (Z.to_nat count)) st1) as Hgo.
  { intros st1 Hst1 Hus. destruct (Z.ltb_spec n offset); [lia|]. destruct (Z.ltb_spec offset 0); [lia|].
    set (m := if n - offset <? count then n - offset else count).
    assert (take (Z.to_nat m) (drop (Z.to_nat offset) (text v)) = piece v count offset) as Hp.
    { unfold piece, m. destruct (Z.ltb_spec (n - offset) count); [|done].
      rewrite !take_ge; [done|..]; rewrite length_drop; lia. }
    assert (m = Z.of_nat (length (piece v count offset))) as Hm.
    { unfold piece, m. rewrite length_take, length_drop. destruct (Z.ltb_spec (n - offset) count); lia. }
    rewrite Hp, wp_bind. unfold wp at 1, to_user.
    destruct (copy_to_user_mapped (user st) buf (Z.to_nat count) (piece v count offset)) as (u & Hcopy & Hmap);
      [done|unfold piece; rewrite length_take; lia|].
    rewrite Hus, Hcopy, truthy_0, wp_ret. split; [done|]. split; [done|]. split; [done|]. cbn. rewrite Hm, Nat2Z.id.
    split; [by apply copy_to_user_ok in Hcopy|done]. }
  destruct (Z.ltb_spec 0 offset).
  - rewrite wp_ret. rewrite <- Hv. by apply Hgo.
  - rewrite wp_bind. unfold wp at 1, atomic_inc. rewrite Hc, wp_ret. subst v0. by apply Hgo.
Qed.

(** ** Reading a whole file *)

(** A process that reads until it is told there is no more. *)
Fixpoint read_all (fuel : nat) (c buf chunk offset : Z) (acc : bytes) : FM bytes :=
  match fuel with
  | O => nofuel
  | S fuel =>
      '(r, offset) ← jifs_read_file c buf chunk offset;
      if 0 <? r then
        bs ← gets (λ st, default [] (uread (user st) buf (Z.to_nat r)));
        read_all fuel c buf chunk offset (acc ++ bs)
      else mret acc
  end.

Lemma piece_length v chunk offset :
  0 < chunk → 0 ≤ offset → piece v chunk offset = [] → (length (text v) ≤ Z.to_nat offset)%nat.
Proof.
  unfold piece. intros ? ? Hp. apply (f_equal length) in Hp. rewrite length_take, length_drop in Hp. cbn in Hp. lia.
Qed.

Lemma read_rest fuel c buf chunk offset v acc st :
  counters st !! c = Some (s32 (v + 1)) → int_range v → 0 < chunk → mapped (user st) buf (Z.to_nat chunk) →
  0 < offset ≤ Z.of_nat (length (text v)) → acc = take (Z.to_nat offset) (text v) →
  Z.of_nat (length (text v)) - offset < Z.of_nat fuel →
  wp (read_all fuel c buf chunk offset acc) (λ l st', l = text v ∧ counters st' = counters st) st.
Proof.
  revert offset acc st. induction fuel as [|fuel IH]; intros offset acc st Hc Hv Hchunk Hw Hoff Hacc Hf; [lia|].
  cbn [read_all]. rewrite wp_bind. eapply wp_mono.
  { apply (read_text c buf chunk offset v (s32 (v + 1))); [done| |lia|lia|done].
    rewrite (proj2 (Z.ltb_lt 0 offset)) by lia. rewrite <- Z.add_opp_r, s32_add, <- Z.add_assoc, Z.add_0_r.
    symmetry. by apply s32_id. }
  intros [r off] st1 (Hr & Hoff' & Hst1 & Hu & Hw1). rewrite (proj2 (Z.ltb_lt 0 offset)) in Hst1 by lia.
  destruct (Z.ltb_spec 0 r) as [Hr0|Hr0].
  - rewrite wp_bind, wp_gets, Hu. eapply wp_mono.
    { apply (IH off); [by rewrite Hst1|done|done|done| | |].
      - subst off r. unfold piece. rewrite length_take, length_drop. lia.
      - subst acc off. cbn [default]. rewrite Hr. unfold piece. rewrite length_take, length_drop.
        replace (Z.to_nat (offset + Z.of_nat (Z.to_nat chunk `min` (length (text v) - Z.to_nat offset))))
          with (Z.to_nat offset + Z.to_nat chunk `min` (length (text v) - Z.to_nat offset))%nat by lia.
        rewrite <- take_take_drop. f_equal.
        destruct (Nat.min_spec (Z.to_nat chunk) (length (text v) - Z.to_nat offset)) as [[? ->]|[? ->]]; [done|].
        rewrite !take_ge; [done|rewrite length_drop; lia..].
      - lia. }
    intros l st2 [-> ->]. by rewrite Hst1.
  - rewrite wp_ret. split; [|done]. subst acc. apply take_ge.
    apply (piece_length v chunk); [done|lia|]. destruct (piece v chunk offset); [done|cbn in Hr; lia].
Qed.

Lemma read_all_spec fuel c buf chunk v st :
  counters st !! c = Some v → int_range v → 0 < chunk → mapped (user st) buf (Z.to_nat chunk) → (length (text v) < fuel)%nat →
  wp (read_all fuel c buf chunk 0 []) (λ l st', l = text v ∧ counters st' = <[c := s32 (v + 1)]> (counters st)) st.
Proof.
  intros Hc Hv Hchunk Hw Hf. destruct fuel as [|fuel]; [lia|]. cbn [read_all]. rewrite wp_bind.
  pose proof (text_length v) as Hlen.
  eapply wp_mono; [apply (read_text c buf chunk 0 v v); [done|done|lia|lia|done]|].
  intros [r off] st1 (Hr & Hoff & Hst1 & Hu & Hw1). cbn [Z.ltb Z.compare] in Hst1.
  assert (0 < r) as Hr0.
  { rewrite Hr. unfold piece. rewrite length_take, length_drop. change (Z.to_nat 0) with 0%nat. lia. }
  rewrite (proj2 (Z.ltb_lt 0 r)), wp_bind, wp_gets, Hu by done. cbn [default app].
  eapply wp_mono.
  { apply (read_rest fuel c buf chunk off v); [|done|done|done| | |lia].
    - rewrite Hst1. by rewrite lookup_insert_eq.
    - subst off r. unfold piece in *. rewrite length_take, length_drop in *. change (Z.to_nat 0) with 0%nat in *. lia.
    - subst off r. unfold piece. change (Z.to_nat 0) with 0%nat. rewrite drop_0, Z.add_0_l, Nat2Z.id, length_take.
      destruct (Nat.min_spec (Z.to_nat chunk) (length (text v))) as [[? ->]|[? ->]]; [done|].
      rewrite !take_ge by lia. done. }
  intros l st2 [-> ->]. by rewrite Hst1.
Qed.

(** ** Writing *)

Lemma write_spec c buf n v rest st :
  is_Some (counters st !! c) → int_range v → (n < 20)%nat →
  uread (user st) buf n = Some (decimal v ++ rest) → length (decimal v ++ rest) = n →
  (∀ x, head rest = Some x → ¬ (48 ≤ x ≤ 57)) →
  jifs_write_file c buf (Z.of_nat n) 0 st = Ok ((Z.of_nat n, 0), FState (<[c := v]> (counters st)) (user st)).
Proof.
  intros [v0 Hc] Hv Hn Hu Hlen Hrest. unfold jifs_write_file. cbn [negb Z.eqb].
  rewrite (proj2 (Z.leb_gt TMPSIZE _)) by (unfold TMPSIZE; lia).
  unfold mbind, M_bind, from_user. rewrite Nat2Z.id, (copy_from_user_ok _ _ _ _ Hu), truthy_0.
  rewrite <- app_assoc, simple_strtol_decimal; [|done|].
  - unfold atomic_set. rewrite Hc, s32_id by done. done.
  - destruct rest as [|x rest]; [|done]. rewrite app_nil_r in *. cbn [app].
    destruct (Z.to_nat TMPSIZE - length (decimal v))%nat as [|k]; cbn; [done|]. intros x [= <-]. lia.
Qed.
End file.

(** ** A kernel with one user page *)

(** User memory: the bytes at address 0 and up, [None] outside the page. *)
Definition page : Type := bytes.

Definition page_read (u : page) (a : Z) (n : nat) : option bytes :=
  if (a =? 0) && (n <=? length u)%nat then Some (take n u) else None.

Definition page_to_user (u : page) (a : Z) (bs : bytes) : Z * page :=
  if (a =? 0) && (length bs <=? length u)%nat then (0, bs ++ drop (length bs) u) else (Z.of_nat (length bs) + 1, u).

#[export] Program Instance page_kernel : Kernel page := {|
  uread := page_read;
  copy_to_user := page_to_user;
  copy_from_user u a n := match page_read u a n with Some bs => (0, bs) | None => (Z.of_nat n, []) end;
  simple_strtol := parse_decimal;
  mapped u a n := a = 0 ∧ (n ≤ length u)%nat
|}.
Next Obligation.
  intros u a n bs [-> Hn] Hbs. unfold page_to_user. rewrite (proj2 (Nat.leb_le _ _)) by lia. cbn.
  eexists. split; [done|]. rewrite length_app, length_drop. split; [done|lia].
Qed.
Next Obligation.
  intros u a bs u'. unfold page_to_user, page_read. destruct (Z.eqb_spec a 0); cbn [andb]; [|intros [= ? _]; lia].
  destruct (Nat.leb_spec (length bs) (length u)); [|intros [= ? _]; lia]. intros [= <-].
  rewrite (proj2 (Nat.leb_le _ _)) by (rewrite length_app; lia). by rewrite take_app_length.
Qed.
Next Obligation. cbn. by intros u a n bs ->. Qed.
Next Obligation. cbn. intros v rest. apply parse_decimal_spec. Qed.

Definition fs0 : fstate page := FState {[ 1 := 99 ]} (replicate 8 0).

(** ** Sequential use *)

(** A process that reads a counter file to the end, in pieces of any size, gets
    the counter's value in decimal and a newline, and the counter is one more
    afterwards; it needs no more reads than the text has bytes, and one. *)
Theorem counter_read_whole {U : Type} `{!Kernel U} (fuel : nat) (c buf chunk v : Z) (st : fstate U) :
  counters st !! c = Some v → int_range v → 0 < chunk → mapped (user st) buf (Z.to_nat chunk) →
  (length (text v) < fuel)%nat →
  ∃ st', read_all fuel c buf chunk 0 [] st = Ok (text v, st') ∧
    counters st' = <[c := s32 (v + 1)]> (counters st).
Proof.
  intros. destruct (proj1 (wp_returns _ _ _) (read_all_spec fuel c buf chunk v st ltac:(done) ltac:(done)
    ltac:(done) ltac:(done) ltac:(done))) as (? & st' & ? & -> & ?). eauto.
Qed.

Lemma counter_read_whole_witness :
  ∃ st', read_all 20 1 0 2 0 [] fs0 = Ok ([57; 57; 10], st') ∧ counters st' = {[ 1 := 100 ]}.
Proof.
  assert (mapped (user fs0) 0 (Z.to_nat 2)) as Hm by (split; [done|cbn; lia]).
  assert (int_range 99) as Hv by (unfold int_range; lia).
  assert (length (text 99) < 20)%nat as Hf by (apply Nat.ltb_lt; by vm_compute).
  destruct (counter_read_whole 20 1 0 2 99 fs0 eq_refl Hv ltac:(lia) Hm Hf) as (st' & Hrun & Hc).
  exists st'. split; [exact Hrun|]. rewrite Hc. by vm_compute.
Defined.

(** C35: a number written to a counter file, with whatever follows it that is not a
    digit, is the number read back. *)
Theorem counter_write_read {U : Type} `{!Kernel U} (fuel n : nat) (c buf rbuf chunk v : Z) (rest : bytes)
    (st : fstate U) :
  is_Some (counters st !! c) → int_range v → (n < 20)%nat → uread (user st) buf n = Some (decimal v ++ rest) →
  length (decimal v ++ rest) = n → (∀ x, head rest = Some x → ¬ (48 ≤ x ≤ 57)) →
  0 < chunk → mapped (user st) rbuf (Z.to_nat chunk) → (length (text v) < fuel)%nat →
  ∃ st', ('(r, _) ← jifs_write_file c buf (Z.of_nat n) 0; l ← read_all fuel c rbuf chunk 0 []; mret (r, l)) st =
    Ok ((Z.of_nat n, text v), st').
Proof.
  intros Hc Hv Hn Hu Hlen Hrest Hchunk Hm Hf. unfold mbind, M_bind.
  rewrite (write_spec c buf n v rest st) by done. set (st1 := FState _ _).
  assert (counters st1 !! c = Some v) as Hv1 by (cbn; by rewrite lookup_insert_eq).
  destruct (proj1 (wp_returns _ _ _) (read_all_spec fuel c rbuf chunk v st1 Hv1 Hv Hchunk Hm Hf))
    as (? & st' & -> & -> & _). by exists st'.
Qed.

Definition fs_minus : fstate page := FState {[ 1 := 7 ]} [45; 52; 50; 10; 0; 0; 0; 0].

Lemma counter_write_read_witness :
  ∃ st', ('(r, _) ← jifs_write_file 1 0 (Z.of_nat 4) 0; l ← read_all 20 1 0 3 0 []; mret (r, l)) fs_minus =
    Ok ((4, [45; 52; 50; 10]), st').
Proof.
  assert (∀ x : Z, head [10] = Some x → ¬ (48 ≤ x ≤ 57)) as Hrest by (intros x [= <-]; lia).
  assert (mapped (user fs_minus) 0 (Z.to_nat 3)) as Hm by (split; [done|cbn; lia]).
  assert (length (text (-42)) < 20)%nat as Hf by (apply Nat.ltb_lt; by vm_compute).
  apply (counter_write_read 20 4 1 0 0 3 (-42) [10] fs_minus);
    [by eexists|unfold int_range; lia|lia|done|done|exact Hrest|lia|exact Hm|exact Hf].
Defined.

(** A write that does not start at 0, or is of 20 bytes or more, or whose bytes
    cannot be copied, changes nothing; but a read whose bytes cannot be
    copied has already added one to the counter. *)
Theorem counter_errors {U : Type} `{!Kernel U} (c buf count offset v : Z) (st : fstate U) :
  counters st !! c = Some v →
  (offset ≠ 0 ∨ 20 ≤ count → jifs_write_file c buf count offset st = Ok ((- EINVAL, offset), st)) ∧
  (offset = 0 → count < 20 → fst (copy_from_user (user st) buf (Z.to_nat count)) ≠ 0 →
     jifs_write_file c buf count offset st = Ok ((- EFAULT, offset), st)) ∧
  (offset = 0 → (∀ bs, fst (copy_to_user (user st) buf bs) ≠ 0) →
     ∃ u, jifs_read_file c buf count offset st =
       Ok ((- EFAULT, 0), FState (<[c := s32 (v + 1)]> (counters st)) u)).
Proof.
  intros Hc. split; [|split].
  - unfold jifs_write_file. intros [Ho|Hn].
    + by destruct (Z.eqb_spec offset 0).
    + destruct (Z.eqb_spec offset 0); [|done]. cbn [negb]. by rewrite (proj2 (Z.leb_le TMPSIZE count)).
  - intros -> Hn Hcopy. unfold jifs_write_file. cbn [negb Z.eqb].
    rewrite (proj2 (Z.leb_gt TMPSIZE count)) by (unfold TMPSIZE; lia). unfold mbind, M_bind, from_user.
    destruct (copy_from_user (user st) buf (Z.to_nat count)) as [r bs]. cbn in Hcopy.
    by rewrite truthy_nz.
  - intros -> Hcopy. unfold jifs_read_file, mbind, M_bind, atomic_read, atomic_inc. rewrite Hc. cbn [Z.ltb Z.compare].
    rewrite Hc. cbn [mret M_ret]. unfold mret, M_ret.
    pose proof (text_length v). destruct (Z.ltb_spec (Z.of_nat (length (text v))) 0); [lia|].
    unfold to_user. cbn [user counters].
    match goal with |- context [copy_to_user (user st) buf ?bs] => specialize (Hcopy bs);
      destruct (copy_to_user (user st) buf bs) as [r u] end.
    cbn in Hcopy. rewrite truthy_nz by done. by exists u.
Qed.

Lemma counter_errors_witness :
  jifs_write_file 1 0 3 2 fs0 = Ok ((- EINVAL, 2), fs0) ∧
  ∃ u, jifs_read_file 1 64 5 0 fs0 = Ok ((- EFAULT, 0), FState (<[1 := 100]> (counters fs0)) u).
Proof.
  destruct (counter_errors 1 0 3 2 99 fs0 eq_refl) as (H1 & _ & _).
  destruct (counter_errors 1 64 5 0 99 fs0 eq_refl) as (_ & _ & H3).
  split; [apply H1; left; lia|]. apply H3; [done|]. intros bs. cbn. lia.
Defined.

(** ** Concurrent readers

    A read from the start is two atomic steps, [atomic_read] and then
    [atomic_inc]; other readers may run between them. *)
Inductive reader := RStart | RGot (v : Z) | RDone (v : Z).

Inductive rstep : Z * list reader → Z * list reader → Prop :=
| rs_read c l i : l !! i = Some RStart → rstep (c, l) (c, <[i := RGot c]> l)
| rs_inc c l i v : l !! i = Some (RGot v) → rstep (c, l) (s32 (c + 1), <[i := RDone v]> l).

Definition is_done (r : reader) : nat := match r with RDone _ => 1 | _ => 0 end.
Definition ndone (l : list reader) : nat := sum_list_with is_done l.

Lemma sum_list_insert (f : reader → nat) l i x y :
  l !! i = Some x → (sum_list_with f (<[i := y]> l) + f x = sum_list_with f l + f y)%nat.
Proof.
  revert i. induction l as [|z l IH]; intros [|i] Hi; cbn in *; simplify_eq; [lia|]. specialize (IH i Hi).
  unfold insert in *. lia.
Qed.

(** The counter has advanced by the readers that are done, and what each of
    them read is the value it had at an earlier time. *)
Definition readers_inv (c0 : Z) (s : Z * list reader) : Prop :=
  s.1 = s32 (c0 + Z.of_nat (ndone s.2)) ∧
  ∀ i r, s.2 !! i = Some r →
    match r with
    | RStart => True
    | RGot v => ∃ k, 0 ≤ k ≤ Z.of_nat (ndone s.2) ∧ v = s32 (c0 + k)
    | RDone v => ∃ k, 0 ≤ k < Z.of_nat (ndone s.2) ∧ v = s32 (c0 + k)
    end.

Lemma readers_step c0 s s' : readers_inv c0 s → rstep s s' → readers_inv c0 s'.
Proof.
  intros [Hc Hl] Hs. destruct Hs as [c l i Hi|c l i v Hi]; cbn [fst snd] in *.
  - assert (ndone (<[i := RGot c]> l) = ndone l) as Hn.
    { pose proof (sum_list_insert is_done l i _ (RGot c) Hi) as Hs. cbn [is_done] in Hs. unfold ndone. lia. }
    split; cbn [fst snd]; rewrite Hn; [done|]. intros j r [(-> & <- & _)|[? Hj]]%list_lookup_insert_Some.
    + exists (Z.of_nat (ndone l)). split; [lia|done].
    + by apply (Hl j).
  - assert (ndone (<[i := RDone v]> l) = S (ndone l)) as Hn.
    { pose proof (sum_list_insert is_done l i _ (RDone v) Hi) as Hs. cbn [is_done] in Hs. unfold ndone. lia. }
    split; cbn [fst snd]; rewrite Hn.
    + rewrite Hc, s32_add. f_equal. lia.
    + intros j r [(-> & <- & _)|[? Hj]]%list_lookup_insert_Some.
      * destruct (Hl j _ Hi) as (k & ? & ?). exists k. split; [lia|done].
      * specialize (Hl j r Hj). destruct r; [done|..]; destruct Hl as (k & ? & ?); exists k; (split; [lia|done]).
Qed.

Lemma readers_reach c0 s s' : readers_inv c0 s → rtc rstep s s' → readers_inv c0 s'.
Proof. intros Hi Hs. induction Hs as [|s s1 s' Hstep _ IH]; [done|]. apply IH. by eapply readers_step. Qed.

(** C36: however the steps of [n] readers interleave, no increment is lost and each
    reads a value the counter had; but the pair of steps is not atomic: two
    readers can be given the same number. *)
Theorem concurrent_readers (c0 : Z) (n : nat) :
  (∀ c l, rtc rstep (s32 c0, replicate n RStart) (c, l) →
     c = s32 (c0 + Z.of_nat (ndone l)) ∧
     ∀ i v, l !! i = Some (RDone v) → ∃ k, 0 ≤ k < Z.of_nat (ndone l) ∧ v = s32 (c0 + k)) ∧
  rtc rstep (s32 c0, replicate 2 RStart) (s32 (c0 + 2), [RDone (s32 c0); RDone (s32 c0)]).
Proof.
  split.
  - intros c l Hs. assert (readers_inv c0 (s32 c0, replicate n RStart)) as Hi.
    { assert (ndone (replicate n RStart) = 0%nat) as Hn by (clear; induction n as [|n IH]; [done|exact IH]).
      split; cbn [fst snd]; [by rewrite Hn, Z.add_0_r|]. by intros i r [-> _]%lookup_replicate. }
    destruct (readers_reach _ _ _ Hi Hs) as [Hc Hl]. split; [exact Hc|]. intros i v Hv. exact (Hl i _ Hv).
  - eapply (rtc_l _ _ (s32 c0, [RGot (s32 c0); RStart])); [by apply (rs_read (s32 c0) [RStart; RStart] 0)|].
    eapply (rtc_l _ _ (s32 c0, [RGot (s32 c0); RGot (s32 c0)]));
      [by apply (rs_read (s32 c0) [RGot (s32 c0); RStart] 1)|].
    eapply (rtc_l _ _ (s32 (s32 c0 + 1), [RDone (s32 c0); RGot (s32 c0)]));
      [by apply (rs_inc (s32 c0) [RGot (s32 c0); RGot (s32 c0)] 0)|].
    eapply (rtc_l _ _ (s32 (s32 (s32 c0 + 1) + 1), [RDone (s32 c0); RDone (s32 c0)]));
      [by apply (rs_inc (s32 (s32 c0 + 1)) [RDone (s32 c0); RGot (s32 c0)] 1)|].
    rewrite s32_add, <- Z.add_assoc, s32_add. apply rtc_refl.
Qed.
