(* ===== verification/CharDev.v ===== *)
(** * The character device of device/virtual_device/virtual_device.c

    A buffer of 1024 bytes that is written from and read into user memory,
    which is the interface of [CounterFile]. *)
From S2P Require Import CounterFile Prelude.

Section device.
Context {U : Type} `{!Kernel U}.

(** The bytes of [buffer], none for NULL, user memory, and whether the device
    number is taken by this driver. *)
Record vdstate := VD { buffer : option bytes; vuser : U; registered : bool }.

Abbreviation VM := (M vdstate).

Definition BUFFER_SIZE : nat := Z.to_nat 1024.

Definition virtual_device_open : VM Z := mret 0.
Definition virtual_device_release : VM Z := mret 0.

(** The copy has no meaning when the buffer is NULL or too small for it; a copy
    of nothing touches no buffer. *)
Definition virtual_device_write (buf count : Z) : VM Z := λ st,
  let '(_, bs) := copy_from_user (vuser st) buf (Z.to_nat count) in
  match buffer st with
  | Some b =>
      if (Z.of_nat BUFFER_SIZE <? count) then Fault
      else Ok (count, VD (Some (bs ++ drop (length bs) b)) (vuser st) (registered st))
  | None => if count =? 0 then Ok (0, st) else Fault
  end.

Definition virtual_device_read (buf count : Z) : VM Z := λ st,
  match buffer st with
  | Some b =>
      let '(_, u) := copy_to_user (vuser st) buf b in Ok (count, VD (buffer st) u (registered st))
  | None => Fault
  end.

(** [register_chrdev] gives [e], and [kmalloc] a buffer or not. *)
Definition virtual_device_init (e : Z) (kmalloc : option bytes) : VM Z :=
  modify (λ st, VD (buffer st) (vuser st) (negb (e <? 0)));;
  modify (λ st, VD kmalloc (vuser st) (registered st));;
  b ← gets buffer;
  (match b with
   | Some b => modify (λ st, VD (Some (replicate BUFFER_SIZE 0)) (vuser st) (registered st))
   | None => mret ()
   end);;
  mret 0.

Definition virtual_device_exit : VM () :=
  modify (λ st, VD (buffer st) (vuser st) false);;
  modify (λ st, VD None (vuser st) (registered st)).

(** ** What it does *)

Lemma init_spec e m st :
  ∃ st', virtual_device_init e m st = Ok (0, st') ∧ vuser st' = vuser st ∧
    buffer st' = (λ _, replicate BUFFER_SIZE 0) <$> m ∧ registered st' = negb (e <? 0).
Proof. destruct m as [b|]; by eexists. Qed.

(** A write of at most 1024 bytes that can be read in user memory. *)
Lemma write_some buf bs b st :
  buffer st = Some b → uread (vuser st) buf (length bs) = Some bs → (length bs ≤ BUFFER_SIZE)%nat →
  virtual_device_write buf (Z.of_nat (length bs)) st =
    Ok (Z.of_nat (length bs), VD (Some (bs ++ drop (length bs) b)) (vuser st) (registered st)).
Proof.
  intros Hb Hr Hlen. unfold virtual_device_write. rewrite Nat2Z.id, (copy_from_user_ok _ _ _ _ Hr), Hb.
  destruct (Z.ltb_spec (Z.of_nat BUFFER_SIZE) (Z.of_nat (length bs))); [lia|done].
Qed.

(** A longer one runs past the end of the buffer. *)
Lemma write_overflow buf count st : Z.of_nat BUFFER_SIZE < count → virtual_device_write buf count st = Fault.
Proof.
  intros Hc. unfold virtual_device_write. destruct (copy_from_user _ _ _) as [r bs]. destruct (buffer st).
  - by rewrite (proj2 (Z.ltb_lt _ _) Hc).
  - by rewrite (proj2 (Z.eqb_neq _ _)) by lia.
Qed.

(** Without a buffer only a write of nothing is harmless. *)
Lemma write_null buf count st :
  buffer st = None → virtual_device_write buf count st = if count =? 0 then Ok (0, st) else Fault.
Proof. intros Hb. unfold virtual_device_write. destruct (copy_from_user _ _ _). by rewrite Hb. Qed.

Lemma read_null buf count st : buffer st = None → virtual_device_read buf count st = Fault.
Proof. intros Hb. unfold virtual_device_read. by rewrite Hb. Qed.

(** A read copies the whole buffer, whatever the count. *)
Lemma read_all buf count b st :
  buffer st = Some b → mapped (vuser st) buf (length b) →
  ∃ u, virtual_device_read buf count st = Ok (count, VD (Some b) u (registered st)) ∧
    uread u buf (length b) = Some b.
Proof.
  intros Hb Hm. unfold virtual_device_read. rewrite Hb.
  destruct (copy_to_user_mapped _ _ _ b Hm ltac:(done)) as (u & Hu & _). rewrite Hu. exists u.
  split; [by destruct st; cbn in *; subst|]. by eapply copy_to_user_ok.
Qed.
End device.
Arguments vdstate U : clear implicits.
