(* ===== verification/WorkQueue.v ===== *)
(** * The work queue module of kernel_modules/workqueue/my_workqueue.c

    Loading queues two items, workers run them in any order, unloading waits
    for them. *)
From S2P Require Import Prelude.

(** [my_wq], the items' [x] by address, the items that wait, what was printed,
    and the number of calls of [kmalloc]. *)
Record wqstate := WQ {
  my_wq : Z;
  works : gmap Z Z;
  queue : list Z;
  printed : list Z;
  wq_calls : nat
}.

Abbreviation W := (M wqstate).

Definition set_my_wq (q : Z) (st : wqstate) : wqstate := WQ q (works st) (queue st) (printed st) (wq_calls st).

Section ops.
Context `{!Calloc Z}.

(** [kmalloc]: the field is not set yet. *)
Definition alloc_work : W Z := λ st,
  match calloc (wq_calls st) (works st) with
  | Some a => Ok (a, WQ (my_wq st) (<[a := 0]> (works st)) (queue st) (printed st) (S (wq_calls st)))
  | None => Ok (0, WQ (my_wq st) (works st) (queue st) (printed st) (S (wq_calls st)))
  end.

Definition set_x (a x : Z) : W () := λ st,
  match works st !! a with
  | Some _ => Ok ((), WQ (my_wq st) (<[a := x]> (works st)) (queue st) (printed st) (wq_calls st))
  | None => Fault
  end.

(** An item that is queued already is not queued again. *)
Definition queue_work (a : Z) : W Z := λ st,
  if decide (a ∈ queue st) then Ok (0, st)
  else Ok (1, WQ (my_wq st) (works st) (queue st ++ [a]) (printed st) (wq_calls st)).

(** [workers] is what the workers do between two steps of the loading. *)
Definition new_work (workers : W ()) (x : Z) : W () :=
  work ← alloc_work;
  workers;;
  if truthy work then set_x work x;; workers;; _ ← queue_work work; workers else mret ().

(** [create_workqueue] gives [wq], NULL or not. *)
Definition init_workqueue (workers : W ()) (wq : Z) : W Z :=
  modify (set_my_wq wq);;
  (if truthy wq then new_work workers 1;; new_work workers 2 else mret ());;
  mret 0.

(** An item prints its number and frees itself. *)
Definition my_wq_function (work : Z) : W () := λ st,
  match works st !! work with
  | Some x => Ok ((), WQ (my_wq st) (delete work (works st)) (queue st) (printed st ++ [x]) (wq_calls st))
  | None => Fault
  end.

(** A worker takes any item that waits and runs it. *)
Inductive wq_step (st : wqstate) (r : res (() * wqstate)) : Prop :=
| wq_run work q1 q2 :
    queue st = q1 ++ work :: q2 →
    r = my_wq_function work (WQ (my_wq st) (works st) (q1 ++ q2) (printed st) (wq_calls st)) →
    wq_step st r.

(** The runs of the workers. *)
Inductive wq_runs : wqstate → wqstate → Prop :=
| runs_refl st : wq_runs st st
| runs_step st st1 st' : wq_step st (Ok ((), st1)) → wq_runs st1 st' → wq_runs st st'.

(** Any such run, to a fault if it comes to one. *)
Definition schedule (workers : W ()) : Prop := ∀ st,
  (∃ st', workers st = Ok ((), st') ∧ wq_runs st st') ∨
  (workers st = Fault ∧ ∃ st1, wq_runs st st1 ∧ wq_step st1 Fault).

(** Whatever items the workers take, in whatever order, they run out of items
    after finitely many steps, and [Q] holds of what it comes to. *)
Inductive flushes (Q : res (() * wqstate) → Prop) (st : wqstate) : Prop :=
| flushed : queue st = [] → Q (Ok ((), st)) → flushes Q st
| flushing :
    (∃ r, wq_step st r) → (wq_step st Fault → Q Fault) →
    (∀ st', wq_step st (Ok ((), st')) → flushes Q st') → flushes Q st.

(** [flush_workqueue] and [destroy_workqueue] wait until nothing is left, under
    any schedule; NULL is no queue. *)
Inductive exit_workqueue (Q : res (() * wqstate) → Prop) (st : wqstate) : Prop :=
| exit_null : my_wq st = 0 → Q Fault → exit_workqueue Q st
| exit_flushed : my_wq st ≠ 0 → flushes Q st → exit_workqueue Q st.

(** ** What is printed *)

(** The items [l] wait, each with its number, beside the [others]; the numbers
    printed since [p] and those that wait are the [xs]. *)
Definition queued (others : gmap Z Z) (p xs : list Z) (st : wqstate) : Prop :=
  ∃ l ys, queue st = l.*1 ∧ NoDup l.*1 ∧ (∀ a, a ∈ l.*1 → others !! a = None) ∧
    works st = list_to_map l ∪ others ∧ printed st = p ++ ys ∧ ys ++ l.*2 ≡ₚ xs.

(** A worker finds its item. *)
Lemma queued_step others p xs st r :
  queued others p xs st → wq_step st r → ∃ st', r = Ok ((), st') ∧ queued others p xs st' ∧
    length (queue st) = S (length (queue st')).
Proof.
  intros (l & ys & Hq & Hnd & Ho & Hw & Hp & Hxs) [work q1 q2 Hsplit ->].
  rewrite Hq in Hsplit. apply fmap_app_inv in Hsplit as (l1 & l2' & -> & Hrest & ->).
  destruct l2' as [|[a x] l2]; [done|]. cbn in Hrest. injection Hrest as -> ->.
  assert (list_to_map (l1 ++ (a, x) :: l2) = <[a := x]> (list_to_map (l1 ++ l2) : gmap Z Z)) as Hmap.
  { rewrite <- list_to_map_cons. apply list_to_map_proper; [done|]. by rewrite <- Permutation_middle. }
  assert (a ∉ (l1 ++ l2).*1) as Hna.
  { rewrite fmap_app in Hnd |- *. cbn in Hnd. apply list.NoDup_app in Hnd as (_ & Hdis & Hnd2). apply list.NoDup_cons in Hnd2 as [? _].
    intros [Hin|Hin]%elem_of_app; [|done]. apply (Hdis a Hin). left. }
  unfold my_wq_function. cbn [works]. rewrite Hw, Hmap, <- insert_union_l, lookup_insert_eq.
  eexists. split; [done|]. split; [|cbn; rewrite Hq, !fmap_app, !length_app; cbn; lia].
  exists (l1 ++ l2), (ys ++ [x]). cbn. split; [by rewrite fmap_app|]. split; [|split; [|split; [|split]]].
  - rewrite fmap_app in Hnd |- *. eapply sublist_NoDup; [exact Hnd|]. apply sublist_app; [done|]. cbn. by constructor.
  - intros b Hb. apply Ho. rewrite fmap_app in Hb |- *. set_solver.
  - rewrite delete_insert_id; [done|]. apply lookup_union_None. split; [by apply not_elem_of_list_to_map_1|].
    apply Ho. rewrite fmap_app. set_solver.
  - by rewrite Hp, <- app_assoc.
  - rewrite <- Hxs, !fmap_app. cbn. rewrite <- app_assoc. cbn. by rewrite <- !Permutation_middle.
Qed.

Lemma queued_runs others p xs st st' : wq_runs st st' → queued others p xs st → queued others p xs st'.
Proof.
  induction 1 as [|st st1 st' Hstep _ IH]; [done|]. intros Hq.
  destruct (queued_step _ _ _ _ _ Hq Hstep) as (st2 & [= <-] & Hq1 & _). auto.
Qed.

Lemma queued_end others p xs st :
  queued others p xs st → queue st = [] → works st = others ∧ ∃ ys, ys ≡ₚ xs ∧ printed st = p ++ ys.
Proof.
  intros (l & ys & Hq & _ & _ & Hw & Hp & Hxs) He. rewrite He in Hq. destruct l as [|[a x] l]; [|done].
  split; [by rewrite Hw, list_to_map_nil, (left_id_L ∅ (∪))|]. exists ys. cbn in Hxs. rewrite app_nil_r in Hxs. done.
Qed.

(** Something can run as long as something waits. *)
Lemma wq_step_some st : queue st ≠ [] → ∃ r, wq_step st r.
Proof. destruct (queue st) as [|a q] eqn:Hq; [done|]. intros _. eexists. by apply (wq_run st _ a [] q). Qed.

(** The items that wait become fewer at every step, so every schedule ends. *)
Lemma queued_flushes others p xs st :
  queued others p xs st →
  flushes (λ r, ∃ st' ys, r = Ok ((), st') ∧ works st' = others ∧ printed st' = p ++ ys ∧ ys ≡ₚ xs) st.
Proof.
  induction st as [st IH] using (induction_ltof1 _ (λ st, length (queue st))). intros Hq.
  destruct (decide (queue st = [])) as [He|Hne].
  - destruct (queued_end _ _ _ _ Hq He) as (Hw & ys & Hys & Hp). apply flushed; [done|]. by exists st, ys.
  - apply flushing; [by apply wq_step_some|..].
    + intros Hf. by destruct (queued_step _ _ _ _ _ Hq Hf) as (? & [=] & _).
    + intros st1 Hs. destruct (queued_step _ _ _ _ _ Hq Hs) as (st2 & [= <-] & Hq1 & Hlen).
      apply IH; [unfold ltof; lia|done].
Qed.

Lemma runs_my_wq st st' : wq_runs st st' → my_wq st' = my_wq st.
Proof.
  induction 1 as [|st st1 st' [work q1 q2 _ Hf] _ IH]; [done|]. rewrite IH. unfold my_wq_function in Hf. cbn in Hf.
  destruct (works st !! work); [|done]. by injection Hf as ->.
Qed.

Lemma runs_size st st' : wq_runs st st' → (size (works st') ≤ size (works st))%nat.
Proof.
  induction 1 as [|st st1 st' [work q1 q2 _ Hf] _ IH]; [done|]. unfold my_wq_function in Hf. cbn in Hf.
  destruct (works st !! work) eqn:Hw; [|done]. injection Hf as ->. cbn in IH.
  rewrite map_size_delete_Some in IH by (by eexists). lia.
Qed.

(** ** Loading, with the workers at work *)

Section load.
Context (workers : W ()) (Hsched : schedule workers).

Lemma wp_workers others p xs st (Q : () → wqstate → Prop) :
  queued others p xs st →
  (∀ st', queued others p xs st' → my_wq st' = my_wq st → (size (works st') ≤ size (works st))%nat → Q () st') →
  wp workers Q st.
Proof.
  intros Hq HQ. unfold wp. destruct (Hsched st) as [(st' & -> & Hr)|(_ & st1 & Hr & Hf)].
  2:{ by destruct (queued_step _ _ _ _ _ (queued_runs _ _ _ _ _ Hr Hq) Hf) as (? & [=] & _). }
  apply HQ; [by eapply queued_runs|by apply runs_my_wq|by apply runs_size].
Qed.

(** A new item is first its maker's own. *)
Lemma alloc_work_spec others p xs st (Q : Z → wqstate → Prop) :
  calloc (wq_calls st) (works st) ≠ None → queued others p xs st →
  (∀ a st', a ≠ 0 → others !! a = None → queued (<[a := 0]> others) p xs st' → my_wq st' = my_wq st →
     size (works st') = S (size (works st)) → Q a st') →
  wp alloc_work Q st.
Proof.
  intros Hmem (l & ys & Hq & Hnd & Ho & Hw & Hp & Hxs) HQ. unfold wp, alloc_work.
  destruct (calloc (wq_calls st) (works st)) as [a|] eqn:Ha; [|done].
  pose proof (calloc_fresh _ _ _ Ha) as Hf. pose proof (calloc_range _ _ _ Ha).
  assert (list_to_map l !! a = None ∧ others !! a = None) as [Hla Hoa] by (rewrite Hw in Hf; by apply lookup_union_None in Hf).
  apply HQ; [lia|done| |done|by apply map_size_insert_None].
  exists l, ys. split; [done|]. split; [done|]. split; [|split; [|done]].
  - intros b Hb. rewrite lookup_insert_ne; [by apply Ho|]. intros ->. by apply not_elem_of_list_to_map_2 in Hla.
  - cbn. by rewrite Hw, insert_union_r.
Qed.

Lemma set_x_spec others p xs a x y st (Q : () → wqstate → Prop) :
  queued (<[a := y]> others) p xs st →
  (∀ st', queued (<[a := x]> others) p xs st' → my_wq st' = my_wq st → size (works st') = size (works st) → Q () st') →
  wp (set_x a x) Q st.
Proof.
  intros (l & ys & Hq & Hnd & Ho & Hw & Hp & Hxs) HQ.
  assert (a ∉ l.*1) as Hna by (intros Ha; specialize (Ho a Ha); by rewrite lookup_insert_eq in Ho).
  apply not_elem_of_list_to_map_1 in Hna.
  assert (works st !! a = Some y) as Ha by (by rewrite Hw, lookup_union_r, lookup_insert_eq).
  unfold wp, set_x. rewrite Ha. apply HQ; [|done|apply map_size_insert_Some; by eexists].
  exists l, ys. split; [done|]. split; [done|]. split; [|split; [|done]].
  - intros b Hb. specialize (Ho b Hb). destruct (decide (a = b)) as [->|]; [by rewrite lookup_insert_eq in Ho|].
    by rewrite !lookup_insert_ne in * by done.
  - cbn. by rewrite Hw, insert_union_r, insert_insert_eq.
Qed.

(** Queued, it is the workers'. *)
Lemma queue_work_spec others p xs a x st (Q : Z → wqstate → Prop) :
  others !! a = None → queued (<[a := x]> others) p xs st →
  (∀ st', queued others p (xs ++ [x]) st' → my_wq st' = my_wq st → works st' = works st → Q 1 st') →
  wp (queue_work a) Q st.
Proof.
  intros Hoa (l & ys & Hq & Hnd & Ho & Hw & Hp & Hxs) HQ.
  assert (a ∉ l.*1) as Hna by (intros Ha; specialize (Ho a Ha); by rewrite lookup_insert_eq in Ho).
  unfold wp, queue_work. rewrite decide_False by (by rewrite Hq). apply HQ; [|done..].
  assert (NoDup (l ++ [(a, x)]).*1) as Hnd'.
  { rewrite fmap_app. apply list.NoDup_app. cbn. split; [done|]. split; [set_solver|apply NoDup_singleton]. }
  exists (l ++ [(a, x)]), ys. split; [cbn; by rewrite Hq, fmap_app|]. split; [done|]. split; [|split; [|split]].
  - rewrite fmap_app. cbn. intros b [Hb| ->%list_elem_of_singleton]%elem_of_app; [|done].
    specialize (Ho b Hb). rewrite lookup_insert_ne in Ho; [done|]. intros ->. done.
  - cbn. rewrite Hw, (list_to_map_proper _ ((a, x) :: l) Hnd') by (by rewrite <- Permutation_cons_append).
    cbn. by rewrite <- insert_union_l, insert_union_r by (by apply not_elem_of_list_to_map_1).
  - done.
  - rewrite fmap_app. cbn. by rewrite app_assoc, Hxs.
Qed.

Lemma new_work_spec others p xs x st :
  calloc (wq_calls st) (works st) ≠ None → queued others p xs st →
  wp (new_work workers x) (λ _ st', queued others p (xs ++ [x]) st' ∧ my_wq st' = my_wq st ∧
    (size (works st') ≤ S (size (works st)))%nat) st.
Proof.
  intros Hmem Hq. unfold new_work. rewrite wp_bind. eapply alloc_work_spec; [done..|].
  intros a st1 Ha Hoa Hq1 Hw1 Hs1. rewrite wp_bind. eapply wp_workers; [done|]. intros st2 Hq2 Hw2 Hs2.
  rewrite truthy_nz, wp_bind by done. eapply set_x_spec; [done|]. intros st3 Hq3 Hw3 Hs3.
  rewrite wp_bind. eapply wp_workers; [done|]. intros st4 Hq4 Hw4 Hs4.
  rewrite wp_bind. eapply queue_work_spec; [done..|]. intros st5 Hq5 Hw5 Hs5.
  eapply wp_workers; [done|]. intros st6 Hq6 Hw6 Hs6. split; [done|]. split; [congruence|].
  rewrite Hs5 in Hs6. lia.
Qed.

(** With memory for the two items, loading the module queues 1 and 2. *)
Lemma init_workqueue_spec wq st :
  wq ≠ 0 → queue st = [] → serves (V := Z) (size (works st) + 2) →
  wp (init_workqueue workers wq) (λ r st', r = 0 ∧ my_wq st' = wq ∧ queued (works st) (printed st) [1; 2] st') st.
Proof.
  intros Hwq Hq Hmem. unfold init_workqueue. rewrite wp_bind, wp_modify, truthy_nz, wp_bind, wp_bind by done.
  eapply wp_mono; [apply (new_work_spec (works st) (printed st) [] 1); [apply Hmem; cbn; lia|]|].
  { exists [], []. split; [done|]. split; [constructor|]. split; [by intros a ?%elem_of_nil|].
    split; [by rewrite list_to_map_nil, (left_id_L ∅ (∪))|]. by rewrite app_nil_r. }
  intros [] st1 (Hq1 & Hwq1 & Hs1). eapply wp_mono; [apply new_work_spec; [apply Hmem; cbn in Hs1; lia|exact Hq1]|].
  intros [] st2 (Hq2 & Hwq2 & _). rewrite wp_ret. split; [done|]. split; [by rewrite Hwq2, Hwq1|done].
Qed.
End load.
End ops.
