(* ===== verification/KernelMods.v ===== *)
(** * The modules kernel_modules/crypto/my_crypto.c and kernel_modules/read_write/kread.c

    Both call kernel interfaces and keep no state of their own; the models
    follow what they allocate and open, and the bytes they work on. *)
From stdpp Require Import strings.
From S2P Require Import CounterFile Prelude.

(** ** kernel_modules/crypto/my_crypto.c *)

(** [kmalloc] gives a free address or nothing; [crypto_alloc_shash] an error or
    a handle; a digest is an error or the 20 bytes of SHA-1. *)
Class Crypto := {
  kmalloc : gset Z → option Z;
  crypto_alloc_shash : gset Z → Z;
  crypto_shash_digest : bytes → Z * bytes;
  kmalloc_law s a : kmalloc s = Some a → 0 < a < 2 ^ 63 ∧ a ∉ s;
  alloc_shash_law s : - 4096 < crypto_alloc_shash s < 0 ∨ 0 < crypto_alloc_shash s ∧ crypto_alloc_shash s ∉ s;
  digest_law data : fst (crypto_shash_digest data) = 0 →
    length (snd (crypto_shash_digest data)) = 20%nat ∧ Forall (λ b, 0 ≤ b < 256) (snd (crypto_shash_digest data))
}.

(** The memory and the algorithms in use. *)
Record crstate := Cr { allocated : gset Z; algs : gset Z }.

Abbreviation CrM := (M crstate).

(** [IS_ERR] of a pointer that is an error number, as a negative one here. *)
Definition IS_ERR (p : Z) : bool := (- 4096 <? p) && (p <? 0).

Section crypto.
Context `{!Crypto}.

Definition cr_alloc : CrM Z := λ st,
  match kmalloc (allocated st) with
  | Some a => Ok (a, Cr ({[a]} ∪ allocated st) (algs st))
  | None => Ok (0, st)
  end.

Definition kfree (a : Z) : CrM () := λ st,
  if a =? 0 then Ok ((), st)
  else if decide (a ∈ allocated st) then Ok ((), Cr (allocated st ∖ {[a]}) (algs st)) else Fault.

Definition alloc_shash : CrM Z := λ st,
  let alg := crypto_alloc_shash (algs st) in
  if IS_ERR alg then Ok (alg, st) else Ok (alg, Cr (allocated st) ({[alg]} ∪ algs st)).

Definition free_shash (alg : Z) : CrM () := λ st,
  if decide (alg ∈ algs st) then Ok ((), Cr (allocated st) (algs st ∖ {[alg]})) else Fault.

Definition init_sdesc (alg : Z) : CrM Z :=
  sdesc ← cr_alloc;
  if truthy sdesc then mret sdesc else mret (- ENOMEM).

(** Writes the digest over the first bytes of the buffer. *)
Definition calc_hash (alg : Z) (data digest : bytes) : CrM (Z * bytes) :=
  sdesc ← init_sdesc alg;
  if IS_ERR sdesc then mret (sdesc, digest)
  else
    let '(ret, d) := crypto_shash_digest data in
    kfree sdesc;;
    mret (ret, if ret =? 0 then d ++ drop (length d) digest else digest).

Definition test_hash (data digest : bytes) : CrM (Z * bytes) :=
  alg ← alloc_shash;
  if IS_ERR alg then mret (alg, digest)
  else
    '(ret, digest) ← calc_hash alg data digest;
    free_shash alg;;
    mret (ret, digest).

(** The first word of the bitmap; a byte is an [int] when it is shifted. *)
Definition fold_digest (digest : bytes) : Z :=
  let d i := default 0 (digest !! i) in
  let b := u64 (0 + d 0%nat) in
  let b := Z.lor b (u64 (s32 (Z.shiftl (d 1%nat) 8))) in
  let b := Z.lor b (u64 (s32 (Z.shiftl (d 2%nat) 16))) in
  Z.lor b (u64 (s32 (Z.shiftl (d 3%nat) 24))).

(** [digest] holds what was on the stack; the result is the module's and the
    first word of the bitmap. *)
Definition init_crypto (digest : bytes) : CrM (Z * Z) :=
  filter ← cr_alloc;
  if filter =? 0 then fault
  else
    '(_, digest) ← test_hash [104; 105; 104; 105] digest;
    mret (0, fold_digest digest).

(** Hashing gives back all it took, whether it succeeds or not. *)
Lemma test_hash_spec data digest st :
  ∃ ret d, test_hash data digest st = Ok ((ret, d), st) ∧
    (d = digest ∨ ret = 0 ∧ ∃ h, length h = 20%nat ∧ Forall (λ b, 0 ≤ b < 256) h ∧ d = h ++ drop 20 digest).
Proof.
  destruct st as [al ag]. unfold test_hash, mbind, M_bind, alloc_shash. cbn [allocated algs].
  destruct (IS_ERR (crypto_alloc_shash ag)) eqn:He.
  { rewrite He. eexists _, digest. split; [done|by left]. }
  rewrite He. assert (0 < crypto_alloc_shash ag ∧ crypto_alloc_shash ag ∉ ag) as [_ Hfresh].
  { destruct (alloc_shash_law ag) as [[H1 H2]|?]; [|done]. unfold IS_ERR in He.
    by rewrite (proj2 (Z.ltb_lt _ _) H1), (proj2 (Z.ltb_lt _ _) H2) in He. }
  set (alg := crypto_alloc_shash ag) in *.
  assert (free_shash alg (Cr al ({[alg]} ∪ ag)) = Ok ((), Cr al ag)) as Hfree.
  { unfold free_shash. cbn [algs allocated]. rewrite decide_True by set_solver. do 3 f_equal. set_solver. }
  unfold calc_hash, init_sdesc, cr_alloc, mbind, M_bind. cbn [allocated].
  destruct (kmalloc al) as [a|] eqn:Ha.
  - destruct (kmalloc_law _ _ Ha) as [Hr Hna]. rewrite truthy_nz by lia. unfold mret, M_ret.
    assert (IS_ERR a = false) as -> by (unfold IS_ERR; rewrite (proj2 (Z.ltb_ge a 0)) by lia; apply andb_false_r).
    pose proof (digest_law data) as Hd. destruct (crypto_shash_digest data) as [ret h].
    unfold kfree. rewrite (proj2 (Z.eqb_neq a 0)) by lia. cbn [allocated algs]. rewrite decide_True by set_solver.
    assert (({[a]} ∪ al) ∖ {[a]} = al) as -> by set_solver. rewrite Hfree. eexists _, _. split; [done|].
    destruct (Z.eqb_spec ret 0) as [->|]; [right|by left]. destruct (Hd eq_refl) as [Hlen Hb]. cbn in Hlen, Hb.
    split; [done|]. exists h. split; [done|]. split; [done|]. by rewrite Hlen.
  - rewrite truthy_0. unfold mret, M_ret.
    assert (IS_ERR (- ENOMEM) = true) as -> by done. cbn. rewrite Hfree. eexists _, _. split; [done|by left].
Qed.

(** The module keeps its filter, which nothing frees, and reads through NULL
    when there is no memory for it. *)
Lemma init_crypto_spec digest st :
  match kmalloc (allocated st) with
  | Some a => ∃ w, init_crypto digest st = Ok ((0, w), Cr ({[a]} ∪ allocated st) (algs st))
  | None => init_crypto digest st = Fault
  end.
Proof.
  unfold init_crypto, mbind, M_bind, cr_alloc. destruct (kmalloc (allocated st)) as [a|] eqn:Ha; [|done].
  destruct (kmalloc_law _ _ Ha) as [Hr _]. rewrite (proj2 (Z.eqb_neq a 0)) by lia.
  destruct (test_hash_spec [104; 105; 104; 105] digest (Cr ({[a]} ∪ allocated st) (algs st))) as (ret & d & -> & _).
  by eexists.
Qed.
End crypto.

Lemma lor_high x y n : 0 ≤ n → 0 ≤ x < 2 ^ n → Z.lor x (y * 2 ^ n) = x + y * 2 ^ n.
Proof.
  intros Hn Hx. rewrite Z.lor_comm, (lor_disjoint _ n x) by (done || apply Z.mod_mul; lia). lia.
Qed.

Lemma shift_byte b n : 0 ≤ b < 256 → 0 ≤ n ≤ 16 → u64 (s32 (Z.shiftl b n)) = b * 2 ^ n.
Proof.
  intros Hb Hn. rewrite Z.shiftl_mul_pow2 by lia.
  assert (b * 2 ^ n < 2 ^ 24).
  { change (2 ^ 24) with (256 * 2 ^ 16). pose proof (Z.pow_le_mono_r 2 n 16). pose proof (Z.pow_pos_nonneg 2 n). nia. }
  assert (0 ≤ b * 2 ^ n) by (apply Z.mul_nonneg_nonneg; [lia|apply Z.pow_nonneg; lia]).
  unfold sint. rewrite (wrap_small 32) by lia. rewrite (proj2 (Z.ltb_lt _ _)) by lia. by rewrite wrap_small by lia.
Qed.

(** The word is the first four bytes, low first, sign-extended from the fourth. *)
Lemma fold_digest_spec a b c d rest :
  Forall (λ x, 0 ≤ x < 256) [a; b; c; d] →
  fold_digest (a :: b :: c :: d :: rest) = u64 (s32 (a + 256 * b + 65536 * c + 16777216 * d)).
Proof.
  intros Hall. repeat (apply List.Forall_cons_iff in Hall as [? Hall]). unfold fold_digest. cbn -[sint wrap Z.shiftl Z.lor Z.add].
  rewrite (wrap_small 64 (0 + a)), (shift_byte b 8), (shift_byte c 16) by (done || lia).
  rewrite Z.add_0_l, (lor_high a b 8), (lor_high (a + b * 2 ^ 8) c 16) by lia.
  assert (∃ y, u64 (s32 (Z.shiftl d 24)) = y * 2 ^ 24 ∧
    u64 (s32 (a + 256 * b + 65536 * c + 16777216 * d)) = a + 256 * b + 65536 * c + y * 2 ^ 24) as (y & -> & ->).
  { rewrite Z.shiftl_mul_pow2 by lia. unfold sint. rewrite !(wrap_small 32) by lia.
    destruct (Z.ltb_spec (d * 2 ^ 24) (2 ^ (32 - 1))) as [Hd|Hd]; destruct (Z.ltb_spec (a + 256 * b + 65536 * c + 16777216 * d) (2 ^ (32 - 1))); try lia.
    - exists d. rewrite !wrap_small by lia. lia.
    - exists (d + 2 ^ 40 - 2 ^ 8). unfold wrap.
      rewrite <- (Z.mod_unique (d * 2 ^ 24 - 2 ^ 32) (2 ^ 64) (-1) (d * 2 ^ 24 - 2 ^ 32 + 2 ^ 64)) by lia.
      rewrite <- (Z.mod_unique (a + 256 * b + 65536 * c + 16777216 * d - 2 ^ 32) (2 ^ 64) (-1)
        (a + 256 * b + 65536 * c + 16777216 * d - 2 ^ 32 + 2 ^ 64)) by lia. lia. }
  rewrite (lor_high _ y 24) by lia. lia.
Qed.

(** ** kernel_modules/read_write/kread.c *)

(** A file is opened for reading or writing, or there is an error; what is read
    is at most what was asked for. *)
Class Files := {
  filp_open : string → bool → gset Z → Z;
  kernel_read : Z → nat → bytes;
  filp_open_law n w s : - 4096 < filp_open n w s < 0 ∨ 0 < filp_open n w s ∧ filp_open n w s ∉ s;
  kernel_read_law f n : (length (kernel_read f n) ≤ n)%nat
}.

(** The files open, and what was written to each. *)
Record flstate := Fl { opened : gset Z; written : list (Z * bytes) }.

Abbreviation FlM := (M flstate).

Section files.
Context `{!Files}.

Definition open_file (n : string) (w : bool) : FlM Z := λ st,
  let f := filp_open n w (opened st) in
  if IS_ERR f then Ok (f, st) else Ok (f, Fl ({[f]} ∪ opened st) (written st)).

(** An error number is no file to close. *)
Definition filp_close (f : Z) : FlM () := λ st,
  if IS_ERR f then Fault
  else if decide (f ∈ opened st) then Ok ((), Fl (opened st ∖ {[f]}) (written st)) else Fault.

(** What [%s] prints: the bytes before the first NUL, which there must be. *)
Fixpoint c_string (l : bytes) : option bytes :=
  match l with
  | [] => None
  | c :: l => if c =? 0 then Some [] else (c ::.) <$> c_string l
  end.

(** The answer is what was printed of the file, if it could be opened. *)
Definition read_file (filename : string) : FlM (option bytes) :=
  let buf := replicate 128 0 in
  f ← open_file filename false;
  out ← (if IS_ERR f then mret None
         else
           let got := kernel_read f 128 in
           match c_string (got ++ drop (length got) buf) with
           | Some s => mret (Some s)
           | None => fault
           end);
  filp_close f;;
  mret out.

(** [sizeof(data)] is the size of the pointer; the bytes [data] hold must be that many. *)
Definition write_file (filename : string) (data : bytes) : FlM () :=
  f ← open_file filename true;
  (if IS_ERR f then mret ()
   else if (length data <? 8)%nat then fault
   else modify (λ st, Fl (opened st) (written st ++ [(f, take 8 data)])));;
  filp_close f.

(** "foo" and its NUL are four bytes. *)
Definition init : FlM Z :=
  _ ← read_file "/etc/issue"%string;
  write_file "/etc/temp"%string [102; 111; 111; 0];;
  mret 0.

Lemma open_spec n w st :
  (∃ e, open_file n w st = Ok (e, st) ∧ IS_ERR e = true ∧ filp_close e st = Fault) ∨
  (∃ f, open_file n w st = Ok (f, Fl ({[f]} ∪ opened st) (written st)) ∧ IS_ERR f = false ∧
     ∀ l, filp_close f (Fl ({[f]} ∪ opened st) l) = Ok ((), Fl (opened st) l)).
Proof.
  unfold open_file, filp_close. destruct (IS_ERR (filp_open n w (opened st))) eqn:He; [left|right].
  - eexists. split; [done|]. by rewrite He.
  - eexists. split; [done|]. split; [done|]. intros l. rewrite He. cbn. rewrite decide_True by set_solver. do 3 f_equal.
    destruct (filp_open_law n w (opened st)) as [[H1 H2]|[_ Hn]]; [|set_solver]. unfold IS_ERR in He.
    by rewrite (proj2 (Z.ltb_lt _ _) H1), (proj2 (Z.ltb_lt _ _) H2) in He.
Qed.

Lemma c_string_nul l r : ∃ s, c_string (l ++ 0 :: r) = Some s ∧ c_string (l ++ [0]) = Some s.
Proof.
  induction l as [|c l (s & H1 & H2)]; [by exists []|]. cbn. destruct (c =? 0); [by exists []|].
  rewrite H1, H2. by exists (c :: s).
Qed.

(** A file that cannot be opened is closed all the same; one that is shorter
    than the buffer is printed up to its first NUL. *)
Lemma read_file_spec n st :
  let f := filp_open n false (opened st) in
  (IS_ERR f = true → read_file n st = Fault) ∧
  (IS_ERR f = false → (length (kernel_read f 128) < 128)%nat →
     ∃ s, read_file n st = Ok (Some s, st) ∧ c_string (kernel_read f 128 ++ [0]) = Some s) ∧
  (read_file n st = Fault ∨ ∃ s, read_file n st = Ok (Some s, st)).
Proof.
  intros f. unfold read_file, mbind, M_bind.
  destruct (open_spec n false st) as [(e & Ho & He & Hc)|(g & Ho & Hg & Hc)]; rewrite Ho;
    unfold open_file in Ho; fold f in Ho.
  - rewrite He. unfold mret, M_ret. rewrite Hc. destruct (IS_ERR f) eqn:Hf; [|injection Ho as -> _; congruence].
    split; [done|]. split; [done|by left].
  - rewrite Hg. destruct (IS_ERR f) eqn:Hf; injection Ho as -> _; [congruence|]. split; [done|].
    rewrite drop_replicate.
    destruct (c_string (kernel_read g 128 ++ replicate (128 - length (kernel_read g 128)) 0)) as [s|] eqn:Hs.
    + unfold mret, M_ret. rewrite Hc. destruct st as [op wr]. split; [|right; by exists s].
      intros _ Hlen. exists s. split; [done|]. destruct (128 - length (kernel_read g 128))%nat as [|k] eqn:Hk; [lia|].
      cbn in Hs. destruct (c_string_nul (kernel_read g 128) (replicate k 0)) as (s' & H1 & H2). congruence.
    + split; [|by left]. intros _ Hlen. destruct (128 - length (kernel_read g 128))%nat as [|k] eqn:Hk; [lia|].
      cbn in Hs. destruct (c_string_nul (kernel_read g 128) (replicate k 0)) as (s' & H1 & H2). congruence.
Qed.

(** Loading the module always ends in a fault: the data is four bytes, not eight. *)
Lemma init_faults st : init st = Fault.
Proof.
  unfold init, mbind, M_bind. destruct (read_file_spec "/etc/issue" st) as (_ & _ & [->|[s ->]]); [done|].
  unfold write_file, mbind, M_bind. destruct (open_spec "/etc/temp" true st) as [(e & -> & He & Hc)|(f & -> & Hf & _)].
  - rewrite He. unfold mret, M_ret. by rewrite Hc.
  - by rewrite Hf.
Qed.
End files.
