(* ===== verification/PacketHook.v ===== *)
(** * The module kernel_modules/packet_hook/hook.c

    It registers a handler for the IP packets of one device, which prints the
    fields of a packet and gives up its reference to it.  The network stack, with
    its devices and buffers and their reference counts, is a parameter. *)
From stdpp Require Import strings.
From S2P Require Import Prelude.

(** A buffer: its kind, its device, the protocol in network order, and the
    fields of its Ethernet and IP headers. *)
Record sk_buff := Skb {
  pkt_type : Z;
  skb_dev : Z;
  protocol : Z;
  ip_protocol : Z;
  h_source : list Z;
  h_dest : list Z;
  saddr : list Z
}.

Record packet_type := PT { pt_type : Z; pt_dev : Z }.

(** What the handler prints. *)
Inductive message :=
| New
| Kind (pkt_type : Z)
| Dev (dev protocol ip_protocol : Z)
| Macs (src dst : list Z)
| Source (saddr : list Z)
| Inserted
| Cleaning.

(** The network stack, a parameter: what it does for the module, and what can be
    seen of it, that is the buffers with their references, the devices with
    theirs and the registered handlers. *)
Class NetOps (K : Type) := {
  dev_lookup : string → K → Z * K;
  add_pack : packet_type → K → K;
  remove_pack : packet_type → K → K;
  unref : Z → K → K;
  skb : K → Z → option (sk_buff * nat);
  dev_refs : K → Z → nat;
  packs : K → list packet_type
}.

(** One reference less; the buffer goes with its last. *)
Definition drop_ref (x : option (sk_buff * nat)) : option (sk_buff * nat) :=
  match x with Some (s, S (S n)) => Some (s, S n) | _ => None end.

(** What the kernel documents: [dev_get_by_name] gives NULL or a device with a
    reference to it, [dev_add_pack] and [dev_remove_pack] put a handler into the
    lists and take it out, [kfree_skb] gives up one reference. *)
Class NetStack (K : Type) `{!NetOps K} : Prop := {
  dev_lookup_law n k d k' : dev_lookup n k = (d, k') →
    (∀ e, dev_refs k' e = if decide (e = d ∧ d ≠ 0) then S (dev_refs k e) else dev_refs k e) ∧
    (∀ a, skb k' a = skb k a) ∧ packs k' = packs k;
  add_pack_law pt k :
    packs (add_pack pt k) ≡ₚ pt :: packs k ∧
    (∀ a, skb (add_pack pt k) a = skb k a) ∧ (∀ e, dev_refs (add_pack pt k) e = dev_refs k e);
  remove_pack_law pt k l : packs k ≡ₚ pt :: l →
    packs (remove_pack pt k) ≡ₚ l ∧
    (∀ a, skb (remove_pack pt k) a = skb k a) ∧ (∀ e, dev_refs (remove_pack pt k) e = dev_refs k e);
  unref_law a k :
    (∀ b, skb (unref a k) b = if decide (b = a) then drop_ref (skb k b) else skb k b) ∧
    packs (unref a k) = packs k ∧ (∀ e, dev_refs (unref a k) e = dev_refs k e)
}.

Definition htons (x : Z) : Z := Z.lor (Z.shiftl (Z.land x 255) 8) (Z.shiftr x 8).
Definition ntohs : Z → Z := htons.

Definition ETH_P_IP : Z := 0x0800.
Definition PACKET_FASTROUTE : Z := 6.

Section hook.
Context {K : Type} `{!NetOps K}.

(** The stack, the module's [ji_proto], and the log. *)
Record netstate := Net { net : K; ji_proto : packet_type; log : list message }.

Abbreviation NetM := (M netstate).

Definition set_net k st := Net k (ji_proto st) (log st).
Definition set_ji_proto p st := Net (net st) p (log st).
Definition printk (m : message) : NetM () := modify (λ st, Net (net st) (ji_proto st) (log st ++ [m])).

(** A buffer without a reference is not there any more. *)
Definition load_skb (a : Z) : NetM sk_buff := λ st,
  match skb (net st) a with Some (s, _) => Ok (s, st) | None => Fault end.

Definition kfree_skb (a : Z) : NetM () := λ st,
  match skb (net st) a with Some _ => Ok ((), set_net (unref a (net st)) st) | None => Fault end.

Definition dev_get_by_name (name : string) : NetM Z := λ st,
  let '(dev, k) := dev_lookup name (net st) in Ok (dev, set_net k st).

Definition dev_add_pack (pt : packet_type) : NetM () := modify (λ st, set_net (add_pack pt (net st)) st).
Definition dev_remove_pack (pt : packet_type) : NetM () := modify (λ st, set_net (remove_pack pt (net st)) st).

(** ** hook.c *)

(** The messages for the kinds 0 to 6; the others get none. *)
Definition ji_packet_rcv (skb dev orig_dev : Z) : NetM Z :=
  printk New;;
  s ← load_skb skb;
  (if (0 <=? pkt_type s) && (pkt_type s <=? PACKET_FASTROUTE) then printk (Kind (pkt_type s)) else mret ());;
  printk (Dev (skb_dev s) (ntohs (protocol s)) (ip_protocol s));;
  printk (Macs (h_source s) (h_dest s));;
  printk (Source (saddr s));;
  kfree_skb skb;;
  mret 0.

Definition ji_init : NetM Z :=
  dev ← dev_get_by_name "enp0s3";
  modify (set_ji_proto (PT (htons ETH_P_IP) dev));;
  pt ← gets ji_proto;
  dev_add_pack pt;;
  printk Inserted;;
  mret 0.

Definition ji_cleanup : NetM () :=
  pt ← gets ji_proto;
  dev_remove_pack pt;;
  printk Cleaning.

(** The packets the stack gives to the handler while the module is loaded. *)
Fixpoint receive_all (skbs : list Z) : NetM () :=
  match skbs with
  | [] => mret ()
  | a :: skbs => _ ← ji_packet_rcv a 0 0; receive_all skbs
  end.

(** ** Properties *)

(** What the handler prints of a packet. *)
Definition lines (s : sk_buff) : list message :=
  [New] ++ (if (0 <=? pkt_type s) && (pkt_type s <=? PACKET_FASTROUTE) then [Kind (pkt_type s)] else []) ++
  [Dev (skb_dev s) (ntohs (protocol s)) (ip_protocol s); Macs (h_source s) (h_dest s); Source (saddr s)].

Definition lines_at (k : K) (a : Z) : list message :=
  match skb k a with Some (s, _) => lines s | None => [] end.

(** The handler prints its lines and gives up the reference it was given. *)
Lemma rcv_spec a d d' st :
  skb (net st) a ≠ None →
  ji_packet_rcv a d d' st = Ok (0, Net (unref a (net st)) (ji_proto st) (log st ++ lines_at (net st) a)).
Proof.
  intros Hs. unfold ji_packet_rcv, mbind, M_bind, printk, modify, load_skb, kfree_skb, lines_at, lines. cbn.
  destruct (skb (net st) a) as [[s n]|] eqn:Ha; [|done].
  destruct ((0 <=? pkt_type s) && (pkt_type s <=? PACKET_FASTROUTE)); cbn; rewrite Ha; unfold set_net; cbn;
    by rewrite <- !app_assoc.
Qed.

(** Every call comes with a reference of its own. *)
Definition held (k : K) (l : list Z) : Prop :=
  ∀ a, a ∈ l → ∃ s n, skb k a = Some (s, n) ∧ (count_occ Z.eq_dec l a ≤ n)%nat.

Context `{!NetStack K}.

Lemma held_unref k a l : held k (a :: l) → held (unref a k) l.
Proof.
  intros Hh b Hb. destruct (Hh b) as (s & n & Hs & Hc); [by right|].
  assert (0 < count_occ Z.eq_dec l b)%nat as Hpos by (by apply count_occ_In, list_elem_of_In).
  rewrite (proj1 (unref_law a k)). cbn in Hc. destruct (Z.eq_dec a b) as [->|Hne].
  - rewrite decide_True by done. rewrite Hs. destruct n as [|[|n]]; [lia..|]. exists s, (S n). split; [done|lia].
  - rewrite decide_False by done. by exists s, n.
Qed.

Lemma receive_all_spec l st :
  held (net st) l →
  ∃ k, receive_all l st =
      Ok ((), Net k (ji_proto st) (log st ++ concat (lines_at (net st) <$> l))) ∧
    (∀ a, skb k a = Nat.iter (count_occ Z.eq_dec l a) drop_ref (skb (net st) a)) ∧
    packs k = packs (net st) ∧ (∀ e, dev_refs k e = dev_refs (net st) e).
Proof.
  revert st. induction l as [|a l IH]; intros st Hh.
  { exists (net st). cbn. rewrite app_nil_r. by destruct st. }
  destruct (Hh a) as (s & n & Hs & _); [by left|]. cbn [receive_all]. unfold mbind, M_bind.
  rewrite rcv_spec by (by rewrite Hs). set (st1 := Net _ _ _).
  destruct (unref_law a (net st)) as (Hskb & Hp & Hd).
  destruct (IH st1) as (k & -> & Hk & Hpk & Hdk); [by apply held_unref|].
  exists k. split; [|split; [|split]].
  - do 3 f_equal. cbn. rewrite <- app_assoc. do 3 f_equal. apply list_fmap_ext. intros i b Hb.
    apply list_elem_of_lookup_2 in Hb. unfold lines_at. rewrite Hskb. case_decide as Hba; [|done]. subst b.
    destruct (held_unref _ _ _ Hh a Hb) as (s' & n' & Hs' & _). rewrite Hskb, decide_True in Hs' by done.
    rewrite Hs in *. destruct n as [|[|n]]; [discriminate Hs'..|]. by injection Hs' as <- <-.
  - intros b. rewrite Hk. cbn [net]. unfold st1. cbn [net]. rewrite Hskb. cbn [count_occ].
    destruct (Z.eq_dec a b) as [->|Hne]; [|by rewrite decide_False].
    rewrite decide_True by done. by rewrite Nat.iter_succ_r.
  - by rewrite Hpk.
  - intros e. by rewrite Hdk.
Qed.

(** C30: a module's life, on any network stack: loading registers one handler
    beside those that are there, for the IP packets of the device "enp0s3", or of
    every device when the lookup gives NULL; each call of the handler prints the
    packet's fields and gives up exactly the one reference it came with, if
    every call comes with a reference; unloading takes the handler out, and
    nothing else has changed but the reference to the device, which is never
    given back. *)
Theorem hook_life (st : netstate) (l : list Z) :
  held (net st) l →
  ∃ dev st1 st2 st3,
    ji_init st = Ok (0, st1) ∧ packs (net st1) ≡ₚ PT (htons ETH_P_IP) dev :: packs (net st) ∧
    receive_all l st1 = Ok ((), st2) ∧ packs (net st2) = packs (net st1) ∧
    ji_cleanup st2 = Ok ((), st3) ∧ packs (net st3) ≡ₚ packs (net st) ∧
    (∀ a, skb (net st3) a = Nat.iter (count_occ Z.eq_dec l a) drop_ref (skb (net st) a)) ∧
    (∀ e, dev_refs (net st3) e = if decide (e = dev ∧ dev ≠ 0) then S (dev_refs (net st) e) else dev_refs (net st) e) ∧
    log st3 = log st ++ [Inserted] ++ concat (lines_at (net st) <$> l) ++ [Cleaning].
Proof.
  intros Hh. destruct (dev_lookup "enp0s3" (net st)) as [dev k] eqn:Hdev.
  destruct (dev_lookup_law _ _ _ _ Hdev) as (Hd & Hs & Hp). set (pt := PT (htons ETH_P_IP) dev).
  destruct (add_pack_law pt k) as (Hp1 & Hs1 & Hd1).
  set (st1 := Net (add_pack pt k) pt (log st ++ [Inserted])).
  assert (∀ a, skb (net st1) a = skb (net st) a) as Hs01 by (intros a; cbn; by rewrite Hs1).
  destruct (receive_all_spec l st1) as (k2 & Hrun & Hs2 & Hp2 & Hd2).
  { intros a Ha. rewrite Hs01. by apply Hh. }
  destruct (remove_pack_law pt k2 (packs (net st))) as (Hp3 & Hs3 & Hd3).
  { rewrite Hp2, <- Hp. exact Hp1. }
  exists dev, st1. do 2 eexists. split; [unfold ji_init, mbind, M_bind, dev_get_by_name; by rewrite Hdev|].
  split; [cbn; by rewrite Hp1, Hp|]. split; [exact Hrun|]. split; [done|]. split; [done|].
  split; [done|]. split; [intros a; cbn; by rewrite Hs3, Hs2, Hs01|].
  split; [intros e; cbn; by rewrite Hd3, Hd2; cbn; rewrite Hd1, Hd|].
  cbn. rewrite <- !app_assoc. do 4 f_equal. apply list_fmap_ext. intros i a _. unfold lines_at. by rewrite <- Hs01.
Qed.
End hook.
Arguments netstate K : clear implicits.

(** ** A stack of maps and a list *)

Record toy := Toy { toy_devices : gmap Z nat; toy_buffers : gmap Z (sk_buff * nat); toy_packs : list packet_type }.

#[local] Instance packet_type_eq : EqDecision packet_type.
Proof. solve_decision. Defined.

(** One device, at 64. *)
Definition toy_lookup (n : string) (k : toy) : Z * toy :=
  if decide (n = "enp0s3" ∧ is_Some (toy_devices k !! 64))
  then (64, Toy (alter S 64 (toy_devices k)) (toy_buffers k) (toy_packs k)) else (0, k).

Fixpoint remove_one (pt : packet_type) (l : list packet_type) : list packet_type :=
  match l with [] => [] | q :: l => if decide (q = pt) then l else q :: remove_one pt l end.

#[local] Instance toy_ops : NetOps toy := {
  dev_lookup := toy_lookup;
  add_pack pt k := Toy (toy_devices k) (toy_buffers k) (pt :: toy_packs k);
  remove_pack pt k := Toy (toy_devices k) (toy_buffers k) (remove_one pt (toy_packs k));
  unref a k := Toy (toy_devices k) (partial_alter drop_ref a (toy_buffers k)) (toy_packs k);
  skb k a := toy_buffers k !! a;
  dev_refs k e := default 0%nat (toy_devices k !! e);
  packs := toy_packs
}.

Lemma remove_one_perm pt l l' : l ≡ₚ pt :: l' → remove_one pt l ≡ₚ l'.
Proof.
  intros Hp. assert (pt ∈ l) as Hin by (rewrite Hp; left).
  apply (Permutation_cons_inv (a := pt)). rewrite <- Hp. clear Hp.
  induction l as [|q l IH]; [by apply not_elem_of_nil in Hin|]. cbn. case_decide as Hq; [by rewrite Hq|].
  apply elem_of_cons in Hin as [->|Hin]; [done|]. by rewrite Permutation_swap, IH.
Qed.

#[local] Instance toy_stack : NetStack toy.
Proof.
  split.
  - intros n k d k'. cbn. unfold toy_lookup. case_decide as H; intros [= <- <-]; [|by split; [intros e; rewrite decide_False by lia|]].
    split; [|done]. intros e. cbn. destruct (decide (e = 64)) as [->|Hne].
    + rewrite decide_True by done. rewrite lookup_alter_eq. destruct H as [_ [x Hx]]. by rewrite Hx.
    + by rewrite decide_False, lookup_alter_ne by naive_solver.
  - done.
  - intros pt k l Hp. cbn in *. split; [by apply remove_one_perm|done].
  - intros a k. split; [|done]. intros b. cbn. case_decide as Hb; [subst; apply lookup_partial_alter_eq|].
    by apply lookup_partial_alter_ne.
Qed.

Definition to_us : sk_buff := Skb 0 64 8 6 [1; 2; 3; 4; 5; 6] [7; 8; 9; 10; 11; 12] [127; 0; 0; 1].
Definition to_other : sk_buff := Skb 3 64 8 17 [1; 2; 3; 4; 5; 6] [1; 1; 1; 1; 1; 1] [10; 0; 0; 1].
Definition net0 : netstate toy :=
  Net (Toy {[64 := 1%nat]} {[16 := (to_us, 2%nat); 32 := (to_other, 2%nat)]} [PT 0x0300 0]) (PT 0 0) [].

Lemma hook_life_witness :
  ∃ dev st1 st2 st3, ji_init net0 = Ok (0, st1) ∧ receive_all [16; 32; 16] st1 = Ok ((), st2) ∧
    ji_cleanup st2 = Ok ((), st3) ∧ packs (net st1) ≡ₚ PT (htons ETH_P_IP) dev :: packs (net net0) ∧
    packs (net st3) ≡ₚ packs (net net0) ∧ skb (net st3) 16 = None ∧ skb (net st3) 32 = Some (to_other, 1%nat) ∧
    log st3 = [Inserted] ++ lines to_us ++ lines to_other ++ lines to_us ++ [Cleaning].
Proof.
  assert (held (net net0) [16; 32; 16]) as Hl.
  { intros a Ha. rewrite !elem_of_cons in Ha. destruct Ha as [->|[->|[->|Ha]]];
      [| | |by apply not_elem_of_nil in Ha]; (do 2 eexists; split; [vm_compute; reflexivity|apply Nat.leb_le; vm_compute; reflexivity]). }
  destruct (hook_life net0 _ Hl) as (dev & st1 & st2 & st3 & Hi & Hp1 & Hr & _ & Hc & Hp3 & Hs & _ & Hlog).
  exists dev, st1, st2, st3. split; [exact Hi|]. split; [exact Hr|]. split; [exact Hc|]. split; [exact Hp1|].
  split; [exact Hp3|]. split; [rewrite Hs; vm_compute; reflexivity|]. split; [rewrite Hs; vm_compute; reflexivity|].
  rewrite Hlog. vm_compute. reflexivity.
Defined.
