(* ===== verification/UserTools.v ===== *)
(** * The user programs device/open_dev/open_dev.c and parallel_tcpip/socket_client.c

    What the kernel and the peer answer are arguments; the state is the mapped
    part of the device, and nothing for the client. *)
From S2P Require Import Prelude.

(** ** open_dev.c: a device is mapped and two of its bytes are set *)

(** A byte of the mapping; [mmap] may have failed, which is not tested. *)
Definition load_byte (mapped : bool) (i : nat) : M (list Z) Z := λ st,
  if mapped then match st !! i with Some c => Ok (c, st) | None => Fault end else Fault.

Definition store_byte (mapped : bool) (i : nat) (c : Z) : M (list Z) () := λ st,
  if mapped then match st !! i with Some _ => Ok ((), <[i := c]> st) | None => Fault end else Fault.

(** A [char] printed with [%X]: sign-extended to an [int]. *)
Definition hex_of_char (c : Z) : Z := u32 (sint 8 c).

(** The exit status and the values printed. *)
Definition open_dev_main (fd : Z) (mapped : bool) : M (list Z) (Z * list Z) :=
  if fd =? -1 then mret (1, [])
  else
    c ← load_byte mapped 0;
    store_byte mapped 0 97;;
    store_byte mapped 1 99;;
    c' ← load_byte mapped 0;
    x ← load_byte mapped 0;
    y ← load_byte mapped 1;
    mret (0, [hex_of_char c; hex_of_char c'; x; y]).

(** The first two bytes of the mapping become [ac], the others stay; a device
    that cannot be opened ends the program with 1, one that cannot be mapped
    with a fault. *)
Theorem open_dev_writes (fd : Z) (b0 b1 : Z) (rest : list Z) :
  open_dev_main fd true (b0 :: b1 :: rest) =
    (if fd =? -1 then Ok ((1, []), b0 :: b1 :: rest)
     else Ok ((0, [hex_of_char b0; 0x61; 97; 99]), 97 :: 99 :: rest)) ∧
  (fd ≠ -1 → ∀ st, open_dev_main fd false st = Fault).
Proof.
  split.
  - unfold open_dev_main. by destruct (fd =? -1).
  - intros Hfd st. unfold open_dev_main. by rewrite (proj2 (Z.eqb_neq fd (-1))).
Qed.

(** ** socket_client.c: a greeting is sent and the answer printed *)

Definition BUFF_SIZE : nat := 1024.

(** What a thread does: it ends the program, or prints the answer. *)
Inductive client := ExitSocket | ExitConnect | Says (answer : list Z).

(** [printf] with [%s] of a buffer whose first bytes are [l] and whose others
    were never set: up to the first NUL, which must be among those set. *)
Fixpoint print_string (l : list Z) : res (list Z) :=
  match l with
  | [] => Fault
  | c :: l =>
      if c =? 0 then Ok []
      else match print_string l with Ok s => Ok (c :: s) | Fault => Fault | NoFuel => NoFuel end
  end.

(** [sock] and [conn] are what [socket] and [connect] return, and [reply] is
    what the peer has sent when [read] is called, nothing when it fails. *)
Definition clientThread (sock conn : Z) (reply : option (list Z)) : res client :=
  if sock =? -1 then Ok ExitSocket
  else if conn =? -1 then Ok ExitConnect
  else
    match print_string (take BUFF_SIZE (default [] reply)) with
    | Ok s => Ok (Says s)
    | Fault => Fault
    | NoFuel => NoFuel
    end.

Lemma print_string_spec s rest : Forall (λ c, c ≠ 0) s → print_string (s ++ 0 :: rest) = Ok s.
Proof.
  induction 1 as [|c s Hc _ IH]; [done|]. cbn [app print_string]. by rewrite (proj2 (Z.eqb_neq c 0)), IH.
Qed.

Lemma print_string_fault l : Forall (λ c, c ≠ 0) l → print_string l = Fault.
Proof. induction 1 as [|c s Hc _ IH]; [done|]. cbn [print_string]. by rewrite (proj2 (Z.eqb_neq c 0)), IH. Qed.

(** The client prints the answer up to its first NUL; an answer without one in
    its first 1024 bytes, or none at all, is printed on into bytes that were
    never set. *)
Theorem client_prints (sock conn : Z) (s rest : list Z) :
  sock ≠ -1 → conn ≠ -1 → Forall (λ c, c ≠ 0) s →
  clientThread sock conn (Some (s ++ 0 :: rest)) =
    (if decide (length s < BUFF_SIZE)%nat then Ok (Says s) else Fault) ∧
  clientThread sock conn (Some s) = Fault ∧ clientThread sock conn None = Fault.
Proof.
  intros Hsk Hcn Hs. unfold clientThread.
  rewrite (proj2 (Z.eqb_neq sock (-1))), (proj2 (Z.eqb_neq conn (-1))) by done. cbn [from_option id].
  split; [|split; [|done]].
  - case_decide as Hl.
    + rewrite take_app_ge by lia. destruct (BUFF_SIZE - length s)%nat as [|k] eqn:E; [lia|].
      cbn [take firstn]. by rewrite print_string_spec.
    + rewrite take_app_le by lia. rewrite print_string_fault; [done|]. by apply Forall_take.
  - rewrite print_string_fault; [done|]. by apply Forall_take.
Qed.

(** The exit status and what was printed; a thread that was not created is
    joined all the same, by a handle that was never set. *)
Definition client_main (created : bool) (thread : res client) : res (Z * option (list Z)) :=
  if created then
    match thread with
    | Ok (Says s) => Ok (0, Some s)
    | Ok _ => Ok (1, None)
    | Fault => Fault
    | NoFuel => NoFuel
    end
  else Fault.
