(* ===== verification/Pmem.v ===== *)
(** * Pools of persistent memory: the interface of libpmemobj

    What the programs of pmdk_practice use of libpmemobj, and what its manual
    promises: a pool holds objects; an atomic operation is done or not done
    after a crash; a transaction is done when it is committed, and otherwise
    undone.  The library is a parameter, the class [Pmemobj] of its operations
    with their laws; PmemLog.v has one. *)
From stdpp Require Import strings.
From S2P Require Import Prelude.

(** ** Pools *)

(** The objects of the programs' layout.h files: the root of string_store, the
    root and the rectangles of rect_calc, the root and the notes of lists.  The
    list of a root is that of the notes linked to it. *)
Inductive pobj :=
| Store (len : Z) (buf : list Z)
| RectRoot (rect : Z)
| Rect (a b : Z)
| ListRoot (head : list Z)
| Note (date_created : Z) (msg : list Z).

(** What is asked for: a rectangle, or a note with room for so many bytes. *)
Inductive ptype := TRect | TNote (bytes : nat).

Definition of_type (ty : ptype) (o : pobj) : bool :=
  match ty, o with
  | TRect, Rect _ _ => true
  | TNote n, Note _ msg => Nat.eqb (length msg) n
  | _, _ => false
  end.

(** What is on the medium: the root object, 0 when there is none, and all; a
    file has the name of its layout before it. *)
Abbreviation image := (Z * gmap Z pobj)%type.
Abbreviation file := (option (string * image)).

(** A transaction: what was there when it began, the objects it may change and
    those that go when it is committed. *)
Record txview := TxView { before : image; writable : gset Z; to_free : gset Z }.

(** A pool that is open, and all that crashes would have left so far. *)
Record pview := PView {
  rootoid : Z;
  objs : gmap Z pobj;
  tx : option txview;
  images : list image
}.

Definition crash (v : pview) : image :=
  match tx v with None => (rootoid v, objs v) | Some t => before t end.

Definition mark (v : pview) : pview := PView (rootoid v) (objs v) (tx v) (images v ++ [crash v]).
Definition with_objs (m : gmap Z pobj) (v : pview) : pview := mark (PView (rootoid v) m (tx v) (images v)).
Definition with_tx (t : option txview) (v : pview) : pview := mark (PView (rootoid v) (objs v) t (images v)).

(** ** Runs

    A run returns, aborts its transaction, or ends the program where C says
    nothing; the pool is there in every case. *)

Inductive out (A : Type) := Ret (a : A) | Aborted | Stop.
Arguments Ret {_}.
Arguments Aborted {_}.
Arguments Stop {_}.

Definition PM (P A : Type) : Type := P → out A * P.

#[export] Instance PM_ret {P} : MRet (PM P) := λ A a p, (Ret a, p).
#[export] Instance PM_bind {P} : MBind (PM P) := λ A B k m p,
  match m p with
  | (Ret a, p') => k a p'
  | (Aborted, p') => (Aborted, p')
  | (Stop, p') => (Stop, p')
  end.

Definition stop {P A} : PM P A := λ p, (Stop, p).

(** ** The operations *)

Class Pmemobj (P : Type) := {
  view : P → pview;
  pmemobj_create : string → file → option P;
  pmemobj_open : string → file → option P;
  (** The root, set as given when it is first asked for. *)
  POBJ_ROOT : pobj → PM P Z;
  (** An object made by its constructor, with a store in another that takes
      its address; and one freed, with such a store. *)
  POBJ_NEW : ptype → (pobj → pobj) → Z → (Z → pobj → pobj) → PM P bool;
  POBJ_FREE : Z → Z → (pobj → pobj) → PM P ();
  POBJ_FIRST : ptype → PM P Z;
  TX_BEGIN : P → P;
  TX_COMMIT : P → P;
  TX_ABORT : P → P;
  TX_ADD : Z → PM P ();
  TX_NEW : ptype → PM P Z;
  TX_FREE : Z → PM P ();
  (** A store through [D_RW]. *)
  D_RW : Z → (pobj → pobj) → PM P ()
}.

Section ops.
Context {P : Type} `{!Pmemobj P}.

(** NULL, or an object that is not there, is read through. *)
Definition D_RO (oid : Z) : PM P pobj := λ p,
  match objs (view p) !! oid with Some o => (Ret o, p) | None => (Stop, p) end.

(** [TX_BEGIN(pop) { body } TX_END]: where the body is aborted, it is left. *)
Definition transaction (body : PM P ()) : PM P () := λ p,
  match body (TX_BEGIN p) with
  | (Ret _, p') => (Ret (), TX_COMMIT p')
  | (Aborted, p') => (Ret (), TX_ABORT p')
  | (Stop, p') => (Stop, p')
  end.

(** ** Reasoning about every end of a run *)

Definition runs {A} (m : PM P A) (Q : out A → pview → Prop) (p : P) : Prop := Q (fst (m p)) (view (snd (m p))).

Definition no_tx (v : pview) : Prop := tx v = None.

(** An object that was not there. *)
Definition is_new (a : Z) (v : pview) : Prop := a ≠ 0 ∧ objs v !! a = None.
End ops.

(** ** What the library promises *)

Class PmemobjLaws (P : Type) `{!Pmemobj P} : Prop := {
  create_law layout f p :
    pmemobj_create layout f = Some p → f = None ∧ view p = PView 0 ∅ None [(0, ∅)];
  open_law layout f p :
    pmemobj_open layout f = Some p → ∃ r m, f = Some (layout, (r, m)) ∧ view p = PView r m None [(r, m)];
  ROOT_law z p :
    no_tx (view p) →
    runs (POBJ_ROOT z) (λ r v,
      if decide (rootoid (view p) = 0) then
        (r = Ret 0 ∧ v = view p) ∨
        (∃ a, is_new a (view p) ∧ r = Ret a ∧ v = mark (PView a (<[a := z]> (objs (view p))) None (images (view p))))
      else r = Ret (rootoid (view p)) ∧ v = view p) p;
  NEW_law ty construct dst set d p :
    no_tx (view p) → objs (view p) !! dst = Some d →
    runs (POBJ_NEW ty construct dst set) (λ r v,
      (r = Ret false ∧ v = view p) ∨
      (∃ a o, is_new a (view p) ∧ of_type ty o ∧ r = Ret true ∧
         v = with_objs (<[dst := set a d]> (<[a := construct o]> (objs (view p)))) (view p))) p;
  FREE_law oid dst set d p :
    no_tx (view p) → is_Some (objs (view p) !! oid) → objs (view p) !! dst = Some d → oid ≠ dst →
    runs (POBJ_FREE oid dst set) (λ r v,
      r = Ret () ∧ v = with_objs (<[dst := set d]> (delete oid (objs (view p)))) (view p)) p;
  FIRST_law ty p :
    runs (POBJ_FIRST ty) (λ r v,
      v = view p ∧
      ((r = Ret 0 ∧ ∀ a o, objs v !! a = Some o → ¬ of_type ty o) ∨
       (∃ a o, r = Ret a ∧ objs v !! a = Some o ∧ of_type ty o))) p;
  BEGIN_law p :
    no_tx (view p) → view (TX_BEGIN p) = with_tx (Some (TxView (crash (view p)) ∅ ∅)) (view p);
  COMMIT_law p t :
    tx (view p) = Some t →
    view (TX_COMMIT p) =
      mark (PView (rootoid (view p)) (filter (λ x, x.1 ∉ to_free t) (objs (view p))) None (images (view p)));
  ABORT_law p t :
    tx (view p) = Some t → view (TX_ABORT p) = mark (PView (before t).1 (before t).2 None (images (view p)));
  TX_ADD_law oid p t :
    tx (view p) = Some t → is_Some (objs (view p) !! oid) →
    runs (TX_ADD oid) (λ r v,
      (r = Aborted ∧ v = view p) ∨
      (r = Ret () ∧ v = with_tx (Some (TxView (before t) ({[oid]} ∪ writable t) (to_free t))) (view p))) p;
  TX_NEW_law ty p t :
    tx (view p) = Some t →
    runs (TX_NEW ty) (λ r v,
      (r = Aborted ∧ v = view p) ∨
      (∃ a o, is_new a (view p) ∧ of_type ty o ∧ r = Ret a ∧
         v = mark (PView (rootoid (view p)) (<[a := o]> (objs (view p)))
                     (Some (TxView (before t) ({[a]} ∪ writable t) (to_free t))) (images (view p))))) p;
  TX_FREE_law oid p t :
    tx (view p) = Some t → is_Some (objs (view p) !! oid) →
    runs (TX_FREE oid) (λ r v,
      (r = Aborted ∧ v = view p) ∨
      (r = Ret () ∧ v = with_tx (Some (TxView (before t) (writable t) ({[oid]} ∪ to_free t))) (view p))) p;
  D_RW_law oid f p t o :
    tx (view p) = Some t → oid ∈ writable t → objs (view p) !! oid = Some o →
    runs (D_RW oid f) (λ r v, r = Ret () ∧ v = with_objs (<[oid := f o]> (objs (view p))) (view p)) p
}.

(** In a pool of fewer than [N] objects nothing is refused. *)
Definition pmem_room (P : Type) `{!Pmemobj P} (N : nat) : Prop :=
  ∀ p : P, (size (objs (view p)) < N)%nat →
    (∀ z, fst (POBJ_ROOT z p) ≠ Ret 0) ∧
    (∀ ty construct dst set, fst (POBJ_NEW ty construct dst set p) ≠ Ret false) ∧
    (∀ oid, fst (TX_ADD oid p) ≠ Aborted) ∧
    (∀ ty, fst (TX_NEW ty p) ≠ Aborted) ∧
    (∀ oid, fst (TX_FREE oid p) ≠ Aborted).

(** ** Rules *)

Section rules.
Context {P : Type} `{!Pmemobj P} `{!PmemobjLaws P}.

Lemma runs_ret {A} (a : A) Q (p : P) : Q (Ret a) (view p) → runs (mret a) Q p.
Proof. done. Qed.

Lemma runs_bind {A B} (m : PM P A) (k : A → PM P B) Q p :
  (∀ r p', m p = (r, p') → match r with Ret a => runs (k a) Q p' | Aborted => Q Aborted (view p') | Stop => Q Stop (view p') end) →
  runs (m ≫= k) Q p.
Proof. unfold runs, mbind, PM_bind. intros H. destruct (m p) as [r p'] eqn:E. specialize (H r p' eq_refl). by destruct r. Qed.

(** What the law of the first operation says, for the rest. *)
Lemma runs_law {A B} (m : PM P A) (k : A → PM P B) L Q p :
  runs m L p →
  (∀ r p', m p = (r, p') → L r (view p') →
     match r with Ret a => runs (k a) Q p' | Aborted => Q Aborted (view p') | Stop => Q Stop (view p') end) →
  runs (m ≫= k) Q p.
Proof. intros HL H. apply runs_bind. intros r p' E. apply H; [done|]. unfold runs in HL. by rewrite E in HL. Qed.

Lemma runs_mono {A} (m : PM P A) (Q R : out A → pview → Prop) p :
  runs m Q p → (∀ r v, Q r v → R r v) → runs m R p.
Proof. unfold runs. eauto. Qed.

Lemma runs_D_RO {B} (k : pobj → PM P B) Q p oid o :
  objs (view p) !! oid = Some o → runs (k o) Q p → runs (D_RO oid ≫= k) Q p.
Proof. intros Ho H. unfold runs, mbind, PM_bind, D_RO. by rewrite Ho. Qed.

Lemma runs_D_RO_none {B} (k : pobj → PM P B) Q p oid :
  objs (view p) !! oid = None → Q Stop (view p) → runs (D_RO oid ≫= k) Q p.
Proof. intros Ho H. unfold runs, mbind, PM_bind, D_RO. by rewrite Ho. Qed.

Lemma runs_assoc {A B C} (m : PM P A) (k : A → PM P B) (l : B → PM P C) Q p :
  runs (m ≫= λ a, k a ≫= l) Q p → runs ((m ≫= k) ≫= l) Q p.
Proof. unfold runs, mbind, PM_bind. by destruct (m p) as [[]]. Qed.

(** The last operation of a sequence. *)
Lemma runs_last {A} (m : PM P A) Q p : runs (m ≫= mret) Q p → runs m Q p.
Proof. unfold runs, mbind, PM_bind. by destruct (m p) as [[]]. Qed.

(** What a transaction leaves: the body's end is committed, or the body had no
    effect. *)
Lemma runs_transaction (body : PM P ()) Q p :
  no_tx (view p) →
  (∀ p0, view p0 = with_tx (Some (TxView (crash (view p)) ∅ ∅)) (view p) →
     runs body (λ r v, ∃ t, tx v = Some t ∧
       match r with
       | Ret _ => Q (Ret ()) (mark (PView (rootoid v) (filter (λ x, x.1 ∉ to_free t) (objs v)) None (images v)))
       | Aborted => Q (Ret ()) (mark (PView (before t).1 (before t).2 None (images v)))
       | Stop => Q Stop v
       end) p0) →
  runs (transaction body) Q p.
Proof.
  intros Hp H. specialize (H (TX_BEGIN p) (BEGIN_law _ Hp)). unfold runs, transaction in *.
  destruct (body (TX_BEGIN p)) as [[[]| |] p1]; cbn [fst snd] in *; destruct H as (t & Ht & H); [| |done].
  - by rewrite (COMMIT_law _ _ Ht).
  - by rewrite (ABORT_law _ _ Ht).
Qed.
End rules.
