(* ===== verification/PmemLog.v ===== *)
(** * A library of persistent pools that keeps an undo log

    The interface of Pmem.v can be met: objects are logged before they are
    changed, and recovery puts the logged ones back and drops the new ones.
    That recovery gives the state before the transaction is what the laws
    need. *)
From stdpp Require Import strings.
From S2P Require Import Prelude Pmem.

(** The objects as they were, and those allocated and to be freed. *)
Record txlog := Log { undo : gmap Z pobj; fresh : gset Z; freed : gset Z }.

Record lpool := LPool {
  lroot : Z;
  lobjs : gmap Z pobj;
  llog : option txlog;
  limages : list image;
  lticks : nat
}.

(** Recovery after a crash. *)
Definition recovered (p : lpool) : image :=
  (lroot p,
   match llog p with
   | None => lobjs p
   | Some t => undo t ∪ filter (λ x, x.1 ∉ fresh t) (lobjs p)
   end).

Definition logged (t : txlog) : gset Z := fresh t ∪ dom (undo t).

Definition lview (p : lpool) : pview :=
  PView (lroot p) (lobjs p) ((λ t, TxView (recovered p) (logged t) (freed t)) <$> llog p) (limages p).

Definition lmark (p : lpool) : lpool := LPool (lroot p) (lobjs p) (llog p) (limages p ++ [recovered p]) (lticks p).
Definition lset (m : gmap Z pobj) (t : option txlog) (p : lpool) : lpool :=
  lmark (LPool (lroot p) m t (limages p) (lticks p)).
Definition ltick (p : lpool) : lpool := LPool (lroot p) (lobjs p) (llog p) (limages p) (S (lticks p)).

(** Nothing is promised outside a transaction, nor about what is not there. *)
Definition within {A} (k : txlog → PM lpool A) : PM lpool A := λ p,
  match llog p with Some t => k t p | None => (Stop, p) end.

Definition of_object {A} (oid : Z) (k : pobj → PM lpool A) : PM lpool A := λ p,
  match lobjs p !! oid with Some o => k o p | None => (Stop, p) end.

Definition zero_of (ty : ptype) : pobj := match ty with TRect => Rect 0 0 | TNote n => Note 0 (replicate n 0) end.

Section log.
Context `{!Calloc pobj}.

Definition log_ROOT (z : pobj) : PM lpool Z := λ p,
  if truthy (lroot p) then (Ret (lroot p), p)
  else
    match calloc (lticks p) (lobjs p) with
    | Some a => (Ret a, lmark (LPool a (<[a := z]> (lobjs p)) (llog p) (limages p) (S (lticks p))))
    | None => (Ret 0, ltick p)
    end.

Definition log_NEW (ty : ptype) (construct : pobj → pobj) (dst : Z) (set : Z → pobj → pobj) : PM lpool bool :=
  of_object dst (λ d p,
    match calloc (lticks p) (lobjs p) with
    | Some a => (Ret true, lset (<[dst := set a d]> (<[a := construct (zero_of ty)]> (lobjs p))) (llog p) (ltick p))
    | None => (Ret false, ltick p)
    end).

Definition log_FREE (oid dst : Z) (set : pobj → pobj) : PM lpool () :=
  of_object dst (λ d p, (Ret (), lset (<[dst := set d]> (delete oid (lobjs p))) (llog p) p)).

Definition log_FIRST (ty : ptype) : PM lpool Z := λ p,
  (Ret (match map_to_list (filter (λ x, of_type ty x.2) (lobjs p)) with [] => 0 | x :: _ => x.1 end), p).

Definition log_BEGIN (p : lpool) : lpool := lset (lobjs p) (Some (Log ∅ ∅ ∅)) p.

Definition log_COMMIT (p : lpool) : lpool :=
  match llog p with Some t => lset (filter (λ x, x.1 ∉ freed t) (lobjs p)) None p | None => p end.

Definition log_ABORT (p : lpool) : lpool := lset (recovered p).2 None p.

(** What was logged, or is new, is not logged. *)
Definition log_ADD (oid : Z) : PM lpool () :=
  within (λ t, of_object oid (λ o p,
    (Ret (),
     lset (lobjs p) (Some (Log (if decide (oid ∈ logged t) then undo t else <[oid := o]> (undo t)) (fresh t) (freed t))) p))).

Definition log_TX_NEW (ty : ptype) : PM lpool Z :=
  within (λ t p,
    match calloc (lticks p) (lobjs p) with
    | Some a => (Ret a, lset (<[a := zero_of ty]> (lobjs p)) (Some (Log (undo t) ({[a]} ∪ fresh t) (freed t))) (ltick p))
    | None => (Aborted, ltick p)
    end).

Definition log_TX_FREE (oid : Z) : PM lpool () :=
  within (λ t p, (Ret (), lset (lobjs p) (Some (Log (undo t) (fresh t) ({[oid]} ∪ freed t))) p)).

Definition log_RW (oid : Z) (f : pobj → pobj) : PM lpool () :=
  within (λ t, of_object oid (λ o p, (Ret (), lset (<[oid := f o]> (lobjs p)) (llog p) p))).

#[export] Instance log_pmem : Pmemobj lpool := {|
  view := lview;
  pmemobj_create _ f := match f with None => Some (LPool 0 ∅ None [(0, ∅)] 0) | Some _ => None end;
  pmemobj_open layout f :=
    match f with
    | Some (l, (r, m)) => if bool_decide (l = layout) then Some (LPool r m None [(r, m)] 0) else None
    | None => None
    end;
  POBJ_ROOT := log_ROOT;
  POBJ_NEW := log_NEW;
  POBJ_FREE := log_FREE;
  POBJ_FIRST := log_FIRST;
  TX_BEGIN := log_BEGIN;
  TX_COMMIT := log_COMMIT;
  TX_ABORT := log_ABORT;
  TX_ADD := log_ADD;
  TX_NEW := log_TX_NEW;
  TX_FREE := log_TX_FREE;
  D_RW := log_RW
|}.

(** ** Recovery gives the state before the transaction *)

Lemma lview_log p t : tx (lview p) = Some t → ∃ l, llog p = Some l ∧ t = TxView (recovered p) (logged l) (freed l).
Proof. cbn. destruct (llog p) as [l|]; [|done]. cbn. intros [= <-]. by exists l. Qed.

Lemma lview_no_log p : no_tx (lview p) → llog p = None.
Proof. unfold no_tx. cbn. by destruct (llog p). Qed.

(** A step in a transaction, that keeps what a crash leaves. *)
Lemma lview_step p m l l' :
  llog p = Some l → recovered (LPool (lroot p) m (Some l') (limages p) (lticks p)) = recovered p →
  lview (lset m (Some l') p) =
    mark (PView (lroot p) m (Some (TxView (recovered p) (logged l') (freed l'))) (limages p)).
Proof. intros Hl Hr. rewrite <- Hr. done. Qed.

(** A step outside of one. *)
Lemma lview_plain p m : llog p = None → lview (lset m None p) = with_objs m (lview p).
Proof. intros Hl. unfold lset, lmark, lview, with_objs, mark, crash. cbn. by rewrite Hl. Qed.

(** What recovery reads of each object. *)
Definition back (l : txlog) (m : gmap Z pobj) (a : Z) : option pobj :=
  match undo l !! a with Some o => Some o | None => if decide (a ∈ fresh l) then None else m !! a end.

Lemma lookup_back l m a : (undo l ∪ filter (λ x, x.1 ∉ fresh l) m) !! a = back l m a.
Proof.
  unfold back. destruct (undo l !! a) as [o|] eqn:Hu; [by apply lookup_union_Some_l|].
  rewrite lookup_union_r by done. case_decide as Hf.
  - apply map_lookup_filter_None. right. intros x _ Hx. by apply Hx.
  - rewrite map_lookup_filter. destruct (m !! a); [|done]. cbn. by rewrite option_guard_True.
Qed.

Lemma recovered_eq p m l l' r i k :
  llog p = Some l → r = lroot p → (∀ a, back l' m a = back l (lobjs p) a) →
  recovered (LPool r m (Some l') i k) = recovered p.
Proof.
  intros Hl -> Hb. unfold recovered. cbn. rewrite Hl. f_equal. apply map_eq. intros a. by rewrite !lookup_back.
Qed.

(** An object that is logged can change, and one can be logged as it is. *)
Lemma back_store l m oid o a : oid ∈ logged l → back l (<[oid := o]> m) a = back l m a.
Proof.
  unfold back, logged. intros Hl. destruct (undo l !! a) as [?|] eqn:Hu; [done|]. case_decide as Hf; [done|].
  destruct (decide (a = oid)) as [->|]; [|by rewrite lookup_insert_ne]. apply elem_of_union in Hl as [?|Hd]; [done|].
  by apply elem_of_dom in Hd as [? ?]; simplify_eq.
Qed.

Lemma back_log l m oid o a :
  m !! oid = Some o → oid ∉ logged l → back (Log (<[oid := o]> (undo l)) (fresh l) (freed l)) m a = back l m a.
Proof.
  unfold back, logged. cbn. intros Ho [Hf Hd]%not_elem_of_union. destruct (decide (a = oid)) as [->|]; [|by rewrite lookup_insert_ne].
  rewrite lookup_insert_eq. apply not_elem_of_dom in Hd. rewrite Hd, decide_False by done. done.
Qed.

Lemma logged_add l oid o f :
  logged (Log (if decide (oid ∈ logged l) then undo l else <[oid := o]> (undo l)) (fresh l) f) = {[oid]} ∪ logged l.
Proof. unfold logged. cbn. case_decide; rewrite ?dom_insert_L; set_solver. Qed.

Lemma back_new l m a0 o a :
  m !! a0 = None → back (Log (undo l) ({[a0]} ∪ fresh l) (freed l)) (<[a0 := o]> m) a = back l m a.
Proof.
  unfold back. cbn. intros Hm. destruct (undo l !! a); [done|]. destruct (decide (a = a0)) as [->|].
  - rewrite decide_True by (apply elem_of_union_l, elem_of_singleton_2; done). rewrite Hm. by case_decide.
  - rewrite lookup_insert_ne by done. apply decide_ext. rewrite elem_of_union, elem_of_singleton. naive_solver.
Qed.

Lemma of_type_zero ty : of_type ty (zero_of ty).
Proof. destruct ty; [done|]. cbn. by rewrite length_replicate, Nat.eqb_refl. Qed.

Lemma runs_within {A} (k : txlog → PM lpool A) Q p l : llog p = Some l → runs (k l) Q p → runs (within k) Q p.
Proof. intros Hl H. unfold runs, within. by rewrite Hl. Qed.

Lemma runs_of_object {A} oid (k : pobj → PM lpool A) Q p o :
  lobjs p !! oid = Some o → runs (k o) Q p → runs (of_object oid k) Q p.
Proof. intros Ho H. unfold runs, of_object. by rewrite Ho. Qed.

Lemma calloc_new t (p : lpool) a : calloc t (lobjs p) = Some a → is_new a (lview p).
Proof. intros Ha. split; [pose proof (calloc_range _ _ _ Ha); lia|]. exact (calloc_fresh _ _ _ Ha). Qed.
End log.

Section laws.
Context `{!Calloc pobj}.

Lemma log_ROOT_law z p :
  no_tx (lview p) →
  runs (POBJ_ROOT z) (λ r v,
    if decide (rootoid (lview p) = 0) then
      (r = Ret 0 ∧ v = lview p) ∨
      (∃ a, is_new a (lview p) ∧ r = Ret a ∧ v = mark (PView a (<[a := z]> (objs (lview p))) None (images (lview p))))
    else r = Ret (rootoid (lview p)) ∧ v = lview p) p.
Proof.
  intros Hl%lview_no_log. unfold runs. cbn. unfold log_ROOT, truthy. destruct (decide (lroot p = 0)) as [Hr|Hr].
  - rewrite Hr. cbn. destruct (calloc _ _) as [a|] eqn:Ha.
    + right. exists a. split; [exact (calloc_new _ _ _ Ha)|]. split; [done|].
      unfold lview, lmark, mark, crash, recovered. cbn. by rewrite Hl.
    + left. split; [done|]. unfold lview, ltick. cbn. by rewrite Hr, Hl.
  - by rewrite (proj2 (Z.eqb_neq _ _) Hr).
Qed.

Lemma log_NEW_law ty construct dst set d p :
  no_tx (lview p) → objs (lview p) !! dst = Some d →
  runs (POBJ_NEW ty construct dst set) (λ r v,
    (r = Ret false ∧ v = lview p) ∨
    (∃ a o, is_new a (lview p) ∧ of_type ty o ∧ r = Ret true ∧
       v = with_objs (<[dst := set a d]> (<[a := construct o]> (objs (lview p)))) (lview p))) p.
Proof.
  intros Hl%lview_no_log Hd. apply (runs_of_object _ _ _ _ _ Hd). unfold runs. cbn -[calloc].
  destruct (calloc _ _) as [a|] eqn:Ha; [right|left; by unfold lview, ltick]. exists a, (zero_of ty).
  split; [exact (calloc_new _ _ _ Ha)|]. split; [apply of_type_zero|]. split; [done|]. cbn [fst snd].
  rewrite Hl. by rewrite lview_plain.
Qed.

Lemma log_FIRST_law ty p :
  runs (POBJ_FIRST ty) (λ r v,
    v = lview p ∧
    ((r = Ret 0 ∧ ∀ a o, objs v !! a = Some o → ¬ of_type ty o) ∨
     (∃ a o, r = Ret a ∧ objs v !! a = Some o ∧ of_type ty o))) p.
Proof.
  unfold runs. cbn. split; [done|]. set (m := filter (λ x : Z * pobj, of_type ty x.2) (lobjs p)).
  destruct (map_to_list m) as [|[a o] l] eqn:E.
  - left. split; [done|]. intros a o Ho Ht. apply map_to_list_empty_iff in E.
    apply (map_filter_empty_not_lookup _ _ a o E); done.
  - right. exists a, o. split; [done|]. assert (m !! a = Some o) as Hm.
    { apply elem_of_map_to_list. rewrite E. by left. }
    unfold m in Hm. by apply map_lookup_filter_Some in Hm.
Qed.

Lemma log_BEGIN_law p :
  no_tx (lview p) → lview (TX_BEGIN p) = with_tx (Some (TxView (crash (lview p)) ∅ ∅)) (lview p).
Proof.
  intros Hl%lview_no_log. cbn. unfold log_BEGIN, lset, lmark, lview, with_tx, mark, crash, recovered, logged. cbn. rewrite Hl. cbn.
  rewrite dom_empty_L, (left_id_L ∅ (∪)), (left_id_L ∅ (∪)), map_filter_id; [done|]. intros. set_solver.
Qed.

Lemma log_COMMIT_law p t :
  tx (lview p) = Some t →
  lview (TX_COMMIT p) = mark (PView (lroot p) (filter (λ x, x.1 ∉ to_free t) (lobjs p)) None (limages p)).
Proof. intros (l & Hl & ->)%lview_log. cbn. unfold log_COMMIT. by rewrite Hl. Qed.

Lemma log_ABORT_law p t :
  tx (lview p) = Some t → lview (TX_ABORT p) = mark (PView (before t).1 (before t).2 None (limages p)).
Proof. intros (l & Hl & ->)%lview_log. done. Qed.

Lemma log_ADD_law oid p t :
  tx (lview p) = Some t → is_Some (objs (lview p) !! oid) →
  runs (TX_ADD oid) (λ r v,
    (r = Aborted ∧ v = lview p) ∨
    (r = Ret () ∧ v = with_tx (Some (TxView (before t) ({[oid]} ∪ writable t) (to_free t))) (lview p))) p.
Proof.
  intros (l & Hl & ->)%lview_log [o Ho]. apply (runs_within _ _ _ _ Hl), (runs_of_object _ _ _ _ _ Ho). right. split; [done|].
  cbn [fst snd]. erewrite lview_step; [|done|].
  - by rewrite logged_add.
  - eapply recovered_eq; [done|done|]. intros a. case_decide; [by destruct l|]. by apply back_log.
Qed.

Lemma log_TX_NEW_law ty p t :
  tx (lview p) = Some t →
  runs (TX_NEW ty) (λ r v,
    (r = Aborted ∧ v = lview p) ∨
    (∃ a o, is_new a (lview p) ∧ of_type ty o ∧ r = Ret a ∧
       v = mark (PView (lroot p) (<[a := o]> (lobjs p))
                   (Some (TxView (before t) ({[a]} ∪ writable t) (to_free t))) (limages p)))) p.
Proof.
  intros (l & Hl & ->)%lview_log. apply (runs_within _ _ _ _ Hl). unfold runs.
  destruct (calloc (lticks p) (lobjs p)) as [a|] eqn:Ha; [right|left; split; [done|]; by unfold lview, ltick].
  exists a, (zero_of ty). split; [exact (calloc_new _ _ _ Ha)|]. split; [apply of_type_zero|]. split; [done|].
  cbn [fst snd]. erewrite (lview_step (ltick p) _ l); [|done|].
  - unfold logged. cbn -[recovered]. by rewrite (assoc_L (∪)).
  - eapply recovered_eq; [done|done|]. intros b. apply back_new, (calloc_fresh _ _ _ Ha).
Qed.

Lemma log_TX_FREE_law oid p t :
  tx (lview p) = Some t → is_Some (objs (lview p) !! oid) →
  runs (TX_FREE oid) (λ r v,
    (r = Aborted ∧ v = lview p) ∨
    (r = Ret () ∧ v = with_tx (Some (TxView (before t) (writable t) ({[oid]} ∪ to_free t))) (lview p))) p.
Proof.
  intros (l & Hl & ->)%lview_log _. apply (runs_within _ _ _ _ Hl). right. split; [done|]. cbn [fst snd].
  erewrite lview_step; [done|done|]. by eapply recovered_eq.
Qed.

Lemma log_RW_law oid f p t o :
  tx (lview p) = Some t → oid ∈ writable t → objs (lview p) !! oid = Some o →
  runs (D_RW oid f) (λ r v, r = Ret () ∧ v = with_objs (<[oid := f o]> (objs (lview p))) (lview p)) p.
Proof.
  intros (l & Hl & ->)%lview_log Hw Ho. apply (runs_within _ _ _ _ Hl), (runs_of_object _ _ _ _ _ Ho). split; [done|].
  cbn [fst snd]. rewrite Hl. erewrite lview_step; [|done|].
  - unfold with_objs. cbn -[recovered]. by rewrite Hl.
  - eapply recovered_eq; [done|done|]. intros a. by apply back_store.
Qed.

(** The undo log keeps every promise of the interface. *)
#[export] Instance log_laws : PmemobjLaws lpool.
Proof.
  split.
  - intros layout [[l [r m]]|] p; [done|]. by intros [= <-].
  - intros layout [[l [r m]]|] p; [|done]. cbn. case_bool_decide as Hl; [|done]. intros [= <-]. subst l. by exists r, m.
  - exact log_ROOT_law.
  - exact log_NEW_law.
  - intros oid dst set d p Hl%lview_no_log _ Hd _. apply (runs_of_object _ _ _ _ _ Hd). split; [done|]. cbn [fst snd].
    rewrite Hl. by rewrite lview_plain.
  - exact log_FIRST_law.
  - exact log_BEGIN_law.
  - exact log_COMMIT_law.
  - exact log_ABORT_law.
  - exact log_ADD_law.
  - exact log_TX_NEW_law.
  - exact log_TX_FREE_law.
  - exact log_RW_law.
Qed.
End laws.

(** With memory nothing is refused. *)
Lemma log_room `{!Calloc pobj} N : serves (V := pobj) N → pmem_room lpool N.
Proof.
  intros HN p Hs. assert (calloc (lticks p) (lobjs p) ≠ None) as Hc by by apply HN.
  cbn. unfold log_ROOT, log_NEW, log_ADD, log_TX_NEW, log_TX_FREE, within, of_object. repeat split; intros.
  - unfold truthy. destruct (lroot p =? 0) eqn:E; cbn.
    + destruct (calloc _ _) as [a|] eqn:Ha; [|done]. cbn. pose proof (calloc_range _ _ _ Ha). intros [= ->]. lia.
    + apply Z.eqb_neq in E. congruence.
  - case_match; [|done]. by destruct (calloc _ _).
  - case_match; [|done]. by case_match.
  - case_match; [|done]. by destruct (calloc _ _).
  - by case_match.
Qed.
