(* ===== verification/PmemProgs.v ===== *)
(** * The programs of pmdk_practice/libpmemobj

    tx_alloc and ntx_alloc make and free a rectangle, hello_world writes and
    reads a word, lists keeps notes.  They run on any library that keeps the
    promises of Pmem.v. *)
From stdpp Require Import strings.
From S2P Require Import Prelude UserTools Pmem.

(** ** rect_calc.c, with transactions and without *)

Section rect.
Context {P : Type} `{!Pmemobj P}.

(** [D_RO(root)->rect] *)
Definition rect_of (root : Z) : PM P Z :=
  o ← D_RO root;
  match o with RectRoot rect => mret rect | _ => stop end.

(** The product is an [int]. *)
Definition area_calc (rect : Z) : PM P Z :=
  o ← D_RO rect;
  match o with
  | Rect a b => if (- 2 ^ 31 <=? a * b) && (a * b <? 2 ^ 31) then mret (a * b) else stop
  | _ => stop
  end.

Definition set_a (a : Z) (o : pobj) : pobj := match o with Rect _ b => Rect a b | _ => o end.
Definition set_b (b : Z) (o : pobj) : pobj := match o with Rect a _ => Rect a b | _ => o end.
Definition set_rect (rect : Z) (o : pobj) : pobj := match o with RectRoot _ => RectRoot rect | _ => o end.

(** The two transactions of tx_alloc. *)
Definition tx_make (root : Z) : PM P () :=
  TX_ADD root;;
  rect ← TX_NEW TRect;
  D_RW rect (set_a 5);;
  D_RW rect (set_b 10);;
  D_RW root (set_rect rect).

Definition tx_drop (root : Z) : PM P () :=
  TX_ADD root;;
  rect ← rect_of root;
  TX_FREE rect;;
  D_RW root (set_rect 0).

(** The result is the area printed. *)
Definition tx_main : PM P Z :=
  root ← POBJ_ROOT (RectRoot 0);
  transaction (tx_make root);;
  rect ← rect_of root;
  p ← area_calc rect;
  transaction (tx_drop root);;
  mret p.

Definition rect_construct (o : pobj) : pobj := set_b 10 (set_a 5 o).

(** Nothing is freed where the root has no rectangle. *)
Definition ntx_main : PM P Z :=
  root ← POBJ_ROOT (RectRoot 0);
  _ ← POBJ_NEW TRect rect_construct root set_rect;
  rect ← POBJ_FIRST TRect;
  p ← area_calc rect;
  rect' ← rect_of root;
  (if truthy rect' then POBJ_FREE rect' root (set_rect 0) else mret ());;
  mret p.

(** The result of [pmemobj_create] is not tested. *)
Definition rect_calc (main : PM P Z) (f : file) : option (out Z * P) := main <$> pmemobj_create "rect_calc" f.
End rect.

(** ** hello_world/writer.c and reader.c *)

Definition MAX_BUF_LEN : nat := 10.

Definition space (c : Z) : bool := (c =? 32) || ((9 <=? c) && (c <=? 13)).

Fixpoint skip_spaces (l : list Z) : list Z :=
  match l with c :: l' => if space c then skip_spaces l' else l | [] => [] end.

(** At most [n] characters that are no space. *)
Fixpoint word_of (n : nat) (l : list Z) : list Z :=
  match n, l with
  | S n, c :: l => if space c then [] else c :: word_of n l
  | _, _ => []
  end.

(** [scanf("%9s", my_buf)] *)
Definition scan (input : list Z) : list Z := word_of 9 (skip_spaces input).

Section hello.
Context {P : Type} `{!Pmemobj P}.

Definition zero_store : pobj := Store 0 (replicate MAX_BUF_LEN 0).

(** The characters without the NUL, over what the buffer holds. *)
Definition set_buf (w : list Z) (o : pobj) : pobj :=
  match o with Store len buf => Store len (w ++ drop (length w) buf) | _ => o end.

Definition TX_MEMCPY (root : Z) (w : list Z) : PM P () := TX_ADD root;; D_RW root (set_buf w).

(** Without a word in the input, [my_buf] is never set. *)
Definition writer (input : list Z) : PM P Z :=
  root ← POBJ_ROOT zero_store;
  match scan input with
  | [] => stop
  | w => transaction (TX_MEMCPY root w);; mret 0
  end.

(** The exit status, and the pool where there is one. *)
Definition writer_main (input : list Z) (f : file) : out Z * option P :=
  match pmemobj_create "string_store" f with
  | Some p => let '(r, p') := writer input p in (r, Some p')
  | None => (Ret 1, None)
  end.

(** The exit status and what is printed. *)
Definition word_reader : PM P (Z * list Z) :=
  root ← POBJ_ROOT zero_store;
  o ← D_RO root;
  match o with
  | Store _ buf => match print_string buf with Ok s => mret (0, s) | _ => stop end
  | _ => stop
  end.

Definition reader_main (f : file) : out (Z * list Z) :=
  match pmemobj_open "string_store" f with
  | Some p => fst (word_reader p)
  | None => Ret (1, [])
  end.
End hello.

(** ** lists.c *)

Section lists.
Context {P : Type} `{!Pmemobj P}.
(** What [time] answers. *)
Variable now : Z.

(** The message is copied without its NUL. *)
Definition note_construct (msg : list Z) (o : pobj) : pobj :=
  match o with Note _ old => Note now (msg ++ drop (length msg) old) | _ => o end.

Definition push (note : Z) (o : pobj) : pobj := match o with ListRoot head => ListRoot (note :: head) | _ => o end.
Definition unlink (note : Z) (o : pobj) : pobj :=
  match o with ListRoot head => ListRoot (filter (λ a, a ≠ note) head) | _ => o end.

Definition create_note (msg : list Z) : PM P () :=
  root ← POBJ_ROOT (ListRoot []);
  _ ← POBJ_NEW (TNote (length msg)) (note_construct msg) root push;
  mret ().

(** [&D_RO(root)->head] *)
Definition notes_of (root : Z) : PM P (list Z) :=
  o ← D_RO root;
  match o with ListRoot head => mret head | _ => stop end.

(** The static [current_note] is the result; NULL for an empty list. *)
Definition note_read_init : PM P Z :=
  root ← POBJ_ROOT (ListRoot []);
  notes ← notes_of root;
  mret (default 0 (head notes)).

(** The links of a note: the list goes round. *)
Definition note_link (f : nat → nat → nat) (current_note : Z) : PM P Z :=
  _ ← D_RO current_note;
  root ← (λ p, (Ret (rootoid (view p)), p));
  notes ← notes_of root;
  match list_find (λ a, a = current_note) notes with
  | Some (i, _) => mret (default 0 (notes !! (f i (length notes) mod length notes)%nat))
  | None => stop
  end.

Definition note_read_next : Z → PM P Z := note_link (λ i _, S i).
Definition note_read_prev : Z → PM P Z := note_link (λ i n, i + (n - 1))%nat.

(** What is printed: the date and the message, up to a NUL. *)
Definition note_print (note : Z) : PM P (Z * list Z) :=
  o ← D_RO note;
  match o with
  | Note date msg => match print_string msg with Ok s => mret (date, s) | _ => stop end
  | _ => stop
  end.

Fixpoint print_each (notes : list Z) : PM P (list (Z * list Z)) :=
  match notes with
  | [] => mret []
  | note :: notes =>
      s ← note_print note;
      ss ← print_each notes;
      mret (s :: ss)
  end.

Definition note_print_all : PM P (list (Z * list Z)) :=
  root ← POBJ_ROOT (ListRoot []);
  notes ← notes_of root;
  print_each notes.

(** [current_note] stays what it was. *)
Definition note_remove (current_note : Z) : PM P () :=
  root ← POBJ_ROOT (ListRoot []);
  notes ← notes_of root;
  if decide (current_note ∈ notes) then POBJ_FREE current_note root (unlink current_note) else stop.

Definition note1 : list Z := [110; 111; 116; 101; 49].
Definition note2 : list Z := [110; 111; 116; 101; 50].

Definition lists_body : PM P (Z * list (Z * list Z)) :=
  create_note note1;;
  create_note note2;;
  s ← note_print_all;
  mret (0, s).

(** A pool is created under one name and opened under another. *)
Definition lists_main (f : file) : out (Z * list (Z * list Z)) * option P :=
  match f with
  | None =>
      match pmemobj_create "lists" f with
      | Some p => let '(r, p') := lists_body p in (r, Some p')
      | None => (Ret (1, []), None)
      end
  | Some _ =>
      match pmemobj_open "pi" f with
      | Some p => let '(r, p') := lists_body p in (r, Some p')
      | None => (Ret (1, []), None)
      end
  end.
End lists.
