(* ===== verification/PmemProps.v ===== *)
(** * What a crash leaves of the pools of pmdk_practice

    For every library that keeps the promises of Pmem.v: the rectangle, the
    word and the notes. *)
From stdpp Require Import strings.
From S2P Require Import Prelude UserTools Pmem PmemLog PmemProgs.

Ltac view_cbn := cbn [rootoid objs tx images before writable to_free mark with_objs with_tx crash fst snd].

(** ** Steps of a transaction *)

Section steps.
Context {P : Type} `{!Pmemobj P} `{!PmemobjLaws P}.
(** What a crash may leave. *)
Variable good : image → Prop.

Definition keeps (v : pview) : Prop := Forall good (images v).

(** A pool outside any transaction, and one in a transaction that began with
    [i], may change [w] and frees [f]. *)
Definition at_rest (i : image) (v : pview) : Prop := no_tx v ∧ (rootoid v, objs v) = i ∧ keeps v.
Definition in_tx (i : image) (w f : gset Z) (m : gmap Z pobj) (v : pview) : Prop :=
  tx v = Some (TxView i w f) ∧ rootoid v = i.1 ∧ objs v = m ∧ keeps v ∧ good i.

Lemma keeps_mark r m t imgs :
  Forall good imgs → good (crash (PView r m t imgs)) → keeps (mark (PView r m t imgs)).
Proof. intros Hi Hc. unfold keeps. cbn. apply Forall_app. by split; [|constructor]. Qed.

Lemma at_rest_mark r m imgs : Forall good imgs → good (r, m) → at_rest (r, m) (mark (PView r m None imgs)).
Proof. intros Hi Hg. split; [done|]. split; [done|]. by apply keeps_mark. Qed.

Lemma in_tx_mark i w f m imgs :
  Forall good imgs → good i → in_tx i w f m (mark (PView i.1 m (Some (TxView i w f)) imgs)).
Proof. intros Hi Hg. do 3 (split; [done|]). split; [|done]. by apply keeps_mark. Qed.

Lemma in_tx_add {B} i w f m oid (k : () → PM P B) Q p :
  in_tx i w f m (view p) → is_Some (m !! oid) → (fst (TX_ADD oid p) = Aborted → Q Aborted (view p)) →
  (∀ p', in_tx i ({[oid]} ∪ w) f m (view p') → runs (k ()) Q p') →
  runs (TX_ADD oid ≫= k) Q p.
Proof.
  intros (Ht & Hr & Hm & Hk & Hg) Ho HA H. eapply runs_law; [eapply TX_ADD_law; [done|by rewrite Hm]|].
  intros r p' E [[-> ->]|[-> Hv]]; [apply HA; by rewrite E|]. apply H. rewrite Hv. unfold with_tx. view_cbn. rewrite Hr, Hm. by apply in_tx_mark.
Qed.

Lemma in_tx_new {B} i w f m ty (k : Z → PM P B) Q p :
  in_tx i w f m (view p) → (fst (TX_NEW ty p) = Aborted → Q Aborted (view p)) →
  (∀ a o p', a ≠ 0 → m !! a = None → of_type ty o → in_tx i ({[a]} ∪ w) f (<[a := o]> m) (view p') → runs (k a) Q p') →
  runs (TX_NEW ty ≫= k) Q p.
Proof.
  intros (Ht & Hr & Hm & Hk & Hg) HA H. eapply runs_law; [by eapply TX_NEW_law|].
  intros r p' E [[-> ->]|(a & o & [Ha Hn] & Ho & -> & Hv)]; [apply HA; by rewrite E|]. rewrite Hm in Hn.
  apply (H a o); [done..|]. rewrite Hv. view_cbn. rewrite Hr, Hm. by apply in_tx_mark.
Qed.

Lemma in_tx_rw {B} i w f m oid g o (k : () → PM P B) Q p :
  in_tx i w f m (view p) → oid ∈ w → m !! oid = Some o →
  (∀ p', in_tx i w f (<[oid := g o]> m) (view p') → runs (k ()) Q p') →
  runs (D_RW oid g ≫= k) Q p.
Proof.
  intros (Ht & Hr & Hm & Hk & Hg) Hw Ho H. eapply runs_law; [eapply D_RW_law; [done..|by rewrite Hm]|].
  intros r p' _ [-> Hv]. apply H. rewrite Hv. unfold with_objs. view_cbn. rewrite Hr, Hm, Ht. by apply in_tx_mark.
Qed.

Lemma in_tx_free {B} i w f m oid (k : () → PM P B) Q p :
  in_tx i w f m (view p) → is_Some (m !! oid) → (fst (TX_FREE oid p) = Aborted → Q Aborted (view p)) →
  (∀ p', in_tx i w ({[oid]} ∪ f) m (view p') → runs (k ()) Q p') →
  runs (TX_FREE oid ≫= k) Q p.
Proof.
  intros (Ht & Hr & Hm & Hk & Hg) Ho HA H. eapply runs_law; [eapply TX_FREE_law; [done|by rewrite Hm]|].
  intros r p' E [[-> ->]|[-> Hv]]; [apply HA; by rewrite E|]. apply H. rewrite Hv. unfold with_tx. view_cbn. rewrite Hr, Hm. by apply in_tx_mark.
Qed.

(** A transaction that commits one of the images [I], or is aborted where [A],
    and never stops. *)
Lemma runs_tx (body : PM P ()) (I : image → Prop) (A : Prop) (Q : out () → pview → Prop) i p :
  at_rest i (view p) → good i → (∀ j, I j → good j) →
  (∀ p0, in_tx i ∅ ∅ i.2 (view p0) →
     runs body (λ r v, ∃ w f m, in_tx i w f m v ∧
       match r with Ret _ => I (i.1, filter (λ x, x.1 ∉ f) m) | Aborted => A | Stop => False end) p0) →
  (∀ j v, at_rest j v → I j ∨ (j = i ∧ A) → Q (Ret ()) v) →
  runs (transaction body) Q p.
Proof.
  intros (Hn & <- & Hk) Hg HI Hb HQ. pose proof (BEGIN_law _ Hn) as H0. unfold crash in H0. rewrite Hn in H0.
  assert (in_tx (rootoid (view p), objs (view p)) ∅ ∅ (objs (view p)) (view (TX_BEGIN p))) as Hb0.
  { rewrite H0. by apply in_tx_mark. }
  specialize (Hb _ Hb0). unfold runs, transaction in *.
  destruct (body (TX_BEGIN p)) as [[[]| |] p1]; cbn [fst snd] in *; destruct Hb as (w & f & m & (Ht & Hr & Hm & Hk1 & _) & H); [| |done].
  - rewrite (COMMIT_law _ _ Ht), Hr, Hm. eapply HQ; [apply at_rest_mark; [done|by apply HI]|by left].
  - rewrite (ABORT_law _ _ Ht). eapply HQ; [by apply at_rest_mark|by right].
Qed.
End steps.

(** ** The rectangle *)

(** No root yet, a root without a rectangle, or one with its own; and no other
    object. *)
Inductive rect_pool := Unrooted | Rooted (root : Z) | Made (root rect : Z).

Definition rect_image (s : rect_pool) : image :=
  match s with
  | Unrooted => (0, ∅)
  | Rooted root => (root, {[root := RectRoot 0]})
  | Made root rect => (root, <[root := RectRoot rect]> {[rect := Rect 5 10]})
  end.

Definition rect_good (i : image) : Prop := ∃ s, i = rect_image s.

Section rect.
Context {P : Type} `{!Pmemobj P} `{!PmemobjLaws P}.

(** A step that is refused although there is room. *)
Lemma refused_add good i w f m oid p N :
  in_tx good i w f m (view p) → (size m < N)%nat → fst (TX_ADD oid p) = Aborted →
  ∃ w f m, in_tx good i w f m (view p) ∧ ¬ pmem_room P N.
Proof.
  intros H Hs E. exists w, f, m. split; [done|]. intros Hroom. destruct H as (_ & _ & <- & _).
  destruct (Hroom p Hs) as (_ & _ & Ha & _). by apply (Ha oid).
Qed.

Lemma refused_new good i w f m ty p N :
  in_tx good i w f m (view p) → (size m < N)%nat → fst (TX_NEW ty p) = Aborted →
  ∃ w f m, in_tx good i w f m (view p) ∧ ¬ pmem_room P N.
Proof.
  intros H Hs E. exists w, f, m. split; [done|]. intros Hroom. destruct H as (_ & _ & <- & _).
  destruct (Hroom p Hs) as (_ & _ & _ & Ha & _). by apply (Ha ty).
Qed.

Lemma refused_free good i w f m oid p N :
  in_tx good i w f m (view p) → (size m < N)%nat → fst (TX_FREE oid p) = Aborted →
  ∃ w f m, in_tx good i w f m (view p) ∧ ¬ pmem_room P N.
Proof.
  intros H Hs E. exists w, f, m. split; [done|]. intros Hroom. destruct H as (_ & _ & <- & _).
  destruct (Hroom p Hs) as (_ & _ & _ & _ & Ha). by apply (Ha oid).
Qed.

Lemma size_one (k : Z) (o : pobj) : (size ({[k := o]} : gmap Z pobj) < 3)%nat.
Proof. rewrite map_size_singleton. lia. Qed.

Lemma size_two (k j : Z) (o o' : pobj) : (size (<[k := o]> {[j := o']} : gmap Z pobj) < 3)%nat.
Proof. rewrite map_size_insert, map_size_singleton. case_match; cbn; lia. Qed.

Lemma rect_make root p Q :
  at_rest rect_good (rect_image (Rooted root)) (view p) →
  (∀ v s, at_rest rect_good (rect_image s) v →
     (s = Rooted root ∧ ¬ pmem_room P 3) ∨ (∃ rect, rect ≠ root ∧ s = Made root rect) → Q (Ret ()) v) →
  runs (transaction (tx_make root)) Q p.
Proof.
  intros Hr HQ.
  eapply (runs_tx _ _ (λ j, ∃ rect, rect ≠ root ∧ j = rect_image (Made root rect)) (¬ pmem_room P 3) _ _ _ Hr).
  - by eexists.
  - intros j (rect & _ & ->). by eexists.
  - intros p0 H0. cbn [rect_image fst snd] in *.
    eapply (in_tx_add _ _ _ _ _ _ _ _ _ H0); [rewrite lookup_singleton_eq; by eexists|exact (refused_add _ _ _ _ _ _ _ _ H0 (size_one _ _))|].
    intros p1 H1. eapply (in_tx_new _ _ _ _ _ _ _ _ _ H1); [exact (refused_new _ _ _ _ _ _ _ _ H1 (size_one _ _))|].
    intros rect o p2 Hnz Hn Ho H2. destruct o as [| |x y| |]; try done. apply lookup_singleton_None in Hn.
    eapply (in_tx_rw _ _ _ _ _ _ _ _ _ _ _ H2); [set_solver|apply lookup_insert_eq|]. intros p3 H3. rewrite insert_insert_eq in H3.
    eapply (in_tx_rw _ _ _ _ _ _ _ _ _ _ _ H3); [set_solver|apply lookup_insert_eq|]. intros p4 H4. rewrite insert_insert_eq in H4.
    apply runs_last.
    eapply (in_tx_rw _ _ _ _ _ _ _ _ _ _ _ H4); [set_solver|by rewrite lookup_insert_ne, lookup_singleton_eq|].
    intros p5 H5. apply runs_ret. eexists _, _, _. split; [exact H5|]. exists rect. split; [done|].
    cbn [rect_image fst]. f_equal. rewrite map_filter_id by (intros; set_solver).
    rewrite insert_insert_ne by done. unfold singletonM, map_singleton. rewrite insert_insert_eq. by rewrite insert_insert_ne.
  - intros j v Hv [(rect & Hne & ->)|[-> Hno]]; [apply (HQ v (Made root rect)); eauto|apply (HQ v (Rooted root)); auto].
Qed.

Lemma rect_of_made {B} root rect (k : Z → PM P B) Q p :
  objs (view p) !! root = Some (RectRoot rect) → runs (k rect) Q p → runs (rect_of root ≫= k) Q p.
Proof. intros Ho H. apply runs_assoc. by eapply runs_D_RO. Qed.

Lemma rect_drop root rect p Q :
  rect ≠ root → at_rest rect_good (rect_image (Made root rect)) (view p) →
  (∀ v s, at_rest rect_good (rect_image s) v →
     (s = Made root rect ∧ ¬ pmem_room P 3) ∨ s = Rooted root → Q (Ret ()) v) →
  runs (transaction (tx_drop root)) Q p.
Proof.
  intros Hne Hr HQ. eapply (runs_tx _ _ (λ j, j = rect_image (Rooted root)) (¬ pmem_room P 3) _ _ _ Hr).
  - by eexists.
  - intros j ->. by eexists.
  - intros p0 H0. cbn [rect_image fst snd] in *.
    eapply (in_tx_add _ _ _ _ _ _ _ _ _ H0); [rewrite lookup_insert_eq; by eexists|exact (refused_add _ _ _ _ _ _ _ _ H0 (size_two _ _ _ _))|].
    intros p1 H1. apply rect_of_made with rect; [destruct H1 as (_ & _ & -> & _); apply lookup_insert_eq|].
    eapply (in_tx_free _ _ _ _ _ _ _ _ _ H1);
      [rewrite lookup_insert_ne, lookup_singleton_eq by done; by eexists|exact (refused_free _ _ _ _ _ _ _ _ H1 (size_two _ _ _ _))|].
    intros p2 H2. apply runs_last. eapply (in_tx_rw _ _ _ _ _ _ _ _ _ _ _ H2); [set_solver|apply lookup_insert_eq|].
    intros p3 H3. rewrite insert_insert_eq in H3. apply runs_ret. eexists _, _, _. split; [exact H3|].
    cbn [rect_image fst]. f_equal. rewrite map_filter_insert_True by set_solver. by rewrite map_filter_singleton_False by set_solver.
  - intros j v Hv [->|[-> Hno]]; [apply (HQ v (Rooted root)); auto|apply (HQ v (Made root rect)); auto].
Qed.

(** What is to be shown of the two programs. *)
Definition rect_done (r : out Z) (v : pview) : Prop :=
  Forall rect_good (images v) ∧
  (pmem_room P 3 → r = Ret 50 ∧ ∃ root, at_rest rect_good (rect_image (Rooted root)) v).

Lemma rect_root (k : Z → PM P Z) p :
  at_rest rect_good (rect_image Unrooted) (view p) → fst (POBJ_ROOT (RectRoot 0) p) ≠ Ret 0 →
  (∀ root p', root ≠ 0 → at_rest rect_good (rect_image (Rooted root)) (view p') → runs (k root) rect_done p') →
  runs (POBJ_ROOT (RectRoot 0) ≫= k) rect_done p.
Proof.
  intros (Hn & Hi & Hk) Hr H. injection Hi as Hr0 Ho0. eapply runs_law; [by apply ROOT_law|]. intros r p' E.
  rewrite Hr0, decide_True by done. intros [[-> _]|(a & [Ha _] & -> & Hv)]; [by rewrite E in Hr|].
  apply (H a); [done|]. rewrite Hv, Ho0. apply at_rest_mark; [done|]. by exists (Rooted a).
Qed.

Lemma rect_area {B} root rect (k : Z → PM P B) Q p :
  rect ≠ root → at_rest rect_good (rect_image (Made root rect)) (view p) → runs (k 50) Q p → runs (area_calc rect ≫= k) Q p.
Proof.
  intros Hne (_ & Hi & _) H. apply runs_assoc, runs_D_RO with (Rect 5 10); [|done].
  injection Hi as _ ->. by rewrite lookup_insert_ne, lookup_singleton_eq.
Qed.

(** NULL is read through where the rectangle could not be made. *)
Lemma rect_stops {B} root (k : Z → PM P B) p Q :
  root ≠ 0 → at_rest rect_good (rect_image (Rooted root)) (view p) → Q Stop (view p) → runs (area_calc 0 ≫= k) Q p.
Proof.
  intros Hz (_ & Hi & _) H. apply runs_assoc, runs_D_RO_none; [|done]. injection Hi as _ ->. by apply lookup_singleton_None.
Qed.

Lemma tx_main_done p :
  at_rest rect_good (rect_image Unrooted) (view p) → fst (POBJ_ROOT (RectRoot 0) p) ≠ Ret 0 → runs tx_main rect_done p.
Proof.
  intros Hp Hroot. apply (rect_root _ _ Hp Hroot). intros root p1 Hz H1.
  apply runs_law with (λ r v, ∃ s, r = Ret () ∧ at_rest rect_good (rect_image s) v ∧
    ((s = Rooted root ∧ ¬ pmem_room P 3) ∨ (∃ rect, rect ≠ root ∧ s = Made root rect)));
    [apply (rect_make root); eauto|].
  intros r1 p2 _ (s & -> & H2 & [[-> Hno]|(rect & Hne & ->)]).
  - apply rect_of_made with 0; [destruct H2 as (_ & Hi & _); injection Hi as _ ->; apply lookup_singleton_eq|].
    apply (rect_stops root); [done..|]. split; [exact (proj2 (proj2 H2))|by intros ?].
  - apply rect_of_made with rect; [destruct H2 as (_ & Hi & _); injection Hi as _ ->; apply lookup_insert_eq|].
    apply (rect_area root); [done..|].
    apply runs_law with (λ r v, ∃ s, r = Ret () ∧ at_rest rect_good (rect_image s) v ∧
      ((s = Made root rect ∧ ¬ pmem_room P 3) ∨ s = Rooted root)); [apply (rect_drop root rect); eauto|].
    intros r3 p3 _ (s & -> & H3 & Hs). apply runs_ret. split; [exact (proj2 (proj2 H3))|].
    intros Hroom. split; [done|]. destruct Hs as [[-> ?]| ->]; [done|]. by exists root.
Qed.

Lemma rect_new root p :
  at_rest rect_good (rect_image (Rooted root)) (view p) →
  runs (POBJ_NEW TRect rect_construct root set_rect) (λ r v, ∃ s ok, r = Ret ok ∧ at_rest rect_good (rect_image s) v ∧
    ((s = Rooted root ∧ ¬ pmem_room P 3) ∨ (∃ rect, rect ≠ 0 ∧ rect ≠ root ∧ s = Made root rect))) p.
Proof.
  intros Hp. pose proof Hp as (Hn & Hi & Hk). injection Hi as Hr Ho.
  pose proof (NEW_law TRect rect_construct root set_rect (RectRoot 0) p Hn) as H. rewrite Ho in H.
  specialize (H (lookup_singleton_eq _ _)). unfold runs in *.
  destruct H as [[Hf Hv]|(a & o & [Ha Hnew] & Hty & -> & ->)].
  - exists (Rooted root), false. rewrite Hf, Hv. split; [done|]. split; [done|].
    left. split; [done|]. intros Hroom. destruct (Hroom p) as (_ & Hok & _); [rewrite Ho; apply size_one|]. by eapply Hok.
  - exists (Made root a), true. split; [done|]. rewrite Ho in Hnew. apply lookup_singleton_None in Hnew. split; [|right; by exists a].
    destruct o as [| |x y| |]; try done. unfold with_objs. rewrite Hr, Hn. cbn [rect_construct set_a set_b set_rect].
    replace (<[root := RectRoot a]> (<[a := Rect 5 10]> {[root := RectRoot 0]}))
      with (<[root := RectRoot a]> {[a := Rect 5 10]} : gmap Z pobj); [apply at_rest_mark; [done|by exists (Made root a)]|].
    apply map_eq. intros b. destruct (decide (b = root)) as [->|]; [by rewrite !lookup_insert_eq|].
    rewrite !(lookup_insert_ne _ root) by done. destruct (decide (b = a)) as [->|]; [by rewrite lookup_insert_eq, lookup_singleton_eq|].
    by rewrite lookup_insert_ne, !lookup_singleton_ne.
Qed.

Lemma rect_first root rect p :
  rect ≠ root → at_rest rect_good (rect_image (Made root rect)) (view p) →
  runs (POBJ_FIRST TRect) (λ r v, r = Ret rect ∧ v = view p) p.
Proof.
  intros Hne (_ & Hi & _). injection Hi as _ Ho. eapply runs_mono; [apply FIRST_law|]. cbn beta.
  intros r v [-> H]. split; [|done]. rewrite Ho in H. destruct H as [[_ H]|(a & o & -> & Ha & Hty)].
  - exfalso. apply (H rect (Rect 5 10)); [by rewrite lookup_insert_ne, lookup_singleton_eq|done].
  - destruct (decide (a = root)) as [->|]; [rewrite lookup_insert_eq in Ha; by simplify_eq|].
    rewrite lookup_insert_ne in Ha by done. by apply lookup_singleton_Some in Ha as [-> _].
Qed.

Lemma rect_no_first root p :
  at_rest rect_good (rect_image (Rooted root)) (view p) → runs (POBJ_FIRST TRect) (λ r v, r = Ret 0 ∧ v = view p) p.
Proof.
  intros (_ & Hi & _). injection Hi as _ Ho. eapply runs_mono; [apply FIRST_law|]. cbn beta.
  intros r v [-> H]. split; [|done]. rewrite Ho in H. destruct H as [[-> _]|(a & o & _ & Ha & Hty)]; [done|].
  apply lookup_singleton_Some in Ha as [_ <-]. done.
Qed.

Lemma rect_free root rect p :
  rect ≠ root → at_rest rect_good (rect_image (Made root rect)) (view p) →
  runs (POBJ_FREE rect root (set_rect 0)) (λ r v, r = Ret () ∧ at_rest rect_good (rect_image (Rooted root)) v) p.
Proof.
  intros Hne (Hn & Hi & Hk). injection Hi as Hr Ho.
  eapply runs_mono; [apply (FREE_law rect root (set_rect 0) (RectRoot rect) p); [done| | |done]|].
  - rewrite Ho, lookup_insert_ne, lookup_singleton_eq by done. by eexists.
  - by rewrite Ho, lookup_insert_eq.
  - intros r v [-> ->]. split; [done|]. unfold with_objs. rewrite Hr, Ho, Hn.
    rewrite delete_insert_ne, delete_singleton_eq, insert_insert_eq by done.
    apply at_rest_mark; [done|]. by exists (Rooted root).
Qed.

Lemma ntx_main_done p :
  at_rest rect_good (rect_image Unrooted) (view p) → fst (POBJ_ROOT (RectRoot 0) p) ≠ Ret 0 → runs ntx_main rect_done p.
Proof.
  intros Hp Hroot. apply (rect_root _ _ Hp Hroot). intros root p1 Hz H1.
  eapply runs_law; [by apply (rect_new root)|]. intros r p2 _ (s & ok & -> & H2 & [[-> Hno]|(rect & Hrz & Hne & ->)]).
  - eapply runs_law; [by apply (rect_no_first root)|]. intros r p3 _ [-> Hv]. rewrite <- Hv in H2.
    apply (rect_stops root); [done..|]. split; [exact (proj2 (proj2 H2))|by intros ?].
  - eapply runs_law; [by apply (rect_first root rect)|]. intros r p3 _ [-> Hv]. rewrite <- Hv in H2.
    apply (rect_area root); [done..|].
    apply rect_of_made with rect; [destruct H2 as (_ & Hi & _); injection Hi as _ ->; apply lookup_insert_eq|].
    unfold truthy. rewrite (proj2 (Z.eqb_neq _ _) Hrz). cbn [negb].
    eapply runs_law; [by apply (rect_free root rect)|]. intros r p4 _ [-> H4]. apply runs_ret.
    split; [exact (proj2 (proj2 H4))|]. intros _. split; [done|]. by exists root.
Qed.
End rect.

(** C32: [rect_calc] never leaks a rectangle nor leaves its root pointing to
    none, whichever of its two versions runs and whenever it crashes: each
    image has no root, a root without a rectangle and no rectangle, or a root
    with the only one, both sides stored.  With room in the pool the area
    printed is 50 and the rectangle is gone. *)
Theorem rect_calc_crash_safe {P : Type} `{!Pmemobj P} `{!PmemobjLaws P} (main : PM P Z) (p : P) :
  main = tx_main ∨ main = ntx_main →
  pmemobj_create "rect_calc" None = Some p → fst (POBJ_ROOT (RectRoot 0) p) ≠ Ret 0 →
  ∃ r p', rect_calc main None = Some (r, p') ∧ Forall rect_good (images (view p')) ∧
    (pmem_room P 3 →
     r = Ret 50 ∧ ∃ root, rootoid (view p') = root ∧ objs (view p') = {[root := RectRoot 0]} ∧ tx (view p') = None).
Proof.
  intros Hm Hp Hroot. destruct (create_law _ _ _ Hp) as [_ Hv].
  assert (at_rest rect_good (rect_image Unrooted) (view p)) as Hr.
  { rewrite Hv. split; [done|]. split; [done|]. constructor; [by exists Unrooted|constructor]. }
  assert (runs main rect_done p) as Hd by (destruct Hm as [->| ->]; [by apply tx_main_done|by apply ntx_main_done]).
  unfold rect_calc. rewrite Hp. exists (fst (main p)), (snd (main p)). split; [cbn; by rewrite <- surjective_pairing|].
  destruct Hd as [Hi Hd]. split; [done|]. intros Hroom. destruct (Hd Hroom) as [-> (root & Hn & Hv' & _)]. split; [done|].
  injection Hv' as ? ?. by exists root.
Qed.

(** ** The word *)

Lemma word_of_length n l : (length (word_of n l) ≤ n)%nat.
Proof. revert l. induction n as [|n IH]; intros [|c l]; cbn; [lia..|]. destruct (space c); cbn; [lia|]. specialize (IH l). lia. Qed.

Lemma word_of_Forall Q n l : Forall Q l → Forall Q (word_of n l).
Proof.
  revert l. induction n as [|n IH]; intros [|c l] Hl; cbn; try constructor. apply List.Forall_cons_iff in Hl as [Hc Hl].
  destruct (space c); constructor; auto.
Qed.

Lemma scan_Forall Q l : Forall Q l → Forall Q (scan l).
Proof.
  intros Hl. unfold scan. apply word_of_Forall. induction Hl as [|c l Hc Hl IH]; cbn; [constructor|].
  destruct (space c); [done|]. by constructor.
Qed.

Inductive word_pool := Rootless | Blank (root : Z) | Written (root : Z).
#[export] Instance word_pool_dec : EqDecision word_pool.
Proof. solve_decision. Defined.

Section hello.
Variable w : list Z.

Definition stored : pobj := set_buf w zero_store.

Definition word_image (s : word_pool) : image :=
  match s with
  | Rootless => (0, ∅)
  | Blank root => (root, {[root := zero_store]})
  | Written root => (root, {[root := stored]})
  end.

(** What the reader prints of it. *)
Definition shown (s : word_pool) : list Z := match s with Written _ => w | _ => [] end.

(** Only the images that were given a root have one. *)
Definition word_ok (s : word_pool) : Prop := match s with Rootless => True | Blank root | Written root => root ≠ 0 end.
Definition word_good (i : image) : Prop := ∃ s, word_ok s ∧ i = word_image s.

Lemma word_written {P : Type} `{!Pmemobj P} `{!PmemobjLaws P} root (p : P) :
  root ≠ 0 → at_rest word_good (word_image (Blank root)) (view p) →
  runs (transaction (TX_MEMCPY root w)) (λ r v, ∃ s, r = Ret () ∧ word_ok s ∧ at_rest word_good (word_image s) v ∧
    (s = Written root ∨ ¬ pmem_room P 3)) p.
Proof.
  intros Hz Hp. eapply (runs_tx _ _ (λ j, j = word_image (Written root)) (¬ pmem_room P 3) _ _ _ Hp).
  - by exists (Blank root).
  - intros j ->. by exists (Written root).
  - intros p0 H0. cbn [word_image fst snd] in *.
    eapply (in_tx_add _ _ _ _ _ _ _ _ _ H0); [rewrite lookup_singleton_eq; by eexists|exact (refused_add _ _ _ _ _ _ _ _ H0 (size_one _ _))|].
    intros p1 H1. apply runs_last. eapply (in_tx_rw _ _ _ _ _ _ _ _ _ _ _ H1); [set_solver|apply lookup_singleton_eq|].
    intros p2 H2. apply runs_ret. eexists _, _, _. split; [exact H2|]. cbn [word_image fst]. f_equal.
    rewrite insert_singleton_eq, map_filter_id by (intros; set_solver). done.
  - intros j v Hv [->|[-> Hno]]; [exists (Written root)|exists (Blank root)]; auto.
Qed.

Lemma word_writer {P : Type} `{!Pmemobj P} `{!PmemobjLaws P} input (p : P) :
  scan input = w → w ≠ [] → at_rest word_good (word_image Rootless) (view p) → fst (POBJ_ROOT zero_store p) ≠ Ret 0 →
  runs (writer input) (λ r v, ∃ s, r = Ret 0 ∧ word_ok s ∧ at_rest word_good (word_image s) v ∧
    ((∃ root, s = Written root) ∨ ¬ pmem_room P 3)) p.
Proof.
  intros Hw Hne (Hn & Hi & Hk) Hroot. injection Hi as Hr Ho. eapply runs_law; [by apply ROOT_law|]. intros r p1 E.
  rewrite Hr, decide_True by done. intros [[-> _]|(root & [Hz _] & -> & Hv)]; [by rewrite E in Hroot|].
  destruct (scan input) as [|c w']; [by rewrite <- Hw in Hne|]. rewrite Hw.
  eapply runs_law; [apply (word_written root); [done|]|].
  - rewrite Hv, Ho. apply at_rest_mark; [done|]. by exists (Blank root).
  - intros r p2 _ (s & -> & Hok & Hs & Hd). apply runs_ret. exists s. split; [done|]. split; [done|]. split; [done|].
    destruct Hd; eauto.
Qed.
Hypothesis w_fits : (length w < MAX_BUF_LEN)%nat.
Hypothesis w_text : Forall (λ c, c ≠ 0) w.

Lemma print_stored : ∃ buf, stored = Store 0 buf ∧ print_string buf = Ok w.
Proof.
  eexists. split; [done|]. unfold MAX_BUF_LEN in *. rewrite drop_replicate.
  destruct (10 - length w)%nat eqn:E; [lia|]. by apply print_string_spec.
Qed.

Section reading.
Context {P : Type} `{!Pmemobj P} `{!PmemobjLaws P}.

Lemma reads_root s (q : P) :
  word_ok s → at_rest word_good (word_image s) (view q) → s ≠ Rootless → fst (word_reader q) = Ret (0, shown s).
Proof.
  intros Hok (Hn & Hi & _) Hs.
  assert (runs word_reader (λ r _, r = Ret (0, shown s)) q) as H; [|exact H].
  destruct s as [|root|root]; [done| |]; cbn [word_image word_ok] in *; injection Hi as Hr Ho.
  - eapply runs_law; [by apply ROOT_law|]. intros r p' _. rewrite Hr, decide_False by done. intros [-> Hv].
    apply runs_D_RO with zero_store; [by rewrite Hv, Ho, lookup_singleton_eq|done].
  - destruct print_stored as (buf & Hb & Hp).
    eapply runs_law; [by apply ROOT_law|]. intros r p' _. rewrite Hr, decide_False by done. intros [-> Hv].
    apply runs_D_RO with stored; [by rewrite Hv, Ho, lookup_singleton_eq|]. rewrite Hb. cbn. by rewrite Hp.
Qed.

(** Without a root it is made, or there is no room for it. *)
Lemma reads_rootless (q : P) :
  at_rest word_good (word_image Rootless) (view q) → fst (word_reader q) = Ret (0, []) ∨ fst (word_reader q) = Stop.
Proof.
  intros (Hn & Hi & _). injection Hi as Hr Ho.
  assert (runs word_reader (λ r _, r = Ret (0, []) ∨ r = Stop) q) as H; [|exact H].
  eapply runs_law; [by apply ROOT_law|]. intros r p' _. rewrite Hr, decide_True by done.
  intros [[-> Hv]|(a & _ & -> & Hv)].
  - apply runs_D_RO_none; [by rewrite Hv, Ho|by right].
  - apply runs_D_RO with zero_store; [by rewrite Hv; cbn; rewrite lookup_insert_eq|by left].
Qed.

Lemma opened s (q : P) :
  word_ok s → pmemobj_open "string_store" (Some ("string_store", word_image s)) = Some q →
  at_rest word_good (word_image s) (view q).
Proof.
  intros Hok (r & m & Hf & Hv)%open_law. assert (word_image s = (r, m)) as Hi by congruence.
  rewrite Hv, Hi. split; [done|]. split; [done|]. constructor; [|constructor]. exists s. by rewrite Hi.
Qed.

Lemma reader_main_rooted s :
  word_ok s → s ≠ Rootless →
  let f := Some ("string_store", word_image s) in
  reader_main (P := P) f = Ret (match pmemobj_open (P := P) "string_store" f with Some _ => (0, shown s) | None => (1, []) end).
Proof.
  intros Hok Hs f. unfold reader_main. destruct (pmemobj_open _ f) as [q|] eqn:E; [|done].
  apply (reads_root s q); [done|by apply opened|done].
Qed.

(** What is printed of a file, by a reader that can open it. *)
Lemma reader_main_reads s :
  word_ok s →
  match reader_main (P := P) (Some ("string_store", word_image s)) with
  | Ret (0, l) => l = shown s
  | Ret (1, l) => l = []
  | Stop => s = Rootless
  | _ => False
  end.
Proof.
  intros Hok. destruct (decide (s = Rootless)) as [->|Hs].
  - unfold reader_main. destruct (pmemobj_open _ _) as [q|] eqn:E; [|done].
    by destruct (reads_rootless q (opened _ q Hok E)) as [->| ->].
  - rewrite (reader_main_rooted s Hok Hs). by destruct (pmemobj_open _ _).
Qed.
End reading.
End hello.

(** C33: The word written is the word read.  The writer makes the file, once
    only; at every moment of it a crash leaves a file of which the reader, by
    any library, prints nothing or the whole word (the first of the input, cut
    at nine characters); and of the file it leaves at its end, where there was
    room, the word. *)
Theorem hello_world_roundtrip {P P' : Type} `{!Pmemobj P} `{!PmemobjLaws P} `{!Pmemobj P'} `{!PmemobjLaws P'}
    (input : list Z) (p : P) :
  pmemobj_create "string_store" None = Some p → fst (POBJ_ROOT zero_store p) ≠ Ret 0 →
  Forall (λ c, c ≠ 0) input → scan input ≠ [] →
  ∃ p' : P, writer_main input None = (Ret 0, Some p') ∧
    (∀ img, img ∈ images (view p') →
       match reader_main (P := P') (Some ("string_store", img)) with
       | Ret (0, s) => s = [] ∨ s = scan input
       | Ret (1, s) => s = []
       | Stop => img.1 = 0
       | _ => False
       end) ∧
    (pmem_room P 3 →
       let f := Some ("string_store", crash (view p')) in
       reader_main (P := P') f = Ret (match pmemobj_open (P := P') "string_store" f with Some _ => (0, scan input) | None => (1, []) end)) ∧
    (∀ input' img, writer_main (P := P) input' (Some ("string_store", img)) = (Ret 1, None)).
Proof.
  intros Hp Hroot Hin Hne. destruct (create_law _ _ _ Hp) as [_ Hv]. set (w := scan input).
  assert (length w < MAX_BUF_LEN)%nat as Hw by (pose proof (word_of_length 9 (skip_spaces input)); unfold w, scan, MAX_BUF_LEN; lia).
  assert (Forall (λ c, c ≠ 0) w) as Ht by by apply scan_Forall.
  assert (at_rest (word_good w) (word_image w Rootless) (view p)) as Hr.
  { rewrite Hv. split; [done|]. split; [done|]. constructor; [by exists Rootless|constructor]. }
  destruct (word_writer w input p eq_refl Hne Hr Hroot) as (s & E & Hok & (Hn & Hs & Hk) & Hd).
  exists (snd (writer input p)). unfold writer_main at 1. rewrite Hp. destruct (writer input p) as [r p'] eqn:Ew. cbn [fst snd] in *.
  split; [by subst r|]. split; [|split].
  - intros img Himg. eapply List.Forall_forall in Hk as (s' & Hok' & ->); [|by apply list_elem_of_In].
    pose proof (reader_main_reads w Hw Ht (P := P') s' Hok') as H. destruct (reader_main _) as [[[|[]|] l]| |]; try done.
    + destruct s'; auto.
    + by rewrite H.
  - intros Hroom. destruct Hd as [(root & ->)|?]; [|done]. unfold crash. rewrite Hn, Hs.
    by apply (reader_main_rooted w Hw Ht (Written root)).
  - intros input' img. unfold writer_main. destruct (pmemobj_create "string_store" (Some _)) eqn:E'; [|done].
    by destruct (create_law _ _ _ E') as [? _].
Qed.

Section demo.
#[local] Existing Instance first_fit.

Lemma rect_calc_crash_safe_witness :
  pmem_room lpool 3 ∧
  ∃ r p', rect_calc (P := lpool) tx_main None = Some (r, p') ∧ Forall rect_good (images (view p')) ∧ length (images (view p')) = 14%nat.
Proof.
  assert (pmem_room lpool 3) as Hroom by (apply log_room, first_fit_memory; vm_compute; discriminate).
  split; [exact Hroom|].
  destruct (rect_calc_crash_safe (P := lpool) tx_main (LPool 0 ∅ None [(0, ∅)] 0) ) as (r & p' & Hr & Hi & _);
    [by left|reflexivity|vm_compute; discriminate|].
  exists r, p'. split; [exact Hr|]. split; [exact Hi|].
  apply (f_equal (option_map (λ x, length (images (view x.2))))) in Hr. cbn [option_map snd] in Hr.
  assert (Some (length (images (view p'))) = Some 14%nat) as Hl; [|by injection Hl].
  rewrite <- Hr. vm_compute. reflexivity.
Defined.

(** The input [" pmdk is fun"]: the word is [pmdk]. *)
Lemma hello_world_roundtrip_witness :
  scan [32; 112; 109; 100; 107; 32; 105; 115] = [112; 109; 100; 107] ∧
  ∃ p' : lpool, writer_main [32; 112; 109; 100; 107; 32; 105; 115] None = (Ret 0, Some p') ∧
    reader_main (P := lpool) (Some ("string_store", crash (view p'))) = Ret (0, [112; 109; 100; 107]).
Proof.
  split; [reflexivity|].
  assert (pmem_room lpool 3) as Hroom by (apply log_room, first_fit_memory; vm_compute; discriminate).
  destruct (hello_world_roundtrip (P := lpool) (P' := lpool) [32; 112; 109; 100; 107; 32; 105; 115] (LPool 0 ∅ None [(0, ∅)] 0))
    as (p' & Hw & _ & Hr & _); [reflexivity|vm_compute; discriminate|by repeat constructor|discriminate|].
  exists p'. split; [exact Hw|]. rewrite (Hr Hroom). destruct (crash (view p')). reflexivity.
Defined.
End demo.
