(* ===== verification/PmemNotes.v ===== *)
(** * The notes of pmdk_practice/libpmemobj/lists

    The list of the root and the notes of the pool agree, whatever is created
    or removed and whenever it crashes; the program itself never prints them
    to their end. *)
From stdpp Require Import strings.
From S2P Require Import Prelude UserTools Pmem PmemLog PmemProgs PmemProps.

(** ** The notes *)

(** An address, a date and a message. *)
Abbreviation notes := (list (Z * (Z * list Z))).

Definition note_of (x : Z * (Z * list Z)) : Z * pobj := (x.1, Note x.2.1 x.2.2).

(** The root has the list of the notes of the pool, and there is nothing
    else. *)
Definition notes_image (root : Z) (ns : notes) : image :=
  (root, <[root := ListRoot (fst <$> ns)]> (list_to_map (note_of <$> ns))).

Definition well_linked (root : Z) (ns : notes) : Prop := root ≠ 0 ∧ NoDup (root :: (fst <$> ns)) ∧ 0 ∉ (fst <$> ns).

Definition notes_good (i : image) : Prop := i = (0, ∅) ∨ ∃ root ns, well_linked root ns ∧ i = notes_image root ns.

Definition without (a : Z) (ns : notes) : notes := filter (λ x, x.1 ≠ a) ns.

Lemma fst_notes ns : (note_of <$> ns).*1 = fst <$> ns.
Proof. by rewrite <- list_fmap_compose. Qed.

Lemma without_fst a ns : fst <$> without a ns = filter (λ b, b ≠ a) (fst <$> ns).
Proof. unfold without. induction ns as [|x ns IH]; [done|]. rewrite filter_cons. cbn [fmap list_fmap]. rewrite filter_cons. case_decide; cbn; by rewrite <- IH. Qed.

Lemma notes_lookup_ne ns a : a ∉ (fst <$> ns) → (list_to_map (note_of <$> ns) : gmap Z pobj) !! a = None.
Proof. intros Ha. apply not_elem_of_list_to_map_1. by rewrite fst_notes. Qed.

Lemma notes_delete a ns : delete a (list_to_map (note_of <$> ns) : gmap Z pobj) = list_to_map (note_of <$> without a ns).
Proof.
  unfold without. induction ns as [|[b x] ns IH]; [by cbn; rewrite delete_empty|]. rewrite filter_cons, fmap_cons.
  change (note_of (b, x)) with (b, Note x.1 x.2). rewrite list_to_map_cons. case_decide as Hb; cbn in Hb.
  - rewrite delete_insert_ne by congruence. by rewrite IH.
  - assert (b = a) as -> by (by destruct (decide (b = a))). by rewrite delete_insert_eq.
Qed.

(** The note that was linked is the first. *)
Lemma notes_push root ns a d m :
  root ≠ a → <[root := ListRoot (a :: (fst <$> ns))]> (<[a := Note d m]> (notes_image root ns).2) = (notes_image root ((a, (d, m)) :: ns)).2.
Proof.
  intros Hne. cbn [notes_image snd]. rewrite (insert_insert_ne _ a root) by congruence. by rewrite insert_insert_eq.
Qed.

Lemma notes_unlink root ns a :
  root ≠ a → <[root := unlink a (ListRoot (fst <$> ns))]> (delete a (notes_image root ns).2) = (notes_image root (without a ns)).2.
Proof.
  intros Hne. cbn. rewrite without_fst, delete_insert_ne by done. by rewrite insert_insert_eq, notes_delete.
Qed.

Lemma well_linked_push root ns a d m : well_linked root ns → a ≠ 0 → (notes_image root ns).2 !! a = None → well_linked root ((a, (d, m)) :: ns).
Proof.
  intros (Hz & Hnd & H0) Ha Hn. cbn in Hn. apply lookup_insert_None in Hn as [Hn Hne].
  apply not_elem_of_list_to_map_2 in Hn. rewrite fst_notes in Hn. apply list.NoDup_cons in Hnd as [Hr Hnd].
  split; [done|]. cbn. rewrite !list.NoDup_cons, !not_elem_of_cons. auto.
Qed.

Lemma without_elem a b ns : b ∈ (fst <$> without a ns) → b ∈ (fst <$> ns).
Proof. rewrite without_fst, list_elem_of_filter. tauto. Qed.

Lemma well_linked_without root ns a : well_linked root ns → well_linked root (without a ns).
Proof.
  intros (Hz & [Hr Hnd]%list.NoDup_cons & H0). split; [done|]. split.
  - apply list.NoDup_cons. split; [|rewrite without_fst; by apply list.NoDup_filter]. intros H%without_elem. done.
  - intros H%without_elem. done.
Qed.

Lemma list_find_at (l : list Z) i a : NoDup l → l !! i = Some a → list_find (λ b, b = a) l = Some (i, a).
Proof.
  intros Hnd Hi. apply list_find_Some. split; [done|]. split; [done|]. intros j y Hj Hlt ->.
  pose proof (NoDup_lookup _ _ _ _ Hnd Hi Hj). lia.
Qed.

Section ops.
Context {P : Type} `{!Pmemobj P} `{!PmemobjLaws P}.
Variable now : Z.

(** A pool that holds the notes [ns]. *)
Definition holds (root : Z) (ns : notes) (v : pview) : Prop :=
  at_rest notes_good (notes_image root ns) v ∧ well_linked root ns.

Lemma holds_mark root ns imgs :
  Forall notes_good imgs → well_linked root ns → holds root ns (mark (PView root (notes_image root ns).2 None imgs)).
Proof. intros Hi Hw. split; [|done]. apply at_rest_mark; [done|]. right. by exists root, ns. Qed.

Lemma notes_root {B} root ns (k : Z → PM P B) Q p :
  holds root ns (view p) → (∀ p', view p' = view p → runs (k root) Q p') → runs (POBJ_ROOT (ListRoot []) ≫= k) Q p.
Proof.
  intros [(Hn & Hi & _) (Hz & _)] H. injection Hi as Hr _. eapply runs_law; [by apply ROOT_law|]. intros r p' _.
  rewrite Hr, decide_False by done. intros [-> Hv]. by apply H.
Qed.

Lemma notes_head root ns p : holds root ns (view p) → objs (view p) !! root = Some (ListRoot (fst <$> ns)).
Proof. intros [(_ & Hi & _) _]. injection Hi as _ ->. apply lookup_insert_eq. Qed.

Lemma notes_notes_of {B} root ns (k : list Z → PM P B) Q p :
  holds root ns (view p) → runs (k (fst <$> ns)) Q p → runs (notes_of root ≫= k) Q p.
Proof. intros Hh H. apply runs_assoc, runs_D_RO with (ListRoot (fst <$> ns)); [by apply notes_head|done]. Qed.

Lemma notes_note root ns p i a d m :
  holds root ns (view p) → ns !! i = Some (a, (d, m)) → objs (view p) !! a = Some (Note d m).
Proof.
  intros [(_ & Hi & _) (_ & Hnd & _)] Hx. injection Hi as _ ->. apply list.NoDup_cons in Hnd as [Hr Hnd].
  assert (a ≠ root) as Hne.
  { intros ->. apply Hr. apply list_elem_of_fmap. exists (root, (d, m)). split; [done|]. by eapply list_elem_of_lookup_2. }
  rewrite lookup_insert_ne by congruence. apply elem_of_list_to_map_1; [by rewrite fst_notes|].
  apply list_elem_of_fmap. exists (a, (d, m)). split; [done|]. by eapply list_elem_of_lookup_2.
Qed.

(** What making a note leaves: nothing where there is no room, or the list with
    the note before the others, in one step. *)
Definition noted (root : Z) (ns : notes) (msg : list Z) (v0 : pview) (r : out ()) (v : pview) : Prop :=
  r = Ret () ∧
  ((v = v0 ∧ ¬ pmem_room P (S (size (objs v0)))) ∨
   ∃ a, let ns' := (a, (now, msg)) :: ns in holds root ns' v ∧ images v = images v0 ++ [notes_image root ns']).

Lemma note_new root ns msg p :
  holds root ns (view p) →
  runs (_ ← POBJ_NEW (TNote (length msg)) (note_construct now msg) root push; mret ()) (noted root ns msg (view p)) p.
Proof.
  intros Hh. pose proof Hh as [(Hn & Hi & Hk) Hw].
  pose proof (notes_head _ _ _ Hh) as Hd. injection Hi as Hr Ho.
  eapply runs_law; [apply (NEW_law _ _ root push _ p Hn Hd)|]. intros r p2 E [[-> Hv2]|(a & o & [Ha Hnew] & Hty & -> & Hv2)];
    apply runs_ret; (split; [done|]).
  - left. split; [done|]. intros Hroom. destruct (Hroom p) as (_ & Hok & _); [lia|]. eapply Hok. by rewrite E.
  - right. exists a. destruct o as [| | | |d0 old]; try done. apply Is_true_true, Nat.eqb_eq in Hty.
    cbn [note_construct push] in Hv2. rewrite drop_ge, app_nil_r in Hv2 by lia.
    unfold with_objs in Hv2. rewrite Ho in Hnew, Hv2. rewrite Hr, Hn in Hv2.
    assert (root ≠ a) as Hne by (intros ->; cbn in Hnew; by rewrite lookup_insert_eq in Hnew).
    rewrite notes_push in Hv2 by done. rewrite Hv2. by split; [apply holds_mark, well_linked_push|].
Qed.

Lemma create_note_spec root ns msg p : holds root ns (view p) → runs (create_note now msg) (noted root ns msg (view p)) p.
Proof.
  intros Hh. apply (notes_root root ns); [done|]. intros p1 Hv1. rewrite <- Hv1 in *. by apply note_new.
Qed.

(** The first note of a pool makes its root. *)
Lemma note_first msg p :
  at_rest notes_good (0, ∅) (view p) → fst (POBJ_ROOT (ListRoot []) p) ≠ Ret 0 →
  runs (create_note now msg) (λ r v, ∃ root v0, holds root [] v0 ∧ noted root [] msg v0 r v) p.
Proof.
  intros (Hn & Hi & Hk) Hroot. injection Hi as Hr Ho. eapply runs_law; [by apply ROOT_law|]. intros r p' E.
  rewrite Hr, decide_True by done. intros [[-> _]|(root & [Hz _] & -> & Hv)]; [by rewrite E in Hroot|].
  assert (holds root [] (view p')) as Hh.
  { rewrite Hv, Ho. apply holds_mark; [done|]. split; [done|]. split; [|by intros ?%elem_of_nil].
    apply list.NoDup_singleton. }
  eapply runs_mono; [by apply (note_new root [])|]. intros r v H. by exists root, (view p').
Qed.

Lemma note_remove_spec root ns a p :
  holds root ns (view p) → a ∈ (fst <$> ns) →
  runs (note_remove a) (λ r v, r = Ret () ∧ holds root (without a ns) v ∧ objs v !! a = None ∧
    images v = images (view p) ++ [notes_image root (without a ns)]) p.
Proof.
  intros Hh Ha. apply (notes_root root ns); [done|]. intros p1 Hv1. rewrite <- Hv1 in *.
  apply (notes_notes_of root ns); [done|]. rewrite decide_True by done.
  pose proof Hh as [(Hn & Hi & Hk) Hw]. pose proof (notes_head _ _ _ Hh) as Hd. injection Hi as Hr Ho.
  assert (root ≠ a) as Hne by (destruct Hw as (_ & [Hx _]%list.NoDup_cons & _); congruence).
  apply list_elem_of_fmap in Ha as ([a' [d m]] & -> & Hx). apply list_elem_of_lookup_1 in Hx as [i Hx]. cbn [fst] in *.
  eapply runs_mono; [apply (FREE_law a' root (unlink a') (ListRoot (fst <$> ns)) p1 Hn); [rewrite (notes_note _ _ _ _ _ _ _ Hh Hx); by eexists|exact Hd|congruence]|].
  intros r v [-> ->]. split; [done|]. unfold with_objs. rewrite Ho, Hr, Hn, notes_unlink by done.
  split; [by apply holds_mark, well_linked_without|]. split; [|done].
  cbn [mark objs notes_image snd]. rewrite lookup_insert_ne by done. apply notes_lookup_ne. rewrite without_fst, list_elem_of_filter. naive_solver.
Qed.

Lemma note_link_spec f root ns i a p :
  holds root ns (view p) → (fst <$> ns) !! i = Some a →
  runs (note_link f a) (λ r v, r = Ret (default 0 ((fst <$> ns) !! (f i (length ns) mod length ns)%nat)) ∧ v = view p) p.
Proof.
  intros Hh Ha. pose proof Hh as [(_ & Hi & _) (_ & [_ Hnd]%list.NoDup_cons & _)]. injection Hi as Hr _.
  pose proof Ha as Hx. rewrite list_lookup_fmap in Hx. destruct (ns !! i) as [[a' [d m]]|] eqn:E; [|done]. injection Hx as ->.
  apply runs_D_RO with (Note d m); [by eapply notes_note|]. apply runs_bind. intros r p' [= <- <-].
  rewrite Hr. apply (notes_notes_of root ns); [done|]. rewrite (list_find_at _ i a) by done. apply runs_ret.
  by rewrite length_fmap.
Qed.

Lemma next_prev i n : (i < n)%nat → ((S i mod n + (n - 1)) mod n = i)%nat.
Proof.
  intros Hi. destruct (decide (S i = n)) as [<-|].
  - rewrite Nat.Div0.mod_same. rewrite Nat.mod_small; lia.
  - rewrite (Nat.mod_small (S i)) by lia. replace (S i + (n - 1))%nat with (i + 1 * n)%nat by lia.
    rewrite Nat.Div0.mod_add. by apply Nat.mod_small.
Qed.

Lemma next_prev_spec root ns i a p :
  holds root ns (view p) → (fst <$> ns) !! i = Some a →
  runs (note_read_next a ≫= note_read_prev) (λ r v, r = Ret a ∧ v = view p) p.
Proof.
  intros Hh Ha. pose proof (lookup_lt_Some _ _ _ Ha) as Hlt. rewrite length_fmap in Hlt.
  eapply runs_law; [by eapply (note_link_spec _ root ns)|]. intros r p' _ [-> Hv]. rewrite <- Hv in Hh |- *.
  destruct (lookup_lt_is_Some_2 (fst <$> ns) (S i mod length ns)) as [b Hb].
  { rewrite length_fmap. apply Nat.mod_upper_bound. lia. }
  rewrite Hb. eapply runs_mono; [by eapply (note_link_spec _ root ns)|]. intros r v [-> ->]. split; [|done].
  by rewrite next_prev, Ha.
Qed.

(** The first note is printed on past its last byte. *)
Lemma print_all_stops root ns a d m p :
  holds root ((a, (d, m)) :: ns) (view p) → Forall (λ c, c ≠ 0) m → runs note_print_all (λ r v, r = Stop ∧ v = view p) p.
Proof.
  intros Hh Hm. eapply notes_root; [done|]. intros p' Hv. rewrite <- Hv in *. eapply notes_notes_of; [done|].
  cbn [fmap list_fmap fst print_each]. apply runs_assoc.
  apply runs_D_RO with (Note d m); [by apply (notes_note _ _ _ 0 _ _ _ Hh)|]. by rewrite print_string_fault.
Qed.

Lemma room_le (N N' : nat) : (N ≤ N')%nat → pmem_room P N' → pmem_room P N.
Proof. intros HN H p Hp. apply H. lia. Qed.

Lemma holds_size root ns v : holds root ns v → (size (objs v) ≤ S (length ns))%nat.
Proof.
  intros [(_ & Hi & _) _]. injection Hi as _ ->. rewrite map_size_insert.
  assert (size (list_to_map (note_of <$> ns) : gmap Z pobj) ≤ length ns)%nat; [|case_match; cbn; lia].
  induction ns as [|x ns IH]; [done|]. rewrite fmap_cons. destruct (note_of x) as [b o] eqn:Eb. rewrite list_to_map_cons, map_size_insert.
  case_match; cbn in *; lia.
Qed.
End ops.

(** C26: the notes of a pool are a list, whatever the library: a note that is
    created comes first, with its date and message, and one that is removed is
    out of the list and of the pool; a crash leaves the list before or after
    it, and never a note without a list or a link to none.  Going to the next
    note and back gives the same one, at the end of the list too. *)
Theorem notes_follow_list {P : Type} `{!Pmemobj P} `{!PmemobjLaws P} (now root : Z) (ns : notes) (p : P) :
  holds root ns (view p) →
  (∀ msg, runs (create_note now msg) (λ r v, r = Ret () ∧
     ((v = view p ∧ ¬ pmem_room P (length ns + 2)) ∨
      ∃ a, holds root ((a, (now, msg)) :: ns) v ∧
        images v = images (view p) ++ [notes_image root ((a, (now, msg)) :: ns)])) p) ∧
  (∀ a, a ∈ (fst <$> ns) → runs (note_remove a) (λ r v, r = Ret () ∧
     holds root (without a ns) v ∧ objs v !! a = None ∧ images v = images (view p) ++ [notes_image root (without a ns)]) p) ∧
  (∀ i a, (fst <$> ns) !! i = Some a →
     runs (note_read_next a) (λ r v, r = Ret (default 0 ((fst <$> ns) !! (S i mod length ns)%nat)) ∧ v = view p) p ∧
     runs (note_read_next a ≫= note_read_prev) (λ r v, r = Ret a ∧ v = view p) p).
Proof.
  intros Hh. split; [|split].
  - intros msg. eapply runs_mono; [by apply create_note_spec|]. intros r v [-> [[-> Hno]|Ha]]; (split; [done|]); [left|by right].
    split; [done|]. intros Hroom. apply Hno. eapply room_le; [|exact Hroom]. pose proof (holds_size _ _ _ Hh). lia.
  - intros a Ha. by apply note_remove_spec.
  - intros i a Ha. split; [by apply (note_link_spec (λ i _, S i) root ns i a)|by apply (next_prev_spec root ns i)].
Qed.

(** The program never comes to its end: with room for two notes it makes
    them, the second first, and then prints the first on past its last byte,
    since its message was copied without the NUL; and on a file it has made
    it fails to open it, under another name than it was created with, and
    leaves it as it is. *)
Theorem lists_never_prints {P : Type} `{!Pmemobj P} `{!PmemobjLaws P} (now : Z) (p : P) :
  pmemobj_create "lists" None = Some p → fst (POBJ_ROOT (ListRoot []) p) ≠ Ret 0 → pmem_room P 3 →
  (∃ p' root a b, lists_main (P := P) now None = (Stop, Some p') ∧
     holds root [(b, (now, note2)); (a, (now, note1))] (view p')) ∧
  (∀ img, lists_main (P := P) now (Some ("lists", img)) = (Ret (1, []), None)).
Proof.
  intros Hp Hroot Hroom. destruct (create_law _ _ _ Hp) as [_ Hv]. split.
  - assert (at_rest notes_good (0, ∅) (view p)) as Hr.
    { rewrite Hv. split; [done|]. split; [done|]. constructor; [by left|constructor]. }
    assert (runs (lists_body now) (λ r v, r = Stop ∧ ∃ root a b, holds root [(b, (now, note2)); (a, (now, note1))] v) p)
      as (E & root & a & b & Hh).
    + eapply runs_law; [by apply note_first|]. intros r p1 _ (root & v0 & H0 & -> & [[_ Hno]|(a & H1 & _)]).
      { destruct Hno. eapply room_le; [|exact Hroom]. pose proof (holds_size _ _ _ H0). cbn in *. lia. }
      eapply runs_law; [by apply create_note_spec|]. intros r p2 _ [-> [[_ Hno]|(b & H2 & _)]].
      { destruct Hno. eapply room_le; [|exact Hroom]. pose proof (holds_size _ _ _ H1). cbn in *. lia. }
      eapply runs_law; [eapply print_all_stops; [exact H2|by repeat constructor]|]. intros r p3 _ [-> ->]. split; [done|].
      by exists root, a, b.
    + exists (snd (lists_body now p)), root, a, b. split; [|done]. unfold lists_main. rewrite Hp.
      destruct (lists_body now p) as [r p']. cbn in *. by subst r.
  - intros img. unfold lists_main. destruct (pmemobj_open "pi" _) eqn:E; [|done].
    destruct (open_law _ _ _ E) as (r & m & H & _). discriminate H.
Qed.

Section demo.
#[local] Existing Instance first_fit.

Definition demo_pool : lpool :=
  LPool 16 (notes_image 16 [(48, (7, note2)); (32, (5, note1))]).2 None [notes_image 16 [(48, (7, note2)); (32, (5, note1))]] 0.

Lemma demo_holds : holds 16 [(48, (7, note2)); (32, (5, note1))] (view demo_pool).
Proof.
  assert (well_linked 16 [(48, (7, note2)); (32, (5, note1))]) as Hw.
  { split; [done|]. cbn. split; [|by rewrite !not_elem_of_cons; split; [|split; [|apply not_elem_of_nil]]].
    repeat (apply list.NoDup_cons; split; [rewrite ?not_elem_of_cons; repeat split; try done; apply not_elem_of_nil|]).
    constructor. }
  split; [|done]. split; [done|]. split; [done|]. constructor; [|constructor]. right. eexists _, _. split; [exact Hw|done].
Qed.

(** The first note is removed, and the last comes before it. *)
Lemma notes_follow_list_witness :
  holds 16 [(48, (7, note2)); (32, (5, note1))] (view demo_pool) ∧
  runs (note_remove 48) (λ r v, holds 16 [(32, (5, note1))] v) demo_pool ∧
  runs (note_read_next 32) (λ r v, r = Ret 48) demo_pool.
Proof.
  split; [exact demo_holds|].
  destruct (notes_follow_list 5 16 [(48, (7, note2)); (32, (5, note1))] demo_pool demo_holds) as (_ & Hr & Hn). split.
  - apply (Hr 48). by left.
  - apply (Hn 1%nat 32). done.
Defined.

Lemma lists_never_prints_witness :
  pmem_room lpool 3 ∧ ∃ p' root a b, lists_main (P := lpool) 5 None = (Stop, Some p') ∧
    holds root [(b, (5, note2)); (a, (5, note1))] (view p').
Proof.
  assert (pmem_room lpool 3) as Hroom by (apply log_room, first_fit_memory; vm_compute; discriminate).
  split; [exact Hroom|]. apply (lists_never_prints (P := lpool) 5 (LPool 0 ∅ None [(0, ∅)] 0)); [reflexivity|vm_compute; discriminate|exact Hroom].
Defined.
End demo.
