(* ===== verification/Rpmem.v ===== *)
(** * librpmem/rpmem.c: a pool copied to another machine

    What sysconf, posix_memalign and the three calls of librpmem answer are
    arguments; a run is its exit status, the calls it made with what they were
    given, and whether its memory was freed. *)
From stdpp Require Import strings.
From S2P Require Import Prelude.

Definition POOL_SIGNATURE : list Z := [77; 65; 78; 80; 65; 71; 69].
Definition POOL_SIZE : Z := 32 * 1024 * 1024.
Definition NLANES : Z := 4.
Definition DATA_OFF : Z := 4096.
Definition DATA_SIZE : Z := POOL_SIZE - DATA_OFF.

(** The memory of the local pool, and whether it is still allocated: of a byte
    that was never set nothing is known. *)
Record local := Local { byte_of : Z → option Z; allocated : bool }.

(** The calls of librpmem: the signature of the pool to create, the bytes to
    make persistent from an offset on, the end. *)
Inductive rcall :=
| Create (size nlanes : Z) (signature : list Z)
| Persist (offset length : Z) (data : Z → option Z)
| Close.

(** The program exits, with the calls it made and its memory if it had any; an
    assertion that fails aborts it. *)
Inductive rout := Exits (status : Z) (calls : list rcall) (mem : option local) | Aborts.

(** The first [n] characters, and zeros for those that are missing. *)
Definition strncpy (n : nat) (s : list Z) : list Z := take n s ++ replicate (n - length s) 0.

Definition memset0 (size : Z) (m : local) : local :=
  Local (λ i, if (0 <=? i) && (i <? size) then Some 0 else byte_of m i) (allocated m).

Section rpmem.
(** [RPMEM_POOL_HDR_SIG_LEN] *)
Variable SIG_LEN : nat.

(** [Some status] where the program exits. *)
Definition parse_args (argc : Z) : option Z := if argc <? 3 then Some 1 else None.

(** [null]: the memory is at NULL although the call succeeded. *)
Definition alloc_memory (pagesize ret : Z) (null : bool) : rout + local :=
  if pagesize <? 0 then inl (Exits 1 [] None)
  else if truthy ret then inl (Exits 1 [] None)
  else if null then inl Aborts
  else inr (Local (λ _, None) true).

(** [rpp]: the remote pool was created; [persist], [close]: what the calls
    return. *)
Definition rpmem_main (argc pagesize memalign : Z) (null rpp : bool) (persist close : Z) : rout :=
  match parse_args argc with
  | Some status => Exits status [] None
  | None =>
      match alloc_memory pagesize memalign null with
      | inl r => r
      | inr pool =>
          let create := Create POOL_SIZE NLANES (strncpy SIG_LEN POOL_SIGNATURE) in
          if rpp then
            let pool := memset0 POOL_SIZE pool in
            let store := Persist DATA_OFF DATA_SIZE (λ i, byte_of pool (DATA_OFF + i)) in
            if truthy persist then Exits 1 [create; store] (Some pool)
            else if truthy close then Exits 1 [create; store; Close] (Some pool)
            else Exits 0 [create; store; Close] (Some (Local (byte_of pool) false))
          else Exits 1 [create] (Some pool)
      end
  end.

(** What is made persistent: bytes of the pool, all of them set. *)
Definition persists_set (c : rcall) : Prop :=
  match c with
  | Persist off len data => 0 ≤ off ∧ 0 < len ∧ off + len ≤ POOL_SIZE ∧ ∀ i, 0 ≤ i < len → data i = Some 0
  | _ => True
  end.

Lemma memset0_set m i : 0 ≤ i < POOL_SIZE → byte_of (memset0 POOL_SIZE m) i = Some 0.
Proof. intros Hi. cbn [memset0 byte_of]. rewrite (proj2 (Z.leb_le 0 i)), (proj2 (Z.ltb_lt i POOL_SIZE)) by apply Hi. done. Qed.

(** Only set bytes of the pool are sent, all from 4096 on; the status is 0
    exactly where every call succeeded, and then and only then the memory that
    was allocated is freed. *)
Theorem rpmem_main_sends (argc pagesize memalign : Z) (null rpp : bool) (persist close : Z) :
  match rpmem_main argc pagesize memalign null rpp persist close with
  | Exits status calls mem =>
      Forall persists_set calls ∧
      (status = 0 ↔ 3 ≤ argc ∧ 0 ≤ pagesize ∧ memalign = 0 ∧ null = false ∧ rpp = true ∧ persist = 0 ∧ close = 0) ∧
      (status = 0 → ∃ m, mem = Some m ∧ allocated m = false) ∧
      (status ≠ 0 → status = 1 ∧ ∀ m, mem = Some m → allocated m = true)
  | Aborts => 3 ≤ argc ∧ 0 ≤ pagesize ∧ memalign = 0 ∧ null = true
  end.
Proof.
  assert (∀ m, persists_set (Persist DATA_OFF DATA_SIZE (λ i, byte_of (memset0 POOL_SIZE m) (DATA_OFF + i)))) as Hs.
  { intros m. cbn [persists_set]. unfold DATA_SIZE, DATA_OFF. split; [lia|]. split; [unfold POOL_SIZE; lia|]. split; [lia|].
    intros i Hi. apply memset0_set. lia. }
  unfold rpmem_main, parse_args, alloc_memory, truthy.
  repeat (case_match; simplify_eq); rewrite ?negb_true_iff, ?negb_false_iff, ?Z.ltb_lt, ?Z.ltb_ge, ?Z.eqb_eq, ?Z.eqb_neq in *;
    try (repeat split; lia);
    (split; [repeat (apply List.Forall_cons; [first [exact I|apply Hs]|]); apply List.Forall_nil|]); (split; [naive_solver lia|]); (split; [naive_solver lia|]); naive_solver.
Qed.
End rpmem.
