(* ===== verification/FsDefs.v ===== *)
(** * The file systems JIFS and lwnfs: mounting, names and inode numbers

    JIFS/super.c, JIFS/namei.c, JIFS/dir.c and JIFS/lwnfs/lwnfs.c over the
    kernel's inodes and dentries, which are an interface. *)
From Stdlib Require Import Ascii.
From stdpp Require Export strings.
From S2P Require Import Prelude.

(** ** Constants *)

Definition S_IFREG : Z := 0x8000.
Definition S_IFDIR : Z := 0x4000.
Definition S_IALLUGO : Z := 0xFFF.
Definition JIFS_MAGIC : Z := 0xbadcab.
Definition LFS_MAGIC : Z := 0x19920342.
Definition JIFS_ROOT_INO : Z := 0.
Definition FILE_INO : Z := 1.
Definition LONG_MAX : Z := 2 ^ 63 - 1.
Definition ULLONG_MAX : Z := 2 ^ 64 - 1.
Definition PAGE_SIZE : Z := 4096.
Definition VMACACHE_SIZE : Z := 4.
Definition ENOENT : Z := 2.
Definition ESTALE : Z := 116.

(** ** The kernel's objects *)

(** The operation tables the code installs. *)
Inductive fops := no_fops | jifs_file_ops | lfs_file_ops | simple_dir_operations.
Inductive iops := no_iops | simple_dir_inode_operations.

Record inode := Inode {
  i_mode : Z; i_fop : fops; i_op : iops; i_ino : Z; i_private : Z; i_nlink : Z; i_size : Z
}.

(** The name, the parent and the inode, NULL for none. *)
Record dentry := Dentry { d_name : string; d_parent : Z; d_inode : Z }.

(** What the code uses of the kernel: allocation returns NULL or an address
    where nothing was; [d_make_root] releases the inode when it fails. *)
Class Vfs (K : Type) := {
  inodes : K → gmap Z inode;
  dentries : K → gmap Z dentry;
  new_inode : K → Z * K;
  get_next_ino : K → Z * K;
  set_inode : Z → inode → K → K;
  d_alloc_name : Z → string → K → Z * K;
  d_add : Z → Z → K → K;
  dput : Z → K → K;
  d_make_root : Z → K → Z * K;
  iput : Z → K → K;
  kinit_owner : Z → Z → K → K;
  kset_nlink : Z → Z → K → K;
  new_inode_law k a k' : new_inode k = (a, k') →
    dentries k' = dentries k ∧
    (a = 0 ∧ inodes k' = inodes k ∨
     a ≠ 0 ∧ inodes k !! a = None ∧
       inodes k' = <[a := Inode 0 no_fops no_iops 0 0 1 0]> (inodes k));
  get_next_ino_law k n k' : get_next_ino k = (n, k') → inodes k' = inodes k ∧ dentries k' = dentries k;
  set_inode_law a i k : inodes (set_inode a i k) = <[a := i]> (inodes k) ∧ dentries (set_inode a i k) = dentries k;
  d_alloc_name_law p n k d k' : d_alloc_name p n k = (d, k') →
    inodes k' = inodes k ∧
    (d = 0 ∧ dentries k' = dentries k ∨
     d ≠ 0 ∧ dentries k !! d = None ∧ dentries k' = <[d := Dentry n p 0]> (dentries k));
  d_add_law d i k e : dentries k !! d = Some e →
    inodes (d_add d i k) = inodes k ∧
    dentries (d_add d i k) = <[d := Dentry (d_name e) (d_parent e) i]> (dentries k);
  dput_law d k e : dentries k !! d = Some e → d_inode e = 0 →
    inodes (dput d k) = inodes k ∧ dentries (dput d k) = delete d (dentries k);
  d_make_root_law i k d k' : i ≠ 0 → is_Some (inodes k !! i) → d_make_root i k = (d, k') →
    (d = 0 ∧ inodes k' = delete i (inodes k) ∧ dentries k' = dentries k) ∨
    (d ≠ 0 ∧ dentries k !! d = None ∧ inodes k' = inodes k ∧
       dentries k' = <[d := Dentry "/" d i]> (dentries k));
  kinit_owner_law a m k i : inodes k !! a = Some i →
    inodes (kinit_owner a m k) =
      <[a := Inode m (i_fop i) (i_op i) (i_ino i) (i_private i) (i_nlink i) (i_size i)]> (inodes k) ∧
    dentries (kinit_owner a m k) = dentries k;
  kset_nlink_law a n k i : inodes k !! a = Some i →
    inodes (kset_nlink a n k) =
      <[a := Inode (i_mode i) (i_fop i) (i_op i) (i_ino i) (i_private i) n (i_size i)]> (inodes k) ∧
    dentries (kset_nlink a n k) = dentries k
}.

(** The inode cache: NULL or the inode of a number, which is locked when it is new. *)
Class Icache (K : Type) `{!Vfs K} := {
  iget_locked : Z → K → Z * K;
  unlock_new_inode : Z → K → K;
  iget_locked_law n k a k' : iget_locked n k = (a, k') →
    dentries k' = dentries k ∧
    (a = 0 ∧ inodes k' = inodes k ∨
     a ≠ 0 ∧ ∃ i, inodes k' = <[a := i]> (inodes k) ∧ i_ino i = n);
  unlock_new_inode_law a k :
    inodes (unlock_new_inode a k) = inodes k ∧ dentries (unlock_new_inode a k) = dentries k
}.

(** ** State: the kernel, the superblock, the file system's own memory *)

Record jifs_sb_info := SbInfo { sbi_opt_mode : Z; sbi_mode : Z; next_generation : Z }.

Record super_block := Super {
  s_fs_info : Z; s_magic : Z; s_maxbytes : Z; s_time_gran : Z; s_blocksize : Z; s_blocksize_bits : Z;
  s_root : Z; s_ops_set : bool
}.

Section fs.
Context {K : Type} `{!Vfs K}.

Record kstate := KState {
  kern : K;
  sb : super_block;
  sbis : gmap Z jifs_sb_info;
  counters : gmap Z Z;
  jifs_dbgmask : Z
}.

Definition KM : Type → Type := M kstate.

Definition set_kern (k : K) (st : kstate) : kstate := KState k (sb st) (sbis st) (counters st) (jifs_dbgmask st).
Definition set_sb (b : super_block) (st : kstate) : kstate := KState (kern st) b (sbis st) (counters st) (jifs_dbgmask st).
Definition set_sbis (m : gmap Z jifs_sb_info) (st : kstate) : kstate := KState (kern st) (sb st) m (counters st) (jifs_dbgmask st).
Definition set_counters (m : gmap Z Z) (st : kstate) : kstate := KState (kern st) (sb st) (sbis st) m (jifs_dbgmask st).
Definition set_dbgmask (x : Z) (st : kstate) : kstate := KState (kern st) (sb st) (sbis st) (counters st) x.

(** A kernel function with a result, and one without. *)
Definition call {A} (f : K → A * K) : KM A := λ st, let '(x, k) := f (kern st) in Ok (x, set_kern k st).
Definition call_ (f : K → K) : KM () := modify (λ st, set_kern (f (kern st)) st).

(** Assignment to the fields of an inode. *)
Definition update_inode (a : Z) (f : inode → inode) : KM () := λ st,
  match inodes (kern st) !! a with
  | Some i => Ok ((), set_kern (set_inode a (f i) (kern st)) st)
  | None => Fault
  end.

Definition update_sb (f : super_block → super_block) : KM () := modify (λ st, set_sb (f (sb st)) st).

Definition atomic_set (c v : Z) : KM () := modify (λ st, set_counters (<[c := v]> (counters st)) st).

(** ** JIFS/super.c: files and directories *)

Definition jifs_make_inode (mode : Z) (f : fops) : KM Z :=
  inode ← call new_inode;
  if truthy inode then
    update_inode inode (λ i, Inode mode (i_fop i) (i_op i) (i_ino i) (i_private i) (i_nlink i) (i_size i));;
    update_inode inode (λ i, Inode (i_mode i) f (i_op i) (i_ino i) (i_private i) (i_nlink i) (i_size i));;
    ino ← call get_next_ino;
    update_inode inode (λ i, Inode (i_mode i) (i_fop i) (i_op i) ino (i_private i) (i_nlink i) (i_size i));;
    mret inode
  else mret 0.

Definition jifs_create_file (dir : Z) (name : string) (counter : Z) : KM Z :=
  dentry ← call (d_alloc_name dir name);
  if truthy dentry then
    inode ← jifs_make_inode (Z.lor S_IFREG 0x1A4) jifs_file_ops;
    if truthy inode then
      update_inode inode (λ i, Inode (i_mode i) (i_fop i) (i_op i) (i_ino i) counter (i_nlink i) (i_size i));;
      call_ (d_add dentry inode);;
      mret dentry
    else call_ (dput dentry);; mret 0
  else mret 0.

Definition jifs_create_dir (parent : Z) (name : string) : KM Z :=
  dentry ← call (d_alloc_name parent name);
  if truthy dentry then
    inode ← jifs_make_inode (Z.lor S_IFDIR 0x1ED) simple_dir_operations;
    if truthy inode then
      update_inode inode (λ i, Inode (i_mode i) (i_fop i) simple_dir_inode_operations (i_ino i) (i_private i) (i_nlink i) (i_size i));;
      call_ (d_add dentry inode);;
      mret dentry
    else call_ (dput dentry);; mret 0
  else mret 0.

(** The addresses of the two static counters. *)
Definition counter : Z := 1.
Definition subcounter : Z := 2.

Definition jifs_create_files (root : Z) : KM () :=
  atomic_set counter 0;;
  _ ← jifs_create_file root "counter" counter;
  atomic_set subcounter 0;;
  subdir ← jifs_create_dir root "subdir";
  if truthy subdir then _ ← jifs_create_file subdir "subcounter" subcounter; mret () else mret ().

(** ** JIFS/super.c: a physical address in the mount data *)

(** The address, and the data after the option; [simple_strtoull] gives a number
    and what follows it. *)
Definition get_phys_addr (simple_strtoull : string → Z * string) (data : option string) : Z * option string :=
  match data with
  | None => (ULLONG_MAX, data)
  | Some options =>
      if negb (String.prefix "physaddr=" options) then (ULLONG_MAX, data)
      else
        let '(phys_addr, rest) := simple_strtoull (String.substring 9 (String.length options - 9) options) in
        match rest with
        | EmptyString =>
            if truthy (Z.land phys_addr (PAGE_SIZE - 1)) then (ULLONG_MAX, data) else (phys_addr, Some rest)
        | String c rest' =>
            if negb (bool_decide (c = ","%char)) then (ULLONG_MAX, data)
            else if truthy (Z.land phys_addr (PAGE_SIZE - 1)) then (ULLONG_MAX, data)
            else (phys_addr, Some rest')
        end
  end.

(** ** JIFS/super.c: mounting *)

Definition MAX_LFS_FILESIZE : Z := 2 ^ 63 - 1.

Definition jifs_max_size (bits : Z) : Z :=
  let res := 2 ^ 63 - 1 in if MAX_LFS_FILESIZE <? res then MAX_LFS_FILESIZE else res.

(** The kernel's option parser: the words between commas, what a word matches
    of the table of patterns, and the numbers in it. *)
Inductive token := Opt_mode | Opt_dbgmask | Opt_err.

Definition tokens : list (token * string) := [(Opt_mode, "mode=%o"); (Opt_dbgmask, "dbgmask=%u")].

Class Parser := {
  match_token : string → list (token * string) → token * string;
  match_octal : string → option Z;
  match_int : string → option Z
}.

Context `{!Parser}.

Fixpoint jifs_parse_options (words : list string) (mode : Z) : KM (Z * Z) :=
  match words with
  | [] => mret (0, mode)
  | p :: words =>
      if decide (p = "") then jifs_parse_options words mode
      else
        match match_token p tokens with
        | (Opt_mode, arg) =>
            match match_octal arg with
            | None => mret (- EINVAL, mode)
            | Some option => jifs_parse_options words (Z.land option S_IALLUGO)
            end
        | (Opt_dbgmask, arg) =>
            match match_int arg with
            | None => mret (- EINVAL, mode)
            | Some option => modify (set_dbgmask (u32 option));; jifs_parse_options words mode
            end
        | (Opt_err, _) => jifs_parse_options words mode
        end
  end.

(** [kzalloc]: NULL or a free address. *)
Class Kzalloc := {
  kzalloc : gmap Z jifs_sb_info → option Z;
  kzalloc_fresh m a : kzalloc m = Some a → a ≠ 0 ∧ m !! a = None
}.

Context `{!Kzalloc}.

Definition alloc_sbi : KM Z := λ st,
  match kzalloc (sbis st) with
  | Some a => Ok (a, set_sbis (<[a := SbInfo 0 0 0]> (sbis st)) st)
  | None => Ok (0, st)
  end.

Definition update_sbi (a : Z) (f : jifs_sb_info → jifs_sb_info) : KM () := λ st,
  match sbis st !! a with
  | Some s => Ok ((), set_sbis (<[a := f s]> (sbis st)) st)
  | None => Fault
  end.

(** A kernel function that writes through its argument, which has no meaning
    when that is no inode. *)
Definition on_inode (a : Z) (f : K → K) : KM () := λ st,
  match inodes (kern st) !! a with
  | Some _ => Ok ((), set_kern (f (kern st)) st)
  | None => Fault
  end.

Definition inode_init_owner (a mode : Z) : KM () := on_inode a (kinit_owner a mode).
Definition set_nlink (a n : Z) : KM () := on_inode a (kset_nlink a n).

(** The words are those of the mount data, [random] the generation drawn. *)
Definition jifs_fill_super (words : list string) (random : Z) : KM Z :=
  sbi ← alloc_sbi;
  if truthy sbi then
    update_sb (λ b, Super sbi (s_magic b) (s_maxbytes b) (s_time_gran b) (s_blocksize b) (s_blocksize_bits b) (s_root b) (s_ops_set b));;
    '(err, mode) ← jifs_parse_options words 0x1ED;
    update_sbi sbi (λ s, SbInfo mode (sbi_mode s) (next_generation s));;
    if truthy err then mret (- ENOMEM)
    else
      update_sbi sbi (λ s, SbInfo (sbi_opt_mode s) (sbi_mode s) random);;
      update_sbi sbi (λ s, SbInfo (sbi_opt_mode s) 0x1ED (next_generation s));;
      update_sb (λ b, Super (s_fs_info b) JIFS_MAGIC (jifs_max_size (s_blocksize_bits b)) 1 (s_blocksize b) (s_blocksize_bits b) (s_root b) true);;
      root_i ← jifs_make_inode (Z.lor S_IFDIR 0x1ED) simple_dir_operations;
      if truthy root_i then
        inode_init_owner root_i S_IFDIR;;
        update_inode root_i (λ i, Inode (i_mode i) (i_fop i) simple_dir_inode_operations (i_ino i) (i_private i) (i_nlink i) (i_size i));;
        set_nlink root_i 2;;
        root ← call (d_make_root root_i);
        update_sb (λ b, Super (s_fs_info b) (s_magic b) (s_maxbytes b) (s_time_gran b) (s_blocksize b) (s_blocksize_bits b) root (s_ops_set b));;
        if truthy root then jifs_create_files root;; mret 0
        else mret (- ENOMEM)
      else mret (- ENOMEM)
  else mret (- ENOMEM).

(** Called at unmount, when the superblock has a root. *)
Definition jifs_put_super : KM () :=
  sbi ← gets (λ st, s_fs_info (sb st));
  modify (set_dbgmask 0);;
  modify (λ st, set_sbis (delete sbi (sbis st)) st);;
  update_sb (λ b, Super 0 (s_magic b) (s_maxbytes b) (s_time_gran b) (s_blocksize b) (s_blocksize_bits b) (s_root b) (s_ops_set b)).

(** ** JIFS/super.c: inode numbers from file handles *)

Context `{!Icache K}.

Definition jifs_iget (ino : Z) : KM Z :=
  inode ← call (iget_locked ino);
  update_inode inode (λ i, Inode (i_mode i) (i_fop i) (i_op i) ino (i_private i) (i_nlink i) (i_size i));;
  call_ (unlock_new_inode inode);;
  mret inode.

(** An error is a negative number, an inode its address; [ino] is unsigned. *)
Definition jifs_nfs_get_inode (ino : Z) : KM Z :=
  if ino <? JIFS_ROOT_INO then mret (- ESTALE)
  else if ino <? LONG_MAX then mret (- ESTALE)
  else jifs_iget ino.

(** ** JIFS/namei.c and JIFS/dir.c *)

(** Looks a name up in a directory: an error, or 0 with the inode added to the dentry. *)
Definition jifs_lookup (dir_ino dentry : Z) (name : string) : KM Z :=
  if negb (dir_ino =? JIFS_ROOT_INO) || negb (bool_decide (name = "hello.txt")) then mret (- ENOENT)
  else
    file_inode ← call (iget_locked FILE_INO);
    if truthy file_inode then
      update_inode file_inode (λ i, Inode (i_mode i) (i_fop i) (i_op i) (i_ino i) (i_private i) (i_nlink i) 0);;
      update_inode file_inode (λ i, Inode (Z.lor S_IFREG 0x1A4) (i_fop i) (i_op i) (i_ino i) (i_private i) (i_nlink i) (i_size i));;
      update_inode file_inode (λ i, Inode (i_mode i) jifs_file_ops (i_op i) (i_ino i) (i_private i) (i_nlink i) (i_size i));;
      call_ (d_add dentry file_inode);;
      mret 0
    else mret (- ENOMEM).

(** The entries emitted, (name, inode number), and the position afterwards. *)
Definition jifs_readdir (ino parent_ino pos : Z) : list (string * Z) * Z :=
  if 0 <? pos then ([], pos)
  else ([(".", ino); ("..", parent_ino); ("hello.txt", FILE_INO)], pos + 14).

(** ** JIFS/lwnfs/lwnfs.c *)

Definition lfs_make_inode (mode : Z) (f : fops) : KM Z :=
  inode ← call new_inode;
  if truthy inode then
    update_inode inode (λ i, Inode mode (i_fop i) (i_op i) (i_ino i) (i_private i) (i_nlink i) (i_size i));;
    update_inode inode (λ i, Inode (i_mode i) f (i_op i) (i_ino i) (i_private i) (i_nlink i) (i_size i));;
    ino ← call get_next_ino;
    update_inode inode (λ i, Inode (i_mode i) (i_fop i) (i_op i) ino (i_private i) (i_nlink i) (i_size i));;
    mret inode
  else mret 0.

Definition lfs_create_file (dir : Z) (name : string) (counter : Z) : KM Z :=
  dentry ← call (d_alloc_name dir name);
  if truthy dentry then
    inode ← lfs_make_inode (Z.lor S_IFREG 0x1A4) lfs_file_ops;
    if truthy inode then
      update_inode inode (λ i, Inode (i_mode i) (i_fop i) (i_op i) (i_ino i) counter (i_nlink i) (i_size i));;
      call_ (d_add dentry inode);;
      mret dentry
    else call_ (dput dentry);; mret 0
  else mret 0.

Definition lfs_create_dir (parent : Z) (name : string) : KM Z :=
  dentry ← call (d_alloc_name parent name);
  if truthy dentry then
    inode ← lfs_make_inode (Z.lor S_IFDIR 0x1ED) simple_dir_operations;
    if truthy inode then
      update_inode inode (λ i, Inode (i_mode i) (i_fop i) simple_dir_inode_operations (i_ino i) (i_private i) (i_nlink i) (i_size i));;
      call_ (d_add dentry inode);;
      mret dentry
    else call_ (dput dentry);; mret 0
  else mret 0.

Definition lfs_create_files (root : Z) : KM () :=
  atomic_set counter 0;;
  _ ← lfs_create_file root "counter" counter;
  atomic_set subcounter 0;;
  subdir ← lfs_create_dir root "subdir";
  if truthy subdir then _ ← lfs_create_file subdir "subcounter" subcounter; mret () else mret ().

(** Releasing an inode that is gone has no meaning. *)
Definition put_inode (a : Z) : KM () := on_inode a (iput a).

Definition lfs_fill_super : KM Z :=
  update_sb (λ b, Super (s_fs_info b) LFS_MAGIC (s_maxbytes b) (s_time_gran b) VMACACHE_SIZE VMACACHE_SIZE (s_root b) true);;
  root ← lfs_make_inode (Z.lor S_IFDIR 0x1ED) simple_dir_operations;
  inode_init_owner root (Z.lor S_IFDIR 0x1ED);;
  if truthy root then
    update_inode root (λ i, Inode (i_mode i) (i_fop i) simple_dir_inode_operations (i_ino i) (i_private i) (i_nlink i) (i_size i));;
    set_nlink root 2;;
    root_dentry ← call (d_make_root root);
    if truthy root_dentry then
      lfs_create_files root_dentry;;
      update_sb (λ b, Super (s_fs_info b) (s_magic b) (s_maxbytes b) (s_time_gran b) (s_blocksize b) (s_blocksize_bits b) root_dentry (s_ops_set b));;
      mret 0
    else put_inode root;; mret (- ENOMEM)
  else mret (- ENOMEM).
End fs.
Arguments kstate K : clear implicits.
