(* ===== verification/FsOps.v ===== *)
(** * The file systems: what each operation does to the kernel's objects *)
From S2P Require Import FsDefs Prelude.

(** ** Growth of the tree

    [grows k l k']: the entries of [l], each a dentry with its inode, were added
    at addresses that were free. *)
Definition tree : Type := gmap Z inode * gmap Z dentry.
Definition entry : Type := Z * dentry * inode.

Definition add_entry (k : tree) (e : entry) : tree :=
  (<[d_inode e.1.2 := e.2]> k.1, <[e.1.1 := e.1.2]> k.2).

Fixpoint grows (k : tree) (l : list entry) (k' : tree) : Prop :=
  match l with
  | [] => k' = k
  | e :: l =>
      (e.1.1 ≠ 0 ∧ k.2 !! e.1.1 = None ∧ d_inode e.1.2 ≠ 0 ∧ k.1 !! d_inode e.1.2 = None) ∧
      grows (add_entry k e) l k'
  end.

Lemma grows_app k1 l1 k2 l2 k3 : grows k1 l1 k2 → grows k2 l2 k3 → grows k1 (l1 ++ l2) k3.
Proof.
  revert k1. induction l1 as [|e l1 IH]; intros k1; cbn [grows app]; [by intros ->|].
  intros [? ?] ?. split; [done|]. by apply IH.
Qed.

(** What was there is still there. *)
Lemma grows_keeps k l k' :
  grows k l k' → (∀ a i, k.1 !! a = Some i → k'.1 !! a = Some i) ∧ (∀ d e, k.2 !! d = Some e → k'.2 !! d = Some e).
Proof.
  revert k. induction l as [|[[d e] i] l IH]; intros k; cbn [grows]; [by intros ->|].
  cbn. intros [(_ & Hd & _ & Hi) Hg]. destruct (IH _ Hg) as [H1 H2]. cbn in H1, H2. split.
  - intros a j Ha. apply H1. rewrite lookup_insert_ne; [done|]. intros <-. by rewrite Hi in Ha.
  - intros d' e' Hd'. apply H2. rewrite lookup_insert_ne; [done|]. intros <-. by rewrite Hd in Hd'.
Qed.

Lemma grows_elem k l k' d e i :
  grows k l k' → (d, e, i) ∈ l → k'.2 !! d = Some e ∧ k'.1 !! d_inode e = Some i.
Proof.
  revert k. induction l as [|x l IH]; intros k; cbn [grows]; [by intros _ ?%elem_of_nil|].
  intros [_ Hg] [<-|Hl]%elem_of_cons; [|by eapply IH]. destruct (grows_keeps _ _ _ Hg) as [H1 H2].
  split; [apply H2|apply H1]; cbn; by rewrite lookup_insert_eq.
Qed.

Section fs.
Context {K : Type} `{!Vfs K}.
Implicit Types st : kstate K.

Definition fs st : tree := (inodes (kern st), dentries (kern st)).

(** Everything but the kernel's objects. *)
Definition rest st : super_block * gmap Z jifs_sb_info * Z := (sb st, sbis st, jifs_dbgmask st).

Lemma wp_call {A} (f : K → A * K) (Q : A → kstate K → Prop) st :
  wp (call f) Q st ↔ Q (fst (f (kern st))) (set_kern (snd (f (kern st))) st).
Proof. unfold wp, call. by destruct (f (kern st)). Qed.

Lemma wp_call_ (f : K → K) (Q : () → kstate K → Prop) st : wp (call_ f) Q st ↔ Q () (set_kern (f (kern st)) st).
Proof. done. Qed.

Lemma wp_update_inode a i f (Q : () → kstate K → Prop) st :
  inodes (kern st) !! a = Some i →
  (∀ st', fs st' = (<[a := f i]> (inodes (kern st)), dentries (kern st)) → rest st' = rest st →
     counters st' = counters st → Q () st') →
  wp (update_inode a f) Q st.
Proof.
  intros Ha HQ. unfold wp, update_inode. rewrite Ha. apply HQ; [|done|done].
  unfold fs. cbn. by destruct (set_inode_law a (f i) (kern st)) as [-> ->].
Qed.

Lemma wp_on_inode a i (f : K → K) (i' : inode) (Q : () → kstate K → Prop) st :
  inodes (kern st) !! a = Some i →
  (inodes (f (kern st)) = <[a := i']> (inodes (kern st)) ∧ dentries (f (kern st)) = dentries (kern st)) →
  (∀ st', fs st' = (<[a := i']> (inodes (kern st)), dentries (kern st)) → rest st' = rest st →
     counters st' = counters st → Q () st') →
  wp (on_inode a f) Q st.
Proof.
  intros Ha [Hi Hd] HQ. unfold wp, on_inode. rewrite Ha. apply HQ; [|done|done].
  unfold fs. cbn. by rewrite Hi, Hd.
Qed.

Lemma fs_inv st m1 m2 : fs st = (m1, m2) → inodes (kern st) = m1 ∧ dentries (kern st) = m2.
Proof. by intros [= <- <-]. Qed.

Lemma rest_set_kern k st : rest (set_kern k st) = rest st.
Proof. done. Qed.

(** ** Inodes *)

Lemma make_inode_spec mode f st :
  wp (jifs_make_inode mode f) (λ a st',
    rest st' = rest st ∧ counters st' = counters st ∧
    (a = 0 ∧ fs st' = fs st ∨
     a ≠ 0 ∧ inodes (kern st) !! a = None ∧
       ∃ ino, fs st' = (<[a := Inode mode f no_iops ino 0 1 0]> (inodes (kern st)), dentries (kern st)))) st.
Proof.
  unfold jifs_make_inode. rewrite wp_bind, wp_call.
  destruct (new_inode (kern st)) as [a k] eqn:Hn. cbn [fst snd].
  destruct (new_inode_law _ _ _ Hn) as [Hd [[-> Hi]|(Ha & Hfree & Hi)]].
  - rewrite truthy_0, wp_ret. split; [done|]. split; [done|]. left. split; [done|].
    unfold fs. cbn. by rewrite Hd, Hi.
  - rewrite truthy_nz by done. rewrite wp_bind.
    eapply (wp_update_inode a); [cbn; by rewrite Hi, lookup_insert_eq|].
    intros st1 [Hi1 Hd1]%fs_inv Hr1 Hc1. rewrite wp_bind.
    eapply (wp_update_inode a); [by rewrite Hi1, lookup_insert_eq|].
    intros st2 [Hi2 Hd2]%fs_inv Hr2 Hc2. rewrite wp_bind, wp_call.
    destruct (get_next_ino (kern st2)) as [ino k3] eqn:Hino. cbn [fst snd].
    destruct (get_next_ino_law _ _ _ Hino) as [Hi3 Hd3]. rewrite wp_bind.
    eapply (wp_update_inode a); [cbn; by rewrite Hi3, Hi2, lookup_insert_eq|].
    intros st4 [Hi4 Hd4]%fs_inv Hr4 Hc4. rewrite wp_ret.
    rewrite rest_set_kern in Hr1, Hr4. cbn in Hi1, Hd1, Hi2, Hd2, Hi4, Hd4, Hc1, Hc2, Hc4.
    split; [by rewrite Hr4, Hr2|]. split; [congruence|].
    right. split; [done|]. split; [done|]. exists ino. unfold fs.
    rewrite Hi4, Hd4, Hi3, Hd3, Hi2, Hd2, Hi1, Hd1, Hi, Hd. by rewrite !insert_insert_eq.
Qed.

(** ** Files and directories *)

(** A creation adds one entry, or returns NULL and adds none. *)
Definition created st (dir : Z) (name : string) (mk : Z → inode) (d : Z) st' : Prop :=
  rest st' = rest st ∧ counters st' = counters st ∧
  ∃ l, grows (fs st) l (fs st') ∧
    (d = 0 ∧ l = [] ∨ d ≠ 0 ∧ ∃ a ino, l = [(d, Dentry name dir a, mk ino)]).

Lemma fs_create_spec (mode : Z) (f : fops) (upd : inode → inode) dir name st :
  wp (dentry ← call (d_alloc_name dir name);
      if truthy dentry then
        inode ← jifs_make_inode mode f;
        if truthy inode then update_inode inode upd;; call_ (d_add dentry inode);; mret dentry
        else call_ (dput dentry);; mret 0
      else mret 0)
    (created st dir name (λ ino, upd (Inode mode f no_iops ino 0 1 0))) st.
Proof.
  rewrite wp_bind, wp_call.
  destruct (d_alloc_name dir name (kern st)) as [d k] eqn:Hn. cbn [fst snd].
  destruct (d_alloc_name_law _ _ _ _ _ Hn) as [Hi [[-> Hd]|(Hd0 & Hfree & Hd)]].
  - rewrite truthy_0, wp_ret. split; [done|]. split; [done|]. exists []. split; [|by left].
    cbn. unfold fs. cbn. by rewrite Hi, Hd.
  - rewrite truthy_nz by done. rewrite wp_bind. eapply wp_mono; [apply make_inode_spec|].
    intros a st1 (Hr1 & Hc1 & Hcase). cbn in Hr1, Hc1, Hcase. change (rest (set_kern k st)) with (rest st) in Hr1.
    destruct Hcase as [[-> [Hi1 Hd1]%fs_inv]|(Ha & Hafree & ino & [Hi1 Hd1]%fs_inv)]; cbn in Hi1, Hd1.
    + rewrite truthy_0, wp_bind, wp_call_, wp_ret. split; [done|]. split; [done|]. exists []. split; [|by left].
      cbn. unfold fs. cbn.
      destruct (dput_law d (kern st1) (Dentry name dir 0)) as [-> ->];
        [by rewrite Hd1, Hd, lookup_insert_eq|done|].
      rewrite Hi1, Hd1, Hi, Hd. by rewrite delete_insert_id.
    + rewrite truthy_nz by done. rewrite wp_bind.
      eapply (wp_update_inode a); [by rewrite Hi1, lookup_insert_eq|].
      intros st2 [Hi2 Hd2]%fs_inv Hr2 Hc2. rewrite wp_bind, wp_call_, wp_ret.
      destruct (d_add_law d a (kern st2) (Dentry name dir 0)) as [Hi3 Hd3];
        [by rewrite Hd2, Hd1, Hd, lookup_insert_eq|].
      split; [by change (rest (set_kern (d_add d a (kern st2)) st2)) with (rest st2); rewrite Hr2|].
      split; [cbn; congruence|]. eexists. split; [|right; split; [done|]; by exists a, ino].
      rewrite Hi in Hafree. unfold fs, add_entry. cbn. split; [done|].
      rewrite Hi3, Hd3, Hi2, Hd2, Hi1, Hd1, Hi, Hd. by rewrite !insert_insert_eq.
Qed.

Definition file_inode (f : fops) (counter ino : Z) : inode := Inode (S_IFREG + 0x1A4) f no_iops ino counter 1 0.
Definition dir_inode (ino : Z) : inode :=
  Inode (S_IFDIR + 0x1ED) simple_dir_operations simple_dir_inode_operations ino 0 1 0.

Lemma jifs_create_file_spec dir name c st :
  wp (jifs_create_file dir name c) (created st dir name (file_inode jifs_file_ops c)) st.
Proof. apply (fs_create_spec _ _ (λ i, Inode (i_mode i) (i_fop i) (i_op i) (i_ino i) c (i_nlink i) (i_size i))). Qed.

Lemma jifs_create_dir_spec dir name st : wp (jifs_create_dir dir name) (created st dir name dir_inode) st.
Proof.
  apply (fs_create_spec _ _
    (λ i, Inode (i_mode i) (i_fop i) simple_dir_inode_operations (i_ino i) (i_private i) (i_nlink i) (i_size i))).
Qed.

Lemma lfs_create_file_spec dir name c st :
  wp (lfs_create_file dir name c) (created st dir name (file_inode lfs_file_ops c)) st.
Proof. apply (fs_create_spec _ _ (λ i, Inode (i_mode i) (i_fop i) (i_op i) (i_ino i) c (i_nlink i) (i_size i))). Qed.

Lemma lfs_create_dir_spec dir name st : wp (lfs_create_dir dir name) (created st dir name dir_inode) st.
Proof. exact (jifs_create_dir_spec dir name st). Qed.

(** ** The files of a fresh file system *)

Definition files (root : Z) (f : fops) (l : list entry) : Prop :=
  ∃ l1 l2, l = l1 ++ l2 ∧
    (l1 = [] ∨ ∃ d a ino, d ≠ 0 ∧ l1 = [(d, Dentry "counter" root a, file_inode f counter ino)]) ∧
    (l2 = [] ∨ ∃ d a ino, d ≠ 0 ∧
       (l2 = [(d, Dentry "subdir" root a, dir_inode ino)] ∨
        ∃ d' a' ino', d' ≠ 0 ∧
          l2 = [(d, Dentry "subdir" root a, dir_inode ino); (d', Dentry "subcounter" d a', file_inode f subcounter ino')])).

Definition populated st (root : Z) (f : fops) st' : Prop :=
  rest st' = rest st ∧ counters st' = <[subcounter := 0]> (<[counter := 0]> (counters st)) ∧
  ∃ l, grows (fs st) l (fs st') ∧ files root f l.

Lemma wp_atomic_set c v (Q : () → kstate K → Prop) st :
  wp (atomic_set c v) Q st ↔ Q () (set_counters (<[c := v]> (counters st)) st).
Proof. done. Qed.

Lemma create_files_spec f (create_file : Z → string → Z → KM Z) (create_dir : Z → string → KM Z) root st :
  (∀ dir name c st, wp (create_file dir name c) (created st dir name (file_inode f c)) st) →
  (∀ dir name st, wp (create_dir dir name) (created st dir name dir_inode) st) →
  wp (atomic_set counter 0;;
      _ ← create_file root "counter" counter;
      atomic_set subcounter 0;;
      subdir ← create_dir root "subdir";
      if truthy subdir then _ ← create_file subdir "subcounter" subcounter; mret () else mret ())
    (λ _, populated st root f) st.
Proof.
  intros Hfile Hdir. rewrite wp_bind, wp_atomic_set, wp_bind.
  eapply wp_mono; [apply Hfile|]. intros d1 st1 (Hr1 & Hc1 & l1 & Hg1 & Hl1). rewrite wp_bind, wp_atomic_set, wp_bind.
  eapply wp_mono; [apply Hdir|]. intros d2 st2 (Hr2 & Hc2 & l2 & Hg2 & Hl2).
  change (rest (set_counters ?m ?s)) with (rest s) in *. change (fs (set_counters ?m ?s)) with (fs s) in *.
  change (counters (set_counters ?m ?s)) with m in *.
  assert (l1 = [] ∨ ∃ d a ino, d ≠ 0 ∧ l1 = [(d, Dentry "counter" root a, file_inode f counter ino)]) as Hl1'
    by (destruct Hl1 as [[_ ?]|(? & a & ino & ?)]; [by left|right; by exists d1, a, ino]).
  rewrite Hc1 in Hc2. destruct Hl2 as [[-> ->]|(Hd2 & a2 & ino2 & ->)].
  - rewrite truthy_0, wp_ret. split; [by rewrite Hr2|]. split; [done|].
    exists (l1 ++ []). split; [by eapply grows_app|]. exists l1, []. split; [done|]. split; [done|by left].
  - rewrite truthy_nz, wp_bind by done. eapply wp_mono; [apply Hfile|].
    intros d3 st3 (Hr3 & Hc3 & l3 & Hg3 & Hl3). rewrite wp_ret.
    split; [by rewrite Hr3, Hr2|]. split; [by rewrite Hc3|].
    eexists. split; [eapply grows_app; [exact Hg1|eapply grows_app; [exact Hg2|exact Hg3]]|].
    eexists l1, _. split; [done|]. split; [done|]. right. exists d2, a2, ino2. split; [done|].
    destruct Hl3 as [[_ ->]|(? & a3 & ino3 & ->)]; [by left|]. right. by exists d3, a3, ino3.
Qed.

Lemma jifs_create_files_spec root st : wp (jifs_create_files root) (λ _, populated st root jifs_file_ops) st.
Proof. apply create_files_spec; [apply jifs_create_file_spec|apply jifs_create_dir_spec]. Qed.

Lemma lfs_create_files_spec root st : wp (lfs_create_files root) (λ _, populated st root lfs_file_ops) st.
Proof. apply create_files_spec; [apply lfs_create_file_spec|apply lfs_create_dir_spec]. Qed.

(** ** The root *)

(** Making an inode the root: it is released when the dentry cannot be had. *)
Lemma root_spec a i st :
  a ≠ 0 → inodes (kern st) !! a = Some i →
  wp (call (d_make_root a)) (λ d st',
    rest st' = rest st ∧ counters st' = counters st ∧
    (d = 0 ∧ fs st' = (delete a (inodes (kern st)), dentries (kern st)) ∨
     d ≠ 0 ∧ dentries (kern st) !! d = None ∧
       fs st' = (inodes (kern st), <[d := Dentry "/" d a]> (dentries (kern st))))) st.
Proof.
  intros Ha Hi. rewrite wp_call. destruct (d_make_root a (kern st)) as [d k] eqn:Hd. cbn [fst snd].
  split; [done|]. split; [done|].
  destruct (d_make_root_law _ _ _ _ Ha (mk_is_Some _ _ Hi) Hd) as [(-> & Hi' & Hd')|(? & ? & Hi' & Hd')]; [left|right].
  - split; [done|]. unfold fs. cbn. by rewrite Hi', Hd'.
  - split; [done|]. split; [done|]. unfold fs. cbn. by rewrite Hi', Hd'.
Qed.
End fs.
