(* ===== verification/FsMount.v ===== *)
(** * The file systems: mount options and mounting *)
From S2P Require Import FsDefs FsOps Prelude.

(** ** Mount options *)

Section options.
Context {K : Type} `{!Vfs K, !Parser}.
Implicit Types st : kstate K.

(** The number a word gives for the mode or for the mask, if it does. *)
Definition opt_mode (p : string) : option Z :=
  if decide (p = "") then None
  else match match_token p tokens with
       | (Opt_mode, arg) => (λ n, Z.land n S_IALLUGO) <$> match_octal arg
       | _ => None
       end.

Definition opt_mask (p : string) : option Z :=
  if decide (p = "") then None
  else match match_token p tokens with
       | (Opt_dbgmask, arg) => u32 <$> match_int arg
       | _ => None
       end.

(** A known option whose number cannot be read. *)
Definition malformed (p : string) : Prop :=
  p ≠ "" ∧
  match match_token p tokens with
  | (Opt_mode, arg) => match_octal arg = None
  | (Opt_dbgmask, arg) => match_int arg = None
  | _ => False
  end.

Definition well_formed (p : string) : Prop := ¬ malformed p.

(** The value of the last word that gives one. *)
Definition final (f : string → option Z) (words : list string) (x : Z) : Z :=
  default x (list.last (omap f words)).

Lemma final_cons f p words x : final f (p :: words) x = final f words (default x (f p)).
Proof.
  unfold final. csimpl. destruct (f p) as [y|]; [|done]. rewrite last_cons. cbn.
  by destruct (list.last (omap f words)).
Qed.

Lemma set_dbgmask_id st : set_dbgmask (jifs_dbgmask st) st = st.
Proof. by destruct st. Qed.

(** One word. *)
Lemma parse_word p words mode st :
  (well_formed p →
   jifs_parse_options (p :: words) mode st =
     jifs_parse_options words (default mode (opt_mode p))
       (set_dbgmask (default (jifs_dbgmask st) (opt_mask p)) st)) ∧
  (malformed p → jifs_parse_options (p :: words) mode st = Ok ((- EINVAL, mode), st)).
Proof.
  unfold well_formed, malformed, opt_mode, opt_mask. cbn [jifs_parse_options].
  destruct (decide (p = "")) as [->|Hp].
  { cbn [default]. rewrite set_dbgmask_id. split; [done|]. by intros []. }
  destruct (match_token p tokens) as [[] arg]; cbn [default].
  - destruct (match_octal arg) as [n|]; cbn; rewrite set_dbgmask_id.
    + split; [done|]. by intros [].
    + split; [|done]. intros Hm. by destruct Hm.
  - destruct (match_int arg) as [n|]; cbn.
    + split; [done|]. by intros [].
    + split; [|done]. intros Hm. by destruct Hm.
  - rewrite set_dbgmask_id. split; [done|]. by intros [].
Qed.

Lemma parse_well_formed pre words mode st :
  Forall well_formed pre →
  jifs_parse_options (pre ++ words) mode st =
    jifs_parse_options words (final opt_mode pre mode) (set_dbgmask (final opt_mask pre (jifs_dbgmask st)) st).
Proof.
  intros Hpre. revert mode st. induction Hpre as [|p pre Hp _ IH]; intros mode st; cbn [app].
  - unfold final. cbn. by rewrite set_dbgmask_id.
  - rewrite (proj1 (parse_word p (pre ++ words) mode st) Hp), IH, !final_cons. by destruct st.
Qed.

#[export] Instance malformed_dec p : Decision (malformed p).
Proof. unfold malformed. destruct (match_token p tokens) as [[] arg]; apply _. Defined.

(** The first malformed word. *)
Lemma words_split words :
  Forall well_formed words ∨
  ∃ pre p post, words = pre ++ p :: post ∧ Forall well_formed pre ∧ malformed p.
Proof.
  induction words as [|p words IH]; [by left|]. destruct (decide (malformed p)) as [Hp|Hp].
  - right. by exists [], p, words.
  - destruct IH as [?|(pre & q & post & -> & ? & ?)]; [left; by constructor|].
    right. exists (p :: pre), q, post. split; [done|]. split; [by constructor|done].
Qed.

Lemma options_spec words mode st :
  (Forall well_formed words ∧
   jifs_parse_options words mode st =
     Ok ((0, final opt_mode words mode), set_dbgmask (final opt_mask words (jifs_dbgmask st)) st)) ∨
  (¬ Forall well_formed words ∧ ∃ m mask,
   jifs_parse_options words mode st = Ok ((- EINVAL, m), set_dbgmask mask st)).
Proof.
  destruct (words_split words) as [Hw|(pre & p & post & -> & Hpre & Hp)]; [left|right].
  - split; [done|]. pose proof (parse_well_formed words [] mode st Hw) as Hpar.
    rewrite app_nil_r in Hpar. by rewrite Hpar.
  - split; [intros Hall; apply List.Forall_app in Hall as [_ Hall]; apply List.Forall_cons_iff in Hall as [Hnp _]; by apply Hnp|].
    rewrite parse_well_formed by done. do 2 eexists. exact (proj2 (parse_word p post _ _) Hp).
Qed.
End options.

(** ** Mounting *)

Section mount.
Context {K : Type} `{!Vfs K, !Parser, !Kzalloc}.
Implicit Types st : kstate K.

Definition root_inode (m ino : Z) : inode :=
  Inode m simple_dir_operations simple_dir_inode_operations ino 0 2 0.

(** The state after a mount that succeeded. *)
Definition mounted (words : list string) (random : Z) st st' : Prop :=
  Forall well_formed words ∧
  ∃ sbi root a ino l,
    kzalloc (sbis st) = Some sbi ∧ root ≠ 0 ∧
    sb st' = Super sbi JIFS_MAGIC LONG_MAX 1 (s_blocksize (sb st)) (s_blocksize_bits (sb st)) root true ∧
    sbis st' = <[sbi := SbInfo (final opt_mode words 0x1ED) 0x1ED random]> (sbis st) ∧
    jifs_dbgmask st' = final opt_mask words (jifs_dbgmask st) ∧
    counters st' = <[subcounter := 0]> (<[counter := 0]> (counters st)) ∧
    grows (fs st) ((root, Dentry "/" root a, root_inode S_IFDIR ino) :: l) (fs st') ∧
    files root jifs_file_ops l.

(** The state after one that failed: the memory of the superblock, if it was had, is still held. *)
Definition not_mounted st st' : Prop :=
  fs st' = fs st ∧ counters st' = counters st ∧
  (s_root (sb st') = 0 ∨ s_root (sb st') = s_root (sb st)) ∧
  match kzalloc (sbis st) with
  | None => st' = st
  | Some sbi => s_fs_info (sb st') = sbi ∧ is_Some (sbis st' !! sbi)
  end.

Lemma wp_update_sb f (Q : () → kstate K → Prop) st : wp (update_sb f) Q st ↔ Q () (set_sb (f (sb st)) st).
Proof. done. Qed.

Lemma wp_update_sbi a f s (Q : () → kstate K → Prop) st :
  sbis st !! a = Some s → Q () (set_sbis (<[a := f s]> (sbis st)) st) → wp (update_sbi a f) Q st.
Proof. intros Ha HQ. unfold wp, update_sbi. by rewrite Ha. Qed.

(** A new inode [a] of mode [m], before it is made the root. *)
Definition fresh_dir (m a ino : Z) st st1 : Prop :=
  a ≠ 0 ∧ inodes (kern st) !! a = None ∧
  fs st1 = (<[a := Inode m simple_dir_operations no_iops ino 0 1 0]> (inodes (kern st)), dentries (kern st)).

Lemma init_owner_spec m m' a ino st st1 (Q : () → kstate K → Prop) :
  fresh_dir m' a ino st st1 →
  (∀ st2, rest st2 = rest st1 → counters st2 = counters st1 → fresh_dir m a ino st st2 → Q () st2) →
  wp (inode_init_owner a m) Q st1.
Proof.
  intros (Ha & Hfree & [Hi1 Hd1]%fs_inv) HQ.
  assert (inodes (kern st1) !! a = Some (Inode m' simple_dir_operations no_iops ino 0 1 0)) as Ha1
    by (by rewrite Hi1, lookup_insert_eq).
  unfold inode_init_owner. eapply wp_on_inode; [exact Ha1|exact (kinit_owner_law a m _ _ Ha1)|].
  intros st2 Hf Hr Hc. apply HQ; [done|done|]. split; [done|]. split; [done|]. rewrite Hf, Hi1, Hd1.
  by rewrite insert_insert_eq.
Qed.

(** Made whole and given to the superblock, or released. *)
Lemma make_root_spec m a ino st st1 :
  fresh_dir m a ino st st1 →
  wp (update_inode a (λ i, Inode (i_mode i) (i_fop i) simple_dir_inode_operations (i_ino i) (i_private i) (i_nlink i) (i_size i));;
      set_nlink a 2;;
      call (d_make_root a)) (λ root st2,
    rest st2 = rest st1 ∧ counters st2 = counters st1 ∧
    (root = 0 ∧ fs st2 = fs st ∨
     root ≠ 0 ∧ grows (fs st) [(root, Dentry "/" root a, root_inode m ino)] (fs st2))) st1.
Proof.
  intros (Ha & Hfree & [Hi1 Hd1]%fs_inv). rewrite wp_bind.
  eapply wp_update_inode; [by rewrite Hi1, lookup_insert_eq|].
  intros st3 [Hi3 Hd3]%fs_inv Hr3 Hc3. rewrite wp_bind. unfold set_nlink.
  assert (inodes (kern st3) !! a = Some (Inode m simple_dir_operations simple_dir_inode_operations ino 0 1 0))
    as Ha3 by (by rewrite Hi3, lookup_insert_eq).
  eapply wp_on_inode; [exact Ha3|exact (kset_nlink_law a 2 _ _ Ha3)|].
  intros st4 [Hi4 Hd4]%fs_inv Hr4 Hc4.
  assert (inodes (kern st4) = <[a := root_inode m ino]> (inodes (kern st))) as Hi
    by (rewrite Hi4, Hi3, Hi1; by rewrite !insert_insert_eq).
  assert (dentries (kern st4) = dentries (kern st)) as Hd by congruence.
  eapply wp_mono; [eapply root_spec; [exact Ha|by rewrite Hi, lookup_insert_eq]|].
  intros root st5 (Hr5 & Hc5 & Hcase). split; [by rewrite Hr5, Hr4|]. split; [congruence|].
  rewrite Hi, Hd in Hcase. destruct Hcase as [[-> ->]|(Hroot & Hrfree & ->)]; [left|right].
  - split; [done|]. by rewrite delete_insert_id.
  - by repeat split.
Qed.

(** A result followed into the rest of the code. *)
Lemma wp_suffix {A B} (m1 m2 : KM ()) (m3 : KM A) (k : A → KM B) (Q : B → kstate K → Prop) R st :
  wp (m1;; m2;; m3) R st → (∀ x st', R x st' → wp (k x) Q st') → wp (m1;; m2;; x ← m3; k x) Q st.
Proof.
  unfold wp, mbind, M_bind. intros HR Hk. destruct (m1 st) as [[[] st1]| |]; [|done..].
  destruct (m2 st1) as [[[] st2]| |]; [|done..]. destruct (m3 st2) as [[x st3]| |]; [|done..]. by apply Hk.
Qed.

Lemma jifs_fill_super_spec words random st :
  wp (jifs_fill_super words random) (λ r st',
    (r = 0 ∧ mounted words random st st') ∨ (r = - ENOMEM ∧ not_mounted st st')) st.
Proof.
  unfold jifs_fill_super, not_mounted. rewrite wp_bind. unfold wp at 1, alloc_sbi.
  destruct (kzalloc (sbis st)) as [sbi|] eqn:Hz; [|rewrite truthy_0, wp_ret; right; repeat split; by right].
  destruct (kzalloc_fresh _ _ Hz) as [Hsbi Hsfree].
  rewrite truthy_nz, wp_bind, wp_update_sb, wp_bind by done. unfold wp at 1.
  set (st1 := set_sb _ _). assert (fs st1 = fs st ∧ counters st1 = counters st) as [Hf1 Hc1] by done.
  destruct (options_spec words 0x1ED st1) as [[Hw ->]|(_ & m & mask & ->)].
  2:{ rewrite wp_bind. eapply wp_update_sbi; [by cbn; rewrite lookup_insert_eq|].
    rewrite (truthy_nz (- EINVAL)), wp_ret by (unfold EINVAL; lia). right. split; [done|].
    cbn. rewrite lookup_insert_eq. split; [done|]. split; [done|]. split; [by right|done]. }
  rewrite wp_bind. eapply wp_update_sbi; [by cbn; rewrite lookup_insert_eq|].
  rewrite truthy_0, wp_bind. eapply wp_update_sbi; [by cbn; rewrite lookup_insert_eq|].
  rewrite wp_bind. eapply wp_update_sbi; [by cbn; rewrite lookup_insert_eq|].
  rewrite wp_bind, wp_update_sb, wp_bind.
  set (st2 := set_sb _ _).
  assert (fs st2 = fs st ∧ counters st2 = counters st) as [Hf2 Hc2] by done.
  assert (sbis st2 = <[sbi := SbInfo (final opt_mode words 0x1ED) 0x1ED random]> (sbis st)) as Hs2
    by (cbn; by rewrite !insert_insert_eq).
  assert (sb st2 = Super sbi JIFS_MAGIC LONG_MAX 1 (s_blocksize (sb st)) (s_blocksize_bits (sb st)) (s_root (sb st)) true)
    as Hb2 by done.
  assert (jifs_dbgmask st2 = final opt_mask words (jifs_dbgmask st)) as Hm2 by done.
  clearbody st2. clear st1 Hf1 Hc1.
  eapply wp_mono; [apply make_inode_spec|].
  intros a st3 (Hr3 & Hc3 & Hcase).
  destruct Hcase as [[-> Hf3]|(Ha & Hfree & ino & Hf3)].
  { rewrite truthy_0, wp_ret. right. injection Hr3 as Hb3 Hs3 Hm3. split; [done|]. rewrite Hf3, Hc3, Hb3, Hs3, Hs2, Hb2.
    cbn. rewrite lookup_insert_eq. repeat split; [congruence|done|by right|done]. }
  rewrite truthy_nz, wp_bind by done. eapply (init_owner_spec S_IFDIR _ a ino st2); [done|].
  intros st4 Hr4 Hc4 Hd4. eapply wp_suffix; [by apply make_root_spec|]. cbn beta.
  intros root st5 (Hr5 & Hc5 & Hcase). rewrite wp_bind, wp_update_sb.
  rewrite Hr4, Hr3 in Hr5. injection Hr5 as Hb5 Hs5 Hm5. rewrite Hb5, Hb2. cbn [s_fs_info s_magic s_maxbytes s_time_gran s_blocksize s_blocksize_bits s_ops_set].
  destruct Hcase as [[-> Hf5]|(Hroot & Hg5)].
  - rewrite truthy_0, wp_ret. right. split; [done|]. cbn. rewrite Hs5, Hs2, lookup_insert_eq.
    split; [by rewrite <- Hf2|]. split; [congruence|]. split; [by left|done].
  - rewrite truthy_nz, wp_bind by done. eapply wp_mono; [apply jifs_create_files_spec|].
    intros [] st6 (Hr6 & Hc6 & l & Hg6 & Hl). rewrite wp_ret. left. split; [done|]. split; [done|].
    injection Hr6 as Hb6 Hs6 Hm6. cbn in Hb6, Hs6, Hm6, Hc6. exists sbi, root, a, ino, l.
    split; [done|]. split; [done|]. split; [done|]. split; [congruence|]. split; [congruence|].
    split; [by rewrite Hc6, Hc5, Hc4, Hc3, Hc2|]. split; [|done].
    rewrite <- Hf2. by apply (grows_app _ [_] _ l _ Hg5).
Qed.

(** ** lwnfs *)

Definition lfs_mounted st st' : Prop :=
  ∃ root a ino l,
    root ≠ 0 ∧
    sb st' = Super (s_fs_info (sb st)) LFS_MAGIC (s_maxbytes (sb st)) (s_time_gran (sb st)) 4 4 root true ∧
    sbis st' = sbis st ∧ jifs_dbgmask st' = jifs_dbgmask st ∧
    counters st' = <[subcounter := 0]> (<[counter := 0]> (counters st)) ∧
    grows (fs st) ((root, Dentry "/" root a, root_inode (S_IFDIR + 0x1ED) ino) :: l) (fs st') ∧
    files root lfs_file_ops l.

Lemma lfs_fill_super_null st :
  inodes (kern st) !! 0 = None → fst (new_inode (kern st)) = 0 → lfs_fill_super st = Fault.
Proof.
  intros Hz Hnew. unfold lfs_fill_super, lfs_make_inode, update_sb, modify, call, mbind, M_bind, mret, M_ret.
  cbn [kern set_sb]. destruct (new_inode (kern st)) as [a k] eqn:Hn. cbn in Hnew. subst a.
  rewrite truthy_0. destruct (new_inode_law _ _ _ Hn) as [_ [[_ Hi]|[? _]]]; [|done].
  unfold inode_init_owner, on_inode. cbn. by rewrite Hi, Hz.
Qed.

Lemma lfs_fill_super_spec st :
  inodes (kern st) !! 0 = None →
  wpf True lfs_fill_super (λ r st', r = 0 ∧ lfs_mounted st st') st.
Proof.
  intros Hz. unfold lfs_fill_super. apply wpf_bind_wp. rewrite wp_update_sb. set (st1 := set_sb _ _).
  assert (fs st1 = fs st ∧ counters st1 = counters st) as [Hf1 Hc1] by done.
  assert (rest st1 = (Super (s_fs_info (sb st)) LFS_MAGIC (s_maxbytes (sb st)) (s_time_gran (sb st)) 4 4 (s_root (sb st)) true,
    sbis st, jifs_dbgmask st)) as Hr1 by done. clearbody st1.
  apply wpf_bind_wp. eapply wp_mono; [apply (make_inode_spec (Z.lor S_IFDIR 0x1ED) simple_dir_operations)|].
  intros a st2 (Hr2 & Hc2 & Hcase).
  destruct Hcase as [[-> [Hi2 _]%fs_inv]|(Ha & Hfree & ino & Hf2)].
  { assert (inodes (kern st2) !! 0 = None) as Hnull by (rewrite Hi2; by injection Hf1 as -> _).
    unfold inode_init_owner, on_inode, wpf, mbind, M_bind. by rewrite Hnull. }
  apply wpf_bind_wp. eapply (init_owner_spec (Z.lor S_IFDIR 0x1ED) _ a ino st1); [done|]. intros st3 Hr3 Hc3 Hd3.
  rewrite truthy_nz by done.
  pose proof (make_root_spec _ _ _ _ _ Hd3) as Hroot. unfold wp, mbind, M_bind in Hroot. unfold wpf, mbind, M_bind.
  destruct (update_inode a _ st3) as [[[] st4]| |]; [|done..].
  destruct (set_nlink a 2 st4) as [[[] st5]| |]; [|done..].
  destruct (call (d_make_root a) st5) as [[root st6]| |]; [|done..].
  destruct Hroot as (Hr6 & Hc6 & [[-> Hf6]|(Hroot & Hg6)]).
  - rewrite truthy_0. unfold put_inode, on_inode. apply fs_inv in Hf6 as [-> _].
    by rewrite Hfree.
  - rewrite truthy_nz by done. pose proof (lfs_create_files_spec root st6) as Hfiles. unfold wp in Hfiles.
    destruct (lfs_create_files root st6) as [[[] st7]| |]; [|done..].
    destruct Hfiles as (Hr7 & Hc7 & l & Hg7 & Hl). unfold update_sb, modify. cbn. split; [done|].
    rewrite Hr6, Hr3, Hr2, Hr1 in Hr7. injection Hr7 as Hb7 Hs7 Hm7.
    exists root, a, ino, l. rewrite Hb7. split; [done|]. split; [done|]. split; [done|]. split; [done|].
    split; [etransitivity; [exact Hc7|]; by rewrite Hc6, Hc3, Hc2, Hc1|]. split; [|done].
    rewrite <- Hf1. exact (grows_app _ [_] _ l _ Hg6 Hg7).
Qed.
End mount.
