(* ===== verification/FsFull.v ===== *)
(** * The file systems: mounting when the kernel refuses nothing

    [mounted] allows a file to be missing when an allocation failed; with memory
    for everything, all of them are there. *)
From S2P Require Import FsDefs FsOps FsMount Prelude.

Section full.
Context {K : Type} `{!Vfs K, !Parser, !Kzalloc}.
Implicit Types st : kstate K.

(** The kernel has memory as long as [P] holds of it, and keeps [P]. *)
Record willing (P : K → Prop) : Prop := {
  willing_new_inode k : P k → fst (new_inode k) ≠ 0 ∧ P (snd (new_inode k));
  willing_next_ino k : P k → P (snd (get_next_ino k));
  willing_set_inode a i k : P k → is_Some (inodes k !! a) → P (set_inode a i k);
  willing_alloc_name p n k : P k → fst (d_alloc_name p n k) ≠ 0 ∧ P (snd (d_alloc_name p n k));
  willing_d_add d i k : P k → is_Some (dentries k !! d) → P (d_add d i k);
  willing_make_root i k : P k → is_Some (inodes k !! i) → fst (d_make_root i k) ≠ 0 ∧ P (snd (d_make_root i k));
  willing_init_owner a m k : P k → is_Some (inodes k !! a) → P (kinit_owner a m k);
  willing_set_nlink a n k : P k → is_Some (inodes k !! a) → P (kset_nlink a n k)
}.

Context (P : K → Prop) (HP : willing P).

(** [P] holds, and there are [n] dentries. *)
Definition has_memory (n : nat) st : Prop := P (kern st) ∧ size (dentries (kern st)) = n.

Lemma full_update n a f st : has_memory n st →
  wpf True (update_inode a f) (λ _ st', has_memory n st' ∧ inodes (kern st') = <[a := f (default (Inode 0 no_fops no_iops 0 0 0 0) (inodes (kern st) !! a))]> (inodes (kern st)) ∧ dentries (kern st') = dentries (kern st)) st.
Proof.
  intros [Hk Hn]. unfold wpf, update_inode. destruct (inodes (kern st) !! a) as [i|] eqn:Ha; [|done].
  destruct (set_inode_law a (f i) (kern st)) as [Hi Hd]. cbn. unfold has_memory. cbn. rewrite Hd.
  split; [|done]. split; [|done]. apply (willing_set_inode P HP); [done|by exists i].
Qed.

Lemma full_make_inode n mode f st : has_memory n st →
  wpf True (jifs_make_inode mode f) (λ a st', a ≠ 0 ∧ has_memory n st' ∧ is_Some (inodes (kern st') !! a) ∧
    dentries (kern st') = dentries (kern st)) st.
Proof.
  intros [Hk Hn]. unfold jifs_make_inode. rewrite wpf_bind. unfold wpf at 1, call.
  destruct (new_inode (kern st)) as [a k] eqn:Hnew. pose proof (willing_new_inode P HP _ Hk) as [Ha Hk1].
  rewrite Hnew in Ha, Hk1. cbn in Ha, Hk1. destruct (new_inode_law _ _ _ Hnew) as [Hd _].
  rewrite truthy_nz by done. assert (has_memory n (set_kern k st)) as Hm1 by (split; [done|cbn; by rewrite Hd]).
  rewrite wpf_bind. eapply wpf_mono; [by apply full_update|]. intros _ st1 (Hm2 & _ & Hd1).
  rewrite wpf_bind. eapply wpf_mono; [by apply full_update|]. intros _ st2 (Hm3 & _ & Hd2).
  rewrite wpf_bind. unfold wpf at 1, call. destruct (get_next_ino (kern st2)) as [ino k3] eqn:Hino.
  destruct (get_next_ino_law _ _ _ Hino) as [Hi3 Hd3].
  assert (has_memory n (set_kern k3 st2)) as Hm4.
  { destruct Hm3 as [Hm3 Hs3]. split; [|cbn; by rewrite Hd3]. pose proof (willing_next_ino P HP _ Hm3) as Hw. by rewrite Hino in Hw. }
  rewrite wpf_bind. eapply wpf_mono; [by apply full_update|]. intros _ st4 (Hm5 & Hi5 & Hd5).
  rewrite wpf_ret. split; [done|]. split; [done|]. split; [by rewrite Hi5, lookup_insert_eq; eexists|].
  cbn in Hd5, Hd1. congruence.
Qed.

(** A creation that succeeds adds a dentry. *)
Lemma full_create n (mode : Z) (f : fops) (upd : inode → inode) dir name st : has_memory n st →
  wpf True (dentry ← call (d_alloc_name dir name);
      if truthy dentry then
        inode ← jifs_make_inode mode f;
        if truthy inode then update_inode inode upd;; call_ (d_add dentry inode);; mret dentry
        else call_ (dput dentry);; mret 0
      else mret 0)
    (λ d st', d ≠ 0 ∧ has_memory (S n) st') st.
Proof.
  intros [Hk Hn]. rewrite wpf_bind. unfold wpf at 1, call at 1.
  destruct (d_alloc_name dir name (kern st)) as [d k] eqn:Hal. pose proof (willing_alloc_name P HP dir name _ Hk) as [Hd Hk1].
  rewrite Hal in Hd, Hk1. cbn in Hd, Hk1. destruct (d_alloc_name_law _ _ _ _ _ Hal) as [_ [[? _]|(_ & Hfree & Hd1)]]; [done|].
  assert (has_memory (S n) (set_kern k st)) as Hm1 by (split; [done|cbn; rewrite Hd1, map_size_insert_None by done; by rewrite Hn]).
  rewrite truthy_nz, wpf_bind by done. eapply wpf_mono; [by apply full_make_inode|].
  intros a st1 (Ha & Hm2 & Hsome & Hd2). rewrite truthy_nz, wpf_bind by done.
  eapply wpf_mono; [by apply full_update|]. intros _ st2 ([Hk3 Hn3] & _ & Hd3).
  assert (is_Some (dentries (kern st2) !! d)) as [e He] by (rewrite Hd3, Hd2; cbn; rewrite Hd1, lookup_insert_eq; by eexists).
  destruct (d_add_law d a (kern st2) e He) as [_ Hd4]. unfold wpf. cbn. split; [done|]. split.
  - apply (willing_d_add P HP); [done|by eexists].
  - cbn. rewrite Hd4, map_size_insert_Some by (by eexists). done.
Qed.

Lemma full_create_files n root st : has_memory n st →
  wpf True (jifs_create_files root) (λ _ st', has_memory (3 + n) st') st.
Proof.
  intros Hm. unfold jifs_create_files. rewrite wpf_bind. unfold wpf at 1, atomic_set, modify. rewrite wpf_bind.
  set (st0 := set_counters _ st). assert (has_memory n st0) as Hm0 by done. clearbody st0.
  eapply wpf_mono; [exact (full_create n _ _ (λ i, Inode (i_mode i) (i_fop i) (i_op i) (i_ino i) counter (i_nlink i) (i_size i)) root "counter" st0 Hm0)|].
  intros d1 st1 [_ Hm1]. rewrite wpf_bind. unfold wpf at 1, atomic_set, modify. rewrite wpf_bind.
  set (st2 := set_counters _ st1). assert (has_memory (S n) st2) as Hm2 by done. clearbody st2.
  eapply wpf_mono; [exact (full_create (S n) _ _ (λ i, Inode (i_mode i) (i_fop i) simple_dir_inode_operations (i_ino i) (i_private i) (i_nlink i) (i_size i)) root "subdir" st2 Hm2)|].
  intros d2 st3 [Hd2 Hm3]. rewrite truthy_nz, wpf_bind by done.
  eapply wpf_mono; [exact (full_create (S (S n)) _ _ (λ i, Inode (i_mode i) (i_fop i) (i_op i) (i_ino i) subcounter (i_nlink i) (i_size i)) d2 "subcounter" st3 Hm3)|].
  intros d3 st4 [_ Hm4]. by rewrite wpf_ret.
Qed.

(** The part of the mount from the new root inode to its dentry. *)
Lemma full_root {B} n a m (k : Z → KM B) Q st : a ≠ 0 → has_memory n st → is_Some (inodes (kern st) !! a) →
  (∀ root st', root ≠ 0 → has_memory (S n) st' → wpf True (k root) Q st') →
  wpf True (inode_init_owner a m;;
    update_inode a (λ i, Inode (i_mode i) (i_fop i) simple_dir_inode_operations (i_ino i) (i_private i) (i_nlink i) (i_size i));;
    set_nlink a 2;; root ← call (d_make_root a); k root) Q st.
Proof.
  intros Ha [Hk Hn] [i Hi] HQ. rewrite wpf_bind. unfold wpf at 1, inode_init_owner, on_inode. rewrite Hi.
  destruct (kinit_owner_law a m _ _ Hi) as [Hi1 Hd1].
  assert (has_memory n (set_kern (kinit_owner a m (kern st)) st)) as Hm1.
  { split; [apply (willing_init_owner P HP); [done|by eexists]|cbn; by rewrite Hd1]. }
  rewrite wpf_bind. eapply wpf_mono; [by apply full_update|]. intros _ st2 (Hm2 & Hi2 & _).
  rewrite wpf_bind. unfold wpf at 1, set_nlink, on_inode.
  assert (is_Some (inodes (kern st2) !! a)) as [i2 Ha2] by (rewrite Hi2, lookup_insert_eq; by eexists). rewrite Ha2.
  destruct Hm2 as [Hk2 Hn2]. destruct (kset_nlink_law a 2 _ _ Ha2) as [Hi3 Hd3]. set (k3 := kset_nlink a 2 (kern st2)) in *.
  assert (P k3) as Hk3 by (apply (willing_set_nlink P HP); [done|by eexists]).
  assert (is_Some (inodes k3 !! a)) as Ha3 by (rewrite Hi3, lookup_insert_eq; by eexists).
  rewrite wpf_bind. unfold wpf at 1, call. cbn [kern set_kern]. destruct (d_make_root a k3) as [root k4] eqn:Hroot.
  pose proof (willing_make_root P HP a _ Hk3 Ha3) as [Hr Hk4]. rewrite Hroot in Hr, Hk4. cbn in Hr, Hk4.
  apply HQ; [done|]. split; [done|]. cbn.
  destruct (d_make_root_law _ _ _ _ Ha Ha3 Hroot) as [[? _]|(_ & Hfree & _ & ->)]; [done|].
  rewrite map_size_insert_None by done. rewrite Hd3. by rewrite Hn2.
Qed.

Lemma wpf_update_sb {B} f (k : KM B) Q st :
  (∀ st', kern st' = kern st → wpf True k Q st') → wpf True (update_sb f;; k) Q st.
Proof. intros HQ. rewrite wpf_bind. by apply HQ. Qed.

Lemma wpf_update_sbi {B} a f (k : KM B) Q st :
  (∀ st', kern st' = kern st → wpf True k Q st') → wpf True (update_sbi a f;; k) Q st.
Proof. intros HQ. rewrite wpf_bind. unfold wpf at 1, update_sbi. destruct (sbis st !! a); [by apply HQ|done]. Qed.

Lemma full_fill_super n words random st :
  has_memory n st → kzalloc (sbis st) ≠ None → Forall well_formed words →
  wpf True (jifs_fill_super words random) (λ r st', r = 0 ∧ has_memory (4 + n) st') st.
Proof.
  intros Hm Hz Hw. unfold jifs_fill_super. rewrite wpf_bind. unfold wpf at 1, alloc_sbi.
  destruct (kzalloc (sbis st)) as [sbi|] eqn:Hsbi; [|done]. destruct (kzalloc_fresh _ _ Hsbi) as [Hne _].
  rewrite truthy_nz by done. apply wpf_update_sb. intros st1 Hk1. rewrite wpf_bind.
  unfold wpf at 1. destruct (options_spec words 0x1ED st1) as [[_ ->]|[Hn _]]; [|done].
  apply wpf_update_sbi. intros st2 Hk2. rewrite truthy_0.
  apply wpf_update_sbi. intros st3 Hk3. apply wpf_update_sbi. intros st4 Hk4. apply wpf_update_sb. intros st5 Hk5.
  assert (has_memory n st5) as Hm5 by (unfold has_memory; rewrite Hk5, Hk4, Hk3, Hk2; cbn; by rewrite Hk1).
  rewrite wpf_bind. eapply wpf_mono; [by apply full_make_inode|]. intros a st6 (Ha & Hm6 & Hs & _).
  rewrite truthy_nz by done. eapply full_root; [done..|]. intros root st7 Hroot Hm7.
  apply wpf_update_sb. intros st8 Hk8. rewrite truthy_nz, wpf_bind by done.
  eapply wpf_mono; [apply (full_create_files (S n)); unfold has_memory; by rewrite Hk8|].
  intros [] st9 Hm9. rewrite wpf_ret. split; [reflexivity|exact Hm9].
Qed.

Lemma grows_size k l k' : grows k l k' → size k'.2 = (length l + size k.2)%nat.
Proof.
  revert k. induction l as [|e l IH]; intros k; cbn [grows]; [by intros ->|].
  intros [(_ & Hd & _) Hg]. rewrite (IH _ Hg). unfold add_entry. cbn. rewrite map_size_insert_None by done. lia.
Qed.

(** The root with its two files and its directory. *)
Definition whole_tree st st' : Prop :=
  ∃ root a ino l, grows (fs st) ((root, Dentry "/" root a, root_inode S_IFDIR ino) :: l) (fs st') ∧
    files root jifs_file_ops l ∧ length l = 3%nat.

Lemma mount_full words random st r st' :
  P (kern st) → kzalloc (sbis st) ≠ None → Forall well_formed words →
  jifs_fill_super words random st = Ok (r, st') → r = 0 ∧ (mounted words random st st' → whole_tree st st').
Proof.
  intros Hk Hz Hw Hrun. pose proof (full_fill_super (size (dentries (kern st))) words random st) as Hf.
  unfold wpf in Hf. rewrite Hrun in Hf. destruct Hf as [-> [_ Hn]]; [done..|]. split; [done|].
  intros (_ & sbi & root & a & ino & l & _ & _ & _ & _ & _ & _ & Hg & Hl). exists root, a, ino, l.
  split; [done|]. split; [done|]. pose proof (grows_size _ _ _ Hg) as Hs. unfold fs in Hs. cbn [snd length] in Hs.
  rewrite Hn in Hs. injection Hs as Hs. exact (proj1 (Nat.add_cancel_r _ 3 (size (dentries (kern st)))) (eq_sym Hs)).
Qed.
End full.
