(* ===== verification/FsModule.v ===== *)
(** * The file systems: modules, mounting through the VFS, releasing inodes

    JIFS/super.c from line 415 and the end of JIFS/lwnfs/lwnfs.c: the code that
    the kernel calls when the modules come and go, when a file system is
    mounted, when an inode is released and when a file handle is resolved. *)
From S2P Require Import FsDefs FsOps FsMount Prelude.

(** What the code uses of the kernel: the names of the registered file systems,
    and the caches of objects.  An object is freed into the cache it came
    from, or there is no telling what happens; NULL is no cache. *)
Class Modules (K : Type) := {
  fs_types : K → gset string;
  caches : K → gmap Z (gset Z);
  register_filesystem : string → K → Z * K;
  unregister_filesystem : string → K → Z * K;
  kmem_cache_create : string → K → Z * K;
  kmem_cache_destroy : Z → K → K;
  kmem_cache_free : Z → Z → K → option K;
  register_law n k e k' : register_filesystem n k = (e, k') →
    caches k' = caches k ∧
    (e = 0 ∧ n ∉ fs_types k ∧ fs_types k' = {[n]} ∪ fs_types k ∨ e < 0 ∧ fs_types k' = fs_types k);
  unregister_law n k e k' : unregister_filesystem n k = (e, k') →
    caches k' = caches k ∧
    (e = 0 ∧ n ∈ fs_types k ∧ fs_types k' = fs_types k ∖ {[n]} ∨ e < 0 ∧ n ∉ fs_types k ∧ fs_types k' = fs_types k);
  cache_create_law n k c k' : kmem_cache_create n k = (c, k') →
    fs_types k' = fs_types k ∧
    (c = 0 ∧ caches k' = caches k ∨ c ≠ 0 ∧ caches k !! c = None ∧ caches k' = <[c := ∅]> (caches k));
  cache_destroy_law c k :
    fs_types (kmem_cache_destroy c k) = fs_types k ∧
    caches (kmem_cache_destroy c k) = if decide (c = 0) then caches k else delete c (caches k);
  cache_free_law c o k : kmem_cache_free c o k =
    match caches k !! c with
    | Some s => if decide (o ∈ s) then kmem_cache_free c o k else None
    | None => None
    end;
  cache_null k : caches k !! 0 = None
}.

Section modules.
Context {K : Type} `{!Modules K}.

(** The kernel, [jifs_inode_cachep], and the inodes waiting for a grace period. *)
Record mstate := MState { mkern : K; jifs_inode_cachep : Z; rcu_pending : list Z }.

Definition mcall {A} (f : K → A * K) : M mstate A := λ st,
  let '(x, k) := f (mkern st) in Ok (x, MState k (jifs_inode_cachep st) (rcu_pending st)).

(** ** Releasing inodes *)

(** The inode is the first member of the structure it is taken to be in. *)
Definition JIFS_I (inode : Z) : Z := inode.

Definition jifs_i_callback (inode : Z) : M mstate () := λ st,
  match kmem_cache_free (jifs_inode_cachep st) (JIFS_I inode) (mkern st) with
  | Some k => Ok ((), MState k (jifs_inode_cachep st) (rcu_pending st))
  | None => Fault
  end.

Definition jifs_destroy_inode (inode : Z) : M mstate () :=
  modify (λ st, MState (mkern st) (jifs_inode_cachep st) (rcu_pending st ++ [inode])).

(** The callbacks that are waiting run. *)
Fixpoint run_callbacks (l : list Z) : M mstate () :=
  match l with [] => mret () | inode :: l => jifs_i_callback inode;; run_callbacks l end.

Definition rcu_barrier : M mstate () :=
  l ← gets rcu_pending;
  modify (λ st, MState (mkern st) (jifs_inode_cachep st) []);;
  run_callbacks l.

(** ** The inode cache *)

Definition init_inodecache : M mstate Z :=
  c ← mcall (kmem_cache_create "jifs_inode_cache");
  modify (λ st, MState (mkern st) c (rcu_pending st));;
  if c =? 0 then mret (- ENOMEM) else mret 0.

Definition destroy_inodecache : M mstate () :=
  rcu_barrier;;
  modify (λ st, MState (kmem_cache_destroy (jifs_inode_cachep st) (mkern st)) (jifs_inode_cachep st) (rcu_pending st)).

(** ** Loading and unloading; the calls of [init_inodecache] and, on the way
    out, of [destroy_inodecache] are under [#if 0]. *)

Definition init_jifs : M mstate Z :=
  err ← mcall (register_filesystem "jifs");
  if truthy err then destroy_inodecache;; mret err else mret 0.

Definition exit_jifs : M mstate () :=
  ret ← mcall (unregister_filesystem "jifs");
  mret ().

Definition lfs_init : M mstate Z := mcall (register_filesystem "lwnfs").

Definition lfs_exit : M mstate () := _ ← mcall (unregister_filesystem "lwnfs"); mret ().

(** ** The life of the module *)

(** The module comes and goes, the VFS releases inodes, a grace period ends. *)
Inductive mstep : mstate → mstate → Prop :=
| step_load st e st' : init_jifs st = Ok (e, st') → mstep st st'
| step_unload st st' : exit_jifs st = Ok ((), st') → mstep st st'
| step_destroy st inode st' : jifs_destroy_inode inode st = Ok ((), st') → mstep st st'
| step_barrier st st' : rcu_barrier st = Ok ((), st') → mstep st st'.

(** No callback ever succeeds without a cache. *)
Lemma callback_faults inode st : jifs_inode_cachep st = 0 → jifs_i_callback inode st = Fault.
Proof.
  intros Hc. unfold jifs_i_callback. by rewrite Hc, cache_free_law, cache_null.
Qed.

Lemma barrier_faults st : jifs_inode_cachep st = 0 → rcu_pending st ≠ [] → rcu_barrier st = Fault.
Proof.
  intros Hc Hp. unfold rcu_barrier, mbind, M_bind, gets, modify. destruct (rcu_pending st) as [|inode l]; [done|].
  cbn [run_callbacks]. unfold mbind, M_bind. by rewrite callback_faults.
Qed.

Lemma barrier_idle st : rcu_pending st = [] → rcu_barrier st = Ok ((), st).
Proof. destruct st as [k c l]. cbn. intros ->. done. Qed.

(** Nothing gives the module a cache. *)
Lemma step_cachep st st' : mstep st st' → jifs_inode_cachep st = 0 → jifs_inode_cachep st' = 0.
Proof.
  intros Hs Hc.
  assert (∀ st1 u st2, rcu_barrier st1 = Ok (u, st2) → jifs_inode_cachep st1 = 0 → jifs_inode_cachep st2 = 0) as Hbar.
  { intros st1 u st2 Hb Hc1. destruct (decide (rcu_pending st1 = [])) as [Hp|Hp].
    - rewrite barrier_idle in Hb by done. by injection Hb as _ <-.
    - by rewrite barrier_faults in Hb. }
  destruct Hs as [st e st' Hi|st st' Hi|st inode st' Hi|st st' Hi].
  - unfold init_jifs, destroy_inodecache, mcall, modify, mbind, M_bind, mret, M_ret in Hi.
    destruct (register_filesystem "jifs" (mkern st)) as [err k]. destruct (truthy err); [|by injection Hi as _ <-].
    destruct (rcu_barrier _) as [[u st2]| |] eqn:Hb; [|done..]. injection Hi as _ <-. cbn. by eapply Hbar.
  - unfold exit_jifs, mcall, mbind, M_bind, mret, M_ret in Hi.
    destruct (unregister_filesystem "jifs" (mkern st)) as [err k]. by injection Hi as <-.
  - by injection Hi as <-.
  - by eapply Hbar.
Qed.

Lemma reach_cachep st st' : rtc mstep st st' → jifs_inode_cachep st = 0 → jifs_inode_cachep st' = 0.
Proof. induction 1; eauto using step_cachep. Qed.

(** Loading registers the name, or fails and leaves everything; unloading takes
    the name out again. *)
Lemma init_jifs_spec k :
  ∃ e k', init_jifs (MState k 0 []) = Ok (e, MState k' 0 []) ∧ caches k' = caches k ∧
    (e = 0 ∧ "jifs" ∉ fs_types k ∧ fs_types k' = {["jifs"]} ∪ fs_types k ∨ e < 0 ∧ fs_types k' = fs_types k).
Proof.
  unfold init_jifs, mcall, mbind, M_bind. cbn [mkern].
  destruct (register_filesystem "jifs" k) as [err k1] eqn:Hr. destruct (register_law _ _ _ _ Hr) as [Hc Hcase].
  case_truthy err Herr.
  - destruct Hcase as [[? _]|[? Ht]]; [done|]. unfold destroy_inodecache, mbind, M_bind. rewrite barrier_idle by done.
    cbn. exists err, (kmem_cache_destroy 0 k1). destruct (cache_destroy_law 0 k1) as [-> ->].
    split; [done|]. rewrite decide_True by done. split; [done|]. by right.
  - subst err. exists 0, k1. split; [done|]. split; [done|]. destruct Hcase as [(_ & ? & ?)|[? _]]; [by left|lia].
Qed.

Lemma exit_jifs_spec k l :
  ∃ k', exit_jifs (MState k 0 l) = Ok ((), MState k' 0 l) ∧ caches k' = caches k ∧
    fs_types k' = fs_types k ∖ {["jifs"]}.
Proof.
  unfold exit_jifs, mcall, mbind, M_bind. cbn [mkern].
  destruct (unregister_filesystem "jifs" k) as [err k1] eqn:Hr. exists k1. split; [done|].
  destruct (unregister_law _ _ _ _ Hr) as [-> [(_ & _ & ->)|(_ & Hn & ->)]]; [done|]. split; [done|set_solver].
Qed.

Lemma lfs_module_spec k c l :
  ∃ e k', lfs_init (MState k c l) = Ok (e, MState k' c l) ∧
    (e = 0 → ∃ k2, lfs_exit (MState k' c l) = Ok ((), MState k2 c l) ∧ fs_types k2 = fs_types k ∧ caches k2 = caches k).
Proof.
  unfold lfs_init, lfs_exit, mcall, mbind, M_bind. cbn [mkern].
  destruct (register_filesystem "lwnfs" k) as [e k'] eqn:Hr. exists e, k'. split; [done|]. intros ->. cbn.
  destruct (register_law _ _ _ _ Hr) as [Hc [(_ & Hn & Ht)|[? _]]]; [|lia].
  destruct (unregister_filesystem "lwnfs" k') as [e2 k2] eqn:Hu. exists k2. split; [done|].
  destruct (unregister_law _ _ _ _ Hu) as [-> [(_ & _ & ->)|(_ & Hn2 & _)]]; [rewrite Ht; split; [set_solver|done]|set_solver].
Qed.

(** The cache that is not made: making and destroying it would leave none. *)
Lemma inodecache_spec k c :
  ∃ e k' c', init_inodecache (MState k c []) = Ok (e, MState k' c' []) ∧
    (e = - ENOMEM ∧ c' = 0 ∧ caches k' = caches k ∨
     e = 0 ∧ c' ≠ 0 ∧ ∃ k2, destroy_inodecache (MState k' c' []) = Ok ((), MState k2 c' []) ∧ caches k2 = caches k).
Proof.
  unfold init_inodecache, mcall, modify, mbind, M_bind. cbn [mkern].
  destruct (kmem_cache_create "jifs_inode_cache" k) as [c' k'] eqn:Hc.
  destruct (cache_create_law _ _ _ _ Hc) as [_ [[-> Hk]|(Hne & Hfree & Hk)]]; cbn.
  - exists (- ENOMEM), k', 0. split; [done|]. by left.
  - rewrite (proj2 (Z.eqb_neq c' 0)) by done. exists 0, k', c'. split; [done|]. right. split; [done|]. split; [done|].
    unfold destroy_inodecache, mbind, M_bind. rewrite barrier_idle by done. cbn. eexists. split; [done|].
    cbn. destruct (cache_destroy_law c' k') as [_ ->]. rewrite decide_False, Hk by done. by rewrite delete_insert_id.
Qed.
End modules.
Arguments mstate K : clear implicits.

(** ** Mounting through the VFS *)

(** The superblock the VFS makes: all zero but for its block size. *)
Definition fresh_super (bsize bits : Z) : super_block := Super 0 0 0 0 bsize bits 0 false.

(** [mount_bdev] and [mount_nodev] make a superblock and have it filled.  When
    that fails they give it up and return the error; the file system's
    [put_super] is called if the superblock had a root.  Otherwise they return
    the root. *)
Class Mounter (K : Type) `{!Vfs K} := {
  new_super : kstate K → super_block;
  new_super_fresh st : s_root (new_super st) = 0;
  mount_with : M (kstate K) Z → M (kstate K) () → M (kstate K) Z;
  mount_ok fill put st st' :
    fill (set_sb (new_super st) st) = Ok (0, st') → mount_with fill put st = Ok (s_root (sb st'), st');
  mount_error fill put st e st' :
    fill (set_sb (new_super st) st) = Ok (e, st') → e ≠ 0 → s_root (sb st') = 0 →
    ∃ st1, mount_with fill put st = Ok (e, st1) ∧ sbis st1 = sbis st' ∧ dentries (kern st1) = dentries (kern st')
}.

Section mounting.
Context {K : Type} `{!Vfs K, !Parser, !Kzalloc, !Mounter K}.

Definition jifs_mount (words : list string) (random : Z) : M (kstate K) Z :=
  mount_with (jifs_fill_super words random) jifs_put_super.

(** lwnfs has no [put_super]. *)
Definition lfs_get_super : M (kstate K) Z := mount_with lfs_fill_super (mret ()).

Lemma jifs_mount_spec words random st :
  wp (jifs_mount words random) (λ r st',
    (r = s_root (sb st') ∧ r ≠ 0 ∧ mounted words random (set_sb (new_super st) st) st') ∨
    (r = - ENOMEM ∧ dentries (kern st') = dentries (kern st) ∧
     match kzalloc (sbis st) with None => sbis st' = sbis st | Some a => is_Some (sbis st' !! a) end)) st.
Proof.
  apply wp_returns. unfold jifs_mount. set (st0 := set_sb (new_super st) st).
  destruct (proj1 (wp_returns _ _ _) (jifs_fill_super_spec words random st0)) as (r & st1 & Hrun & [[-> Hm]|[-> Hn]]).
  - rewrite (mount_ok _ _ _ _ Hrun). eexists _, _. split; [done|]. left. split; [done|]. split; [|done].
    destruct Hm as (_ & sbi & root & a & ino & l & _ & Hroot & -> & _). done.
  - destruct Hn as ([_ Hd]%fs_inv & _ & Hroot & Hk).
    destruct (mount_error _ jifs_put_super _ _ _ Hrun) as (st2 & Hmt & Hs & Hd2); [done| |].
    { destruct Hroot as [?|Hr]; [done|]. rewrite Hr. apply new_super_fresh. }
    rewrite Hmt. eexists _, _. split; [done|]. right. split; [done|]. rewrite Hd2, Hs. split; [done|].
    change (sbis st0) with (sbis st) in Hk. destruct (kzalloc (sbis st)); [by destruct Hk|by rewrite Hk].
Qed.

(** Malformed options are an error, whatever memory there is. *)
Lemma jifs_mount_malformed words random st :
  ¬ Forall well_formed words →
  wp (jifs_mount words random) (λ r st', r = - ENOMEM ∧ dentries (kern st') = dentries (kern st) ∧
    ∀ a, kzalloc (sbis st) = Some a → sbis st !! a = None ∧ is_Some (sbis st' !! a)) st.
Proof.
  intros Hw. eapply wp_mono; [apply jifs_mount_spec|].
  intros r st' [(_ & _ & Hm & _)|(-> & Hd & Hk)]; [done|]. split; [done|]. split; [done|].
  intros a Ha. rewrite Ha in Hk. split; [by apply kzalloc_fresh in Ha as [_ ?]|done].
Qed.

(** lwnfs hands out a root, or faults. *)
Lemma lfs_get_super_spec st :
  inodes (kern st) !! 0 = None →
  (∃ st', lfs_fill_super (set_sb (new_super st) st) = Ok (0, st') ∧
     lfs_get_super st = Ok (s_root (sb st'), st') ∧ s_root (sb st') ≠ 0) ∨
  lfs_fill_super (set_sb (new_super st) st) = Fault.
Proof.
  intros Hz. pose proof (lfs_fill_super_spec (set_sb (new_super st) st) Hz) as Hs. unfold wpf in Hs.
  destruct (lfs_fill_super (set_sb (new_super st) st)) as [[r st']| |] eqn:Hrun; [left|by right|done].
  destruct Hs as [-> (root & a & ino & l & Hroot & Hsb & _)]. exists st'. split; [done|].
  unfold lfs_get_super. rewrite (mount_ok _ _ _ _ Hrun), Hsb. done.
Qed.
End mounting.

(** ** File handles *)

(** A handle's inode number and generation, and those of the parent: 32 bits each. *)
Record fid := Fid { i32_ino : Z; i32_gen : Z; i32_parent_ino : Z; i32_parent_gen : Z }.

Definition fid_ok (f : fid) : Prop := 0 ≤ i32_ino f < 2 ^ 32 ∧ 0 ≤ i32_parent_ino f < 2 ^ 32.

(** The kernel's helpers: NULL for a handle that is too short or of another
    type, and an error of [get_inode] is passed on. *)
Class Handles (K : Type) `{!Vfs K} := {
  generic_fh_to_dentry : fid → Z → Z → (Z → Z → M (kstate K) Z) → M (kstate K) Z;
  generic_fh_to_parent : fid → Z → Z → (Z → Z → M (kstate K) Z) → M (kstate K) Z;
  fh_to_dentry_law f len type get st :
    if (len <? 2) || negb ((type =? 1) || (type =? 2)) then generic_fh_to_dentry f len type get st = Ok (0, st)
    else ∀ e st', get (i32_ino f) (i32_gen f) st = Ok (e, st') → e < 0 → generic_fh_to_dentry f len type get st = Ok (e, st');
  fh_to_parent_law f len type get st :
    if (len <=? 2) || negb (type =? 2) then generic_fh_to_parent f len type get st = Ok (0, st)
    else ∀ e st', get (i32_parent_ino f) (if 3 <? len then i32_parent_gen f else 0) st = Ok (e, st') → e < 0 →
      generic_fh_to_parent f len type get st = Ok (e, st')
}.

Section handles.
Context {K : Type} `{!Vfs K, !Icache K, !Handles K}.

(** The generation is not looked at. *)
Definition jifs_fh_to_dentry (f : fid) (fh_len fh_type : Z) : M (kstate K) Z :=
  generic_fh_to_dentry f fh_len fh_type (λ ino generation, jifs_nfs_get_inode ino).

Definition jifs_fh_to_parent (f : fid) (fh_len fh_type : Z) : M (kstate K) Z :=
  generic_fh_to_parent f fh_len fh_type (λ ino generation, jifs_nfs_get_inode ino).

(** There are no directory entries to find: always NULL. *)
Definition jifs_find_dentry (pi inode : Z) (name : string) (name_len : Z) : Z := 0.

Lemma nfs_stale ino (st : kstate K) : ino < LONG_MAX → jifs_nfs_get_inode ino st = Ok (- ESTALE, st).
Proof.
  intros Hino. unfold jifs_nfs_get_inode. destruct (ino <? JIFS_ROOT_INO); [done|]. by rewrite (proj2 (Z.ltb_lt _ _) Hino).
Qed.

(** No handle leads to a dentry: a number of 32 bits is below [LONG_MAX]. *)
Lemma jifs_handles_stale f len type (st : kstate K) :
  fid_ok f →
  (∃ e, jifs_fh_to_dentry f len type st = Ok (e, st) ∧ (e = 0 ∨ e = - ESTALE)) ∧
  (∃ e, jifs_fh_to_parent f len type st = Ok (e, st) ∧ (e = 0 ∨ e = - ESTALE)).
Proof.
  intros [Hi Hp]. assert (2 ^ 32 < LONG_MAX) by (unfold LONG_MAX; lia). split.
  - pose proof (fh_to_dentry_law f len type (λ ino _, jifs_nfs_get_inode ino) st) as Hlaw. unfold jifs_fh_to_dentry.
    destruct (_ || _) in Hlaw; [exists 0; auto|]. exists (- ESTALE). split; [|by right].
    apply Hlaw; [apply nfs_stale; lia|unfold ESTALE; lia].
  - pose proof (fh_to_parent_law f len type (λ ino _, jifs_nfs_get_inode ino) st) as Hlaw. unfold jifs_fh_to_parent.
    destruct (_ || _) in Hlaw; [exists 0; auto|]. exists (- ESTALE). split; [|by right].
    apply Hlaw; [apply nfs_stale; lia|unfold ESTALE; lia].
Qed.
End handles.
