(* ===== verification/FsKernel.v ===== *)
(** * A concrete kernel under the file systems, to evaluate them on

    Objects at addresses handed out in turn; a script says which allocations
    fail, and all succeed when it has run out. *)
From Stdlib Require Import Ascii.
From S2P Require Import FsDefs FsFull FsModule Prelude.

Record toy := Toy { t_inodes : gmap Z inode; t_dentries : gmap Z dentry; t_next : Z; t_script : list bool }.

(** Whether the next allocation succeeds, and its address. *)
Definition toy_alloc {V} (m : gmap Z V) (k : toy) : option Z * toy :=
  let a := 16 * (Z.abs (t_next k) + 1) in
  let k' := Toy (t_inodes k) (t_dentries k) (Z.abs (t_next k) + 1) (tail (t_script k)) in
  match m !! a, t_script k with
  | None, false :: _ => (None, k')
  | None, _ => (Some a, k')
  | Some _, _ => (None, k')
  end.

Lemma toy_alloc_spec {V} (m : gmap Z V) k :
  t_inodes (toy_alloc m k).2 = t_inodes k ∧ t_dentries (toy_alloc m k).2 = t_dentries k ∧
  match (toy_alloc m k).1 with Some a => a ≠ 0 ∧ m !! a = None | None => True end.
Proof.
  unfold toy_alloc. set (a := 16 * (Z.abs (t_next k) + 1)). assert (a ≠ 0) by (subst a; lia).
  destruct (m !! a) eqn:Hm; [done|]. by destruct (t_script k) as [|[] ?].
Qed.

Definition toy_new_inode (k : toy) : Z * toy :=
  let '(o, k) := toy_alloc (t_inodes k) k in
  match o with
  | Some a => (a, Toy (<[a := Inode 0 no_fops no_iops 0 0 1 0]> (t_inodes k)) (t_dentries k) (t_next k) (t_script k))
  | None => (0, k)
  end.

Definition toy_d_alloc (n : string) (p : Z → Z) (i : Z) (k : toy) : option Z * toy :=
  let '(o, k) := toy_alloc (t_dentries k) k in
  match o with
  | Some d => (Some d, Toy (t_inodes k) (<[d := Dentry n (p d) i]> (t_dentries k)) (t_next k) (t_script k))
  | None => (None, k)
  end.

Definition toy_d_alloc_name (p : Z) (n : string) (k : toy) : Z * toy :=
  let '(o, k) := toy_d_alloc n (λ _, p) 0 k in (default 0 o, k).

Definition toy_set_inode (a : Z) (i : inode) (k : toy) : toy :=
  Toy (<[a := i]> (t_inodes k)) (t_dentries k) (t_next k) (t_script k).

Definition toy_iput (a : Z) (k : toy) : toy :=
  Toy (delete a (t_inodes k)) (t_dentries k) (t_next k) (t_script k).

Definition toy_d_make_root (i : Z) (k : toy) : Z * toy :=
  let '(o, k) := toy_d_alloc "/" id i k in
  match o with Some d => (d, k) | None => (0, toy_iput i k) end.

Definition toy_update (a : Z) (f : inode → inode) (k : toy) : toy :=
  Toy (alter f a (t_inodes k)) (t_dentries k) (t_next k) (t_script k).

Definition toy_d_add (d i : Z) (k : toy) : toy :=
  Toy (t_inodes k) (alter (λ e, Dentry (d_name e) (d_parent e) i) d (t_dentries k)) (t_next k) (t_script k).

Definition toy_dput (d : Z) (k : toy) : toy :=
  Toy (t_inodes k) (delete d (t_dentries k)) (t_next k) (t_script k).

Lemma alter_insert_id {V} (f : V → V) (m : gmap Z V) a x : m !! a = Some x → alter f a m = <[a := f x]> m.
Proof.
  intros Ha. apply map_eq. intros b. destruct (decide (a = b)) as [<-|].
  - by rewrite lookup_alter_eq, lookup_insert_eq, Ha.
  - by rewrite lookup_alter_ne, lookup_insert_ne.
Qed.

Lemma toy_d_alloc_spec n p i k :
  t_inodes (toy_d_alloc n p i k).2 = t_inodes k ∧
  match (toy_d_alloc n p i k).1 with
  | Some d => d ≠ 0 ∧ t_dentries k !! d = None ∧
      t_dentries (toy_d_alloc n p i k).2 = <[d := Dentry n (p d) i]> (t_dentries k)
  | None => t_dentries (toy_d_alloc n p i k).2 = t_dentries k
  end.
Proof.
  unfold toy_d_alloc. pose proof (toy_alloc_spec (t_dentries k) k) as (Hi & Hd & Ho).
  destruct (toy_alloc (t_dentries k) k) as [[d|] k']; cbn in *; [|done].
  split; [done|]. split; [apply Ho|]. split; [apply Ho|]. by rewrite Hd.
Qed.

#[export] Program Instance toy_vfs : Vfs toy := {|
  inodes := t_inodes;
  dentries := t_dentries;
  new_inode := toy_new_inode;
  get_next_ino k := (Z.abs (t_next k) + 1, Toy (t_inodes k) (t_dentries k) (Z.abs (t_next k) + 1) (t_script k));
  set_inode := toy_set_inode;
  d_alloc_name := toy_d_alloc_name;
  d_add := toy_d_add;
  dput := toy_dput;
  d_make_root := toy_d_make_root;
  iput := toy_iput;
  kinit_owner a m := toy_update a (λ i, Inode m (i_fop i) (i_op i) (i_ino i) (i_private i) (i_nlink i) (i_size i));
  kset_nlink a n := toy_update a (λ i, Inode (i_mode i) (i_fop i) (i_op i) (i_ino i) (i_private i) n (i_size i))
|}.
Next Obligation.
  intros k a k'. unfold toy_new_inode. pose proof (toy_alloc_spec (t_inodes k) k) as (Hi & Hd & Ho).
  destruct (toy_alloc (t_inodes k) k) as [[b|] k1]; cbn in *; intros [= <- <-]; cbn.
  - split; [done|]. right. split; [apply Ho|]. split; [apply Ho|]. by rewrite Hi.
  - split; [done|]. by left.
Qed.
Next Obligation. by intros k n k' [= <- <-]. Qed.
Next Obligation. done. Qed.
Next Obligation.
  intros p n k d k'. unfold toy_d_alloc_name. pose proof (toy_d_alloc_spec n (λ _, p) 0 k) as [Hi Ho].
  destruct (toy_d_alloc n (λ _, p) 0 k) as [[b|] k1]; cbn in *; intros [= <- <-]; split; try done; [by right|by left].
Qed.
Next Obligation. intros d i k e He. split; [done|]. cbn. by rewrite (alter_insert_id _ _ _ _ He). Qed.
Next Obligation. done. Qed.
Next Obligation.
  intros i k d k' _ _. unfold toy_d_make_root. pose proof (toy_d_alloc_spec "/" id i k) as [Hi Ho].
  destruct (toy_d_alloc "/" id i k) as [[b|] k1]; cbn in *; intros [= <- <-]; [right|left].
  - split; [apply Ho|]. split; [apply Ho|]. split; [done|]. apply Ho.
  - cbn. by rewrite Hi, Ho.
Qed.
Next Obligation. intros a m k i Hi. cbn. by rewrite (alter_insert_id _ _ _ _ Hi). Qed.
Next Obligation. intros a n k i Hi. cbn. by rewrite (alter_insert_id _ _ _ _ Hi). Qed.

(** Nothing is refused from here on: the script has run out, and the addresses to
    come are free. *)
Definition below (k : toy) (a : Z) : Prop := a ≤ 16 * Z.abs (t_next k).
Definition toy_plenty (k : toy) : Prop :=
  t_script k = [] ∧ map_Forall (λ a _, below k a) (t_inodes k) ∧ map_Forall (λ a _, below k a) (t_dentries k).

Lemma plenty_alloc {V} (m : gmap Z V) k :
  toy_plenty k → map_Forall (λ a _, below k a) m →
  toy_alloc m k = (Some (16 * (Z.abs (t_next k) + 1)), Toy (t_inodes k) (t_dentries k) (Z.abs (t_next k) + 1) []).
Proof.
  intros (Hs & _) Hm. unfold toy_alloc. rewrite Hs. destruct (m !! _) as [x|] eqn:Hx; [|done].
  specialize (Hm _ _ Hx). unfold below in Hm. cbn in Hm. lia.
Qed.

Lemma below_next k k' {V} (m : gmap Z V) :
  Z.abs (t_next k) ≤ Z.abs (t_next k') → map_Forall (λ a _, below k a) m → map_Forall (λ a _, below k' a) m.
Proof. intros Hk Hm a x Hx. specialize (Hm a x Hx). unfold below in *. lia. Qed.

Lemma below_insert k a {V} (x : V) (m : gmap Z V) :
  is_Some (m !! a) ∨ below k a → map_Forall (λ a _, below k a) m → map_Forall (λ a _, below k a) (<[a := x]> m).
Proof.
  intros Ha Hm b y Hb. destruct (decide (a = b)) as [->|Hne].
  - destruct Ha as [[z Hz]|?]; [exact (Hm b z Hz)|done].
  - rewrite lookup_insert_ne in Hb by done. exact (Hm b y Hb).
Qed.

Lemma below_alter k {V} (f : V → V) (a : Z) (m : gmap Z V) :
  map_Forall (λ a _, below k a) m → map_Forall (λ a _, below k a) (alter f a m).
Proof.
  intros Hm b y Hb. destruct (decide (a = b)) as [->|Hne].
  - rewrite lookup_alter_eq in Hb. destruct (m !! b) as [z|] eqn:Hz; [exact (Hm b z Hz)|done].
  - rewrite lookup_alter_ne in Hb by done. exact (Hm b y Hb).
Qed.

Lemma toy_willing : willing toy_plenty.
Proof.
  split.
  - intros k Hk. cbn. unfold toy_new_inode. rewrite (plenty_alloc _ k Hk) by apply Hk. cbn. destruct Hk as (_ & Hi & Hd).
    split; [lia|]. split; [done|]. split; [apply below_insert; [right; unfold below; cbn; lia|]|];
      (eapply below_next; [|eassumption]); cbn; lia.
  - intros k (Hs & Hi & Hd). split; [done|]. split; (eapply below_next; [|eassumption]); cbn; lia.
  - intros a i k (Hs & Hi & Hd) Ha. split; [done|]. split; [|done]. apply below_insert; [by left|done].
  - intros p n k Hk. cbn. unfold toy_d_alloc_name, toy_d_alloc. rewrite (plenty_alloc _ k Hk) by apply Hk. cbn.
    destruct Hk as (_ & Hi & Hd). split; [lia|]. split; [done|].
    split; [|apply below_insert; [right; unfold below; cbn; lia|]]; (eapply below_next; [|eassumption]); cbn; lia.
  - intros d i k (Hs & Hi & Hd) _. split; [done|]. split; [done|]. by apply below_alter.
  - intros i k Hk _. cbn. unfold toy_d_make_root, toy_d_alloc. rewrite (plenty_alloc _ k Hk) by apply Hk. cbn.
    destruct Hk as (_ & Hi & Hd). split; [lia|]. split; [done|].
    split; [|apply below_insert; [right; unfold below; cbn; lia|]]; (eapply below_next; [|eassumption]); cbn; lia.
  - intros a m k (Hs & Hi & Hd) _. split; [done|]. split; [|done]. by apply below_alter.
  - intros a n k (Hs & Hi & Hd) _. split; [done|]. split; [|done]. by apply below_alter.
Qed.

(** An inode cache with no memory of what it gave. *)
Definition toy_iget (n : Z) (k : toy) : Z * toy :=
  let '(a, k) := toy_new_inode k in
  if a =? 0 then (0, k) else (a, toy_set_inode a (Inode 0 no_fops no_iops n 0 1 0) k).

#[export] Program Instance toy_icache : Icache toy := {| iget_locked := toy_iget; unlock_new_inode _ k := k |}.
Next Obligation.
  intros n k a k'. unfold toy_iget. destruct (toy_new_inode k) as [b k1] eqn:Hn.
  destruct (@new_inode_law toy toy_vfs k b k1 Hn) as [Hd Hcase]. cbn in *. destruct (Z.eqb_spec b 0) as [->|Hb]; intros [= <- <-].
  - split; [done|]. left. destruct Hcase as [[_ ?]|[? _]]; done.
  - split; [done|]. right. split; [done|]. exists (Inode 0 no_fops no_iops n 0 1 0). split; [|done].
    destruct Hcase as [[? _]|(_ & _ & Hi)]; [done|]. cbn. by rewrite Hi, insert_insert_eq.
Qed.
Next Obligation. done. Qed.

(** Numbers in a base of at most ten. *)
Fixpoint number (base acc : Z) (s : string) : option Z :=
  match s with
  | EmptyString => Some acc
  | String c s =>
      let x := Z.of_nat (nat_of_ascii c) - 48 in
      if (0 <=? x) && (x <? base) then number base (acc * base + x) s else None
  end.

Definition toy_number (base : Z) (s : string) : option Z :=
  match s with EmptyString => None | _ => number base 0 s end.

(** The pattern is taken up to its percent sign. *)
Fixpoint strip (pattern s : string) : option string :=
  match pattern, s with
  | String "%" _, _ => Some s
  | String c pattern, String d s => if decide (c = d) then strip pattern s else None
  | _, _ => None
  end.

Fixpoint toy_match (p : string) (table : list (token * string)) : token * string :=
  match table with
  | [] => (Opt_err, p)
  | (t, pattern) :: table => match strip pattern p with Some arg => (t, arg) | None => toy_match p table end
  end.

#[export] Instance toy_parser : Parser := {|
  match_token := toy_match;
  match_octal := toy_number 8;
  match_int := toy_number 10
|}.

Definition toy_kzalloc (m : gmap Z jifs_sb_info) : option Z :=
  let a := 4096 * (Z.of_nat (size m) + 1) in if decide (m !! a = None) then Some a else None.

#[export] Program Instance toy_kz : Kzalloc := {| kzalloc := toy_kzalloc |}.
Next Obligation.
  intros m a. unfold toy_kzalloc. case_decide; [|done]. intros [= <-]. split; [lia|done].
Qed.

Definition toy0 (script : list bool) : kstate toy :=
  KState (Toy ∅ ∅ 0 script) (Super 0 0 0 0 512 9 0 false) ∅ ∅ 0.

Example toy_mount :
  match jifs_fill_super ["mode=1755"; ""; "bogus"; "dbgmask=7"] 42 (toy0 []) with
  | Ok (r, st) => r = 0 ∧ sbi_opt_mode <$> (sbis st !! 4096) = Some 0x3ED ∧ jifs_dbgmask st = 7 ∧ map (λ x, d_name x.2) (map_to_list (t_dentries (kern st))) ≡ₚ ["/"; "counter"; "subdir"; "subcounter"]
  | _ => False
  end.
Proof. vm_compute. repeat split; try reflexivity. solve_Permutation. Qed.

(** ** Mounting, handles and modules *)

Definition toy_mount_with (fill : M (kstate toy) Z) (put : M (kstate toy) ()) : M (kstate toy) Z := λ st,
  match fill (set_sb (fresh_super 512 9) st) with
  | Ok (e, st') =>
      if e =? 0 then Ok (s_root (sb st'), st')
      else if s_root (sb st') =? 0 then Ok (e, st')
      else match put st' with Ok (_, st1) => Ok (e, st1) | _ => Fault end
  | Fault => Fault
  | NoFuel => NoFuel
  end.

#[export] Program Instance toy_mounter : Mounter toy := {|
  new_super _ := fresh_super 512 9; mount_with := toy_mount_with
|}.
Next Obligation. done. Qed.
Next Obligation. intros fill put st st' Hf. unfold toy_mount_with. by rewrite Hf. Qed.
Next Obligation.
  intros fill put st e st' Hf He Hr. unfold toy_mount_with. rewrite Hf, (proj2 (Z.eqb_neq e 0)), Hr by done. by exists st'.
Qed.

(** No aliases: a handle of a found inode gives its address. *)
#[export] Program Instance toy_handles : Handles toy := {|
  generic_fh_to_dentry f len type get st :=
    if (len <? 2) || negb ((type =? 1) || (type =? 2)) then Ok (0, st) else get (i32_ino f) (i32_gen f) st;
  generic_fh_to_parent f len type get st :=
    if (len <=? 2) || negb (type =? 2) then Ok (0, st)
    else get (i32_parent_ino f) (if 3 <? len then i32_parent_gen f else 0) st
|}.
Next Obligation. intros f len type get st. cbn beta. case_match; [done|by intros]. Qed.
Next Obligation. intros f len type get st. cbn beta. case_match; [done|by intros]. Qed.

Record toy_mod := ToyMod { tm_types : gset string; tm_caches : gmap positive (gset Z) }.

(** The caches live at the positive addresses. *)
Definition toy_caches (k : toy_mod) : gmap Z (gset Z) := kmap Z.pos (tm_caches k).

Definition toy_register (n : string) (k : toy_mod) : Z * toy_mod :=
  if decide (n ∈ tm_types k) then (-16, k) else (0, ToyMod ({[n]} ∪ tm_types k) (tm_caches k)).
Definition toy_unregister (n : string) (k : toy_mod) : Z * toy_mod :=
  if decide (n ∈ tm_types k) then (0, ToyMod (tm_types k ∖ {[n]}) (tm_caches k)) else (-22, k).
Definition toy_cache_create (n : string) (k : toy_mod) : Z * toy_mod :=
  let c := fresh (dom (tm_caches k)) in (Z.pos c, ToyMod (tm_types k) (<[c := ∅]> (tm_caches k))).
Definition toy_cache_destroy (c : Z) (k : toy_mod) : toy_mod :=
  match c with Z.pos c => ToyMod (tm_types k) (delete c (tm_caches k)) | _ => k end.
Definition toy_cache_free (c o : Z) (k : toy_mod) : option toy_mod :=
  match c with
  | Z.pos c =>
      match tm_caches k !! c with
      | Some s => if decide (o ∈ s) then Some (ToyMod (tm_types k) (<[c := s ∖ {[o]}]> (tm_caches k))) else None
      | None => None
      end
  | _ => None
  end.

Lemma toy_caches_lookup k c : toy_caches k !! c = match c with Z.pos c => tm_caches k !! c | _ => None end.
Proof.
  unfold toy_caches. destruct c as [|c|c]; [|apply (lookup_kmap Z.pos)|];
    apply (lookup_kmap_None Z.pos); intros i; discriminate.
Qed.

#[export] Program Instance toy_modules : Modules toy_mod := {|
  fs_types := tm_types; caches := toy_caches; register_filesystem := toy_register;
  unregister_filesystem := toy_unregister; kmem_cache_create := toy_cache_create;
  kmem_cache_destroy := toy_cache_destroy; kmem_cache_free := toy_cache_free
|}.
Next Obligation. intros n k e k'. unfold toy_register. case_decide; intros [= <- <-]; (split; [done|]); [by right|by left]. Qed.
Next Obligation. intros n k e k'. unfold toy_unregister. case_decide; intros [= <- <-]; (split; [done|]); [by left|by right]. Qed.
Next Obligation.
  intros n k c k' [= <- <-]. split; [done|]. right. split; [done|]. split.
  - rewrite toy_caches_lookup. apply not_elem_of_dom, is_fresh.
  - unfold toy_caches. cbn. apply (kmap_insert Z.pos).
Qed.
Next Obligation.
  intros c k. destruct c as [|c|c]; cbn; [done|split; [done|apply (kmap_delete Z.pos)]|]. split; [done|].
  symmetry. apply delete_id. by rewrite toy_caches_lookup.
Qed.
Next Obligation.
  intros c o k. rewrite toy_caches_lookup. destruct c as [|c|c]; cbn; [done| |done].
  destruct (tm_caches k !! c) as [s|]; [|done]. by case_decide.
Qed.
Next Obligation. intros k. by rewrite toy_caches_lookup. Qed.

Example toy_mount_error :
  match jifs_mount ["mode=9"] 42 (toy0 []) with
  | Ok (r, st) => r = - ENOMEM ∧ size (sbis st) = 1%nat
  | _ => False
  end.
Proof. by vm_compute. Qed.
