(* ===== verification/FsProps.v ===== *)
(** * The file systems: the properties *)
From S2P Require Import FsDefs FsOps FsMount FsFull FsModule FsKernel Prelude.

(** ** Names and numbers *)

Section names.
Context {K : Type} `{!Vfs K, !Icache K}.
Implicit Types st : kstate K.

Definition hello_inode (i : inode) : inode :=
  Inode (S_IFREG + 0x1A4) jifs_file_ops (i_op i) (i_ino i) (i_private i) (i_nlink i) 0.

Lemma iget_locked_spec n st :
  wp (call (iget_locked n)) (λ a st1,
    rest st1 = rest st ∧ counters st1 = counters st ∧
    (a = 0 ∧ fs st1 = fs st ∨
     a ≠ 0 ∧ ∃ i, i_ino i = n ∧ fs st1 = (<[a := i]> (inodes (kern st)), dentries (kern st)))) st.
Proof.
  rewrite wp_call. destruct (iget_locked n (kern st)) as [a k] eqn:Hg. cbn [fst snd].
  split; [done|]. split; [done|]. destruct (iget_locked_law _ _ _ _ Hg) as [Hd [[-> Hi]|(Ha & i & Hi & Hn)]]; [left|right].
  - split; [done|]. unfold fs. cbn. by rewrite Hi, Hd.
  - split; [done|]. exists i. split; [done|]. unfold fs. cbn. by rewrite Hi, Hd.
Qed.

Lemma jifs_lookup_spec dir_ino d name e st :
  dentries (kern st) !! d = Some e →
  wp (jifs_lookup dir_ino d name) (λ r st',
    rest st' = rest st ∧ counters st' = counters st ∧
    (r = - ENOENT ∧ (dir_ino ≠ JIFS_ROOT_INO ∨ name ≠ "hello.txt") ∧ fs st' = fs st ∨
     r = - ENOMEM ∧ fs st' = fs st ∨
     r = 0 ∧ dir_ino = JIFS_ROOT_INO ∧ name = "hello.txt" ∧ ∃ a i, a ≠ 0 ∧ i_ino i = FILE_INO ∧
       fs st' = (<[a := hello_inode i]> (inodes (kern st)),
                 <[d := Dentry (d_name e) (d_parent e) a]> (dentries (kern st))))) st.
Proof.
  intros Hd. unfold jifs_lookup.
  destruct (Z.eqb_spec dir_ino JIFS_ROOT_INO) as [->|Hdir];
    [|cbn [negb orb]; rewrite wp_ret; split; [done|]; split; [done|]; left; split; [done|]; split; [by left|done]].
  destruct (bool_decide_reflect (name = "hello.txt")) as [->|Hname]; cbn [negb orb];
    [|rewrite wp_ret; split; [done|]; split; [done|]; left; split; [done|]; split; [by right|done]].
  rewrite wp_bind. eapply wp_mono; [apply iget_locked_spec|].
  intros a st1 (Hr1 & Hc1 & [[-> Hf]|(Ha & i & Hino & [Hi1 Hd1]%fs_inv)]).
  { rewrite truthy_0, wp_ret. split; [done|]. split; [done|]. right. by left. }
  rewrite truthy_nz, wp_bind by done.
  eapply wp_update_inode; [by rewrite Hi1, lookup_insert_eq|]. intros st2 [Hi2 Hd2]%fs_inv Hr2 Hc2. rewrite wp_bind.
  eapply wp_update_inode; [by rewrite Hi2, lookup_insert_eq|]. intros st3 [Hi3 Hd3]%fs_inv Hr3 Hc3. rewrite wp_bind.
  eapply wp_update_inode; [by rewrite Hi3, lookup_insert_eq|]. intros st4 [Hi4 Hd4]%fs_inv Hr4 Hc4. rewrite wp_bind, wp_call_, wp_ret.
  assert (dentries (kern st4) = dentries (kern st)) as Hd0 by congruence.
  destruct (d_add_law d a (kern st4) e) as [Hi5 Hd5]; [by rewrite Hd0|].
  split; [by rewrite rest_set_kern, Hr4, Hr3, Hr2|]. split; [cbn; congruence|]. right. right.
  split; [done|]. split; [done|]. split; [done|]. exists a, i. split; [done|]. split; [done|].
  unfold fs. cbn. rewrite Hi5, Hd5, Hd0, Hi4, Hi3, Hi2, Hi1. by rewrite !insert_insert_eq.
Qed.
End names.

(** ** Properties *)

(** Mount options are read from the left: empty and unknown words are passed
    over, the last mode and the last mask are the ones kept, the mode cut to
    its twelve bits; at the first option whose number cannot be read the
    parser stops with -EINVAL, and the words before it have had their effect. *)
Theorem jifs_options {K : Type} `{!Vfs K, !Parser} (pre post : list string) (p : string) (mode : Z) (st : kstate K) :
  Forall well_formed pre →
  jifs_parse_options pre mode st =
    Ok ((0, final opt_mode pre mode), set_dbgmask (final opt_mask pre (jifs_dbgmask st)) st) ∧
  (malformed p →
   jifs_parse_options (pre ++ p :: post) mode st =
     Ok ((- EINVAL, final opt_mode pre mode), set_dbgmask (final opt_mask pre (jifs_dbgmask st)) st)).
Proof.
  intros Hpre. split.
  - pose proof (parse_well_formed pre [] mode st Hpre) as Hpar. rewrite app_nil_r in Hpar. by rewrite Hpar.
  - intros Hp. rewrite parse_well_formed by done. exact (proj2 (parse_word p post _ _) Hp).
Qed.

Lemma jifs_options_witness :
  jifs_parse_options (["mode=17755"; ""; "bogus"; "dbgmask=7"; "mode=700"] ++ "mode=8" :: ["mode=1"]) 0x1ED (toy0 []) =
    Ok ((- EINVAL, 0x1C0), set_dbgmask 7 (toy0 [])).
Proof.
  assert (Forall well_formed ["mode=17755"; ""; "bogus"; "dbgmask=7"; "mode=700"]) as Hw.
  { repeat constructor; intros [Hne Hm]; vm_compute in Hne, Hm; first [done|by apply Hne]. }
  assert (malformed "mode=8") as Hp by (split; [done|vm_compute; reflexivity]).
  exact (proj2 (jifs_options _ ["mode=1"] "mode=8" 0x1ED (toy0 []) Hw) Hp).
Defined.

(** C21: creating a file or a directory, in either file system, adds exactly one
    dentry, with the name and the directory asked for, and one inode, with the
    right mode and operations; or it returns NULL, and then what it had
    allocated has been given back and nothing has changed. *)
Theorem create_all_or_nothing {K : Type} `{!Vfs K} (dir : Z) (name : string) (c : Z) (st : kstate K) :
  (∃ d st', jifs_create_file dir name c st = Ok (d, st') ∧ created st dir name (file_inode jifs_file_ops c) d st') ∧
  (∃ d st', jifs_create_dir dir name st = Ok (d, st') ∧ created st dir name dir_inode d st') ∧
  (∃ d st', lfs_create_file dir name c st = Ok (d, st') ∧ created st dir name (file_inode lfs_file_ops c) d st') ∧
  (∃ d st', lfs_create_dir dir name st = Ok (d, st') ∧ created st dir name dir_inode d st').
Proof.
  split; [|split; [|split]]; apply wp_returns.
  - apply jifs_create_file_spec.
  - apply jifs_create_dir_spec.
  - apply lfs_create_file_spec.
  - apply lfs_create_dir_spec.
Qed.

(** C20: mounting JIFS always returns.  It returns 0 only with well-formed options,
    and then the superblock is filled in, the root has mode [S_IFDIR] and no
    permissions, whatever the mode option was, and holds the files that could
    be made, with their counters at zero; unmounting gives the memory back.
    Otherwise it returns -ENOMEM, for malformed options too; there are no new
    files, and the memory of the superblock is still allocated.  With
    well-formed options and a kernel that refuses no memory it does return 0,
    and nothing is missing: the root, counter, subdir and subdir/subcounter. *)
Theorem jifs_mounts {K : Type} `{!Vfs K, !Parser, !Kzalloc} (words : list string) (random : Z) (st : kstate K) :
  ∃ r st', jifs_fill_super words random st = Ok (r, st') ∧
    ((r = 0 ∧ mounted words random st st' ∧
      ∃ st2, jifs_put_super st' = Ok ((), st2) ∧ sbis st2 = sbis st ∧ s_fs_info (sb st2) = 0 ∧ jifs_dbgmask st2 = 0) ∨
     (r = - ENOMEM ∧ not_mounted st st')) ∧
    (∀ P, willing P → P (kern st) → kzalloc (sbis st) ≠ None → Forall well_formed words →
     r = 0 ∧ whole_tree st st').
Proof.
  destruct (proj1 (wp_returns _ _ _) (jifs_fill_super_spec words random st)) as (r & st' & Hrun & Hcase).
  exists r, st'. split; [done|]. split.
  - destruct Hcase as [[-> Hm]|?]; [left|by right]. split; [done|]. split; [done|].
    destruct Hm as (_ & sbi & root & a & ino & l & Hz & _ & Hsb & Hs & _).
    destruct (kzalloc_fresh _ _ Hz) as [_ Hfree].
    eexists. split; [done|]. cbn. rewrite Hsb, Hs. cbn. split; [by rewrite delete_insert_id|done].
  - intros P HP Hk Hz Hw. destruct (mount_full P HP words random st r st' Hk Hz Hw Hrun) as [-> Hfull].
    split; [done|]. destruct Hcase as [[_ ?]|[? _]]; [by apply Hfull|done].
Qed.

Lemma jifs_mounts_witness :
  ∃ st', jifs_fill_super ["mode=700"] 42 (toy0 []) = Ok (0, st') ∧ whole_tree (toy0 []) st'.
Proof.
  destruct (jifs_mounts ["mode=700"] 42 (toy0 [])) as (r & st' & Hrun & _ & Hfull).
  destruct (Hfull toy_plenty toy_willing) as [-> Hw].
  - split; [reflexivity|]. split; apply map_Forall_empty.
  - vm_compute. discriminate.
  - repeat constructor. intros [Hne Hm]. vm_compute in Hm. discriminate.
  - exists st'. split; [exact Hrun|exact Hw].
Defined.

(** Mounting lwnfs makes the root and the files that could be made and returns
    0; it never returns -ENOMEM.  Where the root's inode cannot be had it
    writes through NULL, and where the root's dentry cannot be had it releases
    an inode that is already gone. *)
Theorem lfs_mounts_or_faults {K : Type} `{!Vfs K} (st : kstate K) :
  inodes (kern st) !! 0 = None →
  (fst (new_inode (kern st)) = 0 → lfs_fill_super st = Fault) ∧
  (lfs_fill_super st = Fault ∨ ∃ st', lfs_fill_super st = Ok (0, st') ∧ lfs_mounted st st').
Proof.
  intros Hz. split; [by apply lfs_fill_super_null|].
  pose proof (lfs_fill_super_spec st Hz) as Hs. unfold wpf in Hs.
  destruct (lfs_fill_super st) as [[r st']| |]; [|by left|done]. right.
  destruct Hs as [-> ?]. by exists st'.
Qed.

(** Without memory for the inode, and then without memory for the dentry. *)
Lemma lfs_mounts_or_faults_witness :
  lfs_fill_super (toy0 [false]) = Fault ∧ lfs_fill_super (toy0 [true; false]) = Fault ∧
  ∃ st', lfs_fill_super (toy0 []) = Ok (0, st') ∧ lfs_mounted (toy0 []) st'.
Proof.
  split; [exact (proj1 (lfs_mounts_or_faults (toy0 [false]) eq_refl) eq_refl)|]. split; [by vm_compute|].
  assert (inodes (kern (toy0 [])) !! 0 = None) as Hnull by (vm_compute; reflexivity).
  destruct (proj2 (lfs_mounts_or_faults (toy0 []) Hnull)) as [Hf|Hok]; [|exact Hok].
  exfalso. revert Hf. vm_compute. discriminate.
Defined.

(** The only name that can be looked up is the one that is listed, hello.txt in
    the root directory, with the number it is listed with; but no inode number
    below [LONG_MAX], that one included, can be turned back into an inode
    through a file handle. *)
Theorem jifs_names {K : Type} `{!Vfs K, !Icache K} (dir_ino d : Z) (name : string) (e : dentry) (st : kstate K) :
  dentries (kern st) !! d = Some e →
  (∃ r st', jifs_lookup dir_ino d name st = Ok (r, st') ∧
    (r = 0 → ∃ a i, a ≠ 0 ∧
      (name, i_ino i) ∈ fst (jifs_readdir dir_ino (i_ino i) 0) ∧ dir_ino = JIFS_ROOT_INO ∧
      fs st' = (<[a := hello_inode i]> (inodes (kern st)),
                <[d := Dentry (d_name e) (d_parent e) a]> (dentries (kern st))) ∧
      jifs_nfs_get_inode (i_ino i) st = Ok (- ESTALE, st)) ∧
    (r ≠ 0 → fs st' = fs st ∧ (r = - ENOENT ∨ r = - ENOMEM))) ∧
  (∀ ino, ino < LONG_MAX → jifs_nfs_get_inode ino st = Ok (- ESTALE, st)).
Proof.
  intros Hd. assert (∀ ino, ino < LONG_MAX → jifs_nfs_get_inode ino st = Ok (- ESTALE, st)) as Hstale.
  { intros ino Hino. unfold jifs_nfs_get_inode. destruct (ino <? JIFS_ROOT_INO); [done|].
    by rewrite (proj2 (Z.ltb_lt _ _) Hino). }
  split; [|exact Hstale].
  destruct (proj1 (wp_returns _ _ _) (jifs_lookup_spec dir_ino d name e st Hd)) as (r & st' & Hrun & _ & _ & Hcase).
  exists r, st'. split; [done|]. destruct Hcase as [(-> & _ & ?)|[[-> ?]|(-> & -> & -> & a & i & Ha & Hi & Hf)]].
  - split; [done|]. intros _. split; [done|by left].
  - split; [done|]. intros _. split; [done|by right].
  - split; [|done]. intros _. exists a, i. rewrite Hi. split; [done|].
    split; [cbn; set_solver|]. split; [done|]. split; [done|]. by apply Hstale.
Qed.

Definition toy_dir : kstate toy :=
  set_kern (Toy ∅ {[ 8 := Dentry "hello.txt" 0 0 ]} 0 []) (toy0 []).

Lemma jifs_names_witness :
  (∃ st', jifs_lookup 0 8 "hello.txt" toy_dir = Ok (0, st') ∧
    d_inode <$> (dentries (kern st') !! 8) = Some 16) ∧
  jifs_nfs_get_inode FILE_INO toy_dir = Ok (- ESTALE, toy_dir).
Proof.
  assert (dentries (kern toy_dir) !! 8 = Some (Dentry "hello.txt" 0 0)) as Hd by (vm_compute; reflexivity).
  destruct (jifs_names 0 8 "hello.txt" (Dentry "hello.txt" 0 0) toy_dir Hd) as [_ Hs].
  split; [|apply Hs; reflexivity]. eexists. split; [vm_compute; reflexivity|reflexivity].
Defined.

(** ** The life of the module *)

(** C34: loading the module registers the file system, or fails and changes
    nothing, and unloading takes the name back.  But however the module is
    loaded and unloaded, the first grace period after an inode was released
    runs into a fault: the callback frees the inode into the cache that the
    code under [#if 0] would have made. *)
Theorem jifs_release_faults {K : Type} `{!Modules K} (k : K) (st : mstate K) :
  rtc mstep (MState k 0 []) st →
  (∃ e k', init_jifs (MState k 0 []) = Ok (e, MState k' 0 []) ∧
     (e < 0 ∧ fs_types k' = fs_types k ∨
      e = 0 ∧ "jifs" ∉ fs_types k ∧ fs_types k' = {["jifs"]} ∪ fs_types k ∧
      ∃ k2, exit_jifs (MState k' 0 []) = Ok ((), MState k2 0 []) ∧ fs_types k2 = fs_types k)) ∧
  (rcu_pending st ≠ [] → rcu_barrier st = Fault) ∧
  ∀ inode, ∃ st', jifs_destroy_inode inode st = Ok ((), st') ∧ rcu_barrier st' = Fault.
Proof.
  intros Hr. pose proof (reach_cachep _ _ Hr eq_refl) as Hc. split; [|split].
  - destruct (init_jifs_spec k) as (e & k' & Hi & _ & Hcase). exists e, k'. split; [done|].
    destruct Hcase as [(-> & Hn & Ht)|?]; [right|by left]. split; [done|]. split; [done|]. split; [done|].
    destruct (exit_jifs_spec k' []) as (k2 & He & _ & Ht2). exists k2. split; [done|]. rewrite Ht2, Ht. set_solver.
  - intros Hp. by apply barrier_faults.
  - intros inode. eexists. split; [done|]. apply barrier_faults; [done|]. cbn. by destruct (rcu_pending st).
Qed.

Lemma jifs_release_faults_witness :
  ∃ st, init_jifs (MState (ToyMod ∅ ∅) 0 []) = Ok (0, st) ∧
    ∃ st', jifs_destroy_inode 4096 st = Ok ((), st') ∧ rcu_barrier st' = Fault.
Proof.
  set (st := MState (ToyMod {["jifs"]} ∅) 0 []).
  assert (init_jifs (MState (ToyMod ∅ ∅) 0 []) = Ok (0, st)) as Hi by (vm_compute; reflexivity).
  exists st. split; [exact Hi|].
  assert (rtc mstep (MState (ToyMod ∅ ∅) 0 []) st) as Hr by (eapply rtc_once, step_load; exact Hi).
  exact (proj2 (proj2 (jifs_release_faults (ToyMod ∅ ∅) st Hr)) 4096).
Defined.
