(* ===== verification/PageFlags.v ===== *)
(** * The page flag interpreter of tools/page_flags_interpreter.c

    It prints the names of the flags set in a number. *)
From Stdlib Require Import Zquot.
From S2P Require Import FsDefs Prelude.

(** Each a string of at most 20 bytes, with its NUL. *)
Definition PG_flag_string : list string :=
  ["PG_locked"; "PG_referenced"; "PG_uptodate"; "PG_dirty"; "PG_lru"; "PG_active"; "PG_workingset"; "PG_waiters";
   "PG_error"; "PG_slab"; "PG_owner_priv_1"; "PG_arch_1"; "PG_reserved"; "PG_private"; "PG_private_2";
   "PG_writeback"; "PG_head"; "PG_mappedtodisk"; "PG_reclaim"; "PG_swapbacked"; "PG_unevictable"]%string.

(** The loop on [int]s: the remainder and the quotient are those of C. *)
Fixpoint print_flags (names : list string) (flags : Z) : list string :=
  match names with
  | [] => []
  | name :: names =>
      let flag := Z.rem flags 2 in
      if truthy flag then name :: print_flags names (Z.quot flags 2) else print_flags names (Z.quot flags 2)
  end.

(** [atoi] gives a number for the first argument. *)
Definition main (atoi : string → Z) (argv1 : string) : list string := print_flags PG_flag_string (s32 (atoi argv1)).

(** The names of the bits set in a number, from the lowest. *)
Fixpoint flag_names (names : list string) (i x : Z) : list string :=
  match names with
  | [] => []
  | name :: names => if Z.testbit x i then name :: flag_names names (i + 1) x else flag_names names (i + 1) x
  end.

Lemma names_fit : Forall (λ name, (String.length name < 20)%nat) PG_flag_string ∧ length PG_flag_string = 21%nat.
Proof. split; [|done]. apply (bool_decide_unpack _). by vm_compute. Qed.

Lemma flag_names_half names i x : 0 ≤ i → flag_names names i (x / 2) = flag_names names (i + 1) x.
Proof.
  revert i. induction names as [|name names IH]; intros i Hi; [done|]. cbn [flag_names].
  assert (Z.testbit (x / 2) i = Z.testbit x (i + 1)) as ->
    by (rewrite <- Z.div2_div, Z.div2_spec, Z.shiftr_spec by lia; done).
  by rewrite IH by lia.
Qed.

(** The bits that are read are those of the absolute value. *)
Lemma print_flags_abs names flags : print_flags names flags = flag_names names 0 (Z.abs flags).
Proof.
  revert flags. induction names as [|name names IH]; intros flags; [done|]. cbn [print_flags flag_names].
  assert (Z.abs (Z.quot flags 2) = Z.abs flags / 2) as Hq by (rewrite <- Z.quot_abs, Z.quot_div_nonneg by lia; done).
  assert (truthy (Z.rem flags 2) = Z.testbit (Z.abs flags) 0) as Hr.
  { assert (Z.odd (Z.abs flags) = Z.odd flags) as Hodd by (destruct (Z.abs_eq_or_opp flags) as [->| ->]; [done|apply Z.odd_opp]).
    rewrite Zrem_odd, Z.bit0_odd, Hodd. destruct (Z.odd flags) eqn:Ho; [|done].
    apply truthy_nz. intros Hs. apply Z.sgn_null_iff in Hs as ->. discriminate. }
  by rewrite Hr, !IH, Hq, flag_names_half by lia.
Qed.

(** A number of flags, as the kernel has them, shows its own bits. *)
Lemma main_spec atoi argv1 :
  main atoi argv1 = flag_names PG_flag_string 0 (Z.abs (s32 (atoi argv1))).
Proof. apply print_flags_abs. Qed.

(** A number with the top bit set is not read as flags. *)
Example negative_flags : main (λ _, 0xFFFFFFFF) "4294967295" = ["PG_locked"%string] ∧ flag_names PG_flag_string 0 0xFFFFFFFF = PG_flag_string.
Proof. done. Qed.
