(* ===== verification/DeviceProps.v ===== *)
(** * The character device and the work queue: the properties *)
From S2P Require Import CounterFile CounterProps CharDev WorkQueue Prelude.

(** ** The device *)

(** C31: what is written to a fresh device, up to 1024 bytes, is what a later
    read of any length shows, in front of the bytes the device had: the read
    always fills 1024 bytes of the reader's memory and answers with the length
    it was asked for.  A write of more than 1024 bytes is out of the bounds of
    the buffer, a fault.  Without memory for the buffer the module loads all
    the same; then every read is a fault and every write but the empty one,
    which changes nothing. *)
Theorem device_write_read {U : Type} `{!Kernel U} (e : Z) (m : bytes) (u : U) (buf rbuf count : Z) (bs : bytes) :
  uread u buf (length bs) = Some bs → (length bs ≤ BUFFER_SIZE)%nat → mapped u rbuf BUFFER_SIZE →
  (∃ u', (r ← virtual_device_init e (Some m);
     w ← virtual_device_write buf (Z.of_nat (length bs));
     n ← virtual_device_read rbuf count; mret (r, w, n)) (VD None u false) =
       Ok ((0, Z.of_nat (length bs), count),
         VD (Some (bs ++ replicate (BUFFER_SIZE - length bs) 0)) u' (negb (e <? 0))) ∧
     uread u' rbuf BUFFER_SIZE = Some (bs ++ replicate (BUFFER_SIZE - length bs) 0)) ∧
  (∀ st long, Z.of_nat BUFFER_SIZE < long → virtual_device_write buf long st = Fault) ∧
  (∃ st, virtual_device_init e None (VD None u false) = Ok (0, st) ∧
     (∀ a n, virtual_device_read a n st = Fault) ∧
     (∀ a n, n ≠ 0 → virtual_device_write a n st = Fault) ∧
     (∀ a, virtual_device_write a 0 st = Ok (0, st))).
Proof.
  intros Hu Hlen Hm. split; [|split; [by intros; apply write_overflow|]].
  2:{ eexists. split; [reflexivity|]. split; [by intros; apply read_null|]. split.
      - intros a n Hn. by rewrite write_null, (proj2 (Z.eqb_neq _ _) Hn).
      - intros a. by rewrite write_null. }
  destruct (init_spec e (Some m) (VD None u false)) as (st1 & Hi & Hu1 & Hb1 & Hr1).
  cbn in Hu1. subst u. unfold mbind, M_bind. rewrite Hi, (write_some buf bs _ st1 Hb1 Hu Hlen), drop_replicate.
  set (b := bs ++ replicate _ 0). set (st2 := VD (Some b) (vuser st1) (registered st1)).
  assert (length b = BUFFER_SIZE) as Hb by (unfold b; rewrite length_app, length_replicate; lia).
  destruct (read_all rbuf count b st2 eq_refl) as (u' & Hrd & Hus); [by rewrite Hb|].
  rewrite Hrd. exists u'. split; [by rewrite <- Hr1|by rewrite <- Hb].
Qed.

Lemma device_write_read_witness :
  ∃ u', (r ← virtual_device_init 0 (Some []);
     w ← virtual_device_write 0 2;
     n ← virtual_device_read 0 1; mret (r, w, n)) (VD None (replicate BUFFER_SIZE 65) false) =
       Ok ((0, 2, 1), VD (Some ([65; 65] ++ replicate (BUFFER_SIZE - 2) 0)) u' true) ∧
     uread u' 0 BUFFER_SIZE = Some ([65; 65] ++ replicate (BUFFER_SIZE - 2) 0).
Proof.
  set (u := replicate BUFFER_SIZE 65).
  assert (uread u 0 (length [65; 65]) = Some [65; 65]) as Hu by (vm_compute; reflexivity).
  assert (length [65; 65] ≤ BUFFER_SIZE)%nat as Hl by (apply Nat.leb_le; vm_compute; reflexivity).
  assert (mapped u 0 BUFFER_SIZE) as Hm by (split; [reflexivity|apply Nat.leb_le; vm_compute; reflexivity]).
  exact (proj1 (device_write_read 0 [] u 0 0 1 [65; 65] Hu Hl Hm)).
Defined.

(** ** The work queue *)

(** C29: with memory for its two items, the module queues them, whatever the
    workers do meanwhile.  In whatever order they take the items afterwards,
    none of their steps is a fault and they come to an end, so that unloading
    returns under every schedule: then 1 and 2 have been printed, once each,
    and the memory is as it was.  Without a queue the module loads all the same,
    and unloading it is a fault. *)
Theorem workqueue_runs_each_once `{!Calloc Z} (workers : W ()) (wq : Z) (st : wqstate) :
  schedule workers → queue st = [] → serves (V := Z) (size (works st) + 2) →
  ∃ st1, init_workqueue workers wq st = Ok (0, st1) ∧
    (wq = 0 → exit_workqueue (λ r, r = Fault) st1) ∧
    (wq ≠ 0 → exit_workqueue (λ r, ∃ st2 ys, r = Ok ((), st2) ∧
      works st2 = works st ∧ printed st2 = printed st ++ ys ∧ ys ≡ₚ [1; 2]) st1).
Proof.
  intros Hs Hq Hmem. destruct (decide (wq = 0)) as [->|Hwq].
  { eexists. split; [done|]. split; [intros _; by apply exit_null|done]. }
  destruct (proj1 (wp_returns _ _ _) (init_workqueue_spec workers Hs wq st Hwq Hq Hmem)) as (r0 & st1 & Hi & -> & Hw & Hqd).
  exists st1. split; [done|]. split; [done|]. intros _. apply exit_flushed; [by rewrite Hw|by apply queued_flushes].
Qed.

Definition wq0 : wqstate := WQ 0 ∅ [] [] 0.

(** A worker that takes the first item whenever there is one. *)
Definition eager : W () := λ st,
  match queue st with
  | [] => Ok ((), st)
  | work :: q => my_wq_function work (WQ (my_wq st) (works st) q (printed st) (wq_calls st))
  end.

Lemma eager_schedule : schedule eager.
Proof.
  intros st. unfold eager. destruct (queue st) as [|work q] eqn:Hq; [left; exists st; split; [done|constructor]|].
  assert (∀ r, r = my_wq_function work (WQ (my_wq st) (works st) q (printed st) (wq_calls st)) → wq_step st r) as Hstep
    by (intros r ->; by apply (wq_run st _ work [] q)).
  destruct (my_wq_function _ _) as [[[] st']| |] eqn:Hf.
  - left. exists st'. split; [done|]. econstructor; [by apply Hstep|constructor].
  - right. split; [done|]. exists st. split; [constructor|by apply Hstep].
  - unfold my_wq_function in Hf. by destruct (works _ !! work).
Qed.

Lemma workqueue_runs_each_once_witness :
  ∃ st1, init_workqueue (Calloc0 := first_fit) eager 64 wq0 = Ok (0, st1) ∧
    exit_workqueue (λ r, ∃ st2 ys, r = Ok ((), st2) ∧ works st2 = ∅ ∧ printed st2 = [] ++ ys ∧ ys ≡ₚ [1; 2]) st1.
Proof.
  assert (serves (V := Z) (Calloc0 := first_fit) (size (works wq0) + 2)) as Hmem
    by (apply first_fit_memory; vm_compute; discriminate).
  destruct (workqueue_runs_each_once (Calloc0 := first_fit) eager 64 wq0 eager_schedule eq_refl Hmem) as (st1 & Hi & _ & Hrun).
  exists st1. split; [exact Hi|]. apply Hrun. discriminate.
Defined.
