(* ===== verification/Fault32.v ===== *)
(** * The 32-bit half of crashdump/fault.c

    The part under CONFIG_X86_32, with CONFIG_X86_PAE and CONFIG_VM86: page
    directories of 64-bit entries whose middle level is brought up to date
    with the kernel's own, for one address after a fault or for all of them at
    once.  The tables are words in memory. *)
From stdpp Require Import strings.
From S2P Require Import Prelude.

(** ** The kernel's headers

    The upper levels are folded: their entries are where the one above is.  An
    entry of the middle level is found from the value above it. *)
Class Paging := {
  SHARED_KERNEL_PMD : bool;
  VMALLOC_START : Z;
  VMALLOC_END : Z;
  TASK_SIZE_MAX : Z;
  max_low_pfn : Z;
  init_mm_pgd : Z;
  pgd_index : Z → Z;
  page_address : Z → Z;
  page_table_lock : Z → Z;
  p4d_offset : Z → Z → Z;
  pud_offset : Z → Z → Z;
  pmd_offset : Z → Z → Z;
  pte_offset_kernel : Z → Z → Z;
  pgd_present : Z → bool;
  p4d_present : Z → bool;
  pud_present : Z → bool;
  pmd_present : Z → bool;
  pmd_large : Z → bool;
  pte_present : Z → bool;
  pmd_pfn : Z → Z
}.

Definition PMD_SIZE : Z := 2 ^ 21.
Definition PMD_MASK : Z := 2 ^ 32 - PMD_SIZE.

(** ** State *)

Inductive lock := pgd_lock | pgt_lock (mm : Z).
#[export] Instance lock_dec : EqDecision lock.
Proof. solve_decision. Defined.

(** [pgd_list] holds the pages of all directories; [cr3] is where that of the
    current task is mapped. *)
Record paging_state := PgSt { words : gmap Z Z; held : list lock; pgd_list : list Z; cr3 : Z }.

Abbreviation K := (M paging_state).

Definition set_words (w : gmap Z Z) (s : paging_state) : paging_state := PgSt w (held s) (pgd_list s) (cr3 s).
Definition set_held (l : list lock) (s : paging_state) : paging_state := PgSt (words s) l (pgd_list s) (cr3 s).

Definition word (p : Z) : K Z := λ s, match words s !! p with Some v => Ok (v, s) | None => Fault end.
Definition set_pmd (p v : Z) : K () :=
  _ ← word p;
  modify (λ s, set_words (<[p := v]> (words s)) s).

Definition BUG_ON (b : bool) : K () := if b then fault else mret ().

(** One who takes a lock twice spins for ever. *)
Definition spin_lock (l : lock) : K () := λ s,
  if decide (l ∈ held s) then NoFuel else Ok ((), set_held (l :: held s) s).
Definition spin_unlock (l : lock) : K () := λ s,
  if decide (l ∈ held s) then Ok ((), set_held (filter (λ x, x ≠ l) (held s)) s) else Fault.

Section paging.
Context {paging : Paging}.

(** ** Synchronisation *)

(** The kernel's entry for the address, where it has one. *)
Definition vmalloc_sync_one (pgd address : Z) : K (option Z) :=
  let index := pgd_index address in
  let pgd := pgd + 8 * index in
  let pgd_k := init_mm_pgd + 8 * index in
  k ← word pgd_k;
  if negb (pgd_present k) then mret None
  else
    let p4d := p4d_offset pgd address in
    let p4d_k := p4d_offset pgd_k address in
    k ← word p4d_k;
    if negb (p4d_present k) then mret None
    else
      let pud := pud_offset p4d address in
      let pud_k := pud_offset p4d_k address in
      k ← word pud_k;
      if negb (pud_present k) then mret None
      else
        u ← word pud;
        let pmd := pmd_offset u address in
        let pmd_k := pmd_offset k address in
        v ← word pmd;
        k ← word pmd_k;
        (if Bool.eqb (pmd_present v) (pmd_present k) then mret () else set_pmd pmd k);;
        k ← word pmd_k;
        if negb (pmd_present k) then mret None
        else
          v ← word pmd;
          BUG_ON (negb (pmd_pfn v =? pmd_pfn k));;
          mret (Some pmd_k).

Definition sync_page (address page : Z) : K () :=
  let pgt_lock := pgt_lock (page_table_lock page) in
  spin_lock pgt_lock;;
  _ ← vmalloc_sync_one (page_address page) address;
  spin_unlock pgt_lock.

Fixpoint sync_pages (address : Z) (pages : list Z) : K () :=
  match pages with
  | [] => mret ()
  | page :: pages => sync_page address page;; sync_pages address pages
  end.

(** [fuel] bounds the addresses. *)
Fixpoint sync_loop (fuel : nat) (address : Z) : K () :=
  if (TASK_SIZE_MAX <=? address) && (address <? VMALLOC_END) then
    match fuel with
    | O => nofuel
    | S fuel =>
        spin_lock pgd_lock;;
        pages ← gets pgd_list;
        sync_pages address pages;;
        spin_unlock pgd_lock;;
        sync_loop fuel (u32 (address + PMD_SIZE))
    end
  else mret ().

(** As many as there are entries for the whole address space. *)
Definition SYNC_FUEL : nat := 2048.

Definition vmalloc_sync_all : K () :=
  if SHARED_KERNEL_PMD then mret () else sync_loop SYNC_FUEL (Z.land VMALLOC_START PMD_MASK).

(** ** A fault in the vmalloc area *)

Definition vmalloc_fault (address : Z) : K Z :=
  if negb ((VMALLOC_START <=? address) && (address <? VMALLOC_END)) then mret (-1)
  else
    pgd ← gets cr3;
    r ← vmalloc_sync_one pgd address;
    match r with
    | None => mret (-1)
    | Some pmd_k =>
        k ← word pmd_k;
        if pmd_large k then mret 0
        else
          e ← word (pte_offset_kernel k address);
          if negb (pte_present e) then mret (-1) else mret 0
    end.

(** ** vm86 mode *)

(** The bitmap of the screen, where the task has one. *)
Definition check_v8086_mode (v8086_mode : bool) (vm86 : option Z) (address : Z) : option Z :=
  match vm86 with
  | Some screen_bitmap =>
      if negb v8086_mode then vm86
      else
        let bit := Z.shiftr (u32 (address - 0xA0000)) 12 in
        if bit <? 32 then Some (Z.lor screen_bitmap (u32 (Z.shiftl 1 bit))) else vm86
  | None => None
  end.

(** ** The report *)

Definition low_pfn (pfn : Z) : bool := pfn <? max_low_pfn.

(** What is printed. *)
Definition dump_pagetable (address : Z) : K (list (string * Z)) :=
  base ← gets cr3;
  let pgd := base + 8 * pgd_index address in
  e ← word pgd;
  if negb (low_pfn (Z.shiftr e 12)) || negb (pgd_present e) then mret [("pdpt"%string, e)]
  else
    let p4d := p4d_offset pgd address in
    let pud := pud_offset p4d address in
    u ← word pud;
    let pmd := pmd_offset u address in
    v ← word pmd;
    if negb (low_pfn (pmd_pfn v)) || negb (pmd_present v) || pmd_large v then mret [("pdpt"%string, e); ("pde"%string, v)]
    else
      p ← word (pte_offset_kernel v address);
      mret [("pdpt"%string, e); ("pde"%string, v); ("pte"%string, p)].
End paging.
