(* ===== verification/Fault32Props.v ===== *)
(** * The middle level of the page tables is brought up to date

    The upper levels are a map of words that nothing changes; every directory
    has entries of its own, apart from the kernel's. *)
From stdpp Require Import strings.
From S2P Require Import Prelude Fault32.

Section laid.
Context {paging : Paging}.
(** The words of the upper levels, and the pages of the directories. *)
Variable U : gmap Z Z.

(** Where the kernel's entry is for an address: nothing can be said, there is
    none, or there. *)
Definition pud_k (a : Z) : Z := pud_offset (p4d_offset (init_mm_pgd + 8 * pgd_index a) a) a.
Definition kernel_pmd (a : Z) : option (option Z) :=
  k ← U !! (init_mm_pgd + 8 * pgd_index a);
  if negb (pgd_present k) then Some None
  else
    k ← U !! p4d_offset (init_mm_pgd + 8 * pgd_index a) a;
    if negb (p4d_present k) then Some None
    else
      k ← U !! pud_k a;
      if negb (pud_present k) then Some None else Some (Some (pmd_offset k a)).

(** And the entry of a directory. *)
Definition own_pmd (pgd a : Z) : option Z :=
  u ← U !! pud_offset (p4d_offset (pgd + 8 * pgd_index a) a) a;
  Some (pmd_offset u a).

(** What the entry [v] becomes where the kernel has [k]. *)
Definition synced (v k : Z) : Z := if Bool.eqb (pmd_present v) (pmd_present k) then v else k.

(** Two entries agree: both are absent, or both present and of the same page. *)
Definition agree (v k : Z) : Prop := pmd_present v = pmd_present k ∧ (pmd_present k = true → pmd_pfn v = pmd_pfn k).

(** They do not say two things. *)
Definition compatible (v k : Z) : Prop := pmd_present v = true → pmd_present k = true → pmd_pfn v = pmd_pfn k.

Lemma synced_agree v k : compatible v k → agree (synced v k) k.
Proof. unfold synced, agree, compatible. destruct (pmd_present v) eqn:Ev, (pmd_present k) eqn:Ek; cbn; rewrite ?Ev, ?Ek; auto. Qed.

Lemma agree_synced v k : agree v k → synced v k = v.
Proof. unfold synced, agree. intros [-> _]. by rewrite Bool.eqb_reflx. Qed.

Lemma agree_compatible v k : agree v k → compatible v k.
Proof. intros [_ Hp] _. exact Hp. Qed.

Lemma wp_word Q p v s : words s !! p = Some v → Q v s → wp (word p) Q s.
Proof. intros Hp HQ. unfold wp, word. by rewrite Hp. Qed.

(** A word of the upper levels. *)
Lemma wp_upper Q p v s : U ⊆ words s → U !! p = Some v → Q v s → wp (word p) Q s.
Proof. intros Hs Hp. apply wp_word. by eapply lookup_weaken. Qed.

(** The whole of the function, on every branch but that of tables that say two
    things. *)
Lemma sync_one_absent s pgd a Q :
  U ⊆ words s → kernel_pmd a = Some None → Q None s → wp (vmalloc_sync_one pgd a) Q s.
Proof.
  intros Hs Hk HQ. unfold kernel_pmd in Hk. unfold vmalloc_sync_one.
  destruct (U !! (init_mm_pgd + _)) as [k1|] eqn:E1; [|discriminate Hk]. cbn in Hk. apply wp_bind, (wp_upper _ _ k1); [done..|].
  destruct (negb (pgd_present k1)); [done|].
  destruct (U !! p4d_offset (init_mm_pgd + _) _) as [k2|] eqn:E2; [|discriminate Hk]. cbn in Hk. apply wp_bind, (wp_upper _ _ k2); [done..|].
  destruct (negb (p4d_present k2)); [done|].
  destruct (U !! pud_k a) as [k3|] eqn:E3; [|discriminate Hk]. cbn in Hk. apply wp_bind, (wp_upper _ _ k3); [done..|].
  by destruct (negb (pud_present k3)).
Qed.

Lemma sync_one_there s pgd a pk p v k Q :
  U ⊆ words s → kernel_pmd a = Some (Some pk) → own_pmd pgd a = Some p → p ≠ pk → U !! p = None →
  words s !! p = Some v → words s !! pk = Some k → compatible v k →
  Q (if pmd_present k then Some pk else None) (set_words (<[p := synced v k]> (words s)) s) →
  wp (vmalloc_sync_one pgd a) Q s.
Proof.
  intros Hs Hk Ho Hne Hup Hv Hkv Hc HQ. unfold kernel_pmd in Hk. unfold own_pmd in Ho. unfold vmalloc_sync_one.
  destruct (U !! (init_mm_pgd + _)) as [k1|] eqn:E1; [|discriminate Hk]. cbn in Hk. apply wp_bind, (wp_upper _ _ k1); [done..|].
  destruct (negb (pgd_present k1)); [done|].
  destruct (U !! p4d_offset (init_mm_pgd + _) _) as [k2|] eqn:E2; [|discriminate Hk]. cbn in Hk. apply wp_bind, (wp_upper _ _ k2); [done..|].
  destruct (negb (p4d_present k2)); [done|].
  destruct (U !! pud_k a) as [k3|] eqn:E3; [|discriminate Hk]. cbn in Hk. apply wp_bind, (wp_upper _ _ k3); [done..|].
  destruct (negb (pud_present k3)); [done|]. injection Hk as <-.
  destruct (U !! pud_offset (p4d_offset (pgd + _) _) _) as [u|] eqn:Eu; [|discriminate Ho]. injection Ho as <-.
  apply wp_bind, (wp_upper _ _ u); [done..|]. apply wp_bind, (wp_word _ _ v); [done|]. apply wp_bind, (wp_word _ _ k); [done|].
  apply wp_bind. unfold synced in HQ.
  assert (∀ s', words s' !! pmd_offset k3 a = Some k → words s' !! pmd_offset u a = Some (synced v k) → Q (if pmd_present k then Some (pmd_offset k3 a) else None) s' →
    wp (k ← word (pmd_offset k3 a); if negb (pmd_present k) then mret None else
        v ← word (pmd_offset u a); BUG_ON (negb (pmd_pfn v =? pmd_pfn k));; mret (Some (pmd_offset k3 a))) Q s') as Hend.
  { intros s' H1 H2 HQ'. apply wp_bind, (wp_word _ _ k); [done|]. destruct (pmd_present k) eqn:Ek; [|done]. cbn [negb].
    apply wp_bind, (wp_word _ _ (synced v k)); [done|]. destruct (synced_agree v k Hc) as [_ Hpf].
    rewrite (Hpf Ek), Z.eqb_refl. done. }
  destruct (Bool.eqb (pmd_present v) (pmd_present k)) eqn:Eb.
  - apply Hend; [done|unfold synced; by rewrite Eb|]. rewrite insert_id in HQ by done. by destruct s.
  - unfold set_pmd. apply wp_bind, (wp_word _ _ v); [done|]. apply wp_modify, Hend;
      [cbn; by rewrite lookup_insert_ne|cbn; unfold synced; by rewrite Eb, lookup_insert_eq|done].
Qed.

(** ** All directories *)

(** The pages of the directories and the addresses they are brought up to date
    for.  An entry of a directory is in none of the upper levels, is no entry of
    the kernel's, and serves one address. *)
Variables (pages : list Z) (addrs : Z → Prop).

Definition laid : Prop :=
  ∀ a, addrs a → ∃ r, kernel_pmd a = Some r ∧
    ∀ pk pg, r = Some pk → pg ∈ pages → ∃ p, own_pmd (page_address pg) a = Some p ∧ U !! p = None ∧
      ∀ a', addrs a' → kernel_pmd a' ≠ Some (Some p) ∧
        ∀ pg', pg' ∈ pages → own_pmd (page_address pg') a' = Some p → a' = a.

(** The words of the entry of a directory and of the kernel's, where it has
    one. *)
Definition entries (R : Z → Z → Prop) (w : gmap Z Z) (a pg : Z) : Prop :=
  ∀ pk p, kernel_pmd a = Some (Some pk) → own_pmd (page_address pg) a = Some p →
    ∃ v k, w !! p = Some v ∧ w !! pk = Some k ∧ R v k.

Definition tables_good (w : gmap Z Z) : Prop :=
  U ⊆ w ∧ ∀ a pg, addrs a → pg ∈ pages → entries compatible w a pg.

(** What a part of the loop keeps: the words that are no entry of a directory,
    and what is up to date. *)
Definition synced_more (w w' : gmap Z Z) : Prop :=
  tables_good w' ∧
  (∀ a pg, addrs a → pg ∈ pages → entries agree w a pg → entries agree w' a pg) ∧
  (∀ p, (∀ a pg, addrs a → pg ∈ pages → own_pmd (page_address pg) a ≠ Some p) → w' !! p = w !! p).

Lemma synced_more_refl w : tables_good w → synced_more w w.
Proof. intros Hw. by split. Qed.

Lemma synced_more_trans w1 w2 w3 : synced_more w1 w2 → synced_more w2 w3 → synced_more w1 w3.
Proof.
  intros (_ & H12 & K12) (Hg & H23 & K23). split; [done|]. split; [auto|]. intros p Hp. by rewrite K23, K12.
Qed.

Lemma entries_mono (R R' : Z → Z → Prop) w a pg : (∀ v k, R v k → R' v k) → entries R w a pg → entries R' w a pg.
Proof. intros HR He pk p Hk Hp. destruct (He pk p Hk Hp) as (v & k & ? & ? & ?). eauto 6. Qed.

(** The write of an entry. *)
Lemma synced_more_write w a pg p pk v k :
  laid → tables_good w → addrs a → pg ∈ pages → kernel_pmd a = Some (Some pk) → own_pmd (page_address pg) a = Some p →
  w !! p = Some v → w !! pk = Some k → compatible v k →
  let w' := <[p := synced v k]> w in synced_more w w' ∧ entries agree w' a pg.
Proof.
  intros Hl [HU Hw] Ha Hpg Hk Hp Hv Hkv Hc w'. destruct (Hl a Ha) as (r & Hr & Hown). rewrite Hk in Hr. injection Hr as <-.
  destruct (Hown pk pg eq_refl Hpg) as (p' & Hp' & HUp & Hsep). rewrite Hp in Hp'. injection Hp' as <-.
  assert (∀ (R : Z → Z → Prop) a' pg', R (synced v k) k → addrs a' → pg' ∈ pages → entries R w a' pg' → entries R w' a' pg') as Hkeep.
  { intros R a' pg' HR Ha' Hpg' He pk' p' Hk' Hp'. destruct (Hsep a' Ha') as [Hnk Hone].
    assert (p ≠ pk') as Hne by congruence. destruct (decide (p' = p)) as [->|].
    - assert (a' = a) as -> by eauto. rewrite Hk in Hk'. injection Hk' as <-. exists (synced v k), k.
      unfold w'. by rewrite lookup_insert_eq, lookup_insert_ne.
    - unfold w'. rewrite !lookup_insert_ne by done. by apply He. }
  pose proof (synced_agree v k Hc) as Hag. split; [split; [split|split]|].
  - by apply insert_subseteq_r.
  - intros a' pg' Ha' Hpg'. apply Hkeep; auto. by apply agree_compatible.
  - intros a' pg' Ha' Hpg'. by apply Hkeep.
  - intros q Hq. unfold w'. rewrite lookup_insert_ne; [done|]. intros ->. by apply (Hq a pg).
  - intros pk' p' Hk' Hp'. rewrite Hk in Hk'. rewrite Hp in Hp'. injection Hk' as <-. injection Hp' as <-.
    exists (synced v k), k. unfold w'. rewrite lookup_insert_eq, lookup_insert_ne; [done|]. intros ->. by apply (Hsep a Ha).
Qed.

(** Only the words of the tables differ. *)
Definition same_but_words (s s' : paging_state) : Prop := held s' = held s ∧ pgd_list s' = pgd_list s ∧ cr3 s' = cr3 s.

Lemma sync_one_more s a pg :
  laid → tables_good (words s) → addrs a → pg ∈ pages →
  wp (vmalloc_sync_one (page_address pg) a) (λ _ s',
    same_but_words s s' ∧ synced_more (words s) (words s') ∧ entries agree (words s') a pg) s.
Proof.
  intros Hl Hg Ha Hpg. destruct (Hl a Ha) as ([pk|] & Hr & Hown).
  - destruct (Hown pk pg eq_refl Hpg) as (p & Hp & HUp & Hsep). destruct Hg as [HU Hw].
    destruct (Hw a pg Ha Hpg pk p Hr Hp) as (v & k & Hv & Hk & Hc).
    apply (sync_one_there s _ a pk p v k); [done..| |done|done|done|done|].
    + intros ->. by apply (Hsep a Ha).
    + split; [done|]. by apply (synced_more_write _ a pg p pk v k).
  - apply sync_one_absent; [apply Hg|done|]. split; [done|]. split; [by apply synced_more_refl|].
    intros pk p Hk. congruence.
Qed.

Lemma sync_page_more s a pg :
  laid → tables_good (words s) → addrs a → pg ∈ pages → held s = [pgd_lock] →
  wp (sync_page a pg) (λ _ s', same_but_words s s' ∧ synced_more (words s) (words s') ∧ entries agree (words s') a pg) s.
Proof.
  intros Hl Hg Ha Hpg Hh. unfold sync_page. apply wp_bind. unfold wp at 1, spin_lock. rewrite Hh.
  rewrite decide_False by (rewrite list_elem_of_singleton; done). apply wp_bind.
  eapply wp_mono; [by apply (sync_one_more (set_held (pgt_lock (page_table_lock pg) :: [pgd_lock]) s))|].
  intros _ s1 ((Hh1 & Hp1 & Hc1) & Hm & He). unfold wp, spin_unlock. rewrite Hh1. cbn [held set_held].
  rewrite decide_True by (left; done). rewrite !filter_cons, decide_False, decide_True, filter_nil by (done || congruence). by rewrite <- Hh.
Qed.

Lemma sync_pages_more ps s a :
  laid → tables_good (words s) → addrs a → (∀ pg, pg ∈ ps → pg ∈ pages) → held s = [pgd_lock] →
  wp (sync_pages a ps) (λ _ s', same_but_words s s' ∧ synced_more (words s) (words s') ∧
    ∀ pg, pg ∈ ps → entries agree (words s') a pg) s.
Proof.
  intros Hl. revert s. induction ps as [|pg ps IH]; intros s Hg Ha Hps Hh; cbn [sync_pages].
  - apply wp_ret. split; [done|]. split; [by apply synced_more_refl|]. by intros pg ?%elem_of_nil.
  - apply wp_bind. eapply wp_mono; [apply sync_page_more; [done..| |done]; apply Hps; by left|].
    intros _ s1 ((Hh1 & Hp1 & Hc1) & Hm1 & He1). eapply wp_mono; [apply IH; [apply Hm1|done| |congruence]|].
    { intros pg' Hpg'. apply Hps. by right. }
    intros _ s2 ((Hh2 & Hp2 & Hc2) & Hm2 & He2). split; [repeat split; congruence|].
    split; [by eapply synced_more_trans|]. intros pg' [->|Hpg']%elem_of_cons; [|by apply He2].
    apply Hm2; [done|apply Hps; by left|done].
Qed.
End laid.

(** ** The loop over the addresses *)

Section loop.
Context {paging : Paging}.
Variables (U : gmap Z Z) (pages : list Z).

(** The addresses of the vmalloc area by steps of the middle level. *)
Definition first_slot : Z := Z.land VMALLOC_START PMD_MASK.
Definition slots (a : Z) : Prop := a mod PMD_SIZE = 0 ∧ first_slot ≤ a < VMALLOC_END.

(** Rounding down by the mask. *)
Lemma land_pmd_mask x : 0 ≤ x < 2 ^ 32 → Z.land x PMD_MASK = x - x mod PMD_SIZE.
Proof.
  intros Hx. transitivity (Z.land x (Z.lnot (Z.ones 21))).
  - apply Z.bits_inj'. intros i Hi. rewrite !Z.land_spec, Z.lnot_spec by done.
    destruct (decide (i < 32)).
    + f_equal. replace PMD_MASK with (Z.shiftl (Z.ones 11) 21) by reflexivity. rewrite Z.shiftl_spec by done.
      rewrite !Z.testbit_ones by lia. destruct (Z.ltb_spec i 21); [rewrite (proj2 (Z.leb_gt 0 (i - 21))) by lia|];
        rewrite ?(proj2 (Z.leb_le 0 i)), ?(proj2 (Z.leb_le 0 (i - 21))), ?(proj2 (Z.ltb_lt (i - 21) 11)) by lia; done.
    + rewrite (Z.bits_above_log2 x i); [done|lia|]. destruct (decide (x = 0)) as [->|]; [cbn; lia|].
      apply Z.log2_lt_pow2; [lia|]. apply Z.lt_le_trans with (2 ^ 32); [lia|]. apply Z.pow_le_mono_r; lia.
  - rewrite <- Z.ldiff_land. rewrite Z.ldiff_ones_r by lia. rewrite Z.shiftl_mul_pow2, Z.shiftr_div_pow2 by lia.
    unfold PMD_SIZE. pose proof (Z.div_mod x (2 ^ 21)). lia.
Qed.

Lemma pmd_aligned x : (x - x mod PMD_SIZE) mod PMD_SIZE = 0.
Proof. apply Z.cong_iff_0. symmetry. by apply Z.mod_mod. Qed.

Lemma pmd_size_dvd a : a mod PMD_SIZE = 0 → ∃ i, a = i * PMD_SIZE.
Proof. intros Ha. exists (a / PMD_SIZE). pose proof (Z.div_mod a PMD_SIZE ltac:(done)). lia. Qed.

(** The address after one that is below the last is one step on; after the
    last it is 0, which is no address of the area. *)
Lemma next_slot a :
  a mod PMD_SIZE = 0 → 0 ≤ a < 2 ^ 32 →
  (u32 (a + PMD_SIZE) = a + PMD_SIZE ∧ a + PMD_SIZE < 2 ^ 32) ∨ (u32 (a + PMD_SIZE) = 0 ∧ a + PMD_SIZE = 2 ^ 32).
Proof.
  intros (i & ->)%pmd_size_dvd Ha. unfold wrap, PMD_SIZE in *.
  destruct (decide (i * 2 ^ 21 + 2 ^ 21 < 2 ^ 32)); [left|right]; (split; [|lia]).
  - apply Z.mod_small. lia.
  - replace (i * 2 ^ 21 + 2 ^ 21) with (2 ^ 32) by lia. done.
Qed.

Lemma slots_step a x : a mod PMD_SIZE = 0 → slots x → a ≤ x → x = a ∨ a + PMD_SIZE ≤ x.
Proof.
  intros (i & ->)%pmd_size_dvd [(j & ->)%pmd_size_dvd _] Hle. unfold PMD_SIZE in *.
  destruct (decide (j = i)) as [->|]; [by left|right; lia].
Qed.

Definition synced_from (a : Z) (s s' : paging_state) : Prop :=
  same_but_words s s' ∧ synced_more U pages slots (words s) (words s') ∧
  ∀ x pg, slots x → a ≤ x → pg ∈ pages → entries U agree (words s') x pg.

Lemma sync_loop_syncs fuel a s :
  laid U pages slots → tables_good U pages slots (words s) → held s = [] → pgd_list s = pages →
  0 < TASK_SIZE_MAX ≤ first_slot → VMALLOC_END ≤ 2 ^ 32 →
  a mod PMD_SIZE = 0 → first_slot ≤ a < 2 ^ 32 → 2 ^ 32 - a ≤ Z.of_nat fuel * PMD_SIZE →
  wp (sync_loop fuel a) (λ _ s', synced_from a s s') s.
Proof.
  intros Hl Hg Hh Hps HT HE. revert a s Hg Hh Hps. induction fuel as [|fuel IH]; intros a s Hg Hh Hps Ha Har Hf; [lia|].
  cbn [sync_loop]. rewrite (proj2 (Z.leb_le TASK_SIZE_MAX a)) by lia. cbn [andb].
  destruct (Z.ltb_spec a VMALLOC_END) as [Hlt|Hge].
  2:{ split; [done|]. split; [by apply synced_more_refl|]. intros x pg [_ Hx] Hax. lia. }
  assert (slots a) as Hsa by (split; [done|lia]).
  apply wp_bind. unfold wp at 1, spin_lock. rewrite Hh, decide_False by (apply not_elem_of_nil). apply wp_bind, wp_gets, wp_bind.
  cbn [pgd_list set_held]. rewrite Hps.
  eapply wp_mono; [apply (sync_pages_more U pages slots pages (set_held [pgd_lock] s) a); done|].
  intros _ s1 ((Hh1 & Hp1 & Hc1) & Hm1 & He1). cbn [words held pgd_list cr3 set_held] in *. apply wp_bind.
  unfold wp at 1, spin_unlock. rewrite Hh1, decide_True by (by left). rewrite filter_cons, decide_False, filter_nil by (intros Hx; by apply Hx).
  set (s2 := set_held [] s1).
  assert (same_but_words s s2) as Hs2 by (repeat split; cbn; congruence).
  destruct (next_slot a Ha) as [[-> Hn]|[-> Hn]]; [lia| |].
  - eapply wp_mono; [apply (IH (a + PMD_SIZE) s2)|].
    + apply Hm1.
    + done.
    + cbn. congruence.
    + rewrite <- Z.add_mod_idemp_l, Ha by done. done.
    + unfold PMD_SIZE in *. lia.
    + unfold PMD_SIZE in *. lia.
    + intros _ s3 ((Hh3 & Hp3 & Hc3) & Hm3 & He3). destruct Hs2 as (? & ? & ?). split; [repeat split; congruence|].
      split; [by eapply synced_more_trans|]. intros x pg Hx Hax Hpg.
      destruct (slots_step a x Ha Hx Hax) as [->|Hle]; [|by apply He3]. apply Hm3; [done..|]. by apply He1.
  - assert (sync_loop fuel 0 s2 = Ok ((), s2)) as Hend.
    { destruct fuel; cbn [sync_loop]; by rewrite (proj2 (Z.leb_gt TASK_SIZE_MAX 0)) by lia. }
    unfold wp. change (set_held _ s1) with s2. rewrite Hend.
    split; [done|]. split; [done|]. intros x pg Hx Hax Hpg. destruct (slots_step a x Ha Hx Hax) as [->|Hle]; [by apply He1|].
    destruct Hx as [_ Hx]. lia.
Qed.
End loop.

(** C23: [vmalloc_sync_all] comes to an end, at the top of the address space
    too, where the address wraps round to 0; and then every directory agrees
    with the kernel's tables on every address of the vmalloc area for which the
    kernel has a middle level, no other word has changed, and every lock is
    free. *)
Theorem vmalloc_sync_all_syncs {paging : Paging} (U : gmap Z Z) (s : paging_state) :
  SHARED_KERNEL_PMD = false →
  0 < TASK_SIZE_MAX ≤ first_slot → 0 ≤ VMALLOC_START < 2 ^ 32 → VMALLOC_END ≤ 2 ^ 32 →
  held s = [] → laid U (pgd_list s) slots → tables_good U (pgd_list s) slots (words s) →
  wp vmalloc_sync_all (λ _ s', same_but_words s s' ∧
    (∀ p, (∀ a pg, slots a → pg ∈ pgd_list s → own_pmd U (page_address pg) a ≠ Some p) → words s' !! p = words s !! p) ∧
    (∀ address pg, VMALLOC_START ≤ address < VMALLOC_END → pg ∈ pgd_list s →
       entries U agree (words s') (address - address mod PMD_SIZE) pg)) s.
Proof.
  intros Hsh HT HVS HVE Hh Hl Hg. unfold vmalloc_sync_all. rewrite Hsh. fold first_slot.
  pose proof (land_pmd_mask VMALLOC_START HVS) as Hf. fold first_slot in Hf.
  pose proof (Z.mod_pos_bound VMALLOC_START PMD_SIZE ltac:(done)) as Hm.
  eapply wp_mono; [apply (sync_loop_syncs U (pgd_list s)); try done|].
  - rewrite Hf. apply pmd_aligned.
  - lia.
  - change (Z.of_nat SYNC_FUEL * PMD_SIZE) with (2 ^ 32). lia.
  - intros _ s' (Hs & (_ & _ & Hk) & He). split; [done|]. split; [done|]. intros address pg Ha Hpg.
    pose proof (Z.mod_pos_bound address PMD_SIZE ltac:(done)) as Hma.
    assert (first_slot ≤ address - address mod PMD_SIZE) as Hle.
    { rewrite Hf. pose proof (Z.div_mod VMALLOC_START PMD_SIZE ltac:(done)). pose proof (Z.div_mod address PMD_SIZE ltac:(done)).
      pose proof (Z.div_le_mono VMALLOC_START address PMD_SIZE ltac:(done) ltac:(lia)). nia. }
    apply He; [|done|done]. split; [apply pmd_aligned|lia].
Qed.

(** A fault in the vmalloc area is resolved exactly where the kernel maps the
    page; the entry of the task's directory then agrees with the kernel's. *)
Theorem vmalloc_fault_resolves {paging : Paging} (U : gmap Z Z) (s : paging_state) (address pk p v k e : Z) :
  VMALLOC_START ≤ address < VMALLOC_END → U ⊆ words s →
  kernel_pmd U address = Some (Some pk) → own_pmd U (cr3 s) address = Some p → p ≠ pk → U !! p = None →
  words s !! p = Some v → words s !! pk = Some k → compatible v k →
  words s !! pte_offset_kernel k address = Some e → pte_offset_kernel k address ≠ p →
  wp (vmalloc_fault address) (λ r s', r = (if pmd_present k && (pmd_large k || pte_present e) then 0 else -1) ∧
    s' = set_words (<[p := synced v k]> (words s)) s ∧ (r = 0 → agree (synced v k) k)) s.
Proof.
  intros Ha HU Hk Hp Hne HUp Hv Hkv Hc He Hpe. unfold vmalloc_fault.
  rewrite (proj2 (Z.leb_le _ _)), (proj2 (Z.ltb_lt _ _)) by apply Ha. cbn [andb negb]. apply wp_bind, wp_gets, wp_bind.
  eapply (sync_one_there U s (cr3 s) address pk p v k); [done..|]. set (s1 := set_words _ s).
  pose proof (synced_agree v k Hc) as Hag. destruct (pmd_present k); [|done]. cbn [andb].
  apply wp_bind, (wp_word _ _ k); [unfold s1; cbn; by rewrite lookup_insert_ne|]. destruct (pmd_large k); [done|].
  apply wp_bind, (wp_word _ _ e); [unfold s1; cbn; by rewrite lookup_insert_ne|]. by destruct (pte_present e).
Qed.

(** The pages of the screen from 0xA0000 to 0xC0000 have a bit each, and an
    address outside it sets none. *)
Theorem check_v8086_mode_marks (screen address : Z) :
  0 ≤ address < 2 ^ 32 →
  check_v8086_mode true (Some screen) address =
    Some (if (0xA0000 <=? address) && (address <? 0xC0000)
          then Z.lor screen (2 ^ Z.shiftr (address - 0xA0000) 12) else screen) ∧
  check_v8086_mode false (Some screen) address = Some screen ∧ check_v8086_mode true None address = None.
Proof.
  intros Ha. split; [|done]. cbn [check_v8086_mode negb]. rewrite !Z.shiftr_div_pow2 by lia.
  change (2 ^ 12) with 4096.
  destruct (Z.leb_spec 0xA0000 address) as [Hlo|Hlo]; cbn [andb].
  - replace (u32 (address - 0xA0000)) with (address - 0xA0000) by (unfold wrap; rewrite Z.mod_small; lia). destruct (Z.ltb_spec address 0xC0000).
    + assert (0 ≤ (address - 0xA0000) / 4096 < 32) as Hb by (split; [apply Z.div_pos|apply Z.div_lt_upper_bound]; lia). rewrite (proj2 (Z.ltb_lt _ 32)) by lia.
      rewrite Z.shiftl_1_l. unfold wrap. rewrite Z.mod_small; [done|]. split; [lia|]. apply Z.pow_lt_mono_r; lia.
    + by rewrite (proj2 (Z.ltb_ge _ 32)) by (apply Z.div_le_lower_bound; lia).
  - replace (u32 (address - 0xA0000)) with (address - 0xA0000 + 2 ^ 32)
      by (unfold wrap; apply (Z.mod_unique_pos _ _ (-1)); lia).
    by rewrite (proj2 (Z.ltb_ge _ 32)) by (apply Z.div_le_lower_bound; lia).
Qed.

(** ** A small machine

    The vmalloc area is the top of the address space, of three entries; the
    kernel has a page for the first and a large page for the last. *)
Section demo.

Definition pae : Paging := {|
  SHARED_KERNEL_PMD := false;
  VMALLOC_START := 0xFFA01000;
  VMALLOC_END := 2 ^ 32;
  TASK_SIZE_MAX := 0xC0000000;
  max_low_pfn := 0x38000;
  init_mm_pgd := 0x1000;
  pgd_index a := Z.shiftr a 30;
  page_address page := page * 4096;
  page_table_lock page := page;
  p4d_offset p _ := p;
  pud_offset p _ := p;
  pmd_offset u a := u - u mod 4096 + 8 * (Z.shiftr a 21 mod 512);
  pte_offset_kernel k a := k - k mod 4096 + 8 * (Z.shiftr a 12 mod 512);
  pgd_present _ := true;
  p4d_present _ := true;
  pud_present u := Z.odd u;
  pmd_present k := Z.odd k;
  pmd_large k := Z.testbit k 7;
  pte_present e := Z.odd e;
  pmd_pfn k := Z.shiftr k 12
|}.
#[local] Existing Instance pae.

Definition upper : gmap Z Z := {[0x1018 := 0x2001; 0x7018 := 0x8001]}.
Definition demo_st : paging_state :=
  PgSt (<[0x2fe8 := 0x100001]> (<[0x2ff0 := 0]> (<[0x2ff8 := 0x300081]>
         (<[0x8fe8 := 0]> (<[0x8ff0 := 0]> (<[0x8ff8 := 0x300081]> upper)))))) [] [7] 0x7000.

Lemma demo_slots a : slots a → a = 0xFFA00000 ∨ a = 0xFFC00000 ∨ a = 0xFFE00000.
Proof.
  intros [(i & ->)%pmd_size_dvd Ha]. assert (first_slot = 0xFFA00000) as Hf by reflexivity. rewrite Hf in Ha.
  unfold PMD_SIZE in *. cbn [VMALLOC_END pae] in Ha. lia.
Qed.

Lemma demo_laid : laid upper [7] slots.
Proof.
  intros a [->|[->| ->]]%demo_slots; (eexists; split; [vm_compute; reflexivity|]);
    intros pk pg _ ->%list_elem_of_singleton; (eexists; split; [vm_compute; reflexivity|]); (split; [vm_compute; reflexivity|]);
    intros a' [->|[->| ->]]%demo_slots; (split; [vm_compute; discriminate|]); intros pg' ->%list_elem_of_singleton H;
    vm_compute in H; congruence.
Qed.

Lemma demo_good : tables_good upper [7] slots (words demo_st).
Proof.
  split.
  - unfold demo_st. cbn [words]. repeat (apply insert_subseteq_r; [vm_compute; reflexivity|]). done.
  - intros a pg [->|[->| ->]]%demo_slots ->%list_elem_of_singleton pk p Hk Hp; vm_compute in Hk, Hp;
      injection Hk as <-; injection Hp as <-; eexists _, _; (split; [vm_compute; reflexivity|]);
      (split; [vm_compute; reflexivity|]); vm_compute; congruence.
Qed.

(** The first entry is copied, the others stay. *)
Lemma vmalloc_sync_all_syncs_witness :
  first_slot = 0xFFA00000 ∧
  wp vmalloc_sync_all (λ _ s', entries upper agree (words s') (0xFFA02345 - 0xFFA02345 mod PMD_SIZE) 7) demo_st.
Proof.
  split; [reflexivity|].
  eapply wp_mono; [apply (vmalloc_sync_all_syncs upper demo_st)|].
  - reflexivity.
  - vm_compute. split; [reflexivity|discriminate].
  - vm_compute. split; [discriminate|reflexivity].
  - vm_compute. discriminate.
  - reflexivity.
  - exact demo_laid.
  - exact demo_good.
  - intros x s' (_ & _ & He). apply He; [vm_compute; split; [discriminate|reflexivity]|by left].
Defined.
End demo.
