(* ===== verification/FaultDefs.v ===== *)
(** * The page-fault handler: definitions

    crashdump/fault.c, the x86 handler of the crash-dump experiments, in the
    configuration CONFIG_X86_64, CONFIG_CPU_SUP_AMD, CONFIG_VMAP_STACK,
    CONFIG_MEMORY_FAILURE and CONFIG_EFI, without CONFIG_VM86 and
    CONFIG_X86_F00F_BUG. *)
From stdpp Require Export strings.
From S2P Require Import Prelude.

(** ** Constants of the kernel's headers *)

Definition X86_PF_PROT : Z := 1.
Definition X86_PF_WRITE : Z := 2.
Definition X86_PF_USER : Z := 4.
Definition X86_PF_RSVD : Z := 8.
Definition X86_PF_INSTR : Z := 16.
Definition X86_PF_PK : Z := 32.
Definition X86_TRAP_PF : Z := 14.
Definition X86_EFLAGS_IF : Z := 0x200.
Definition X86_EFLAGS_AC : Z := 0x40000.

Definition VM_READ : Z := 1.
Definition VM_WRITE : Z := 2.
Definition VM_EXEC : Z := 4.
Definition VM_GROWSDOWN : Z := 0x100.

Definition VM_FAULT_OOM : Z := 1.
Definition VM_FAULT_SIGBUS : Z := 2.
Definition VM_FAULT_MAJOR : Z := 4.
Definition VM_FAULT_HWPOISON : Z := 0x10.
Definition VM_FAULT_HWPOISON_LARGE : Z := 0x20.
Definition VM_FAULT_SIGSEGV : Z := 0x40.
Definition VM_FAULT_RETRY : Z := 0x400.
Definition VM_FAULT_FALLBACK : Z := 0x800.
Definition VM_FAULT_ERROR : Z := 0x873.

Definition FAULT_FLAG_WRITE : Z := 1.
Definition FAULT_FLAG_ALLOW_RETRY : Z := 4.
Definition FAULT_FLAG_KILLABLE : Z := 0x10.
Definition FAULT_FLAG_TRIED : Z := 0x20.
Definition FAULT_FLAG_USER : Z := 0x40.
Definition FAULT_FLAG_INSTRUCTION : Z := 0x100.

Definition SIGBUS : Z := 7.
Definition SIGKILL : Z := 9.
Definition SIGSEGV : Z := 11.
Definition SEGV_MAPERR : Z := 1.
Definition SEGV_ACCERR : Z := 2.
Definition SEGV_PKUERR : Z := 4.
Definition BUS_ADRERR : Z := 2.
Definition BUS_MCEERR_AR : Z := 4.

Definition PAGE_SHIFT : Z := 12.
Definition PF_PAGE_SIZE : Z := 4096.
Definition PAGE_MASK : Z := 2 ^ 64 - 4096.
Definition THREAD_SIZE : Z := 16384.
Definition VSYSCALL_ADDR : Z := 2 ^ 64 - 10 * 2 ^ 20.
Definition X86_VENDOR_AMD : Z := 2.
Definition USER32_CS : Z := 0x23.
Definition PAGE_USER : Z := 4.
Definition X86_CR4_SMEP : Z := 2 ^ 20.

(** [e & b], as a condition. *)
Definition has (e b : Z) : bool := truthy (Z.land e b).

(** ** Data *)

Record pt_regs := Regs { ip : Z; sp : Z; cs : Z; eflags : Z }.

Record vm_area := Vma { vm_start : Z; vm_flags : Z; vm_pkey : Z }.

(** The fields of the current task that are written. *)
Record task := Task { trap_nr : Z; thread_error_code : Z; cr2 : Z; maj_flt : Z; min_flt : Z }.

Record desc_ptr := DescPtr { d_size : Z; d_address : Z }.
Record ldttss_desc := LdtTss { base0 : Z; base1 : Z; base2 : Z; base3 : Z; limit0 : Z; limit1 : Z }.

(** What can be seen from outside. *)
Inductive event :=
| EPrint (format : string) (args : list Z)
| ESignal (sig code addr : Z)
| EPkuerr (addr pkey : Z)
| EMceerr (code addr lsb : Z)
| EOutOfMemory
| EFaultEvent (name : string)
| EHandle (addr flags fault : Z)
| EIrqEnable
| EEfiRecover (addr : Z)
| EOopsBegin
| EOopsEnd (sig : Z)
| EWarn (text : string)
| EFlush
| ETrace (user : bool) (addr error_code : Z).

(** Why the handler does not return. *)
Inductive halt := HBug | HExit (sig : Z) | HStackOverflow | HNotLocked | HNoFuel.

(** ** The kernel around the handler

    [W] is the kernel's state as far as the handler asks about it; a function
    that may change it returns it too. *)
Class Kern (W : Type) := {
  (* the processor and the registers *)
  user_mode : pt_regs → bool;
  user_64bit_mode : pt_regs → bool;
  convert_ip_to_linear : W → pt_regs → Z;
  boot_cpu_vendor_family : W → Z * Z;
  boot_cpu_has_ospke : W → bool;
  boot_cpu_has_smap : W → bool;
  read_cr4 : W → Z;
  store_idt : W → desc_ptr;
  native_store_gdt : W → desc_ptr;
  store_ldt : W → Z;
  store_tr : W → Z;
  (* the layout of memory *)
  TASK_SIZE_MAX : Z;
  VMALLOC_START : Z;
  VMALLOC_END : Z;
  MODULES_VADDR : Z;
  MODULES_END : Z;
  stext : Z;
  etext : Z;
  task_stack : W → Z;
  (* reads that may fail *)
  probe_kernel_address : W → Z → option Z;
  probe_kernel_address_byte w p b : probe_kernel_address w p = Some b → 0 ≤ b < 256;
  probe_ldttss : W → Z → option ldttss_desc;
  (* page tables *)
  cr3_base : W → Z;
  init_mm_pgd : Z;
  pgd_offset : Z → Z → Z;
  p4d_offset : Z → Z → Z → Z;
  pud_offset : Z → Z → Z;
  pmd_offset : Z → Z → Z;
  pte_offset_kernel : Z → Z → Z;
  pgtable_l5_enabled : bool;
  pgd_none : Z → bool; pgd_present : Z → bool; pgd_flags : Z → Z; pgd_page_vaddr : Z → Z;
  p4d_none : Z → bool; p4d_present : Z → bool; p4d_large : Z → bool; p4d_pfn : Z → Z;
  pud_none : Z → bool; pud_present : Z → bool; pud_large : Z → bool;
  pmd_none : Z → bool; pmd_present : Z → bool; pmd_large : Z → bool;
  pte_present : Z → bool; pte_write : Z → bool; pte_exec : Z → bool;
  lookup_address_in_pgd : W → Z → Z → option Z;
  (* the current task *)
  current_mm : W → Z;
  current_pid : W → Z;
  current_uid : W → Z;
  in_interrupt : W → bool;
  faulthandler_disabled : W → bool;
  sig_on_uaccess_err : W → bool;
  fatal_signal_pending : W → bool;
  unhandled_signal : W → Z → bool;
  show_unhandled_signals : W → bool;
  task_stack_end_corrupted : W → bool;
  (* memory areas *)
  find_vma : W → Z → option vm_area;
  expand_stack : vm_area → Z → W → Z * W;
  arch_vma_access_permitted : W → vm_area → bool → bool → bool → bool;
  (* the rest of the kernel *)
  is_kmmio_active : W → bool;
  kmmio_handler : pt_regs → Z → W → (Z * pt_regs) * W;
  kprobe_page_fault : pt_regs → Z → W → (bool * pt_regs) * W;
  fixup_exception : pt_regs → Z → Z → Z → W → (bool * pt_regs) * W;
  search_exception_tables : W → Z → bool;
  emulate_vsyscall : Z → pt_regs → Z → W → (bool * pt_regs) * W;
  down_read_trylock : W → bool * W;
  down_read_wait : W → W;
  handle_mm_fault : vm_area → Z → Z → W → Z * W;
  hstate_index_to_shift : Z → Z;
  VM_FAULT_GET_HINDEX : Z → Z;
  oops_may_print : W → bool;
  printk_ratelimit : W → bool * W;
  die : string → pt_regs → Z → W → bool * W;
  trace_pagefault_enabled : W → bool;
  exception_enter : W → Z * W;
  exception_exit : Z → W → W
}.

(** ** State *)

(** The readers of [mmap_sem] are counted; page-table entries are words in memory. *)
Record pf_state (W : Type) := PfState {
  world : W; tables : gmap Z Z; regs : pt_regs; tsk : task; mmap_sem : Z; events : list event
}.
Arguments PfState {W} _ _ _ _ _ _.
Arguments world {W} _.
Arguments tables {W} _.
Arguments regs {W} _.
Arguments tsk {W} _.
Arguments mmap_sem {W} _.
Arguments events {W} _.

Inductive outcome (W A : Type) := Ret (a : A) (s : pf_state W) | Halt (h : halt) (s : pf_state W).
Arguments Ret {W A} a s.
Arguments Halt {W A} h s.

Definition PF (W A : Type) : Type := pf_state W → outcome W A.

#[export] Instance PF_ret {W} : MRet (PF W) := λ A a s, Ret a s.
#[export] Instance PF_bind {W} : MBind (PF W) := λ A B k m s,
  match m s with Ret a s' => k a s' | Halt h s' => Halt h s' end.

Section fault.
Context {W : Type} `{!Kern W}.

Definition halt_with {A} (h : halt) : PF W A := λ s, Halt h s.
Definition ask {A} (f : W → A) : PF W A := λ s, Ret (f (world s)) s.
Definition getr {A} (f : pf_state W → A) : PF W A := λ s, Ret (f s) s.

Definition set_world (w : W) (s : pf_state W) : pf_state W := PfState w (tables s) (regs s) (tsk s) (mmap_sem s) (events s).
Definition set_regs (r : pt_regs) (s : pf_state W) : pf_state W := PfState (world s) (tables s) r (tsk s) (mmap_sem s) (events s).
Definition set_tsk (t : task) (s : pf_state W) : pf_state W := PfState (world s) (tables s) (regs s) t (mmap_sem s) (events s).
Definition set_sem (n : Z) (s : pf_state W) : pf_state W := PfState (world s) (tables s) (regs s) (tsk s) n (events s).

Definition kcall {A} (f : W → A * W) : PF W A := λ s, let '(x, w) := f (world s) in Ret x (set_world w s).
Definition kcall_ (f : W → W) : PF W () := λ s, Ret () (set_world (f (world s)) s).

Definition upd (f : pf_state W → pf_state W) : PF W () := λ s, Ret () (f s).

(** A function that is given the registers and may change them. *)
Definition kcall_regs {A} (f : pt_regs → W → (A * pt_regs) * W) : PF W A := λ s,
  let '(x, r, w) := f (regs s) (world s) in Ret x (set_regs r (set_world w s)).

Definition emit (e : event) : PF W () := λ s,
  Ret () (PfState (world s) (tables s) (regs s) (tsk s) (mmap_sem s) (events s ++ [e])).

(** A page-table entry is there, or reading it is a fault in the kernel. *)
Definition entry_at (p : Z) : PF W Z := λ s,
  match tables s !! p with Some v => Ret v s | None => Halt HBug s end.
Definition set_entry (p v : Z) : PF W () := λ s,
  Ret () (PfState (world s) (<[p := v]> (tables s)) (regs s) (tsk s) (mmap_sem s) (events s)).

Definition BUG_ON (b : bool) : PF W () := if b then halt_with HBug else mret ().

(** The semaphore: waiting ends with one reader more, and one more can be released. *)
Definition down_read : PF W () := kcall_ down_read_wait;; upd (λ s, set_sem (mmap_sem s + 1) s).
Definition trylock : PF W bool :=
  ok ← kcall down_read_trylock;
  if (ok : bool) then upd (λ s, set_sem (mmap_sem s + 1) s);; mret true else mret false.
Definition up_read : PF W () := λ s,
  if 0 <? mmap_sem s then Ret () (set_sem (mmap_sem s - 1) s) else Halt HNotLocked s.

(** The memory manager's handler releases the semaphore when it asks for a retry. *)
Definition mm_fault (vma : vm_area) (address flags : Z) : PF W Z :=
  fault ← kcall (handle_mm_fault vma address flags);
  emit (EHandle address flags fault);;
  (if has fault VM_FAULT_RETRY then up_read else mret ());;
  mret fault.

(** [oops_end] returns only without a signal. *)
Definition oops_end (sig : Z) : PF W () :=
  emit (EOopsEnd sig);; if truthy sig then halt_with (HExit sig) else mret ().

(** ** Prefetch *)

Definition kmmio_fault (addr : Z) : PF W Z :=
  active ← ask is_kmmio_active;
  if (active : bool) then
    r ← kcall_regs (λ r, kmmio_handler r addr);
    if r =? 1 then mret (-1) else mret 0
  else mret 0.

(** Whether to go on to the next byte, and [*prefetch]. *)
Definition check_prefetch_opcode (r : pt_regs) (w : W) (instr opcode : Z) (prefetch : bool) : bool * bool :=
  let instr_hi := Z.land opcode 0xf0 in
  let instr_lo := Z.land opcode 0x0f in
  match instr_hi with
  | 0x20 | 0x30 => (Z.land instr_lo 7 =? 6, prefetch)
  | 0x40 => (negb (user_mode r) || user_64bit_mode r, prefetch)
  | 0x60 => (Z.land instr_lo 0xC =? 4, prefetch)
  | 0xF0 => ((instr_lo =? 0) || (Z.shiftr instr_lo 1 =? 1), prefetch)
  | 0x00 =>
      match probe_kernel_address w instr with
      | None => (false, prefetch)
      | Some opcode => (false, (instr_lo =? 0xF) && ((opcode =? 0x0D) || (opcode =? 0x18)))
      end
  | _ => (false, prefetch)
  end.

(** The loop of [is_prefetch], with the bytes left up to [max_instr]. *)
Fixpoint prefetch_loop (n : nat) (r : pt_regs) (w : W) (instr : Z) (prefetch : bool) : bool :=
  match n with
  | O => prefetch
  | S n =>
      match probe_kernel_address w instr with
      | None => prefetch
      | Some opcode =>
          let instr := instr + 1 in
          let '(go_on, prefetch) := check_prefetch_opcode r w instr opcode prefetch in
          if go_on then prefetch_loop n r w instr prefetch else prefetch
      end
  end.

Definition is_prefetch (r : pt_regs) (w : W) (error_code : Z) : bool :=
  if has error_code X86_PF_INSTR then false
  else
    let instr := convert_ip_to_linear w r in
    if user_mode r && (TASK_SIZE_MAX <=? instr) then false
    else prefetch_loop 15 r w instr false.

(** ** Page tables *)

Definition BUG_UNLESS (b : bool) : PF W () := BUG_ON (negb b).

(** Copies the kernel's top-level entry when it is missing; the entry of the level
    below, or none. *)
Definition vmalloc_sync (address : Z) : PF W (option Z) :=
  base ← ask cr3_base;
  let pgd := pgd_offset base address in
  let pgd_k := pgd_offset init_mm_pgd address in
  k ← entry_at pgd_k;
  if pgd_none k then mret None
  else
    (if pgtable_l5_enabled then
       v ← entry_at pgd;
       if pgd_none v then set_entry pgd k;; emit EFlush
       else BUG_UNLESS (pgd_page_vaddr v =? pgd_page_vaddr k)
     else mret ());;
    v ← entry_at pgd;
    k ← entry_at pgd_k;
    let p4d := p4d_offset pgd v address in
    let p4d_k := p4d_offset pgd_k k address in
    k4 ← entry_at p4d_k;
    if p4d_none k4 then mret None
    else
      v4 ← entry_at p4d;
      (if p4d_none v4 && negb pgtable_l5_enabled then set_entry p4d k4;; emit EFlush
       else BUG_UNLESS (p4d_pfn v4 =? p4d_pfn k4));;
      v4 ← entry_at p4d;
      mret (Some v4).

(** Whether the walk from there ends in a present page. *)
Definition vmalloc_walk (p4d address : Z) : PF W Z :=
  pud ← entry_at (pud_offset p4d address);
  if pud_none pud then mret (-1)
  else if pud_large pud then mret 0
  else
    pmd ← entry_at (pmd_offset pud address);
    if pmd_none pmd then mret (-1)
    else if pmd_large pmd then mret 0
    else
      pte ← entry_at (pte_offset_kernel pmd address);
      if negb (pte_present pte) then mret (-1) else mret 0.

Definition vmalloc_fault (address : Z) : PF W Z :=
  if negb ((VMALLOC_START <=? address) && (address <? VMALLOC_END)) then mret (-1)
  else
    p4d ← vmalloc_sync address;
    match p4d with None => mret (-1) | Some p4d => vmalloc_walk p4d address end.

(** Reading an entry that may not be there. *)
Definition bad_address (s : pf_state W) (p : Z) : bool :=
  match tables s !! p with Some _ => false | None => true end.

Definition dump_pagetable (address : Z) : PF W () :=
  let out := emit (EPrint "\n" []) in
  let bad := emit (EPrint "BAD\n" []) in
  base ← ask cr3_base;
  let pgd := pgd_offset base address in
  b ← getr (λ s, bad_address s pgd);
  if (b : bool) then bad
  else
    v ← entry_at pgd;
    emit (EPrint "PGD %lx " [v]);;
    if negb (pgd_present v) then out
    else
      let p4d := p4d_offset pgd v address in
      b ← getr (λ s, bad_address s p4d);
      if (b : bool) then bad
      else
        v ← entry_at p4d;
        emit (EPrint "P4D %lx " [v]);;
        if negb (p4d_present v) || p4d_large v then out
        else
          let pud := pud_offset v address in
          b ← getr (λ s, bad_address s pud);
          if (b : bool) then bad
          else
            v ← entry_at pud;
            emit (EPrint "PUD %lx " [v]);;
            if negb (pud_present v) || pud_large v then out
            else
              let pmd := pmd_offset v address in
              b ← getr (λ s, bad_address s pmd);
              if (b : bool) then bad
              else
                v ← entry_at pmd;
                emit (EPrint "PMD %lx " [v]);;
                if negb (pmd_present v) || pmd_large v then out
                else
                  let pte := pte_offset_kernel v address in
                  b ← getr (λ s, bad_address s pte);
                  if (b : bool) then bad
                  else v ← entry_at pte; emit (EPrint "PTE %lx" [v]);; out.

(** ** Errata *)

Definition is_errata93 (address : Z) : PF W bool :=
  '(vendor, family) ← ask boot_cpu_vendor_family;
  if negb (vendor =? X86_VENDOR_AMD) || negb (family =? 0xf) then mret false
  else
    r ← getr regs;
    if negb (address =? ip r) then mret false
    else if negb (Z.shiftr address 32 =? 0) then mret false
    else
      let address := Z.lor address (shl64 0xffffffff 32) in
      if ((stext <=? address) && (address <=? etext)) || ((MODULES_VADDR <=? address) && (address <=? MODULES_END)) then
        emit (EPrint "errata93_warning" []);;
        upd (λ s, set_regs (Regs address (sp r) (cs r) (eflags r)) s);;
        mret true
      else mret false.

Definition is_errata100 (r : pt_regs) (address : Z) : bool :=
  ((cs r =? USER32_CS) || has (cs r) (Z.shiftl 1 2)) && truthy (Z.shiftr address 32).

(** Without CONFIG_X86_F00F_BUG. *)
Definition is_f00f_bug : bool := false.

(** ** Reports *)

Definition show_ldttss (gdt : desc_ptr) (name : string) (index : Z) : PF W () :=
  let offset := u32 (Z.shiftr index 3 * 8) in
  if index =? 0 then emit (EPrint (name +:+ ": NULL\n") [])
  else if d_size gdt <=? offset + 16 then emit (EPrint (name +:+ ": 0x%hx -- out of bounds\n") [index])
  else
    desc ← ask (λ w, probe_ldttss w (u64 (d_address gdt + offset)));
    match desc with
    | None => emit (EPrint (name +:+ ": 0x%hx -- GDT entry is not readable\n") [index])
    | Some desc =>
        let addr := Z.lor (Z.lor (base0 desc) (Z.shiftl (base1 desc) 16)) (Z.shiftl (base2 desc) 24) in
        let addr := Z.lor addr (shl64 (base3 desc) 32) in
        emit (EPrint (name +:+ ": 0x%hx -- base=0x%lx limit=0x%x\n")
                [index; addr; Z.lor (limit0 desc) (Z.shiftl (limit1 desc) 16)])
    end.

Definition show_fault_oops (error_code address : Z) : PF W () :=
  may ← ask oops_may_print;
  if negb may then mret ()
  else
    r ← getr regs;
    (if has error_code X86_PF_INSTR then
       base ← ask cr3_base;
       let pgd := pgd_offset base address in
       pte ← ask (λ w, lookup_address_in_pgd w pgd address);
       uid ← ask current_uid;
       match pte with
       | None => mret ()
       | Some p =>
           pte ← entry_at p;
           (if pte_present pte && negb (pte_exec pte) then
              emit (EPrint "kernel tried to execute NX-protected page - exploit attempt? (uid: %d)\n" [uid])
            else mret ());;
           (if pte_present pte && pte_exec pte then
              v ← entry_at pgd;
              cr4 ← ask read_cr4;
              if has (pgd_flags v) PAGE_USER && has cr4 X86_CR4_SMEP then
                emit (EPrint "unable to execute userspace code (SMEP?) (uid: %d)\n" [uid])
              else mret ()
            else mret ())
       end
     else mret ());;
    (if (address <? PF_PAGE_SIZE) && negb (user_mode r) then
       emit (EPrint "BUG: kernel NULL pointer dereference, address: %px\n" [address])
     else emit (EPrint "BUG: unable to handle page fault for address: %px\n" [address]));;
    emit (EPrint
      ("#PF: " +:+ (if has error_code X86_PF_USER then "user" else "supervisor") +:+ " " +:+
       (if has error_code X86_PF_INSTR then "instruction fetch"
        else if has error_code X86_PF_WRITE then "write access" else "read access") +:+ " in " +:+
       (if user_mode r then "user" else "kernel") +:+ " mode\n") []);;
    emit (EPrint
      ("#PF: error_code(0x%04lx) - " +:+
       (if negb (has error_code X86_PF_PROT) then "not-present page"
        else if has error_code X86_PF_RSVD then "reserved bit violation"
        else if has error_code X86_PF_PK then "protection keys violation" else "permissions violation") +:+ "\n")
      [error_code]);;
    (if negb (has error_code X86_PF_USER) && user_mode r then
       idt ← ask store_idt;
       gdt ← ask native_store_gdt;
       emit (EPrint "IDT: 0x%lx (limit=0x%hx) GDT: 0x%lx (limit=0x%hx)\n"
               [d_address idt; d_size idt; d_address gdt; d_size gdt]);;
       ldtr ← ask store_ldt;
       show_ldttss gdt "LDTR" ldtr;;
       tr ← ask store_tr;
       show_ldttss gdt "TR" tr
     else mret ());;
    dump_pagetable address.

Definition pgtable_bad (error_code address : Z) : PF W () :=
  emit EOopsBegin;;
  emit (EPrint "Corrupted page table at address %lx\n" [address]);;
  dump_pagetable address;;
  r ← getr regs;
  d ← kcall (die "Bad pagetable" r error_code);
  oops_end (if (d : bool) then 0 else SIGKILL).

Definition set_signal_archinfo (address error_code : Z) : PF W () :=
  let error_code := if TASK_SIZE_MAX <=? address then Z.lor error_code X86_PF_PROT else error_code in
  upd (λ s, set_tsk (Task X86_TRAP_PF (Z.lor error_code X86_PF_USER) address (maj_flt (tsk s)) (min_flt (tsk s))) s).

Definition show_signal_msg (error_code address : Z) : PF W () :=
  unhandled ← ask (λ w, unhandled_signal w SIGSEGV);
  if negb unhandled then mret ()
  else
    ok ← kcall printk_ratelimit;
    if negb ok then mret ()
    else
      r ← getr regs;
      pid ← ask current_pid;
      emit (EPrint ((if 1 <? pid then "6" else "0") +:+ "%s[%d]: segfault at %lx ip %px sp %px error %lx")
              [pid; address; ip r; sp r; error_code]);;
      emit (EPrint " in " [ip r]);;
      emit (EPrint "\n" []);;
      emit (EPrint "show_opcodes" [ip r]).

(** ** Faults that are not repaired *)

Definition no_context_oops (error_code address : Z) : PF W () :=
  emit EOopsBegin;;
  show_fault_oops error_code address;;
  corrupted ← ask task_stack_end_corrupted;
  (if (corrupted : bool) then emit (EPrint "Thread overran stack, or stack corrupted\n" []) else mret ());;
  r ← getr regs;
  d ← kcall (die "Oops" r error_code);
  emit (EPrint "CR2: %016lx\n" [address]);;
  oops_end (if (d : bool) then 0 else SIGKILL).

Definition no_context (error_code address signal si_code : Z) : PF W () :=
  r ← getr regs;
  if user_mode r then no_context_oops error_code address
  else
    fixed ← kcall_regs (λ r, fixup_exception r X86_TRAP_PF error_code address);
    if (fixed : bool) then
      irq ← ask in_interrupt;
      if (irq : bool) then mret ()
      else
        onerr ← ask sig_on_uaccess_err;
        if onerr && truthy signal then
          set_signal_archinfo address error_code;; emit (ESignal signal si_code address)
        else mret ()
    else
      stack ← ask task_stack;
      if ((VMALLOC_START <=? address) && (address <? VMALLOC_END)) &&
         ((u64 (stack - 1 - address) <? PF_PAGE_SIZE) || (u64 (address - (stack + THREAD_SIZE)) <? PF_PAGE_SIZE))
      then halt_with HStackOverflow
      else
        r ← getr regs;
        prefetch ← ask (λ w, is_prefetch r w error_code);
        if (prefetch : bool) then mret ()
        else
          errata ← is_errata93 address;
          if (errata : bool) then mret ()
          else emit (EEfiRecover address);; no_context_oops error_code address.

Definition is_vsyscall_vaddr (vaddr : Z) : bool := Z.land vaddr PAGE_MASK =? VSYSCALL_ADDR.

Definition __bad_area_nosemaphore (error_code address pkey si_code : Z) : PF W () :=
  r ← getr regs;
  if user_mode r && has error_code X86_PF_USER then
    emit EIrqEnable;;
    prefetch ← ask (λ w, is_prefetch r w error_code);
    if (prefetch : bool) then mret ()
    else if is_errata100 r address then mret ()
    else
      let error_code := if TASK_SIZE_MAX <=? address then Z.lor error_code X86_PF_PROT else error_code in
      show ← ask show_unhandled_signals;
      (if (show : bool) then show_signal_msg error_code address else mret ());;
      set_signal_archinfo address error_code;;
      (if si_code =? SEGV_PKUERR then emit (EPkuerr address pkey) else mret ());;
      emit (ESignal SIGSEGV si_code address)
  else if is_f00f_bug then mret ()
  else no_context error_code address SIGSEGV si_code.

Definition bad_area_nosemaphore (error_code address : Z) : PF W () :=
  __bad_area_nosemaphore error_code address 0 SEGV_MAPERR.

Definition __bad_area (error_code address pkey si_code : Z) : PF W () :=
  up_read;; __bad_area_nosemaphore error_code address pkey si_code.

Definition bad_area (error_code address : Z) : PF W () := __bad_area error_code address 0 SEGV_MAPERR.

Definition bad_area_access_from_pkeys (w : W) (error_code : Z) (vma : vm_area) : bool :=
  if negb (boot_cpu_has_ospke w) then false
  else if has error_code X86_PF_PK then true
  else negb (arch_vma_access_permitted w vma (has error_code X86_PF_WRITE) (has error_code X86_PF_INSTR) false).

Definition bad_area_access_error (error_code address : Z) (vma : vm_area) : PF W () :=
  pk ← ask (λ w, bad_area_access_from_pkeys w error_code vma);
  if (pk : bool) then __bad_area error_code address (vm_pkey vma) SEGV_PKUERR
  else __bad_area error_code address 0 SEGV_ACCERR.

Definition do_sigbus (error_code address fault : Z) : PF W () :=
  if negb (has error_code X86_PF_USER) then no_context error_code address SIGBUS BUS_ADRERR
  else
    r ← getr regs;
    prefetch ← ask (λ w, is_prefetch r w error_code);
    if (prefetch : bool) then mret ()
    else
      set_signal_archinfo address error_code;;
      if has fault (Z.lor VM_FAULT_HWPOISON VM_FAULT_HWPOISON_LARGE) then
        emit (EPrint "MCE: Killing %s:%d due to hardware memory corruption fault at %lx\n" [address]);;
        let lsb := 0 in
        let lsb := if has fault VM_FAULT_HWPOISON_LARGE then hstate_index_to_shift (VM_FAULT_GET_HINDEX fault) else lsb in
        let lsb := if has fault VM_FAULT_HWPOISON then PAGE_SHIFT else lsb in
        emit (EMceerr BUS_MCEERR_AR address lsb)
      else emit (ESignal SIGBUS BUS_ADRERR address).

Definition mm_fault_error (error_code address fault : Z) : PF W () :=
  fatal ← ask fatal_signal_pending;
  if fatal && negb (has error_code X86_PF_USER) then no_context error_code address 0 0
  else if has fault VM_FAULT_OOM then
    if negb (has error_code X86_PF_USER) then no_context error_code address SIGSEGV SEGV_MAPERR
    else emit EOutOfMemory
  else if has fault (Z.lor VM_FAULT_SIGBUS (Z.lor VM_FAULT_HWPOISON VM_FAULT_HWPOISON_LARGE)) then
    do_sigbus error_code address fault
  else if has fault VM_FAULT_SIGSEGV then bad_area_nosemaphore error_code address
  else halt_with HBug.

(** ** Stale translations *)

Definition spurious_kernel_fault_check (error_code pte : Z) : bool :=
  if has error_code X86_PF_WRITE && negb (pte_write pte) then false
  else if has error_code X86_PF_INSTR && negb (pte_exec pte) then false
  else true.

Definition spurious_kernel_fault (error_code address : Z) : PF W bool :=
  if negb (error_code =? Z.lor X86_PF_WRITE X86_PF_PROT) && negb (error_code =? Z.lor X86_PF_INSTR X86_PF_PROT)
  then mret false
  else
    let pgd := pgd_offset init_mm_pgd address in
    v ← entry_at pgd;
    if negb (pgd_present v) then mret false
    else
      p4d ← entry_at (p4d_offset pgd v address);
      if negb (p4d_present p4d) then mret false
      else if p4d_large p4d then mret (spurious_kernel_fault_check error_code p4d)
      else
        pud ← entry_at (pud_offset p4d address);
        if negb (pud_present pud) then mret false
        else if pud_large pud then mret (spurious_kernel_fault_check error_code pud)
        else
          pmd ← entry_at (pmd_offset pud address);
          if negb (pmd_present pmd) then mret false
          else if pmd_large pmd then mret (spurious_kernel_fault_check error_code pmd)
          else
            pte ← entry_at (pte_offset_kernel pmd address);
            if negb (pte_present pte) then mret false
            else if negb (spurious_kernel_fault_check error_code pte) then mret false
            else
              let ret := spurious_kernel_fault_check error_code pmd in
              (if negb ret then emit (EWarn "PMD has incorrect permission bits\n") else mret ());;
              mret ret.

(** ** Access rights *)

(** Whether the access is an error. *)
Definition access_error (w : W) (error_code : Z) (vma : vm_area) : bool :=
  if has error_code X86_PF_PK then true
  else if negb (arch_vma_access_permitted w vma (has error_code X86_PF_WRITE) (has error_code X86_PF_INSTR) false) then true
  else if has error_code X86_PF_WRITE then negb (has (vm_flags vma) VM_WRITE)
  else if has error_code X86_PF_PROT then true
  else negb (has (vm_flags vma) (Z.lor VM_READ (Z.lor VM_EXEC VM_WRITE))).

Definition fault_in_kernel_space (address : Z) : bool :=
  if is_vsyscall_vaddr address then false else TASK_SIZE_MAX <=? address.

(** ** Faults on kernel addresses *)

Definition do_kern_addr_fault (hw_error_code address : Z) : PF W () :=
  (if has hw_error_code X86_PF_PK then emit (EWarn "WARN_ON_ONCE") else mret ());;
  done ← (if negb (has hw_error_code (Z.lor X86_PF_RSVD (Z.lor X86_PF_USER X86_PF_PROT))) then
            r ← vmalloc_fault address; mret (0 <=? r)
          else mret false);
  if (done : bool) then mret ()
  else
    spurious ← spurious_kernel_fault hw_error_code address;
    if (spurious : bool) then mret ()
    else
      probe ← kcall_regs (λ r, kprobe_page_fault r X86_TRAP_PF);
      if (probe : bool) then mret ()
      else bad_area_nosemaphore hw_error_code address.

(** ** Faults on user addresses *)

(** The count of major and minor faults, each an unsigned long. *)
Definition account_fault (major : bool) : PF W () :=
  if major then
    upd (λ s, let t := tsk s in
      set_tsk (Task (trap_nr t) (thread_error_code t) (cr2 t) (u64 (maj_flt t + 1)) (min_flt t)) s);;
    emit (EFaultEvent "PERF_COUNT_SW_PAGE_FAULTS_MAJ")
  else
    upd (λ s, let t := tsk s in
      set_tsk (Task (trap_nr t) (thread_error_code t) (cr2 t) (maj_flt t) (u64 (min_flt t + 1))) s);;
    emit (EFaultEvent "PERF_COUNT_SW_PAGE_FAULTS_MIN").

(** The area of the address, if it can be used. *)
Definition find_area (address : Z) : PF W (option vm_area) :=
  vma ← ask (λ w, find_vma w address);
  match vma with
  | None => mret None
  | Some vma =>
      if vm_start vma <=? address then mret (Some vma)
      else if negb (has (vm_flags vma) VM_GROWSDOWN) then mret None
      else
        err ← kcall (expand_stack vma address);
        if truthy err then mret None else mret (Some vma)
  end.

(** From the search of the area on, with the semaphore held; [n] bounds the
    times control comes back to the label [retry]. *)
Fixpoint fault_retry (n : nat) (hw_error_code address flags : Z) (major : bool) : PF W () :=
  vma ← find_area address;
  match vma with
  | None => bad_area hw_error_code address
  | Some vma =>
      err ← ask (λ w, access_error w hw_error_code vma);
      if (err : bool) then bad_area_access_error hw_error_code address vma
      else
        fault ← mm_fault vma address flags;
        let major := major || has fault VM_FAULT_MAJOR in
        if has fault VM_FAULT_RETRY then
          '(again, flags) ←
            (if has flags FAULT_FLAG_ALLOW_RETRY then
               let flags := Z.lor (Z.ldiff flags FAULT_FLAG_ALLOW_RETRY) FAULT_FLAG_TRIED in
               fatal ← ask fatal_signal_pending;
               mret (negb fatal, flags)
             else mret (false, flags));
          if (again : bool) then
            match n with
            | O => halt_with HNoFuel
            | S n => down_read;; fault_retry n hw_error_code address flags major
            end
          else if has flags FAULT_FLAG_USER then mret ()
          else no_context hw_error_code address SIGBUS BUS_ADRERR
        else
          up_read;;
          if has fault VM_FAULT_ERROR then mm_fault_error hw_error_code address fault
          else account_fault major
  end.

Definition do_user_addr_fault (hw_error_code address : Z) : PF W () :=
  let flags := Z.lor FAULT_FLAG_ALLOW_RETRY FAULT_FLAG_KILLABLE in
  mm ← ask current_mm;
  probe ← kcall_regs (λ r, kprobe_page_fault r X86_TRAP_PF);
  if (probe : bool) then mret ()
  else
    (if has hw_error_code X86_PF_RSVD then pgtable_bad hw_error_code address else mret ());;
    smap ← ask boot_cpu_has_smap;
    r ← getr regs;
    if smap && negb (has hw_error_code X86_PF_USER) && negb (has (eflags r) X86_EFLAGS_AC) then
      bad_area_nosemaphore hw_error_code address
    else
      disabled ← ask faulthandler_disabled;
      if disabled || negb (truthy mm) then bad_area_nosemaphore hw_error_code address
      else
        flags ← (if user_mode r then emit EIrqEnable;; mret (Z.lor flags FAULT_FLAG_USER)
                 else (if has (eflags r) X86_EFLAGS_IF then emit EIrqEnable else mret ());; mret flags);
        emit (EFaultEvent "PERF_COUNT_SW_PAGE_FAULTS");;
        let flags := if has hw_error_code X86_PF_WRITE then Z.lor flags FAULT_FLAG_WRITE else flags in
        let flags := if has hw_error_code X86_PF_INSTR then Z.lor flags FAULT_FLAG_INSTRUCTION else flags in
        emulated ← (if is_vsyscall_vaddr address then kcall_regs (λ r, emulate_vsyscall hw_error_code r address) else mret false);
        if (emulated : bool) then mret ()
        else
          locked ← trylock;
          if (locked : bool) then fault_retry 1 hw_error_code address flags false
          else
            r ← getr regs;
            known ← ask (λ w, search_exception_tables w (ip r));
            if negb (user_mode r) && negb known then bad_area_nosemaphore hw_error_code address
            else down_read;; fault_retry 1 hw_error_code address flags false.

(** ** Entry *)

Definition __do_page_fault (hw_error_code address : Z) : PF W () :=
  k ← kmmio_fault address;
  if truthy k then mret ()
  else if fault_in_kernel_space address then do_kern_addr_fault hw_error_code address
  else do_user_addr_fault hw_error_code address.

Definition trace_page_fault_entries (error_code address : Z) : PF W () :=
  on ← ask trace_pagefault_enabled;
  if negb on then mret ()
  else r ← getr regs; emit (ETrace (user_mode r) address error_code).

Definition do_page_fault (error_code address : Z) : PF W () :=
  prev_state ← kcall exception_enter;
  trace_page_fault_entries error_code address;;
  __do_page_fault error_code address;;
  kcall_ (exception_exit prev_state).
End fault.
