(* ===== verification/FaultInv.v ===== *)
(** * The page-fault handler: what its parts leave alone *)
From S2P Require Import FaultDefs Prelude.

(** A run from [s]: [Q] if it returns, [H] if it halts. *)
Definition run {W A} (Q : A → pf_state W → Prop) (H : halt → pf_state W → Prop) (m : PF W A) (s : pf_state W) : Prop :=
  match m s with Ret a s' => Q a s' | Halt h s' => H h s' end.

Section run_laws.
Context {W : Type}.

Lemma run_bind {A B} Q H (m : PF W A) (k : A → PF W B) s :
  run Q H (m ≫= k) s ↔ run (λ a s', run Q H (k a) s') H m s.
Proof. unfold run, mbind, PF_bind. by destruct (m s). Qed.

Lemma run_ret {A} Q H (a : A) (s : pf_state W) : run Q H (mret a) s ↔ Q a s.
Proof. done. Qed.

Lemma run_mono {A} (Q Q' : A → pf_state W → Prop) (H H' : halt → pf_state W → Prop) (m : PF W A) s :
  run Q H m s → (∀ a s', Q a s' → Q' a s') → (∀ h s', H h s' → H' h s') → run Q' H' m s.
Proof. unfold run. destruct (m s); eauto. Qed.

Lemma run_and {A} (Q Q' : A → pf_state W → Prop) (H H' : halt → pf_state W → Prop) (m : PF W A) s :
  run Q H m s → run Q' H' m s → run (λ a s', Q a s' ∧ Q' a s') (λ h s', H h s' ∧ H' h s') m s.
Proof. unfold run. destruct (m s); eauto. Qed.
End run_laws.

(** A reason to halt that is not a mistake of the handler's bookkeeping. *)
Definition proper (h : halt) : Prop := h ≠ HNotLocked ∧ h ≠ HNoFuel.

(** [keeps f m]: whether [m] returns or halts, [f] of the state is as before,
    and it halts for a proper reason. *)
Definition keeps {W A X} (f : pf_state W → X) (m : PF W A) : Prop :=
  ∀ s, run (λ _ s', f s' = f s) (λ h s', f s' = f s ∧ proper h) m s.

Create HintDb keeps.

Section keeps_laws.
Context {W : Type} `{!Kern W} {X : Type} (f : pf_state W → X).

Lemma keeps_ret {A} (a : A) : keeps f (mret a).
Proof. by intros s. Qed.

Lemma keeps_bind {A B} (m : PF W A) (k : A → PF W B) : keeps f m → (∀ a, keeps f (k a)) → keeps f (m ≫= k).
Proof.
  intros Hm Hk s. rewrite run_bind. eapply run_mono; [apply Hm| |done]. intros a s1 Hs1. cbn beta.
  eapply run_mono; [apply Hk|..]; cbn; intros; rewrite <- Hs1; tauto.
Qed.

Lemma keeps_ask {A} (g : W → A) : keeps f (ask g).
Proof. by intros s. Qed.
Lemma keeps_getr {A} (g : pf_state W → A) : keeps f (getr g).
Proof. by intros s. Qed.
Lemma keeps_halt {A} h : proper h → keeps f (halt_with (A:=A) h).
Proof. by intros Hh s. Qed.
Lemma keeps_entry_at p : keeps f (entry_at p).
Proof. intros s. unfold run, entry_at. by destruct (tables s !! p). Qed.
Lemma keeps_upd g : (∀ s, f (g s) = f s) → keeps f (upd g).
Proof. intros Hg s. apply Hg. Qed.
End keeps_laws.

Lemma proper_bug : proper HBug.
Proof. done. Qed.
Lemma proper_exit sig : proper (HExit sig).
Proof. done. Qed.
Lemma proper_overflow : proper HStackOverflow.
Proof. done. Qed.
#[export] Hint Resolve proper_bug proper_exit proper_overflow : keeps.
#[export] Hint Resolve keeps_ret keeps_ask keeps_getr keeps_halt keeps_entry_at : keeps.

(** Goes through the code of a part, and leaves what it finds no lemma for. *)
Ltac keeps_step :=
  match goal with
  | |- keeps _ (_ ≫= _) => apply keeps_bind; [|intros ?]
  | |- keeps _ (if ?b then _ else _) => destruct b
  | |- keeps _ (match ?x with _ => _ end) => destruct x
  | |- keeps _ (let _ := _ in _) => cbv zeta
  | |- _ => solve [eauto with keeps]
  end.
Ltac keeps_tac := repeat keeps_step.

(** What the parts of the handler that run without the semaphore keep: how many
    hold it, and the calls of the memory manager. *)
Definition is_handle (e : event) : bool := match e with EHandle _ _ _ => true | _ => false end.
Definition handles {W} (s : pf_state W) : list event := filter is_handle (events s).
Definition counts {W} (s : pf_state W) : Z * Z := (maj_flt (tsk s), min_flt (tsk s)).
Definition kept {W} (s : pf_state W) : Z * list event * (Z * Z) := (mmap_sem s, handles s, counts s).

Section parts.
Context {W : Type} `{!Kern W}.

Lemma keeps_emit e : is_handle e = false → keeps (W:=W) kept (emit e).
Proof.
  intros He s. unfold run, emit, kept, handles, counts. cbn. rewrite list.filter_app. cbn. unfold filter at 2. cbn.
  rewrite He. cbn. by rewrite app_nil_r.
Qed.
Lemma keeps_kcall {A} (g : W → A * W) : keeps kept (kcall g).
Proof. intros s. unfold run, kcall. by destruct (g (world s)). Qed.
Lemma keeps_kcall_ (g : W → W) : keeps kept (kcall_ g).
Proof. by intros s. Qed.
Lemma keeps_kcall_regs {A} (g : pt_regs → W → (A * pt_regs) * W) : keeps kept (kcall_regs g).
Proof. intros s. unfold run, kcall_regs. by destruct (g (regs s) (world s)) as [[x r] w]. Qed.
Lemma keeps_set_entry p v : keeps (W:=W) kept (set_entry p v).
Proof. by intros s. Qed.
End parts.
#[export] Hint Resolve keeps_kcall keeps_kcall_ keeps_kcall_regs keeps_set_entry : keeps.
#[export] Hint Extern 1 (keeps kept (emit _)) => (apply keeps_emit; reflexivity) : keeps.
#[export] Hint Extern 1 (keeps kept (upd _)) => (apply keeps_upd; intros ?; reflexivity) : keeps.

Section handler.
Context {W : Type} `{!Kern W}.
Implicit Types e address : Z.

Lemma keeps_BUG_ON b : keeps (W:=W) kept (BUG_ON b).
Proof. unfold BUG_ON. keeps_tac. Qed.
#[local] Hint Resolve keeps_BUG_ON : keeps.

Lemma keeps_oops_end sig : keeps (W:=W) kept (oops_end sig).
Proof. unfold oops_end. keeps_tac. Qed.
#[local] Hint Resolve keeps_oops_end : keeps.

Lemma keeps_kmmio_fault address : keeps (W:=W) kept (kmmio_fault address).
Proof. unfold kmmio_fault. keeps_tac. Qed.

Lemma keeps_vmalloc_fault address : keeps (W:=W) kept (vmalloc_fault address).
Proof. unfold vmalloc_fault, vmalloc_sync, vmalloc_walk, BUG_UNLESS. keeps_tac. Qed.

Lemma keeps_dump_pagetable address : keeps (W:=W) kept (dump_pagetable address).
Proof. unfold dump_pagetable. keeps_tac. Qed.
#[local] Hint Resolve keeps_dump_pagetable : keeps.

Lemma keeps_show_ldttss gdt name index : keeps (W:=W) kept (show_ldttss gdt name index).
Proof. unfold show_ldttss. keeps_tac. Qed.
#[local] Hint Resolve keeps_show_ldttss : keeps.

Lemma keeps_show_fault_oops e address : keeps (W:=W) kept (show_fault_oops e address).
Proof. unfold show_fault_oops. keeps_tac. Qed.
#[local] Hint Resolve keeps_show_fault_oops : keeps.

Lemma keeps_pgtable_bad e address : keeps (W:=W) kept (pgtable_bad e address).
Proof. unfold pgtable_bad. keeps_tac. Qed.

Lemma keeps_set_signal_archinfo address e : keeps (W:=W) kept (set_signal_archinfo address e).
Proof. unfold set_signal_archinfo. keeps_tac. Qed.
#[local] Hint Resolve keeps_set_signal_archinfo : keeps.

Lemma keeps_show_signal_msg e address : keeps (W:=W) kept (show_signal_msg e address).
Proof. unfold show_signal_msg. keeps_tac. Qed.
#[local] Hint Resolve keeps_show_signal_msg : keeps.

Lemma keeps_is_errata93 address : keeps (W:=W) kept (is_errata93 address).
Proof. unfold is_errata93. keeps_tac. Qed.
#[local] Hint Resolve keeps_is_errata93 : keeps.

Lemma keeps_no_context_oops e address : keeps (W:=W) kept (no_context_oops e address).
Proof. unfold no_context_oops. keeps_tac. Qed.
#[local] Hint Resolve keeps_no_context_oops : keeps.

Lemma keeps_no_context e address signal code : keeps (W:=W) kept (no_context e address signal code).
Proof. unfold no_context. keeps_tac. Qed.
#[local] Hint Resolve keeps_no_context : keeps.

Lemma keeps_bad_area_nosem e address pkey code : keeps (W:=W) kept (__bad_area_nosemaphore e address pkey code).
Proof. unfold __bad_area_nosemaphore. keeps_tac. Qed.
#[local] Hint Resolve keeps_bad_area_nosem : keeps.

Lemma keeps_bad_area_nosemaphore e address : keeps (W:=W) kept (bad_area_nosemaphore e address).
Proof. apply keeps_bad_area_nosem. Qed.
#[local] Hint Resolve keeps_bad_area_nosemaphore : keeps.

Lemma keeps_do_sigbus e address fault : keeps (W:=W) kept (do_sigbus e address fault).
Proof. unfold do_sigbus. keeps_tac. Qed.
#[local] Hint Resolve keeps_do_sigbus : keeps.

Lemma keeps_mm_fault_error e address fault : keeps (W:=W) kept (mm_fault_error e address fault).
Proof. unfold mm_fault_error. keeps_tac. Qed.

Lemma keeps_spurious e address : keeps (W:=W) kept (spurious_kernel_fault e address).
Proof. unfold spurious_kernel_fault. keeps_tac. Qed.
#[local] Hint Resolve keeps_vmalloc_fault keeps_spurious : keeps.

Lemma keeps_do_kern_addr_fault e address : keeps (W:=W) kept (do_kern_addr_fault e address).
Proof. unfold do_kern_addr_fault. keeps_tac. Qed.

Lemma keeps_find_area address : keeps (W:=W) kept (find_area address).
Proof. unfold find_area. keeps_tac. Qed.

Lemma keeps_trace e address : keeps (W:=W) kept (trace_page_fault_entries e address).
Proof. unfold trace_page_fault_entries. keeps_tac. Qed.
End handler.
