(* ===== verification/FaultRetry.v ===== *)
(** * The page-fault handler: the semaphore, the retry and the accounting *)
From S2P Require Import FaultDefs FaultInv Prelude.

(** ** The calls of the memory manager *)

Definition result (e : event) : Z := match e with EHandle _ _ r => r | _ => 0 end.

Definition retry_flags (flags : Z) : Z := Z.lor (Z.ldiff flags FAULT_FLAG_ALLOW_RETRY) FAULT_FLAG_TRIED.

(** The calls for one fault: after a request to retry there may be one more,
    which is told so and cannot be retried. *)
Inductive calls (address flags : Z) : list event → Prop :=
| calls_none : calls address flags []
| calls_one r : calls address flags [EHandle address flags r]
| calls_two r r' :
    has flags FAULT_FLAG_ALLOW_RETRY = true → has r VM_FAULT_RETRY = true →
    calls address flags [EHandle address flags r; EHandle address (retry_flags flags) r'].

Lemma retry_flags_no_retry flags : has (retry_flags flags) FAULT_FLAG_ALLOW_RETRY = false.
Proof.
  unfold has, retry_flags. by rewrite Z.land_lor_distr_l, Z.land_ldiff.
Qed.

(** The fault was resolved by the last call. *)
Definition resolved (hs : list event) : bool :=
  match list.last hs with
  | Some e => negb (has (result e) VM_FAULT_RETRY) && negb (has (result e) VM_FAULT_ERROR)
  | None => false
  end.

(** The counts of major and minor faults after the calls [hs]. *)
Definition counted (major : bool) (hs : list event) (c : Z * Z) : Z * Z :=
  if resolved hs then
    if major || existsb (λ e, has (result e) VM_FAULT_MAJOR) hs then (u64 (c.1 + 1), c.2) else (c.1, u64 (c.2 + 1))
  else c.

Lemma resolved_cons e e' hs : resolved (e :: e' :: hs) = resolved (e' :: hs).
Proof. done. Qed.

Lemma counted_cons e e' hs major c :
  counted major (e :: e' :: hs) c = counted (major || has (result e) VM_FAULT_MAJOR) (e' :: hs) c.
Proof. unfold counted. rewrite resolved_cons. cbn [existsb]. by rewrite orb_assoc. Qed.

Section retry.
Context {W : Type} `{!Kern W}.
Implicit Types s : pf_state W.

(** A part that keeps everything, as a step of a proof. *)
Lemma run_keeps {A} (Q : A → pf_state W → Prop) (H : halt → pf_state W → Prop) (m : PF W A) s :
  keeps kept m →
  (∀ a s', mmap_sem s' = mmap_sem s → handles s' = handles s → counts s' = counts s → Q a s') →
  (∀ h s', mmap_sem s' = mmap_sem s → handles s' = handles s → counts s' = counts s → proper h → H h s') →
  run Q H m s.
Proof.
  intros Hm HQ HH. eapply run_mono; [apply Hm|..]; cbn beta.
  - intros a s' [= ? ? ?]. apply HQ; [done..|]. unfold counts. congruence.
  - intros h s' [[= ? ? ?] ?]. apply HH; [done..| |done]. unfold counts. congruence.
Qed.

Lemma up_read_spec s (Q : () → pf_state W → Prop) H :
  0 < mmap_sem s → Q () (set_sem (mmap_sem s - 1) s) → run Q H up_read s.
Proof. intros Hs HQ. unfold run, up_read. by rewrite (proj2 (Z.ltb_lt _ _) Hs). Qed.

Lemma mm_fault_spec vma address flags s (Q : Z → pf_state W → Prop) H :
  0 < mmap_sem s →
  (∀ r s', mmap_sem s' = (if has r VM_FAULT_RETRY then mmap_sem s - 1 else mmap_sem s) →
     handles s' = handles s ++ [EHandle address flags r] → counts s' = counts s → Q r s') →
  run Q H (mm_fault vma address flags) s.
Proof.
  intros Hs HQ. unfold run, mm_fault, kcall, mbind, PF_bind, emit, up_read, mret, PF_ret.
  destruct (handle_mm_fault vma address flags (world s)) as [r w]. cbn.
  assert (∀ s', events s' = events s ++ [EHandle address flags r] → handles s' = handles s ++ [EHandle address flags r])
    as Hh by (intros s' He; unfold handles; by rewrite He, list.filter_app).
  specialize (HQ r). destruct (has r VM_FAULT_RETRY); cbn; [rewrite (proj2 (Z.ltb_lt _ _) Hs)|];
    apply HQ; done || by apply Hh.
Qed.

Lemma down_read_spec s (Q : () → pf_state W → Prop) H :
  (∀ s', mmap_sem s' = mmap_sem s + 1 → handles s' = handles s → counts s' = counts s → Q () s') →
  run Q H down_read s.
Proof. intros HQ. unfold run, down_read, mbind, PF_bind, kcall_, upd. by apply HQ. Qed.

Lemma account_spec (major : bool) s (Q : () → pf_state W → Prop) H :
  (∀ s', mmap_sem s' = mmap_sem s → handles s' = handles s →
     counts s' = (if major then (u64 ((counts s).1 + 1), (counts s).2) else ((counts s).1, u64 ((counts s).2 + 1))) → Q () s') →
  run Q H (account_fault major) s.
Proof.
  intros HQ. unfold account_fault. destruct major; unfold run, upd, mbind, PF_bind, emit; apply HQ; try done;
    unfold handles; cbn; by rewrite list.filter_app, app_nil_r.
Qed.

(** What a handled fault leaves behind, seen from [s]: nobody holds the semaphore
    more than before, and the counts follow the calls. *)
Definition left_by (sem : Z) (hs0 : list event) (c : Z * Z) (address flags : Z) (major : bool) (ret : bool) s' : Prop :=
  mmap_sem s' = sem ∧ ∃ hs, handles s' = hs0 ++ hs ∧ calls address flags hs ∧
    counts s' = (if ret then counted major hs c else c).

Lemma find_area_spec address s (Q : option vm_area → pf_state W → Prop) H :
  (∀ vma s', mmap_sem s' = mmap_sem s → handles s' = handles s → counts s' = counts s → Q vma s') →
  run Q H (find_area address) s.
Proof.
  intros HQ. unfold run, find_area, mbind, PF_bind, ask, kcall, mret, PF_ret.
  destruct (find_vma (world s) address) as [vma|]; [|by apply HQ].
  destruct (vm_start vma <=? address); [by apply HQ|]. destruct (negb _); [by apply HQ|].
  destruct (expand_stack vma address (world s)) as [err w]. destruct (truthy err); by apply HQ.
Qed.

(** Releasing the semaphore and reporting the fault, before any call. *)
Lemma bad_area_retry e address pkey code flags major s :
  0 < mmap_sem s →
  run (λ _, left_by (mmap_sem s - 1) (handles s) (counts s) address flags major true)
      (λ h s', left_by (mmap_sem s - 1) (handles s) (counts s) address flags major false s' ∧ proper h)
      (__bad_area e address pkey code) s.
Proof.
  intros Hs. unfold __bad_area. rewrite run_bind. apply up_read_spec; [done|].
  apply run_keeps; [apply keeps_bad_area_nosem|..].
  - intros [] s' Hs' Hh' Hc'. split; [done|]. exists (@nil event). split; [by rewrite app_nil_r|]. split; [constructor|done].
  - intros h s' Hs' Hh' Hc' Hp. split; [|done]. split; [done|]. exists (@nil event). split; [by rewrite app_nil_r|].
    split; [constructor|done].
Qed.

(** After the last call, which did not resolve the fault. *)
Lemma left_last sem hs0 c address flags major r s' :
  mmap_sem s' = sem → handles s' = hs0 ++ [EHandle address flags r] → counts s' = c →
  has r VM_FAULT_RETRY = true ∨ has r VM_FAULT_ERROR = true →
  ∀ ret, left_by sem hs0 c address flags major ret s'.
Proof.
  intros Hs Hh Hc Hr ret. split; [done|]. exists [EHandle address flags r]. split; [done|]. split; [constructor|].
  unfold counted, resolved. cbn. rewrite Hc. destruct ret; [|done].
  destruct Hr as [-> | ->]; cbn; [done|]. by rewrite andb_false_r.
Qed.

(** The second call, after the first has asked for it. *)
Lemma left_twice sem hs0 c address flags major r s1 s2 ret :
  has flags FAULT_FLAG_ALLOW_RETRY = true → has r VM_FAULT_RETRY = true →
  mmap_sem s1 - 1 = sem → handles s1 = hs0 ++ [EHandle address flags r] → counts s1 = c →
  left_by (mmap_sem s1 - 1) (handles s1) (counts s1) address (retry_flags flags)
    (major || has r VM_FAULT_MAJOR) ret s2 →
  left_by sem hs0 c address flags major ret s2.
Proof.
  intros Hallow Hr <- Hh1 <- (Hs2 & hs & Hh2 & Hcalls & Hc2). split; [done|].
  exists (EHandle address flags r :: hs). rewrite Hh2, Hh1, <- app_assoc. split; [done|].
  inversion Hcalls as [|r'|r' r'' Hno]; subst hs.
  - split; [constructor|]. rewrite Hc2. unfold counted, resolved. cbn. by rewrite Hr; destruct ret.
  - split; [by constructor|]. rewrite Hc2. destruct ret; [|done]. by rewrite counted_cons.
  - by rewrite retry_flags_no_retry in Hno.
Qed.

(** Returning to the fatal signal, or handling the exception in the kernel. *)
Lemma not_again sem hs0 c e address flags flags' major r s :
  mmap_sem s = sem → handles s = hs0 ++ [EHandle address flags r] → counts s = c →
  has r VM_FAULT_RETRY = true ∨ has r VM_FAULT_ERROR = true →
  run (λ _, left_by sem hs0 c address flags major true)
      (λ h s', left_by sem hs0 c address flags major false s' ∧ proper h)
      (if has flags' FAULT_FLAG_USER then mret () else no_context e address SIGBUS BUS_ADRERR) s.
Proof.
  intros Hs Hh Hc Hr. destruct (has flags' FAULT_FLAG_USER).
  - rewrite run_ret. by apply (left_last _ _ _ _ _ _ r).
  - apply run_keeps; [apply keeps_no_context|..].
    + intros [] s' Hs' Hh' Hc'. apply (left_last _ _ _ _ _ _ r); [congruence..|done].
    + intros h s' Hs' Hh' Hc' Hp. split; [|done]. apply (left_last _ _ _ _ _ _ r); [congruence..|done].
Qed.

(** The call was the last one: an error is reported, the rest is counted. *)
Lemma after_fault sem hs0 c e address flags major r s :
  0 < mmap_sem s → mmap_sem s - 1 = sem → handles s = hs0 ++ [EHandle address flags r] → counts s = c →
  has r VM_FAULT_RETRY = false →
  run (λ _, left_by sem hs0 c address flags major true)
      (λ h s', left_by sem hs0 c address flags major false s' ∧ proper h)
      (up_read;;
       if has r VM_FAULT_ERROR then mm_fault_error e address r else account_fault (major || has r VM_FAULT_MAJOR)) s.
Proof.
  intros Hpos <- Hh <- Hr. rewrite run_bind. apply up_read_spec; [done|]. set (s0 := set_sem _ s).
  assert (handles s0 = handles s ∧ counts s0 = counts s ∧ mmap_sem s0 = mmap_sem s - 1) as (Hh0 & Hc0 & Hs0) by done.
  clearbody s0. destruct (has r VM_FAULT_ERROR) eqn:He.
  - apply run_keeps; [apply keeps_mm_fault_error|..].
    + intros [] s' Hs' Hh' Hc'. apply (left_last _ _ _ _ _ _ r); [congruence..|by right].
    + intros h s' Hs' Hh' Hc' Hp. split; [|done]. apply (left_last _ _ _ _ _ _ r); [congruence..|by right].
  - apply account_spec. intros s' Hs' Hh' Hc'. split; [congruence|].
    exists [EHandle address flags r]. split; [congruence|]. split; [constructor|].
    unfold counted, resolved. cbn. rewrite Hr, He. cbn. rewrite orb_false_r. by rewrite Hc', Hc0.
Qed.

Lemma fault_retry_spec n e address flags major s :
  0 < mmap_sem s → (has flags FAULT_FLAG_ALLOW_RETRY = true → n ≠ 0%nat) →
  run (λ _, left_by (mmap_sem s - 1) (handles s) (counts s) address flags major true)
      (λ h s', left_by (mmap_sem s - 1) (handles s) (counts s) address flags major false s' ∧ proper h)
      (fault_retry n e address flags major) s.
Proof.
  revert flags major s. induction n as [|n IH]; intros flags major s Hs Hn; cbn [fault_retry].
  all: rewrite run_bind; apply find_area_spec; intros vma s1 Hs1 Hh1 Hc1; rewrite <- Hs1 in Hs |- *; rewrite <- Hh1, <- Hc1.
  all: destruct vma as [vma|]; [|by apply bad_area_retry].
  all: rewrite run_bind; unfold run at 1, ask at 1.
  all: destruct (access_error (world s1) e vma).
  1, 3: unfold bad_area_access_error; rewrite run_bind; unfold run at 1, ask; by destruct (bad_area_access_from_pkeys _ _ _);
    apply bad_area_retry.
  all: rewrite run_bind; apply mm_fault_spec; [done|]; intros r s2 Hs2 Hh2 Hc2; cbv zeta.
  all: destruct (has r VM_FAULT_RETRY) eqn:Hr; [|apply after_fault; [lia|lia|done..]].
  all: rewrite run_bind; destruct (has flags FAULT_FLAG_ALLOW_RETRY) eqn:Hallow;
    [|rewrite run_ret; cbn iota; apply (not_again _ _ _ _ _ _ _ _ r); [done..|by left]].
  { by destruct (Hn eq_refl). }
  rewrite run_bind; unfold run at 1, ask; rewrite run_ret; cbn iota beta.
  destruct (negb (fatal_signal_pending (world s2))); [|apply (not_again _ _ _ _ _ _ _ _ r); [done..|by left]].
  rewrite run_bind. apply down_read_spec. intros s3 Hs3 Hh3 Hc3.
  eapply run_mono; [apply IH; [lia|]|..].
  { intros Hb. change (has (retry_flags flags) FAULT_FLAG_ALLOW_RETRY = true) in Hb. by rewrite retry_flags_no_retry in Hb. }
  - intros [] s4. apply (left_twice _ _ _ _ _ _ r s3); [done|done|lia|congruence|congruence].
  - intros h s4 [Hl Hp]. split; [|done]. revert Hl. apply (left_twice _ _ _ _ _ _ r s3); [done|done|lia|congruence|congruence].
Qed.
End retry.

(** ** The whole handler *)

Section whole.
Context {W : Type} `{!Kern W}.
Implicit Types s : pf_state W.

(** The semaphore is as before, the memory manager was called as [calls] says,
    and the counts follow when the handler returns. *)
Definition handled (k : Z * list event * (Z * Z)) (address : Z) (ret : bool) s' : Prop :=
  ∃ flags, left_by k.1.1 k.1.2 k.2 address flags false ret s'.

Definition handles_well {A} (k : Z * list event * (Z * Z)) (address : Z) (m : PF W A) : Prop :=
  ∀ s, kept s = k → run (λ _, handled k address true) (λ h s', handled k address false s' ∧ proper h) m s.

Lemma handled_kept k address ret s : kept s = k → handled k address ret s.
Proof.
  intros <-. exists 0. split; [done|]. exists (@nil event). split; [by rewrite app_nil_r|].
  split; [constructor|by destruct ret].
Qed.

Lemma well_keeps {A} k address (m : PF W A) : keeps kept m → handles_well k address m.
Proof.
  intros Hm s Hs. eapply run_mono; [apply Hm|..]; cbn beta.
  - intros _ s' Hs'. apply handled_kept. congruence.
  - intros h s' [Hs' ?]. split; [|done]. apply handled_kept. congruence.
Qed.

Lemma well_bind {A B} k address (m : PF W A) (f : A → PF W B) :
  keeps kept m → (∀ a, handles_well k address (f a)) → handles_well k address (m ≫= f).
Proof.
  intros Hm Hf s Hs. rewrite run_bind. eapply run_mono; [apply Hm|..]; cbn beta.
  - intros a s' Hs'. apply Hf. congruence.
  - intros h s' [Hs' ?]. split; [|done]. apply handled_kept. congruence.
Qed.

Lemma well_exit {A} k address (m : PF W A) g :
  handles_well k address m → handles_well k address (m;; kcall_ g).
Proof. intros Hm s Hs. rewrite run_bind. eapply run_mono; [by apply Hm|done..]. Qed.

Lemma well_retry e address flags s :
  0 ≤ mmap_sem s → ∀ n, n ≠ 0%nat → ∀ s1, mmap_sem s1 = mmap_sem s + 1 → handles s1 = handles s → counts s1 = counts s →
  run (λ _, handled (kept s) address true) (λ h s', handled (kept s) address false s' ∧ proper h)
    (fault_retry n e address flags false) s1.
Proof.
  intros Hs n Hn s1 Hs1 Hh1 Hc1.
  eapply run_mono; [apply (fault_retry_spec n e address flags false s1); [lia|done]|..]; cbn beta.
  - intros [] s' Hl. exists flags. unfold kept. cbn. by rewrite Hs1, Hh1, Hc1, Z.add_simpl_r in Hl.
  - intros h s' [Hl ?]. split; [|done]. exists flags. unfold kept. cbn. by rewrite Hs1, Hh1, Hc1, Z.add_simpl_r in Hl.
Qed.

(** A step of the code, on the way to the part that takes the semaphore. *)
Ltac well_step :=
  match goal with
  | |- handles_well _ _ (_ ≫= _) => apply well_bind; [solve [keeps_tac]|intros ?]
  | |- handles_well _ _ (if ?b then _ else _) => destruct b
  | |- handles_well _ _ _ => cbv zeta; apply well_keeps; solve [eauto with keeps]
  end.

#[local] Hint Resolve keeps_bad_area_nosemaphore keeps_pgtable_bad keeps_kmmio_fault keeps_do_kern_addr_fault
  keeps_trace : keeps.

Lemma well_locked k e address flags :
  0 ≤ k.1.1 →
  handles_well k address
    (locked ← trylock;
     if (locked : bool) then fault_retry 1 e address flags false
     else
       r ← getr regs;
       known ← ask (λ w, search_exception_tables w (ip r));
       if negb (user_mode r) && negb known then bad_area_nosemaphore e address
       else down_read;; fault_retry 1 e address flags false).
Proof.
  intros Hk s <-. rewrite run_bind. unfold run at 1, trylock, mbind at 1, PF_bind at 1, kcall.
  destruct (down_read_trylock (world s)) as [[] w]; unfold upd, mbind at 1, PF_bind at 1; cbn [mret PF_ret].
  - by apply well_retry.
  - change (handled (kept s)) with (handled (kept (set_world w s))).
    apply (well_bind (kept (set_world w s))); [solve [keeps_tac]|intros r|done].
    apply well_bind; [solve [keeps_tac]|intros known]. destruct (negb _ && negb _).
    + apply well_keeps, keeps_bad_area_nosemaphore.
    + intros s1 Hs1. rewrite run_bind. apply down_read_spec. intros s2 Hs2 Hh2 Hc2. rewrite <- Hs1.
      injection Hs1 as Hsem _ _. apply well_retry; try done. cbn in Hk. lia.
Qed.

Lemma well_user k e address : 0 ≤ k.1.1 → handles_well k address (do_user_addr_fault e address).
Proof. intros Hk. unfold do_user_addr_fault. repeat well_step; by apply well_locked. Qed.

Lemma well_page_fault k e address : 0 ≤ k.1.1 → handles_well k address (do_page_fault e address).
Proof.
  intros Hk. unfold do_page_fault, __do_page_fault. well_step. well_step. apply well_exit.
  repeat well_step; by apply well_user.
Qed.
End whole.
