(* ===== verification/FaultSpecs.v ===== *)
(** * The page-fault handler: instructions, signals and page tables *)
From S2P Require Import FaultDefs FaultInv Prelude.

(** ** Prefetch instructions *)

Section prefetch.
Context {W : Type} `{!Kern W}.

(** REX prefixes are prefixes in the kernel and in 64-bit programs. *)
Definition long_mode (r : pt_regs) : bool := negb (user_mode r) || user_64bit_mode r.

Definition prefix_byte (long : bool) (b : Z) : bool :=
  existsb (Z.eqb b) [0x26; 0x2E; 0x36; 0x3E; 0x64; 0x65; 0x66; 0x67; 0xF0; 0xF2; 0xF3] ||
  long && ((0x40 <=? b) && (b <=? 0x4F)).

(** Prefixes, then 0F 0D or 0F 18. *)
Definition prefetch_at (n : nat) (r : pt_regs) (w : W) (p : Z) : Prop :=
  ∃ k, (k < n)%nat ∧
    (∀ i, (i < k)%nat → ∃ b, probe_kernel_address w (p + Z.of_nat i) = Some b ∧ prefix_byte (long_mode r) b = true) ∧
    probe_kernel_address w (p + Z.of_nat k) = Some 0x0F ∧
    ∃ c, probe_kernel_address w (p + Z.of_nat k + 1) = Some c ∧ (c = 0x0D ∨ c = 0x18).

Lemma check_byte r w instr b :
  0 ≤ b < 256 →
  check_prefetch_opcode r w instr b false =
    (prefix_byte (long_mode r) b,
     (b =? 0x0F) && match probe_kernel_address w instr with Some c => (c =? 0x0D) || (c =? 0x18) | None => false end).
Proof.
  intros Hb. unfold check_prefetch_opcode, long_mode. destruct (probe_kernel_address w instr) as [c|];
    destruct (negb (user_mode r) || user_64bit_mode r); rewrite <- (Z2Nat.id b) by lia;
    assert (Z.to_nat b < 256)%nat as Hn by lia; revert Hn; generalize (Z.to_nat b); clear; intros n Hn;
    do 256 (destruct n as [|n]; [reflexivity|]); lia.
Qed.

Lemma prefix_not_0F long : prefix_byte long 0x0F = false.
Proof. by destruct long. Qed.

Lemma prefetch_loop_spec n r w p : prefetch_loop n r w p false = true ↔ prefetch_at n r w p.
Proof.
  revert p. induction n as [|n IH]; intros p; cbn [prefetch_loop].
  { split; [done|]. intros (k & Hk & _). lia. }
  destruct (probe_kernel_address w p) as [b|] eqn:Hp.
  2:{ split; [done|]. intros (k & Hk & Hpre & H0F & _). destruct k as [|k].
    - by rewrite Z.add_0_r, Hp in H0F.
    - destruct (Hpre 0%nat) as (b & Hb & _); [lia|]. by rewrite Z.add_0_r, Hp in Hb. }
  pose proof (probe_kernel_address_byte _ _ _ Hp) as Hb. rewrite check_byte by done.
  destruct (prefix_byte (long_mode r) b) eqn:Hpre.
  - assert (b =? 0x0F = false) as ->.
    { apply Z.eqb_neq. intros ->. by rewrite prefix_not_0F in Hpre. }
    cbn [andb]. rewrite IH. split.
    + intros (k & Hk & Hall & H0F & Hc). exists (S k). split; [lia|].
      replace (p + Z.of_nat (S k)) with (p + 1 + Z.of_nat k) by lia. split; [|done].
      intros [|i] Hi; [exists b; by rewrite Z.add_0_r|].
      replace (p + Z.of_nat (S i)) with (p + 1 + Z.of_nat i) by lia. apply Hall. lia.
    + intros ([|k] & Hk & Hall & H0F & Hc).
      * rewrite Z.add_0_r, Hp in H0F. injection H0F as ->. by rewrite prefix_not_0F in Hpre.
      * exists k. split; [lia|]. replace (p + Z.of_nat (S k)) with (p + 1 + Z.of_nat k) in H0F, Hc by lia.
        split; [|done]. intros i Hi. replace (p + 1 + Z.of_nat i) with (p + Z.of_nat (S i)) by lia. apply Hall. lia.
  - split.
    + intros [Hb0%Z.eqb_eq Hc]%andb_prop. subst b. exists 0%nat. rewrite Z.add_0_r. split; [lia|].
      split; [intros i Hi; lia|]. split; [done|]. destruct (probe_kernel_address w (p + 1)) as [c|]; [|done].
      exists c. split; [done|]. apply orb_prop in Hc as [?%Z.eqb_eq|?%Z.eqb_eq]; [by left|by right].
    + intros ([|k] & Hk & Hall & H0F & c & Hc & Hcase).
      * rewrite Z.add_0_r in H0F, Hc. rewrite Hp in H0F. injection H0F as ->. rewrite Hc.
        destruct Hcase as [-> | ->]; done.
      * destruct (Hall 0%nat) as (b' & Hb' & Hpre'); [lia|]. rewrite Z.add_0_r, Hp in Hb'.
        injection Hb' as <-. by rewrite Hpre in Hpre'.
Qed.
End prefetch.

(** ** Signals to a program *)

Definition is_signal (e : event) : bool :=
  match e with ESignal _ _ _ | EPkuerr _ _ | EMceerr _ _ _ => true | _ => false end.
Definition signals {W} (s : pf_state W) : list event := filter is_signal (events s).

Section signals.
Context {W : Type} `{!Kern W}.
Implicit Types s : pf_state W.

(** What shows through to the program and to the lock. *)
Definition shown s : Z * list event * task := (mmap_sem s, signals s, tsk s).

Lemma shown_emit e : is_signal e = false → keeps shown (emit (W:=W) e).
Proof.
  intros He s. unfold run, emit, shown, signals. cbn. rewrite list.filter_app. unfold filter at 2. cbn.
  rewrite He. cbn. by rewrite app_nil_r.
Qed.
Lemma shown_kcall {A} (g : W → A * W) : keeps shown (kcall g).
Proof. intros s. unfold run, kcall. by destruct (g (world s)). Qed.
#[local] Hint Resolve shown_kcall : keeps.
#[local] Hint Extern 1 (keeps shown (emit _)) => (apply shown_emit; reflexivity) : keeps.

Lemma shown_signal_msg e address : keeps shown (show_signal_msg (W:=W) e address).
Proof. unfold show_signal_msg. keeps_tac. Qed.

(** The error code a program is shown. *)
Definition shown_code (e address : Z) : Z :=
  Z.lor (if TASK_SIZE_MAX <=? address then Z.lor e X86_PF_PROT else e) X86_PF_USER.

Definition segv_events (address pkey code : Z) : list event :=
  (if code =? SEGV_PKUERR then [EPkuerr address pkey] else []) ++ [ESignal SIGSEGV code address].

Definition segv_task (t : task) (e address : Z) : task :=
  Task X86_TRAP_PF (shown_code e address) address (maj_flt t) (min_flt t).

Lemma run_show (b : bool) e address (Q : () → pf_state W → Prop) s :
  (∀ s', shown s' = shown s → Q () s') →
  (∀ s0, ∃ s1, (if b then show_signal_msg e address else mret ()) s0 = Ret () s1) →
  run Q (λ _ _, False) (if b then show_signal_msg e address else mret ()) s.
Proof.
  intros HQ Hret. destruct (Hret s) as [s1 Hs1]. unfold run. rewrite Hs1. apply HQ.
  assert (keeps shown (if b then show_signal_msg (W:=W) e address else mret ())) as Hk
    by (destruct b; [apply shown_signal_msg|by intros ?]).
  specialize (Hk s). unfold run in Hk. by rewrite Hs1 in Hk.
Qed.

Lemma show_returns (b : bool) e address s0 :
  ∃ s1, (if b then show_signal_msg (W:=W) e address else mret ()) s0 = Ret () s1.
Proof.
  destruct b; [|by eexists]. unfold show_signal_msg, mbind, PF_bind, ask, kcall, getr, emit, mret, PF_ret.
  destruct (unhandled_signal (world s0) SIGSEGV); [|by eexists]. cbn.
  destruct (printk_ratelimit (world s0)) as [[] w]; by eexists.
Qed.

Lemma segv_spec e address pkey code s :
  user_mode (regs s) = true → has e X86_PF_USER = true →
  is_prefetch (regs s) (world s) e = false → is_errata100 (regs s) address = false →
  run (λ _ s', mmap_sem s' = mmap_sem s ∧ signals s' = signals s ++ segv_events address pkey code ∧
               tsk s' = segv_task (tsk s) e address) (λ _ _, False)
    (__bad_area_nosemaphore e address pkey code) s.
Proof.
  intros Hu He Hpre Herr. unfold __bad_area_nosemaphore. rewrite run_bind. unfold run at 1, getr.
  rewrite Hu, He. cbn [andb]. rewrite run_bind. unfold run at 1, emit at 1. rewrite run_bind. unfold run at 1, ask at 1.
  set (s1 := PfState _ _ _ _ _ _). assert (shown s1 = shown s) as Hs1.
  { unfold shown, signals. cbn. rewrite list.filter_app. cbn. by rewrite app_nil_r. }
  assert (world s1 = world s) as -> by done. clearbody s1. rewrite Hpre, Herr.
  rewrite run_bind. unfold run at 1, ask. rewrite run_bind. apply run_show; [|apply show_returns].
  intros s2 Hs2. rewrite Hs1 in Hs2. injection Hs2 as Hsem2 Hsig2 Ht2. rewrite run_bind. unfold run at 1, set_signal_archinfo, upd.
  rewrite run_bind. unfold segv_events. destruct (code =? SEGV_PKUERR); unfold run, emit; cbn.
  - split; [done|]. split.
    + unfold signals in *. cbn. rewrite !list.filter_app, Hsig2, <- app_assoc. done.
    + rewrite Ht2. unfold segv_task, shown_code. f_equal. f_equal. destruct (TASK_SIZE_MAX <=? address); [|done].
      by rewrite <- Z.lor_assoc, Z.lor_diag.
  - split; [done|]. split.
    + unfold signals in *. cbn. rewrite !list.filter_app, Hsig2. done.
    + rewrite Ht2. unfold segv_task, shown_code. f_equal. f_equal. destruct (TASK_SIZE_MAX <=? address); [|done].
      by rewrite <- Z.lor_assoc, Z.lor_diag.
Qed.
End signals.

(** ** The error code and the protection bit *)

Section prot.
Context {W : Type} `{!Kern W}.

Lemma has_other e b : Z.land X86_PF_PROT b = 0 → has (Z.lor e X86_PF_PROT) b = has e b.
Proof. intros Hb. unfold has. by rewrite Z.land_lor_distr_l, Hb, Z.lor_0_r. Qed.

Lemma has_more e b c : has e b = true → Z.land c b = b → has e c = true.
Proof.
  unfold has. rewrite !truthy_true. intros Hb Hc Hz. apply Hb. by rewrite <- Hc, Z.land_assoc, Hz.
Qed.

Lemma is_prefetch_prot r (w : W) e : is_prefetch r w (Z.lor e X86_PF_PROT) = is_prefetch r w e.
Proof. unfold is_prefetch. by rewrite has_other. Qed.

Lemma lor_prot e : Z.lor (Z.lor e X86_PF_PROT) X86_PF_PROT = Z.lor e X86_PF_PROT.
Proof. by rewrite <- Z.lor_assoc, Z.lor_diag. Qed.

(** A fault of a program on a kernel address is reported the same with the bit
    and without. *)
Lemma bad_area_prot e address pkey code (s : pf_state W) :
  user_mode (regs s) = true → has e X86_PF_USER = true → TASK_SIZE_MAX ≤ address →
  __bad_area_nosemaphore (Z.lor e X86_PF_PROT) address pkey code s =
  __bad_area_nosemaphore e address pkey code s.
Proof.
  intros Hu He Ha. unfold __bad_area_nosemaphore, mbind, PF_bind, getr. rewrite Hu, has_other, He by done. cbn [andb].
  unfold emit at 1 4, ask. rewrite is_prefetch_prot. cbn [world regs].
  by rewrite (proj2 (Z.leb_le _ _) Ha), lor_prot.
Qed.

Lemma spurious_user e address (s : pf_state W) :
  has e X86_PF_USER = true → spurious_kernel_fault e address s = Ret false s.
Proof.
  intros He. unfold spurious_kernel_fault.
  destruct (Z.eqb_spec e (Z.lor X86_PF_WRITE X86_PF_PROT)) as [->|]; [done|].
  destruct (Z.eqb_spec e (Z.lor X86_PF_INSTR X86_PF_PROT)) as [->|]; done.
Qed.

Lemma kern_addr_user e address (s : pf_state W) :
  (∀ w, kprobe_page_fault (regs s) X86_TRAP_PF w = ((false, regs s), w)) →
  has e X86_PF_USER = true →
  do_kern_addr_fault e address s =
    ((if has e X86_PF_PK then emit (EWarn "WARN_ON_ONCE") else mret ());; bad_area_nosemaphore e address) s.
Proof.
  intros Hk He. unfold do_kern_addr_fault, mbind at 1 6, PF_bind at 1 6.
  destruct ((if has e X86_PF_PK then emit (EWarn "WARN_ON_ONCE") else mret ()) s) as [[] s1|h s1] eqn:Hs1; [|done].
  assert (regs s1 = regs s) as Hr by (destruct (has e X86_PF_PK); by injection Hs1 as <-).
  rewrite (has_more e X86_PF_USER) by done. unfold mbind, PF_bind, mret, PF_ret. cbn.
  rewrite spurious_user by done. unfold kcall_regs. rewrite Hr, Hk. f_equal. rewrite <- Hr. by destruct s1.
Qed.
End prot.

(** ** Synchronising the page tables *)

Section vmalloc.
Context {W : Type} `{!Kern W}.
Implicit Types s : pf_state W.

Lemma entry_ret p v s s' : entry_at p s = Ret v s' ↔ tables s !! p = Some v ∧ s' = s.
Proof. unfold entry_at. destruct (tables s !! p); split; [intros [= -> ->]; done|intros [[= ->] ->]; done|done|by intros []]. Qed.

(** The walk only reads. *)
Lemma vmalloc_walk_reads p4d address s r s' :
  vmalloc_walk p4d address s = Ret r s' → s' = s ∧ (r = 0 ∨ r = -1).
Proof.
  unfold vmalloc_walk, mbind, PF_bind, entry_at, mret, PF_ret. destruct (tables s !! _) as [pud|]; [|done].
  destruct (pud_none pud); [intros [= <- <-]; auto|]. destruct (pud_large pud); [intros [= <- <-]; auto|].
  destruct (tables s !! _) as [pmd|]; [|done].
  destruct (pmd_none pmd); [intros [= <- <-]; auto|]. destruct (pmd_large pmd); [intros [= <- <-]; auto|].
  destruct (tables s !! _) as [pte|]; [|done]. destruct (pte_present pte); intros [= <- <-]; auto.
Qed.

(** With four levels the upper two are one. *)
Definition folded : Prop := pgtable_l5_enabled = false → ∀ p v a, p4d_offset p v a = p.

(** The top-level entry of the running process was missing, and is the kernel's now. *)
Definition copied (address : Z) s s' : Prop :=
  ∃ v v0, let p := pgd_offset (cr3_base (world s)) address in
    tables s !! p = Some v0 ∧ (if pgtable_l5_enabled then pgd_none v0 else p4d_none v0) = true ∧
    tables s !! pgd_offset init_mm_pgd address = Some v ∧
    s' = PfState (world s) (<[p := v]> (tables s)) (regs s) (tsk s) (mmap_sem s) (events s ++ [EFlush]).

Lemma bug_unless_ret b s s' x : BUG_UNLESS (W:=W) b s = Ret x s' ↔ b = true ∧ s' = s.
Proof. unfold BUG_UNLESS, BUG_ON. destruct b; cbn; split; try done; [by intros [= <- <-]|by intros [_ ->]; destruct x|by intros []]. Qed.

Lemma bind_ret {A B} (m : PF W A) (k : A → PF W B) s y s' :
  (m ≫= k) s = Ret y s' ↔ ∃ x s1, m s = Ret x s1 ∧ k x s1 = Ret y s'.
Proof.
  unfold mbind, PF_bind. destruct (m s) as [x s1|h s1]; split; [by eauto|by intros (? & ? & [= <- <-] & ?)|done|].
  by intros (? & ? & ? & _).
Qed.

(** The code after the top level, with five levels: it only compares. *)
Lemma sync_again address s k v k4 v4 :
  tables s !! pgd_offset init_mm_pgd address = Some k → pgd_none k = false →
  tables s !! pgd_offset (cr3_base (world s)) address = Some v →
  (pgtable_l5_enabled = true → pgd_none v = false ∧ pgd_page_vaddr v = pgd_page_vaddr k) →
  tables s !! p4d_offset (pgd_offset init_mm_pgd address) k address = Some k4 → p4d_none k4 = false →
  tables s !! p4d_offset (pgd_offset (cr3_base (world s)) address) v address = Some v4 →
  p4d_none v4 && negb pgtable_l5_enabled = false → p4d_pfn v4 = p4d_pfn k4 →
  vmalloc_sync address s = Ret (Some v4) s.
Proof.
  intros Hk Hkn Hv Htop Hk4 Hk4n Hv4 Hv4n Hpfn.
  unfold vmalloc_sync, mbind, PF_bind, ask, entry_at, BUG_UNLESS, BUG_ON, mret, PF_ret. rewrite Hk, Hkn.
  destruct pgtable_l5_enabled.
  - destruct Htop as [Hvn Hva]; [done|]. rewrite Hv, Hvn, Hva, Z.eqb_refl. cbn in Hv4n |- *.
    rewrite Hv, Hk, Hk4, Hk4n, Hv4, Hv4n, Hpfn, Z.eqb_refl. cbn. by rewrite Hv4.
  - rewrite Hv, Hk, Hk4, Hk4n, Hv4, Hv4n, Hpfn, Z.eqb_refl. cbn. by rewrite Hv4.
Qed.

Lemma sync_five address s o s' :
  pgtable_l5_enabled = true → vmalloc_sync address s = Ret o s' →
  (s' = s ∨ copied address s s') ∧ (∀ v, o = Some v → vmalloc_sync address s' = Ret (Some v) s').
Proof.
  intros Hl5. unfold vmalloc_sync at 1. rewrite Hl5, bind_ret. intros (base & s0 & [= <- <-] & Hrun).
  apply bind_ret in Hrun as (k & ? & [Hk ->]%entry_ret & Hrun).
  destruct (pgd_none k) eqn:Hkn; [injection Hrun as <- <-; split; [by left|done]|].
  apply bind_ret in Hrun as ([] & s1 & Htop & Hrun).
  apply bind_ret in Hrun as (v & ? & [Hv ->]%entry_ret & Hrun).
  apply bind_ret in Hrun as (k' & ? & [Hk' ->]%entry_ret & Hrun).
  apply bind_ret in Hrun as (k4 & ? & [Hk4 ->]%entry_ret & Hrun).
  set (pgd := pgd_offset (cr3_base (world s)) address) in *. set (pgd_k := pgd_offset init_mm_pgd address) in *.
  assert ((s1 = s ∨ copied address s s1) ∧ world s1 = world s ∧ tables s1 !! pgd_k = Some k ∧
    pgd_none v = false ∧ pgd_page_vaddr v = pgd_page_vaddr k) as (Hs1 & Hw1 & Hk1 & Hvn & Hva).
  { apply bind_ret in Htop as (v0 & ? & [Hv0 ->]%entry_ret & Htop). destruct (pgd_none v0) eqn:Hn0.
    - unfold set_entry, emit, mbind, PF_bind in Htop. injection Htop as <-.
      assert (pgd ≠ pgd_k) as Hne by (intros Heq; rewrite Heq, Hk in Hv0; injection Hv0 as ->; by rewrite Hkn in Hn0).
      cbn in Hv. rewrite lookup_insert_eq in Hv. injection Hv as <-.
      split; [right; exists k, v0; by rewrite Hl5|]. split; [done|]. split; [by cbn; rewrite lookup_insert_ne|done].
    - apply bug_unless_ret in Htop as [Heq%Z.eqb_eq ->]. rewrite Hv0 in Hv. injection Hv as <-.
      split; [by left|done]. }
  rewrite Hk1 in Hk'. injection Hk' as <-. destruct (p4d_none k4) eqn:Hk4n.
  { injection Hrun as <- <-. by split. }
  apply bind_ret in Hrun as (v4 & ? & [Hv4 ->]%entry_ret & Hrun). rewrite andb_false_r in Hrun.
  apply bind_ret in Hrun as ([] & ? & [Hpfn%Z.eqb_eq ->]%bug_unless_ret & Hrun).
  apply bind_ret in Hrun as (v4' & ? & [Hv4' ->]%entry_ret & Hrun). injection Hrun as <- <-.
  rewrite Hv4 in Hv4'. injection Hv4' as <-. split; [done|]. intros ? [= <-].
  apply (sync_again address s1 k v k4 v4); rewrite ?Hw1, ?Hl5, ?andb_false_r; done.
Qed.

Lemma sync_four address s o s' :
  folded → pgtable_l5_enabled = false → vmalloc_sync address s = Ret o s' →
  (s' = s ∨ copied address s s') ∧ (∀ v, o = Some v → vmalloc_sync address s' = Ret (Some v) s').
Proof.
  intros Hfold Hl5. unfold vmalloc_sync at 1. rewrite Hl5, bind_ret. intros (base & s0 & [= <- <-] & Hrun).
  apply bind_ret in Hrun as (k & ? & [Hk ->]%entry_ret & Hrun).
  destruct (pgd_none k) eqn:Hkn; [injection Hrun as <- <-; split; [by left|done]|].
  apply bind_ret in Hrun as ([] & ? & [= <-] & Hrun).
  apply bind_ret in Hrun as (v & ? & [Hv ->]%entry_ret & Hrun).
  apply bind_ret in Hrun as (k' & ? & [Hk' ->]%entry_ret & Hrun).
  rewrite Hk in Hk'. injection Hk' as <-. rewrite !(Hfold Hl5) in Hrun.
  apply bind_ret in Hrun as (k4 & ? & [Hk4 ->]%entry_ret & Hrun). rewrite Hk in Hk4. injection Hk4 as <-.
  destruct (p4d_none k) eqn:Hk4n; [injection Hrun as <- <-; split; [by left|done]|].
  apply bind_ret in Hrun as (v4 & ? & [Hv4 ->]%entry_ret & Hrun). rewrite Hv in Hv4. injection Hv4 as <-.
  rewrite andb_true_r in Hrun. apply bind_ret in Hrun as ([] & s2 & Hset & Hrun).
  apply bind_ret in Hrun as (v4' & ? & [Hv4' ->]%entry_ret & Hrun). injection Hrun as <- <-.
  destruct (p4d_none v) eqn:Hvn.
  - unfold set_entry, emit, mbind, PF_bind in Hset. injection Hset as <-. cbn in Hv4'.
    rewrite lookup_insert_eq in Hv4'. injection Hv4' as <-.
    split; [right; exists k, v; by rewrite Hl5|]. intros ? [= <-].
    assert (pgd_offset (cr3_base (world s)) address ≠ pgd_offset init_mm_pgd address) as Hne
      by (intros Heq; rewrite Heq, Hk in Hv; injection Hv as ->; by rewrite Hk4n in Hvn).
    apply (sync_again address _ k k k k); cbn; rewrite ?(Hfold Hl5), ?Hl5, ?Hk4n, ?lookup_insert_eq, ?lookup_insert_ne by done; done.
  - apply bug_unless_ret in Hset as [Hpfn%Z.eqb_eq ->]. rewrite Hv in Hv4'. injection Hv4' as <-.
    split; [by left|]. intros ? [= <-].
    apply (sync_again address s k v k v); rewrite ?(Hfold Hl5), ?Hl5, ?Hvn; done.
Qed.

Lemma vmalloc_fault_spec address s r s' :
  folded → vmalloc_fault address s = Ret r s' →
  (r = 0 ∨ r = -1) ∧ (s' = s ∨ copied address s s') ∧ (r = 0 → vmalloc_fault address s' = Ret 0 s').
Proof.
  intros Hfold. unfold vmalloc_fault at 1. destruct ((VMALLOC_START <=? address) && (address <? VMALLOC_END)) eqn:Hin;
    cbn [negb]; [|intros [= <- <-]; split; [by right|]; split; [by left|done]].
  rewrite bind_ret. intros (o & s1 & Hsync & Hwalk).
  assert ((s1 = s ∨ copied address s s1) ∧ (∀ v, o = Some v → vmalloc_sync address s1 = Ret (Some v) s1)) as [Hs1 Hagain].
  { destruct pgtable_l5_enabled eqn:Hl5; [by apply sync_five|by apply sync_four]. }
  destruct o as [p4d|].
  - destruct (vmalloc_walk_reads _ _ _ _ _ Hwalk) as [-> Hr]. split; [done|]. split; [done|]. intros ->.
    unfold vmalloc_fault, mbind, PF_bind. rewrite Hin. cbn [negb]. by rewrite (Hagain p4d).
  - injection Hwalk as <- <-. split; [by right|]. by split.
Qed.
End vmalloc.
