(* ===== verification/FaultKernel.v ===== *)
(** * A concrete kernel under the page-fault handler, to evaluate it on

    Four levels of page tables in the hardware's format, one memory area,
    scripted answers of the memory manager. *)
From S2P Require Import FaultDefs Prelude.

Record machine := Machine {
  m_bytes : gmap Z Z; m_vma : option vm_area; m_results : list Z; m_contended : bool; m_ip : Z
}.

Definition m_probe (w : machine) (p : Z) : option Z :=
  match m_bytes w !! p with Some b => if (0 <=? b) && (b <? 256) then Some b else None | None => None end.

Lemma m_probe_byte w p b : m_probe w p = Some b → 0 ≤ b < 256.
Proof.
  unfold m_probe. destruct (m_bytes w !! p) as [x|]; [|done].
  destruct ((0 <=? x) && (x <? 256)) eqn:Hx; [|done]. intros [= <-]. apply andb_prop in Hx as [? ?]. lia.
Qed.

Definition index_of (shift address : Z) : Z := 8 * Z.land (Z.shiftr address shift) 511.
Definition next_table (v : Z) : Z := Z.land v 0xffffffffff000.

#[export] Instance machine_kern : Kern machine := {|
  user_mode r := has (cs r) 3;
  user_64bit_mode r := cs r =? 0x33;
  convert_ip_to_linear _ r := ip r;
  boot_cpu_vendor_family _ := (X86_VENDOR_AMD, 0xf);
  boot_cpu_has_ospke _ := true;
  boot_cpu_has_smap _ := true;
  read_cr4 _ := 0;
  store_idt _ := DescPtr 4095 0;
  native_store_gdt _ := DescPtr 127 0;
  store_ldt _ := 0;
  store_tr _ := 0x40;
  TASK_SIZE_MAX := 2 ^ 47 - 4096;
  VMALLOC_START := 0xffffc90000000000;
  VMALLOC_END := 0xffffe8ffffffffff;
  MODULES_VADDR := 0xffffffffa0000000;
  MODULES_END := 0xffffffffff000000;
  stext := 0xffffffff81000000;
  etext := 0xffffffff82000000;
  task_stack _ := 0xffffc90000100000;
  probe_kernel_address := m_probe;
  probe_kernel_address_byte := m_probe_byte;
  probe_ldttss _ _ := None;
  cr3_base _ := 0x10000;
  init_mm_pgd := 0x20000;
  pgd_offset base a := base + index_of 39 a;
  p4d_offset p _ _ := p;
  pud_offset v a := next_table v + index_of 30 a;
  pmd_offset v a := next_table v + index_of 21 a;
  pte_offset_kernel v a := next_table v + index_of 12 a;
  pgtable_l5_enabled := false;
  pgd_none _ := false; pgd_present _ := true; pgd_flags v := v; pgd_page_vaddr v := next_table v;
  p4d_none v := v =? 0; p4d_present v := has v 1; p4d_large _ := false; p4d_pfn v := Z.shiftr v 12;
  pud_none v := v =? 0; pud_present v := has v 1; pud_large v := has v 0x80;
  pmd_none v := v =? 0; pmd_present v := has v 1; pmd_large v := has v 0x80;
  pte_present v := has v 1; pte_write v := has v 2; pte_exec v := negb (Z.testbit v 63);
  lookup_address_in_pgd _ _ _ := None;
  current_mm _ := 1;
  current_pid _ := 42;
  current_uid _ := 1000;
  in_interrupt _ := false;
  faulthandler_disabled _ := false;
  sig_on_uaccess_err _ := false;
  fatal_signal_pending _ := false;
  unhandled_signal _ _ := true;
  show_unhandled_signals _ := true;
  task_stack_end_corrupted _ := false;
  find_vma w _ := m_vma w;
  expand_stack _ _ w := (0, w);
  arch_vma_access_permitted _ v _ _ _ := vm_pkey v =? 0;
  is_kmmio_active _ := false;
  kmmio_handler r _ w := (0, r, w);
  kprobe_page_fault r _ w := (false, r, w);
  fixup_exception r _ _ _ w := (false, r, w);
  search_exception_tables _ _ := false;
  emulate_vsyscall _ r _ w := (false, r, w);
  down_read_trylock w := (negb (m_contended w), w);
  down_read_wait w := w;
  handle_mm_fault _ _ _ w :=
    (default 0 (head (m_results w)), Machine (m_bytes w) (m_vma w) (tail (m_results w)) (m_contended w) (m_ip w));
  hstate_index_to_shift i := 21 + i;
  VM_FAULT_GET_HINDEX r := Z.shiftr r 16;
  oops_may_print _ := true;
  printk_ratelimit w := (true, w);
  die _ _ _ w := (false, w);
  trace_pagefault_enabled _ := true;
  exception_enter w := (0, w);
  exception_exit _ w := w
|}.

(** A program at [ip], and memory for the entries of page tables. *)
Definition program (w : machine) (tables : gmap Z Z) : pf_state machine :=
  PfState w tables (Regs (m_ip w) 0x7ffe0000 0x33 0x202) (Task 0 0 0 0 0) 0 [].

Definition writable : vm_area := Vma 0x1000 (VM_READ + VM_WRITE) 0.
Definition read_only : vm_area := Vma 0x1000 VM_READ 0.
Definition keyed : vm_area := Vma 0x1000 (VM_READ + VM_WRITE) 5.
