(* ===== verification/FaultProps.v ===== *)
(** * The page-fault handler: the properties *)
From S2P Require Import FaultDefs FaultInv FaultRetry FaultSpecs FaultKernel Prelude.

Section props.
Context {W : Type} `{!Kern W}.
Implicit Types s : pf_state W.

(** C3: whatever the kernel around it answers, the handler leaves [mmap_sem] as it
    found it, on every path and also where it halts, never releasing it more
    often than it took it; it asks the memory manager at most twice, the second
    time only when told to retry and with no further retry allowed; and it
    counts one major or one minor fault exactly when the last answer was
    neither an error nor a retry, major if any answer was. *)
Theorem page_fault_discipline e address s :
  0 ≤ mmap_sem s →
  match do_page_fault e address s with
  | Ret _ s' =>
      mmap_sem s' = mmap_sem s ∧ ∃ flags hs, handles s' = handles s ++ hs ∧ calls address flags hs ∧
        counts s' = counted false hs (counts s)
  | Halt h s' =>
      mmap_sem s' = mmap_sem s ∧ h ≠ HNotLocked ∧ h ≠ HNoFuel ∧ counts s' = counts s ∧
      ∃ flags hs, handles s' = handles s ++ hs ∧ calls address flags hs
  end.
Proof.
  intros Hs. pose proof (well_page_fault (kept s) e address Hs s eq_refl) as Hw. unfold run in Hw.
  destruct (do_page_fault e address s) as [a s'|h s'].
  - destruct Hw as (flags & Hsem & hs & Hh & Hc & Hn). split; [exact Hsem|]. by exists flags, hs.
  - destruct Hw as ((flags & Hsem & hs & Hh & Hc & Hn) & Hp1 & Hp2).
    split; [exact Hsem|]. split; [done|]. split; [done|]. split; [exact Hn|]. by exists flags, hs.
Qed.

(** Whether the rights of the area, and the protection keys, allow the access. *)
Definition access_allowed (w : W) (e : Z) (vma : vm_area) : Prop :=
  has e X86_PF_PK = false ∧
  arch_vma_access_permitted w vma (has e X86_PF_WRITE) (has e X86_PF_INSTR) false = true ∧
  (if has e X86_PF_WRITE then has (vm_flags vma) VM_WRITE = true
   else has e X86_PF_PROT = false ∧ has (vm_flags vma) (VM_READ + VM_EXEC + VM_WRITE) = true).

Lemma access_error_spec w e vma : access_error w e vma = false ↔ access_allowed w e vma.
Proof.
  unfold access_error, access_allowed. destruct (has e X86_PF_PK); [naive_solver|].
  destruct (arch_vma_access_permitted w vma _ _ false); cbn [negb]; [|naive_solver].
  destruct (has e X86_PF_WRITE).
  - destruct (has (vm_flags vma) VM_WRITE); naive_solver.
  - destruct (has e X86_PF_PROT); [naive_solver|]. change (Z.lor VM_READ (Z.lor VM_EXEC VM_WRITE)) with (VM_READ + VM_EXEC + VM_WRITE).
    destruct (has (vm_flags vma) _); naive_solver.
Qed.

(** The program is sent the signal, and the lock released. *)
Definition segv_sent (e address pkey code : Z) s (m : PF W ()) : Prop :=
  ∃ s', m s = Ret () s' ∧ mmap_sem s' = mmap_sem s - 1 ∧
    signals s' = signals s ++ segv_events address pkey code ∧ tsk s' = segv_task (tsk s) e address.

Lemma bad_area_sent e address pkey code s :
  user_mode (regs s) = true → has e X86_PF_USER = true →
  is_prefetch (regs s) (world s) e = false → is_errata100 (regs s) address = false → 0 < mmap_sem s →
  segv_sent e address pkey code s (__bad_area e address pkey code).
Proof.
  intros Hu He Hp Herr Hs. unfold segv_sent, __bad_area, mbind, PF_bind, up_read. rewrite (proj2 (Z.ltb_lt _ _) Hs).
  pose proof (segv_spec e address pkey code (set_sem (mmap_sem s - 1) s) Hu He Hp Herr) as Hrun. unfold run in Hrun.
  destruct (__bad_area_nosemaphore e address pkey code (set_sem (mmap_sem s - 1) s)) as [[] s'|]; [|done].
  exists s'. split; [done|]. exact Hrun.
Qed.

(** The memory manager's answer, an error, is that the access has no meaning. *)
Definition segv_answer (r : Z) : Prop :=
  has r VM_FAULT_OOM = false ∧
  has r (Z.lor VM_FAULT_SIGBUS (Z.lor VM_FAULT_HWPOISON VM_FAULT_HWPOISON_LARGE)) = false ∧
  has r VM_FAULT_SIGSEGV = true.

(** Only other signals are sent, if any. *)
Definition no_segv s s' : Prop :=
  ∃ evs, signals s' = signals s ++ evs ∧ ∀ code a, ESignal SIGSEGV code a ∉ evs.

Lemma no_segv_one s s' ev : signals s' = signals s ++ [ev] → (∀ code a, ev ≠ ESignal SIGSEGV code a) → no_segv s s'.
Proof. intros Hs Hne. exists [ev]. split; [done|]. intros code a Hin%list_elem_of_singleton. by apply (Hne code a). Qed.

Lemma no_segv_none s s' : signals s' = signals s → no_segv s s'.
Proof. intros Hs. exists []. split; [by rewrite app_nil_r|]. by intros code a ?%elem_of_nil. Qed.

Lemma find_area_kept address s o s1 :
  find_area address s = Ret o s1 → s1 = set_world (world s1) s.
Proof.
  unfold find_area, mbind, PF_bind, ask, kcall, mret, PF_ret. destruct s as [w tb rg tk sm ev]. cbn.
  destruct (find_vma w address) as [vma|]; [|by intros; simplify_eq].
  destruct (vm_start vma <=? address); [by intros; simplify_eq|].
  destruct (has (vm_flags vma) VM_GROWSDOWN); cbn [negb]; [|by intros; simplify_eq].
  destruct (expand_stack _ _ _) as [err w']. cbn. destruct (truthy err); intros; by simplify_eq.
Qed.

(** An error of the memory manager, seen by a program. *)
Lemma error_segv e address r s :
  user_mode (regs s) = true → has e X86_PF_USER = true → is_prefetch (regs s) (world s) e = false →
  is_errata100 (regs s) address = false → segv_answer r →
  ∃ s', mm_fault_error e address r s = Ret () s' ∧ mmap_sem s' = mmap_sem s ∧
    signals s' = signals s ++ segv_events address 0 SEGV_MAPERR ∧ tsk s' = segv_task (tsk s) e address.
Proof.
  intros Hu He Hp Herr (Ho & Hb & Hs). unfold mm_fault_error, mbind, PF_bind, ask. rewrite He, andb_false_r, Ho, Hb, Hs.
  pose proof (segv_spec e address 0 SEGV_MAPERR s Hu He Hp Herr) as Hrun. unfold run in Hrun.
  unfold bad_area_nosemaphore. destruct (__bad_area_nosemaphore e address 0 SEGV_MAPERR s) as [[] s'|]; [|done].
  by exists s'.
Qed.

Lemma sigbus_other e address r s s' :
  has e X86_PF_USER = true → do_sigbus e address r s = Ret () s' → no_segv s s'.
Proof.
  intros He. unfold do_sigbus. rewrite He. cbn [negb]. unfold mbind, PF_bind, getr, ask, set_signal_archinfo, upd, emit, mret, PF_ret.
  destruct (is_prefetch _ _ e); [intros [= <-]; by apply no_segv_none|].
  destruct (has r _); intros [= <-]; (eapply no_segv_one; [unfold signals; cbn; rewrite !list.filter_app; cbn; by rewrite ?app_nil_r|done]).
Qed.

Lemma error_other e address r s s' :
  has e X86_PF_USER = true → ¬ segv_answer r → mm_fault_error e address r s = Ret () s' → no_segv s s'.
Proof.
  intros He Hno. unfold mm_fault_error, mbind, PF_bind, ask. rewrite He, andb_false_r. cbn [negb].
  destruct (has r VM_FAULT_OOM) eqn:Ho.
  { intros [= <-]. apply no_segv_none. unfold signals. cbn. rewrite list.filter_app. cbn. by rewrite app_nil_r. }
  destruct (has r (Z.lor _ _)) eqn:Hb; [by apply sigbus_other|].
  destruct (has r VM_FAULT_SIGSEGV) eqn:Hs; [by destruct Hno|done].
Qed.

Lemma account_other major s s' : account_fault major s = Ret () s' → no_segv s s'.
Proof.
  unfold account_fault, upd, emit, mbind, PF_bind. destruct major; intros [= <-]; apply no_segv_none;
    unfold signals; cbn; rewrite list.filter_app; cbn; by rewrite app_nil_r.
Qed.

(** The round of a fault that the memory manager answers without asking for another. *)
Lemma round_answered n major e address flags s vma s1 r w :
  find_area address s = Ret (Some vma) s1 → access_error (world s1) e vma = false →
  handle_mm_fault vma address flags (world s1) = (r, w) → has r VM_FAULT_RETRY = false → 0 < mmap_sem s →
  ∃ s2, world s2 = w ∧ regs s2 = regs s ∧ mmap_sem s2 = mmap_sem s - 1 ∧ signals s2 = signals s ∧ tsk s2 = tsk s ∧
    fault_retry n e address flags major s =
      (if has r VM_FAULT_ERROR then mm_fault_error e address r else account_fault (major || has r VM_FAULT_MAJOR)) s2.
Proof.
  intros Hf Ha Hh Hr Hs. pose proof (find_area_kept _ _ _ _ Hf) as Hs1.
  exists (PfState w (tables s) (regs s) (tsk s) (mmap_sem s - 1) (events s ++ [EHandle address flags r])).
  do 3 (split; [done|]). split; [unfold signals; cbn; rewrite list.filter_app; cbn; by rewrite app_nil_r|]. split; [done|].
  assert (mm_fault vma address flags s1 =
    Ret r (PfState w (tables s) (regs s) (tsk s) (mmap_sem s) (events s ++ [EHandle address flags r]))) as Hm.
  { unfold mm_fault, kcall, mbind, PF_bind. rewrite Hh, Hr, Hs1. done. }
  destruct n; cbn [fault_retry]; unfold mbind at 1, PF_bind at 1; rewrite Hf; unfold mbind at 1, PF_bind at 1, ask at 1;
    rewrite Ha; unfold mbind at 1, PF_bind at 1; rewrite Hm; cbv zeta; rewrite Hr;
    unfold mbind at 1, PF_bind at 1, up_read; cbn -[has]; by rewrite (proj2 (Z.ltb_lt _ _) Hs).
Qed.

(** C18: in each round of a program's fault, first or second, once its area has been
    looked for, the stack grown if need be: the program is sent SIGSEGV when
    there is no area to use, and when the rights of the area or the protection
    keys do not allow the access, with the code that says why and with the
    address and the error code in its task; for a protection key it is sent
    two signals.  When the access is allowed and the memory manager does not
    ask for another round, SIGSEGV is sent exactly when its answer says so
    (and nothing worse: no want of memory, no bus error). *)
Theorem user_segv n major e address flags s o s1 :
  user_mode (regs s) = true → has e X86_PF_USER = true → is_errata100 (regs s) address = false → 0 < mmap_sem s →
  find_area address s = Ret o s1 → is_prefetch (regs s) (world s1) e = false →
  let m := fault_retry n e address flags major in
  match o with
  | None => segv_sent e address 0 SEGV_MAPERR s m
  | Some vma =>
      (¬ access_allowed (world s1) e vma →
       if bad_area_access_from_pkeys (world s1) e vma then segv_sent e address (vm_pkey vma) SEGV_PKUERR s m
       else segv_sent e address 0 SEGV_ACCERR s m) ∧
      (access_allowed (world s1) e vma → ∀ r w,
       handle_mm_fault vma address flags (world s1) = (r, w) → has r VM_FAULT_RETRY = false →
       (segv_answer r → is_prefetch (regs s) w e = false → segv_sent e address 0 SEGV_MAPERR s m) ∧
       (¬ segv_answer r → ∀ s', m s = Ret () s' → no_segv s s'))
  end.
Proof.
  intros Hu He Herr Hs Hf Hp m. pose proof (find_area_kept _ _ _ _ Hf) as Hs1.
  assert (∀ pkey code, segv_sent e address pkey code s (λ _, __bad_area e address pkey code s1)) as Hbad.
  { intros pkey code. rewrite Hs1. apply (bad_area_sent e address pkey code (set_world (world s1) s)); done. }
  destruct o as [vma|].
  2:{ unfold segv_sent, m. destruct n; cbn [fault_retry]; unfold mbind, PF_bind; rewrite Hf; apply Hbad. }
  split.
  - intros Hno. assert (access_error (world s1) e vma = true) as Hacc by (apply not_false_is_true; by rewrite access_error_spec).
    assert (m s = bad_area_access_error e address vma s1) as Heq.
    { unfold m. destruct n; cbn [fault_retry]; unfold mbind at 1, PF_bind at 1; rewrite Hf; cbn iota;
        unfold mbind at 1, PF_bind at 1, ask at 1; by rewrite Hacc. }
    unfold bad_area_access_error, mbind, PF_bind, ask in Heq. unfold segv_sent. rewrite Heq.
    destruct (bad_area_access_from_pkeys (world s1) e vma); apply Hbad.
  - intros Hok%access_error_spec r w Hh Hr.
    destruct (round_answered n major e address flags s vma s1 r w Hf Hok Hh Hr Hs) as (s2 & <- & Hr2 & Hsem & Hsig & Ht & Heq).
    fold m in Heq. unfold segv_sent, no_segv. rewrite Heq, <- Hsem, <- Hsig, <- Ht. split.
    + intros Hans Hp2. assert (has r VM_FAULT_ERROR = true) as -> by (by apply (has_more r VM_FAULT_SIGSEGV); [apply Hans|]).
      rewrite <- Hr2 in *. by apply error_segv.
    + intros Hans s'. destruct (has r VM_FAULT_ERROR); [by apply error_other|by apply account_other].
Qed.

(** C17: a program that touches a kernel address learns nothing of the kernel's page
    tables: whether the page was there (a protection fault) or not makes no
    difference to the state the handler leaves, and the error code it is shown
    always says protection fault. *)
Theorem kernel_layout_hidden e address s :
  user_mode (regs s) = true → has e X86_PF_USER = true → fault_in_kernel_space address = true →
  is_kmmio_active (world s) = false →
  (∀ w, kprobe_page_fault (regs s) X86_TRAP_PF w = ((false, regs s), w)) →
  __do_page_fault (Z.lor e X86_PF_PROT) address s = __do_page_fault e address s ∧
  has (shown_code e address) X86_PF_PROT = true.
Proof.
  intros Hu He Ha Hmm Hk. assert (TASK_SIZE_MAX ≤ address) as Hle.
  { unfold fault_in_kernel_space in Ha. destruct (is_vsyscall_vaddr address); [done|]. by apply Z.leb_le. }
  assert (has (Z.lor e X86_PF_PROT) X86_PF_USER = true) as He' by (by rewrite has_other).
  split.
  - unfold __do_page_fault, kmmio_fault. unfold mbind at 1 2 4 5, PF_bind at 1 2 4 5, ask. rewrite Hmm.
    cbn [mret PF_ret]. unfold mret, PF_ret at 1 2. rewrite truthy_0, Ha.
    rewrite (kern_addr_user _ address s Hk He'), (kern_addr_user e address s Hk He), (has_other e X86_PF_PK eq_refl).
    destruct (has e X86_PF_PK); unfold mbind, PF_bind, emit, mret, PF_ret; by apply bad_area_prot.
  - unfold shown_code. rewrite (proj2 (Z.leb_le _ _) Hle). unfold has.
    apply truthy_true. rewrite !Z.land_lor_distr_l, !Z.lor_eq_0_iff. by intros [[_ ?] _].
Qed.

(** C40: the handler takes a fault for a false report of a prefetch exactly when it
    is no instruction fetch, the program counter is not in the kernel for a
    program, and the bytes there are prefixes followed by 0F 0D or 0F 18, with
    the 0F among the first fifteen. *)
Theorem is_prefetch_decodes (r : pt_regs) (w : W) e :
  is_prefetch r w e = true ↔
  has e X86_PF_INSTR = false ∧ (user_mode r = true → convert_ip_to_linear w r < TASK_SIZE_MAX) ∧
  prefetch_at 15 r w (convert_ip_to_linear w r).
Proof.
  unfold is_prefetch. destruct (has e X86_PF_INSTR); [naive_solver|].
  destruct (user_mode r); cbn [andb].
  - destruct (Z.leb_spec TASK_SIZE_MAX (convert_ip_to_linear w r)).
    + split; [done|]. intros (_ & Hlt & _). specialize (Hlt eq_refl). lia.
    + rewrite prefetch_loop_spec. split; [|tauto]. intros Hp. split; [done|]. split; [|exact Hp]. by intros _.
  - rewrite prefetch_loop_spec. split; [|tauto]. intros Hp. split; [done|]. by split.
Qed.

(** C19: a fault in the vmalloc area copies at most one top-level entry, the kernel's
    own and only where the process had none, and changes nothing else; when it
    reports success, a second fault on the address finds nothing to do. *)
Theorem vmalloc_fault_syncs address s :
  folded →
  match vmalloc_fault address s with
  | Ret r s' =>
      (r = 0 ∨ r = -1) ∧ (s' = s ∨ copied address s s') ∧ (r = 0 → vmalloc_fault address s' = Ret 0 s')
  | Halt _ s' => mmap_sem s' = mmap_sem s ∧ handles s' = handles s
  end.
Proof.
  intros Hf. destruct (vmalloc_fault address s) as [r s'|h s'] eqn:Hrun; [by apply vmalloc_fault_spec|].
  pose proof (keeps_vmalloc_fault address s) as Hk. unfold run in Hk. rewrite Hrun in Hk. by destruct Hk as [[= -> -> _ _] _].
Qed.
End props.

(** ** Runs *)

(** A write to an area, asked to be tried again and then done from the disk. *)
Definition faulting : pf_state machine :=
  program (Machine ∅ (Some writable) [VM_FAULT_RETRY; VM_FAULT_MAJOR] true 0x400000) ∅.

Example faulting_run :
  match do_page_fault (X86_PF_USER + X86_PF_WRITE) 0x1234 faulting with
  | Ret _ s' => counts s' = (1, 0) ∧ mmap_sem s' = 0 ∧
      handles s' = [EHandle 0x1234 0x55 VM_FAULT_RETRY; EHandle 0x1234 0x71 VM_FAULT_MAJOR]
  | Halt _ _ => False
  end.
Proof. vm_compute. done. Qed.

Lemma page_fault_discipline_witness :
  match do_page_fault (X86_PF_USER + X86_PF_WRITE) 0x1234 faulting with
  | Ret _ s' =>
      mmap_sem s' = 0 ∧ ∃ flags hs, handles s' = handles faulting ++ hs ∧ calls 0x1234 flags hs ∧
        counts s' = counted false hs (0, 0)
  | Halt h s' =>
      mmap_sem s' = 0 ∧ h ≠ HNotLocked ∧ h ≠ HNoFuel ∧ counts s' = (0, 0) ∧
      ∃ flags hs, handles s' = handles faulting ++ hs ∧ calls 0x1234 flags hs
  end.
Proof. apply (page_fault_discipline (X86_PF_USER + X86_PF_WRITE) 0x1234 faulting). cbn. lia. Defined.

(** A write to a read-only area, and one that a protection key forbids. *)
Definition locked_at (vma : vm_area) : pf_state machine :=
  set_sem 1 (program (Machine ∅ (Some vma) [] false 0x400000) ∅).

Definition refused_by (r : Z) : pf_state machine :=
  set_sem 1 (program (Machine ∅ (Some writable) [r] false 0x400000) ∅).

Lemma user_segv_witness :
  segv_sent 7 0x1234 0 SEGV_ACCERR (locked_at read_only) (fault_retry 1 7 0x1234 0x55 false) ∧
  segv_sent 0x27 0x1234 5 SEGV_PKUERR (locked_at keyed) (fault_retry 1 0x27 0x1234 0x55 false) ∧
  segv_sent 6 0x1234 0 SEGV_MAPERR (refused_by VM_FAULT_SIGSEGV) (fault_retry 1 6 0x1234 0x55 false) ∧
  segv_events 0x1234 5 SEGV_PKUERR = [EPkuerr 0x1234 5; ESignal SIGSEGV SEGV_PKUERR 0x1234].
Proof.
  split; [|split; [|split; [|reflexivity]]].
  - pose proof (user_segv 1 false 7 0x1234 0x55 (locked_at read_only) _ _
      eq_refl eq_refl eq_refl eq_refl eq_refl ltac:(vm_compute; reflexivity)) as Hs.
    apply (proj1 Hs). intros (_ & _ & Hw). revert Hw. vm_compute. discriminate.
  - pose proof (user_segv 1 false 0x27 0x1234 0x55 (locked_at keyed) _ _
      eq_refl eq_refl eq_refl eq_refl eq_refl ltac:(vm_compute; reflexivity)) as Hs.
    apply (proj1 Hs). intros (Hpk & _). revert Hpk. vm_compute. discriminate.
  - pose proof (user_segv 1 false 6 0x1234 0x55 (refused_by VM_FAULT_SIGSEGV) _ _
      eq_refl eq_refl eq_refl eq_refl eq_refl ltac:(vm_compute; reflexivity)) as Hs.
    refine (proj1 (proj2 Hs _ _ _ eq_refl _) _ _); repeat split; vm_compute; reflexivity.
Defined.

Lemma kernel_layout_hidden_witness :
  __do_page_fault (Z.lor X86_PF_USER X86_PF_PROT) 0xffffffff81000000 faulting =
    __do_page_fault X86_PF_USER 0xffffffff81000000 faulting ∧
  has (shown_code X86_PF_USER 0xffffffff81000000) X86_PF_PROT = true.
Proof. apply kernel_layout_hidden; try reflexivity; intros w; reflexivity. Defined.

(** 0F 18 after a REX prefix: a prefetch; 0F 0B: not one. *)
Example prefetch_run :
  is_prefetch (regs faulting) (Machine {[ 0x400000 := 0x48; 0x400001 := 0x0F; 0x400002 := 0x18 ]} None [] false 0x400000) 4 = true ∧
  is_prefetch (regs faulting) (Machine {[ 0x400000 := 0x0F; 0x400001 := 0x0B ]} None [] false 0x400000) 4 = false.
Proof. by vm_compute. Qed.

(** The process has no entry for the area; the kernel's leads to a present page. *)
Definition unsynced : pf_state machine :=
  program (Machine ∅ None [] false 0x400000)
    {[ 0x10000 + index_of 39 0xffffc90000000000 := 0; 0x20000 + index_of 39 0xffffc90000000000 := 0x30001;
       0x30000 + index_of 30 0xffffc90000000000 := 0x40001; 0x40000 := 0x50001; 0x50000 := 0x60003 ]}.

Lemma vmalloc_fault_syncs_witness :
  match vmalloc_fault 0xffffc90000000000 unsynced with
  | Ret r s' => r = 0 ∧ s' ≠ unsynced ∧ vmalloc_fault 0xffffc90000000000 s' = Ret 0 s'
  | Halt _ _ => False
  end.
Proof.
  assert (folded (W:=machine)) as Hf by (intros _; reflexivity).
  pose proof (vmalloc_fault_syncs 0xffffc90000000000 unsynced Hf) as Hs. revert Hs.
  destruct (vmalloc_fault 0xffffc90000000000 unsynced) as [r s'|h s'] eqn:Hrun.
  - intros (_ & _ & Hagain). vm_compute in Hrun. injection Hrun as <- <-.
    split; [reflexivity|]. split; [intros Heq; apply (f_equal events) in Heq; vm_compute in Heq; discriminate|].
    apply Hagain. reflexivity.
  - exfalso. vm_compute in Hrun. discriminate.
Defined.
